(** * Coffee Diary: the account, token, coffee and statistics logic

    A shallow embedding of
      - app/models/user.server.ts   (accounts, login, reset and confirmation tokens),
      - app/models/coffee.server.ts (coffee rows, pagination),
      - app/routes/forgot-password.tsx (the request-reset action),
      - app/routes/coffees.stats.tsx (the aggregate statistics),
    over a relational store that follows prisma/schema.prisma.

    Conventions.
      - A [Date] is its time value: milliseconds since the epoch, in [Z].
        Every [new Date()] and every column default [now()] is a clock reading
        that the caller of the embedded function supplies.  The getters and
        setters of a [Date] work on local time; the time zone of the process
        is a [TimeZone].
      - [cuid()] column defaults and bcrypt salts are supplied the same way.
      - A table is the list of its rows, in row order.  The schema's PRIMARY KEY,
        UNIQUE and FOREIGN KEY constraints are checked by the write primitives,
        which throw as the ORM does.
      - An [async] function is a state transformer that either returns or throws.
      - The Note table is left out: no function here reads or writes it. *)

From stdpp Require Import base option list strings sorting.
From Stdlib Require Import Ascii NArith ZArith QArith Qround Lia.

Local Open Scope string_scope.
Local Open Scope Z_scope.

(* ===================================================================== *)
(** * The store *)
(* ===================================================================== *)

Module Prisma.

(** model User *)
Record User := mkUser {
  user_id : string;
  user_email : string;
  user_name : option string;
  user_surname : option string;
  user_avatarUrl : option string;
  user_favoriteCoffeePreparation : option string;
  user_isVerified : bool;
  user_createdAt : Z;
  user_updatedAt : Z;
}.

(** model Password *)
Record Password := mkPassword {
  pw_hash : string;
  pw_userId : string;
}.

(** model PasswordReset and model EmailConfirmation: the same four columns. *)
Record TokenRow := mkTokenRow {
  tok_token : string;
  tok_createdAt : Z;
  tok_expiresAt : Z;
  tok_userId : string;
}.

(** model Coffee *)
Record Coffee := mkCoffee {
  coffee_id : string;
  coffee_name : string;
  coffee_brand : string;
  coffee_preparation : string;
  coffee_shots : Z;
  coffee_flavor : string;
  coffee_rating : Z;
  coffee_description : string;
  coffee_createdAt : Z;
  coffee_updatedAt : Z;
  coffee_userId : string;
}.

Record DB := mkDB {
  users : list User;
  passwords : list Password;
  passwordResets : list TokenRow;
  emailConfirmations : list TokenRow;
  coffees : list Coffee;
}.

Definition empty_db : DB := mkDB [] [] [] [] [].

Inductive TokenKind := PasswordResetK | EmailConfirmationK.

#[global] Instance TokenKind_eq_dec : EqDecision TokenKind.
Proof. solve_decision. Defined.

Definition tokens (k : TokenKind) (db : DB) : list TokenRow :=
  match k with
  | PasswordResetK => passwordResets db
  | EmailConfirmationK => emailConfirmations db
  end.

Definition set_users (us : list User) (db : DB) : DB :=
  mkDB us (passwords db) (passwordResets db) (emailConfirmations db) (coffees db).
Definition set_passwords (ps : list Password) (db : DB) : DB :=
  mkDB (users db) ps (passwordResets db) (emailConfirmations db) (coffees db).
Definition set_tokens (k : TokenKind) (ts : list TokenRow) (db : DB) : DB :=
  match k with
  | PasswordResetK =>
      mkDB (users db) (passwords db) ts (emailConfirmations db) (coffees db)
  | EmailConfirmationK =>
      mkDB (users db) (passwords db) (passwordResets db) ts (coffees db)
  end.
Definition set_coffees (cs : list Coffee) (db : DB) : DB :=
  mkDB (users db) (passwords db) (passwordResets db) (emailConfirmations db) cs.

(** What a rejected ORM promise carries. *)
Inductive PrismaError :=
| UniqueConstraintFailed   (* P2002 *)
| ForeignKeyFailed         (* P2003 *)
| RecordNotFound           (* P2025 *)
| ValidationError          (* an argument the query engine refuses *)
| InconsistentResult.      (* a required relation came back empty *)

Inductive result (A : Type) :=
| Ok (a : A)
| Throw (e : PrismaError).
Arguments Ok {A} a.
Arguments Throw {A} e.

(** An awaited computation over the store. *)
Definition M (A : Type) : Type := DB → result A * DB.

Definition ret {A} (a : A) : M A := λ db, (Ok a, db).
Definition bind {A B} (c : M A) (k : A → M B) : M B :=
  λ db, match c db with
        | (Ok a, db') => k a db'
        | (Throw e, db') => (Throw e, db')
        end.
Definition gets {A} (f : DB → A) : M A := λ db, (Ok (f db), db).

Declare Scope prisma_scope.
Delimit Scope prisma_scope with prisma.
Notation "'await' x ← c ; k" := (bind c (λ x, k))
  (at level 10, x name, c at level 100, k at level 200) : prisma_scope.

(** findUnique: the row a unique column selects. *)
Definition findUnique {A} (P : A → Prop) `{∀ x, Decision (P x)}
    (tbl : list A) : option A :=
  head (filter P tbl).

Definition has_row {A} (P : A → Prop) `{∀ x, Decision (P x)}
    (tbl : list A) : bool :=
  bool_decide (filter P tbl ≠ []).

(** ** user *)

Definition user_findUnique_id (id : string) : M (option User) :=
  gets (λ db, findUnique (λ u, user_id u = id) (users db)).

Definition user_findUnique_email (email : string) : M (option User) :=
  gets (λ db, findUnique (λ u, user_email u = email) (users db)).

(** user.create with the nested password.create; [id] is the row's cuid and
    [stamp] the reading of the clock for createdAt and updatedAt. *)
Definition user_create (id : string) (stamp : Z) (email : string)
    (name surname avatarUrl favoriteCoffeePreparation : option string)
    (isVerified : bool) (hash : string) : M User :=
  λ db,
    if has_row (λ u, user_id u = id) (users db)
       || has_row (λ u, user_email u = email) (users db)
       || has_row (λ p, pw_userId p = id) (passwords db)
    then (Throw UniqueConstraintFailed, db)
    else
      let u := mkUser id email name surname avatarUrl
                 favoriteCoffeePreparation isVerified stamp stamp in
      (Ok u, set_passwords (passwords db ++ [mkPassword hash id])
               (set_users (users db ++ [u]) db)).

(** user.delete where email; every relation is onDelete: Cascade. *)
Definition user_delete_email (email : string) : M User :=
  λ db,
    match findUnique (λ u, user_email u = email) (users db) with
    | None => (Throw RecordNotFound, db)
    | Some u =>
        let uid := user_id u in
        (Ok u,
         mkDB (filter (λ u', user_id u' ≠ uid) (users db))
              (filter (λ p, pw_userId p ≠ uid) (passwords db))
              (filter (λ t, tok_userId t ≠ uid) (passwordResets db))
              (filter (λ t, tok_userId t ≠ uid) (emailConfirmations db))
              (filter (λ c, coffee_userId c ≠ uid) (coffees db)))
    end.

Definition user_set_verified (stamp : Z) (u : User) : User :=
  mkUser (user_id u) (user_email u) (user_name u) (user_surname u)
    (user_avatarUrl u) (user_favoriteCoffeePreparation u) true
    (user_createdAt u) stamp.

(** user.update where id, data isVerified: true; updatedAt is @updatedAt. *)
Definition user_update_verified (id : string) (stamp : Z) : M User :=
  λ db,
    match findUnique (λ u, user_id u = id) (users db) with
    | None => (Throw RecordNotFound, db)
    | Some u =>
        let u' := user_set_verified stamp u in
        (Ok u',
         set_users ((λ x, if decide (user_id x = id) then user_set_verified stamp x else x)
                      <$> users db) db)
    end.

(** ** password *)

Definition set_hash (uid hash : string) (p : Password) : Password :=
  if decide (pw_userId p = uid) then mkPassword hash uid else p.

(** password.update where userId, data hash. *)
Definition password_update_hash (uid : string) (hash : string) : M Password :=
  λ db,
    match findUnique (λ p, pw_userId p = uid) (passwords db) with
    | None => (Throw RecordNotFound, db)
    | Some _ =>
        (Ok (mkPassword hash uid),
         set_passwords (set_hash uid hash <$> passwords db) db)
    end.

(** ** passwordReset and emailConfirmation *)

(** deleteMany where userId; resolves to the number of rows deleted. *)
Definition token_deleteMany_userId (k : TokenKind) (uid : string) : M Z :=
  λ db,
    (Ok (Z.of_nat (length (filter (λ t, tok_userId t = uid) (tokens k db)))),
     set_tokens k (filter (λ t, tok_userId t ≠ uid) (tokens k db)) db).

(** create with data expiresAt, userId; [token] is the row's cuid and
    [stamp] the clock reading for createdAt. *)
Definition token_create (k : TokenKind) (token : string) (stamp : Z)
    (expiresAt : Z) (uid : string) : M TokenRow :=
  λ db,
    if has_row (λ t, tok_token t = token) (tokens k db)
       || has_row (λ t, tok_userId t = uid) (tokens k db)
    then (Throw UniqueConstraintFailed, db)
    else if negb (has_row (λ u, user_id u = uid) (users db))
    then (Throw ForeignKeyFailed, db)
    else
      let row := mkTokenRow token stamp expiresAt uid in
      (Ok row, set_tokens k (tokens k db ++ [row]) db).

(** findUnique where token, include user: true.  The relation is required,
    so a row whose user is missing is an inconsistent result. *)
Definition token_findUnique_include_user (k : TokenKind) (token : string)
    : M (option (TokenRow * User)) :=
  λ db,
    match findUnique (λ t, tok_token t = token) (tokens k db) with
    | None => (Ok None, db)
    | Some row =>
        match findUnique (λ u, user_id u = tok_userId row) (users db) with
        | None => (Throw InconsistentResult, db)
        | Some u => (Ok (Some (row, u)), db)
        end
    end.

(** findUnique where email, include password: true.  The relation is optional. *)
Definition user_findUnique_email_include_password (email : string)
    : M (option (User * option Password)) :=
  gets (λ db,
    match findUnique (λ u, user_email u = email) (users db) with
    | None => None
    | Some u => Some (u, findUnique (λ p, pw_userId p = user_id u) (passwords db))
    end).

(** delete where token. *)
Definition token_delete (k : TokenKind) (token : string) : M TokenRow :=
  λ db,
    match findUnique (λ t, tok_token t = token) (tokens k db) with
    | None => (Throw RecordNotFound, db)
    | Some row =>
        (Ok row, set_tokens k (filter (λ t, tok_token t ≠ token) (tokens k db)) db)
    end.

End Prisma.

(* ===================================================================== *)
(** * app/models/user.server.ts *)
(* ===================================================================== *)

(** The time zone of the process, as ECMAScript sees it:
    [LocalTZA t true] is the offset of local time from UTC, in milliseconds,
    at the time value [t]; [LocalTZA l false] is the offset under which the
    local time value [l] is read.  The two differ around a change of offset:
    a local time that occurs twice, or not at all, is read with the offset
    before the change. *)
Class TimeZone := {
  LocalTZA : Z → bool → Z;
}.

(** The methods of [Date] that user.server.ts calls, after ECMAScript's
    definitions (Date.prototype.getMinutes, setMinutes, getHours, setHours
    and the abstract operations they are made of).  A clock reading and the
    times a day away from it are far inside the range of time values, where
    TimeClip does nothing; it is left out. *)
Module JSDate.

Definition msPerSecond : Z := 1000.
Definition msPerMinute : Z := 60000.
Definition msPerHour : Z := 3600000.
Definition msPerDay : Z := 86400000.

Definition Day (t : Z) : Z := t / msPerDay.
Definition HourFromTime (t : Z) : Z := (t / msPerHour) mod 24.
Definition MinFromTime (t : Z) : Z := (t / msPerMinute) mod 60.
Definition SecFromTime (t : Z) : Z := (t / msPerSecond) mod 60.
Definition msFromTime (t : Z) : Z := t mod msPerSecond.

Definition MakeTime (hour min sec ms : Z) : Z :=
  hour * msPerHour + min * msPerMinute + sec * msPerSecond + ms.
Definition MakeDate (day time : Z) : Z := day * msPerDay + time.

Section Zone.
Context {tz : TimeZone}.

Definition LocalTime (t : Z) : Z := t + LocalTZA t true.
Definition UTC (t : Z) : Z := t - LocalTZA t false.

Definition getMinutes (d : Z) : Z := MinFromTime (LocalTime d).
Definition getHours (d : Z) : Z := HourFromTime (LocalTime d).

(** d.setMinutes(min) and d.setHours(hour): the new time value of [d]. *)
Definition setMinutes (d min : Z) : Z :=
  let t := LocalTime d in
  let date :=
    MakeDate (Day t) (MakeTime (HourFromTime t) min (SecFromTime t) (msFromTime t)) in
  UTC date.

Definition setHours (d hour : Z) : Z :=
  let t := LocalTime d in
  let date :=
    MakeDate (Day t) (MakeTime hour (MinFromTime t) (SecFromTime t) (msFromTime t)) in
  UTC date.

(** The offset of the zone is the same at [now] and for the local time
    [span] milliseconds later. *)
Definition steady (now span : Z) : Prop :=
  LocalTZA (LocalTime now + span) false = LocalTZA now true.

#[global] Instance steady_dec now span : Decision (steady now span).
Proof. unfold steady. apply _. Defined.

End Zone.
End JSDate.

(** bcryptjs.  [bcrypt_hash password salt] is [bcrypt.hash(password, 10)] with
    the salt the library draws made explicit. *)
Class Bcrypt := {
  bcrypt_hash : string → string → string;
  bcrypt_compare : string → string → bool;
}.

Module UserModel.
Import Prisma.
Export JSDate.
Local Open Scope prisma_scope.

(** What verifyLogin resolves to: null, the literal needsVerification: true,
    or the user row without its password relation. *)
Inductive LoginResult :=
| LoginNull
| LoginNeedsVerification
| LoginUser (userWithoutPassword : User).

(** What resendEmailConfirmation resolves to. *)
Inductive ResendResult :=
| ResendNull
| ResendAlreadyVerified
| ResendCreated (user : User) (emailConfirmation : TokenRow).

Section WithBcrypt.
Context `{Bcrypt} {tz : TimeZone}.

Definition getUserById (id : string) : M (option User) :=
  user_findUnique_id id.

Definition getUserByEmail (email : string) : M (option User) :=
  user_findUnique_email email.

Definition createUser (email password : string)
    (name surname avatarUrl favoriteCoffeePreparation : option string)
    (salt id : string) (stamp : Z) : M User :=
  let hashedPassword := bcrypt_hash password salt in
  user_create id stamp email name surname avatarUrl favoriteCoffeePreparation
    false hashedPassword.

Definition createUnverifiedUser (email password : string)
    (name surname avatarUrl favoriteCoffeePreparation : option string)
    (salt id : string) (stamp : Z) : M User :=
  let hashedPassword := bcrypt_hash password salt in
  user_create id stamp email name surname avatarUrl favoriteCoffeePreparation
    false hashedPassword.

Definition deleteUserByEmail (email : string) : M User :=
  user_delete_email email.

Definition verifyLogin (email password : string) : M LoginResult :=
  await userWithPassword ← user_findUnique_email_include_password email;
  match userWithPassword with
  | None => ret LoginNull
  | Some (_, None) => ret LoginNull
  | Some (user, Some pw) =>
      if negb (user_isVerified user) then ret LoginNeedsVerification
      else
        let isValid := bcrypt_compare password (pw_hash pw) in
        if negb isValid then ret LoginNull
        else ret (LoginUser user)
  end.

(** [now] is the value of [new Date()]; [token] and [stamp] fill the
    @default(cuid()) and @default(now()) columns of the new row.
    expiresAt.setMinutes(expiresAt.getMinutes() + 5) moves the minutes field
    of the local time. *)
Definition createPasswordResetToken (email : string) (now : Z)
    (token : string) (stamp : Z) : M (option (User * TokenRow)) :=
  await user ← getUserByEmail email;
  match user with
  | None => ret None
  | Some user =>
      await _ ← token_deleteMany_userId PasswordResetK (user_id user);
      let expiresAt := setMinutes now (getMinutes now + 5) in
      await passwordReset ←
        token_create PasswordResetK token stamp expiresAt (user_id user);
      ret (Some (user, passwordReset))
  end.

Definition createEmailConfirmationToken (userId : string) (now : Z)
    (token : string) (stamp : Z) : M (option (User * TokenRow)) :=
  await user ← getUserById userId;
  match user with
  | None => ret None
  | Some user =>
      await _ ← token_deleteMany_userId EmailConfirmationK (user_id user);
      let expiresAt := setHours now (getHours now + 24) in
      await emailConfirmation ←
        token_create EmailConfirmationK token stamp expiresAt (user_id user);
      ret (Some (user, emailConfirmation))
  end.

Definition verifyPasswordResetToken (token : string) (now : Z)
    : M (option (TokenRow * User)) :=
  await passwordReset ← token_findUnique_include_user PasswordResetK token;
  match passwordReset with
  | None => ret None
  | Some (row, user) =>
      if now >? tok_expiresAt row then
        await _ ← token_delete PasswordResetK token;
        ret None
      else ret (Some (row, user))
  end.

Definition verifyEmailConfirmationToken (token : string) (now : Z)
    : M (option (TokenRow * User)) :=
  await emailConfirmation ← token_findUnique_include_user EmailConfirmationK token;
  match emailConfirmation with
  | None => ret None
  | Some (row, user) =>
      if now >? tok_expiresAt row then
        await _ ← token_delete EmailConfirmationK token;
        ret None
      else ret (Some (row, user))
  end.

Definition confirmUserEmail (token : string) (now stamp : Z) : M (option User) :=
  await emailConfirmation ← verifyEmailConfirmationToken token now;
  match emailConfirmation with
  | None => ret None
  | Some (row, _) =>
      await user ← user_update_verified (tok_userId row) stamp;
      await _ ← token_delete EmailConfirmationK token;
      ret (Some user)
  end.

Definition resendEmailConfirmation (email : string) (now : Z)
    (token : string) (stamp : Z) : M ResendResult :=
  await user ← getUserByEmail email;
  match user with
  | None => ret ResendNull
  | Some user =>
      if user_isVerified user then ret ResendAlreadyVerified
      else
        await confirmationResult ←
          createEmailConfirmationToken (user_id user) now token stamp;
        match confirmationResult with
        | None => ret ResendNull
        | Some (u, t) => ret (ResendCreated u t)
        end
  end.

Definition resetPassword (token newPassword : string) (now : Z) (salt : string)
    : M (option User) :=
  await passwordReset ← verifyPasswordResetToken token now;
  match passwordReset with
  | None => ret None
  | Some (row, user) =>
      let hashedPassword := bcrypt_hash newPassword salt in
      await _ ← password_update_hash (tok_userId row) hashedPassword;
      await _ ← token_delete PasswordResetK token;
      ret (Some user)
  end.

End WithBcrypt.
End UserModel.

(* ===================================================================== *)
(** * app/models/coffee.server.ts *)
(* ===================================================================== *)

Module CoffeeModel.
Import Prisma.
Local Open Scope prisma_scope.

(** ** The coffee table *)

(** ORDER BY createdAt DESC: a sort of the selected rows; rows with equal
    createdAt come in an order the database does not promise (here the one
    the merge leaves). *)
Definition createdAt_desc (a b : Coffee) : Prop :=
  coffee_createdAt b ≤ coffee_createdAt a.

#[global] Instance createdAt_desc_dec a b : Decision (createdAt_desc a b) :=
  Z_le_dec (coffee_createdAt b) (coffee_createdAt a).

Definition orderBy_createdAt_desc (rows : list Coffee) : list Coffee :=
  merge_sort createdAt_desc rows.

Definition owned_by (userId : string) (rows : list Coffee) : list Coffee :=
  filter (λ c, coffee_userId c = userId) rows.

(** count where userId *)
Definition coffee_count (userId : string) : M Z :=
  gets (λ db, Z.of_nat (length (owned_by userId (coffees db)))).

(** OFFSET skip / LIMIT take on an ordered result.  The query engine refuses a
    negative skip; a negative take counts from the end of the result. *)
Definition skip_take (skip take : Z) (rows : list Coffee)
    : result (list Coffee) :=
  if skip <? 0 then Throw ValidationError
  else if take <? 0 then
    Ok (rev (firstn (Z.to_nat (- take)) (skipn (Z.to_nat skip) (rev rows))))
  else Ok (firstn (Z.to_nat take) (skipn (Z.to_nat skip) rows)).

(** findMany where userId, orderBy createdAt desc, skip, take *)
Definition coffee_findMany_page (userId : string) (skip take : Z)
    : M (list Coffee) :=
  λ db, (skip_take skip take (orderBy_createdAt_desc (owned_by userId (coffees db))), db).

(** findMany where userId, orderBy createdAt desc *)
Definition coffee_findMany (userId : string) : M (list Coffee) :=
  gets (λ db, orderBy_createdAt_desc (owned_by userId (coffees db))).

(** findFirst where id, userId *)
Definition coffee_findFirst (id userId : string) : M (option Coffee) :=
  gets (λ db, head (filter (λ c, coffee_id c = id ∧ coffee_userId c = userId) (coffees db))).

(** deleteMany where id, userId; resolves to the count of deleted rows. *)
Definition coffee_deleteMany (id userId : string) : M Z :=
  λ db,
    (Ok (Z.of_nat (length (filter (λ c, coffee_id c = id ∧ coffee_userId c = userId) (coffees db)))),
     set_coffees (filter (λ c, ¬ (coffee_id c = id ∧ coffee_userId c = userId)) (coffees db)) db).

(** The seven data columns an update or a create writes. *)
Record CoffeeData := mkCoffeeData {
  data_name : string;
  data_brand : string;
  data_preparation : string;
  data_shots : Z;
  data_flavor : string;
  data_rating : Z;
  data_description : string;
}.

Definition apply_data (d : CoffeeData) (stamp : Z) (c : Coffee) : Coffee :=
  mkCoffee (coffee_id c) (data_name d) (data_brand d) (data_preparation d)
    (data_shots d) (data_flavor d) (data_rating d) (data_description d)
    (coffee_createdAt c) stamp (coffee_userId c).

(** update where id, userId; throws when no row matches both. *)
Definition coffee_update (id userId : string) (d : CoffeeData) (stamp : Z)
    : M Coffee :=
  λ db,
    match head (filter (λ c, coffee_id c = id ∧ coffee_userId c = userId) (coffees db)) with
    | None => (Throw RecordNotFound, db)
    | Some c =>
        (Ok (apply_data d stamp c),
         set_coffees
           ((λ x, if decide (coffee_id x = id ∧ coffee_userId x = userId)
                  then apply_data d stamp x else x) <$> coffees db) db)
    end.

(** create with user: connect: id. *)
Definition coffee_create (id : string) (stamp : Z) (d : CoffeeData)
    (userId : string) : M Coffee :=
  λ db,
    if has_row (λ c, coffee_id c = id) (coffees db)
    then (Throw UniqueConstraintFailed, db)
    else if negb (has_row (λ u, user_id u = userId) (users db))
    then (Throw RecordNotFound, db)
    else
      let c := mkCoffee id (data_name d) (data_brand d) (data_preparation d)
                 (data_shots d) (data_flavor d) (data_rating d)
                 (data_description d) stamp stamp userId in
      (Ok c, set_coffees (coffees db ++ [c]) db).

(** ** The exported functions *)

Record Pagination := mkPagination {
  totalItems : Z;
  totalPages : Z;
  currentPage : Z;
  perPage : Z;
  hasNextPage : bool;
  hasPrevPage : bool;
}.

Record PaginatedCoffees := mkPaginatedCoffees {
  items : list Coffee;
  pagination : Pagination;
}.

(** [Math.ceil(a / b)] on integers: the quotient is taken exactly.  A double
    carries it without a change of ceiling as long as a is below 2^53.
    For b = 0 JavaScript yields Infinity or NaN, which this model does not
    carry; every statement below has b ≥ 1. *)
Definition Math_ceil_div (a b : Z) : Z :=
  Qceiling (inject_Z a / inject_Z b).

Definition getCoffee (id userId : string) : M (option Coffee) :=
  coffee_findFirst id userId.

Definition getCoffeeListItems (userId : string) : M (list Coffee) :=
  coffee_findMany userId.

(** The body runs in one transaction; nothing is written, so a rejected
    query leaves the store as it was. *)
Definition getCoffeeListItemsPaginated (userId : string)
    (page perPage : option Z) : M PaginatedCoffees :=
  let page := default 1 page in
  let perPage := default 10 perPage in
  await totalItems ← coffee_count userId;
  let totalPages := Math_ceil_div totalItems perPage in
  await items ← coffee_findMany_page userId ((page - 1) * perPage) perPage;
  ret (mkPaginatedCoffees items
         (mkPagination totalItems totalPages page perPage
            (page <? totalPages) (page >? 1))).

Definition createCoffee (d : CoffeeData) (userId : string)
    (id : string) (stamp : Z) : M Coffee :=
  coffee_create id stamp d userId.

Definition deleteCoffee (id userId : string) : M Z :=
  coffee_deleteMany id userId.

Definition updateCoffee (id : string) (d : CoffeeData) (userId : string)
    (stamp : Z) : M Coffee :=
  coffee_update id userId d stamp.

End CoffeeModel.

(* ===================================================================== *)
(** * app/services/email.server.ts and app/routes/forgot-password.tsx *)
(* ===================================================================== *)

Module ForgotPassword.
Import Prisma UserModel.
Local Open Scope prisma_scope.

(** The mail gateway as the process sees it: two environment variables and
    the outcome of the POST ([None]: fetch threw; [Some ok]: response.ok). *)
Record MailEnv := mkMailEnv {
  MAILGUN_API_KEY : option string;
  MAILGUN_DOMAIN : option string;
  mailgun_post : string → string → option bool;
}.

Definition truthy_env (v : option string) : bool :=
  match v with
  | None => false
  | Some s => negb (bool_decide (s = EmptyString))
  end.

(** Every failure inside the try block is caught and becomes [false]. *)
Definition sendPasswordResetEmail (env : MailEnv) (user : User)
    (resetToken : string) : bool :=
  if negb (truthy_env (MAILGUN_API_KEY env)) then false
  else if negb (truthy_env (MAILGUN_DOMAIN env)) then false
  else
    match mailgun_post env (user_email user) resetToken with
    | None => false
    | Some ok => ok
    end.

(** A form field: absent, a file, or text. *)
Inductive FormDataEntry :=
| FormNull
| FormFile
| FormString (s : string).

(** The JSON body and HTTP status the action answers with. *)
Record Response := mkResponse {
  http_status : Z;
  body_status : string;
  body_message : option string;
  body_errors_email : option string;
}.

Definition generic_message : string :=
  "If your email exists in our system, you will receive a password reset link.".

Definition success_response : Response :=
  mkResponse 200 "success" (Some generic_message) None.

Section Action.
(** [validateEmail] lives in app/utils.ts; it is a type guard, so it
    accepts text only, and which text it accepts is left open here. *)
Context {tz : TimeZone} (validateEmail : string → bool).

Definition action (env : MailEnv) (email : FormDataEntry) (now : Z)
    (token : string) (stamp : Z) : M Response :=
  match email with
  | FormString email =>
      if negb (validateEmail email) then
        ret (mkResponse 400 "error" None (Some "Email is invalid"))
      else
        await user ← getUserByEmail email;
        match user with
        | None => ret success_response
        | Some _ =>
            await resetData ← createPasswordResetToken email now token stamp;
            match resetData with
            | None => ret success_response
            | Some (user, passwordReset) =>
                let emailSent :=
                  sendPasswordResetEmail env user (tok_token passwordReset) in
                if negb emailSent then
                  ret (mkResponse 500 "error" None
                         (Some "Failed to send reset email. Please try again."))
                else ret success_response
            end
        end
  | _ => ret (mkResponse 400 "error" None (Some "Email is invalid"))
  end.

End Action.
End ForgotPassword.

(* ===================================================================== *)
(** * JavaScript objects used as records *)
(* ===================================================================== *)

Module JS.

(** An object literal's own enumerable string-keyed properties, in the order
    in which they were created. *)
Definition props (V : Type) : Type := list (string * V).

Fixpoint get_own {V} (k : string) (o : props V) : option V :=
  match o with
  | [] => None
  | (k', v) :: o' => if decide (k' = k) then Some v else get_own k o'
  end.

(** Writing an own data property: an existing one keeps its place, a new one
    goes last. *)
Fixpoint define_own {V} (k : string) (v : V) (o : props V) : props V :=
  match o with
  | [] => [(k, v)]
  | (k', v') :: o' =>
      if decide (k' = k) then (k, v) :: o' else (k', v') :: define_own k v o'
  end.

(** The properties every object literal inherits from Object.prototype, each
    with the text that converting its value to a primitive yields: a built-in
    function prints as its source text, and the __proto__ accessor reads
    Object.prototype itself. *)
Definition native (name : string) : string :=
  "function " ++ name ++ "() { [native code] }".

Definition Object_prototype : list (string * string) :=
  [ ("constructor", native "Object");
    ("__defineGetter__", native "__defineGetter__");
    ("__defineSetter__", native "__defineSetter__");
    ("hasOwnProperty", native "hasOwnProperty");
    ("__lookupGetter__", native "__lookupGetter__");
    ("__lookupSetter__", native "__lookupSetter__");
    ("isPrototypeOf", native "isPrototypeOf");
    ("propertyIsEnumerable", native "propertyIsEnumerable");
    ("toString", native "toString");
    ("valueOf", native "valueOf");
    ("__proto__", "[object Object]");
    ("toLocaleString", native "toLocaleString") ].

(** What reading [o[k]] finds. *)
Inductive lookup_result (V : Type) :=
| Own (v : V)
| Inherited (text : string)
| Undefined.
Arguments Own {V} v.
Arguments Inherited {V} text.
Arguments Undefined {V}.

Definition lookup {V} (k : string) (o : props V) : lookup_result V :=
  match get_own k o with
  | Some v => Own v
  | None =>
      match get_own k Object_prototype with
      | Some text => Inherited text
      | None => Undefined
      end
  end.

(** A key is an array index when it is the canonical decimal numeral of an
    integer below 2^32 - 1. *)
Definition is_digit (c : ascii) : bool :=
  let n := N_of_ascii c in ((48 <=? n) && (n <=? 57))%N.

Definition digit_of (c : ascii) : N := (N_of_ascii c - 48)%N.

Fixpoint digits_value (acc : N) (s : string) : option N :=
  match s with
  | EmptyString => Some acc
  | String c s' =>
      if is_digit c then digits_value (acc * 10 + digit_of c)%N s'
      else None
  end.

Definition array_index (k : string) : option N :=
  match k with
  | EmptyString => None
  | String c rest =>
      if bool_decide (c = "0"%char) && negb (bool_decide (rest = EmptyString))
      then None
      else
        match digits_value 0%N k with
        | Some n => if (n <? 4294967295)%N then Some n else None
        | None => None
        end
  end.

(** Own property keys come out with the array indices first, in ascending
    numeric order, and then the other strings in creation order. *)
Fixpoint insert_index {V} (i : N) (e : string * V)
    (l : list (N * (string * V))) : list (N * (string * V)) :=
  match l with
  | [] => [(i, e)]
  | (j, e') :: l' =>
      if (i <=? j)%N then (i, e) :: (j, e') :: l'
      else (j, e') :: insert_index i e l'
  end.

Fixpoint index_entries {V} (o : props V) : list (N * (string * V)) :=
  match o with
  | [] => []
  | (k, v) :: o' =>
      match array_index k with
      | Some i => insert_index i (k, v) (index_entries o')
      | None => index_entries o'
      end
  end.

Definition index_le {V} (a b : N * (string * V)) : Prop := (fst a ≤ fst b)%N.

Definition named_entries {V} (o : props V) : props V :=
  filter (λ e, array_index (fst e) = None) o.

(** Object.entries *)
Definition Object_entries {V} (o : props V) : list (string * V) :=
  (snd <$> index_entries o) ++ named_entries o.

(** Object.values *)
Definition Object_values {V} (o : props V) : list V :=
  snd <$> Object_entries o.

(** Array.prototype.sort with a comparator: stable; [a] goes before [b] when
    the comparator is negative, and stays before it when it is zero. *)
Fixpoint sort_insert {A} (cmp : A → A → Q) (x : A) (l : list A) : list A :=
  match l with
  | [] => [x]
  | y :: l' =>
      if Qle_bool (cmp x y) 0 then x :: y :: l'
      else y :: sort_insert cmp x l'
  end.

Fixpoint Array_sort {A} (cmp : A → A → Q) (l : list A) : list A :=
  match l with
  | [] => []
  | x :: l' => sort_insert cmp x (Array_sort cmp l')
  end.

(** The order a comparator stands for. *)
Definition goes_before {A} (cmp : A → A → Q) (a b : A) : Prop := (cmp a b <= 0)%Q.

(** Array.prototype.slice(0, n) *)
Definition Array_slice0 {A} (n : nat) (l : list A) : list A := firstn n l.

End JS.

(* ===================================================================== *)
(** * app/routes/coffees.stats.tsx *)
(* ===================================================================== *)

Module Stats.
Import JS.

(** interface SerializedCoffee *)
Record SerializedCoffee := mkSerializedCoffee {
  id : string;
  name : string;
  brand : string;
  preparation : string;
  shots : Z;
  flavor : string;
  rating : Z;
  description : string;
  createdAt : string;
  updatedAt : string;
  userId : string;
}.

(** interface AggregatedCoffee.  [avgRating] is a quotient of two integers,
    kept exact; the double that JavaScript stores is its rounding, and
    rounding keeps the order of two such quotients unless they round to the
    same double. *)
Record AggregatedCoffee := mkAggregatedCoffee {
  agg_name : string;
  agg_brand : string;
  agg_count : Z;
  agg_rating : Z;
  agg_avgRating : Q;
}.

Definition group_key (coffee : SerializedCoffee) : string :=
  name coffee ++ "|" ++ brand coffee.

(** count++, rating += coffee.rating, avgRating = rating / count *)
Definition accumulate (coffee : SerializedCoffee) (g : AggregatedCoffee)
    : AggregatedCoffee :=
  let count := agg_count g + 1 in
  let rating := agg_rating g + rating coffee in
  mkAggregatedCoffee (agg_name g) (agg_brand g) count rating
    (inject_Z rating / inject_Z count).

(** The reducer of both grouping functions.  [!acc[key]] reads through the
    prototype chain; on an inherited name the three updates land on the
    inherited value and [acc] itself gains no property. *)
Definition group_step (acc : props AggregatedCoffee) (coffee : SerializedCoffee)
    : props AggregatedCoffee :=
  let key := group_key coffee in
  match lookup key acc with
  | Undefined =>
      define_own key
        (accumulate coffee (mkAggregatedCoffee (name coffee) (brand coffee) 0 0 0)) acc
  | Own g => define_own key (accumulate coffee g) acc
  | Inherited _ => acc
  end.

Definition groupedCoffees (coffees : list SerializedCoffee)
    : props AggregatedCoffee :=
  fold_left group_step coffees [].

(** (a, b) => b.count - a.count || b.avgRating - a.avgRating *)
Definition by_count_then_avg (a b : AggregatedCoffee) : Q :=
  let d := agg_count b - agg_count a in
  if d =? 0 then agg_avgRating b - agg_avgRating a else inject_Z d.

Definition calculateMostConsumedCoffees (coffees : list SerializedCoffee)
    : list AggregatedCoffee :=
  Array_slice0 5 (Array_sort by_count_then_avg (Object_values (groupedCoffees coffees))).

(** What a slot of preparationCounts can hold. *)
Inductive count_value :=
| Num (n : Z)
| Str (s : string).

(** (acc[p] || 0) + 1 *)
Definition bump (r : lookup_result count_value) : count_value :=
  match r with
  | Own (Num n) => Num (n + 1)
  | Own (Str s) => if decide (s = EmptyString) then Num 1 else Str (s ++ "1")
  | Inherited text => Str (text ++ "1")
  | Undefined => Num 1
  end.

(** acc[coffee.preparation] = ...: the __proto__ setter ignores a primitive. *)
Definition count_step (acc : props count_value) (coffee : SerializedCoffee)
    : props count_value :=
  let p := preparation coffee in
  let v := bump (lookup p acc) in
  if decide (p = "__proto__") then acc else define_own p v acc.

Definition preparationCounts (coffees : list SerializedCoffee)
    : props count_value :=
  fold_left count_step coffees [].

(** [count > maxCount] with a number on the right.  A string on the left is
    converted to a number first; the strings that [bump] builds are a
    built-in's text followed by 1s, which convert to NaN, and NaN compares
    false. *)
Definition greater (count : count_value) (maxCount : Z) : bool :=
  match count with
  | Num n => maxCount <? n
  | Str _ => false
  end.

Definition mode_step (st : Z * option string) (e : string * count_value)
    : Z * option string :=
  let '(maxCount, mostCommon) := st in
  let '(preparation, count) := e in
  if greater count maxCount then
    match count with
    | Num n => (n, Some preparation)
    | Str _ => st
    end
  else st.

Definition calculateMostCommonPreparation (coffees : list SerializedCoffee)
    : option string :=
  if decide (length coffees = 0%nat) then None
  else
    snd (fold_left mode_step (Object_entries (preparationCounts coffees)) (0, None)).

End Stats.

(* ===================================================================== *)
(** * What the schema and the application keep true of the store *)
(* ===================================================================== *)

Module Schema.
Import Prisma.

Definition has_user (us : list User) (uid : string) : Prop :=
  uid ∈ user_id <$> us.

(** User: id is the primary key, email is @unique. *)
Definition UsersOK (us : list User) : Prop :=
  NoDup (user_id <$> us) ∧ NoDup (user_email <$> us).

(** Password: userId is @unique and references User. *)
Definition PasswordsOK (us : list User) (ps : list Password) : Prop :=
  NoDup (pw_userId <$> ps) ∧ Forall (has_user us) (pw_userId <$> ps).

(** PasswordReset, EmailConfirmation: token is the primary key, userId is
    @unique and references User. *)
Definition TokensOK (us : list User) (ts : list TokenRow) : Prop :=
  NoDup (tok_token <$> ts) ∧ NoDup (tok_userId <$> ts) ∧
  Forall (has_user us) (tok_userId <$> ts).

(** Coffee: id is the primary key, userId references User. *)
Definition CoffeesOK (us : list User) (cs : list Coffee) : Prop :=
  NoDup (coffee_id <$> cs) ∧ Forall (has_user us) (coffee_userId <$> cs).

(** The constraints of prisma/schema.prisma. *)
Definition Consistent (db : DB) : Prop :=
  UsersOK (users db) ∧
  PasswordsOK (users db) (passwords db) ∧
  TokensOK (users db) (passwordResets db) ∧
  TokensOK (users db) (emailConfirmations db) ∧
  CoffeesOK (users db) (coffees db).

(** Both ways of creating a user create the password row with it, and only
    the cascade of a user's deletion removes one. *)
Definition AccountsHavePassword (db : DB) : Prop :=
  Forall (λ uid, uid ∈ pw_userId <$> passwords db) (user_id <$> users db).

Definition Inv (db : DB) : Prop := Consistent db ∧ AccountsHavePassword db.

#[global] Instance has_user_dec us uid : Decision (has_user us uid).
Proof. unfold has_user. apply _. Defined.

#[global] Instance Consistent_dec db : Decision (Consistent db).
Proof.
  unfold Consistent, UsersOK, PasswordsOK, TokensOK, CoffeesOK. apply _.
Defined.

#[global] Instance AccountsHavePassword_dec db : Decision (AccountsHavePassword db).
Proof. unfold AccountsHavePassword. apply _. Defined.

#[global] Instance Inv_dec db : Decision (Inv db).
Proof. unfold Inv. apply _. Defined.

(** A computation that keeps the invariants, whether it returns or throws. *)
Definition preserves {A} (c : M A) : Prop :=
  ∀ db, Inv db → Inv (snd (c db)).


End Schema.

(* ===================================================================== *)
(** * Sequences of calls into the two model files and the reset action *)
(* ===================================================================== *)

Module Trace.
Import Prisma UserModel CoffeeModel ForgotPassword.

(** Every exported function that writes is a call, and so are the reads but
    getUniqueCoffees. *)
Inductive call :=
| GetUserById (id : string)
| GetUserByEmail (email : string)
| CreateUser (email password : string)
    (name surname avatarUrl favoriteCoffeePreparation : option string)
    (salt id : string) (stamp : Z)
| CreateUnverifiedUser (email password : string)
    (name surname avatarUrl favoriteCoffeePreparation : option string)
    (salt id : string) (stamp : Z)
| DeleteUserByEmail (email : string)
| VerifyLogin (email password : string)
| CreatePasswordResetToken (email : string) (now : Z) (token : string) (stamp : Z)
| CreateEmailConfirmationToken (userId : string) (now : Z) (token : string) (stamp : Z)
| VerifyPasswordResetToken (token : string) (now : Z)
| VerifyEmailConfirmationToken (token : string) (now : Z)
| ConfirmUserEmail (token : string) (now stamp : Z)
| ResendEmailConfirmation (email : string) (now : Z) (token : string) (stamp : Z)
| ResetPassword (token newPassword : string) (now : Z) (salt : string)
| GetCoffee (id userId : string)
| GetCoffeeListItems (userId : string)
| GetCoffeeListItemsPaginated (userId : string) (page perPage : option Z)
| CreateCoffee (d : CoffeeData) (userId id : string) (stamp : Z)
| DeleteCoffee (id userId : string)
| UpdateCoffee (id : string) (d : CoffeeData) (userId : string) (stamp : Z)
| ForgotPasswordAction (env : MailEnv) (email : FormDataEntry) (now : Z)
    (token : string) (stamp : Z).

Section Exec.
Context `{Bcrypt} {tz : TimeZone} (validateEmail : string → bool).

(** The store a call leaves behind, whether it returned or threw. *)
Definition exec (c : call) (db : DB) : DB :=
  match c with
  | GetUserById id => snd (getUserById id db)
  | GetUserByEmail email => snd (getUserByEmail email db)
  | CreateUser e p n s a f salt id stamp =>
      snd (createUser e p n s a f salt id stamp db)
  | CreateUnverifiedUser e p n s a f salt id stamp =>
      snd (createUnverifiedUser e p n s a f salt id stamp db)
  | DeleteUserByEmail email => snd (deleteUserByEmail email db)
  | VerifyLogin email password => snd (verifyLogin email password db)
  | CreatePasswordResetToken email now token stamp =>
      snd (createPasswordResetToken email now token stamp db)
  | CreateEmailConfirmationToken uid now token stamp =>
      snd (createEmailConfirmationToken uid now token stamp db)
  | VerifyPasswordResetToken token now => snd (verifyPasswordResetToken token now db)
  | VerifyEmailConfirmationToken token now =>
      snd (verifyEmailConfirmationToken token now db)
  | ConfirmUserEmail token now stamp => snd (confirmUserEmail token now stamp db)
  | ResendEmailConfirmation email now token stamp =>
      snd (resendEmailConfirmation email now token stamp db)
  | ResetPassword token newPassword now salt =>
      snd (resetPassword token newPassword now salt db)
  | GetCoffee id uid => snd (getCoffee id uid db)
  | GetCoffeeListItems uid => snd (getCoffeeListItems uid db)
  | GetCoffeeListItemsPaginated uid page perPage =>
      snd (getCoffeeListItemsPaginated uid page perPage db)
  | CreateCoffee d uid id stamp => snd (createCoffee d uid id stamp db)
  | DeleteCoffee id uid => snd (deleteCoffee id uid db)
  | UpdateCoffee id d uid stamp => snd (updateCoffee id d uid stamp db)
  | ForgotPasswordAction env email now token stamp =>
      snd (action validateEmail env email now token stamp db)
  end.

Definition run (cs : list call) (db : DB) : DB :=
  fold_left (λ db c, exec c db) cs db.

End Exec.

(** The two token kinds side by side. *)
Definition verifyToken (k : TokenKind) (token : string) (now : Z)
    : M (option (TokenRow * User)) :=
  match k with
  | PasswordResetK => verifyPasswordResetToken token now
  | EmailConfirmationK => verifyEmailConfirmationToken token now
  end.

Definition ttl (k : TokenKind) : Z :=
  match k with
  | PasswordResetK => 5 * msPerMinute
  | EmailConfirmationK => 24 * msPerHour
  end.

(** The expiresAt the two create functions compute from [new Date()]. *)
Definition expiry {tz : TimeZone} (k : TokenKind) (now : Z) : Z :=
  match k with
  | PasswordResetK => setMinutes now (getMinutes now + 5)
  | EmailConfirmationK => setHours now (getHours now + 24)
  end.

(** Issuing a token of kind [k] for the stored user [u]: the reset token is
    requested by e-mail address, the confirmation token by user id. *)
Definition issueToken {tz : TimeZone} (k : TokenKind) (u : User) (now : Z)
    (token : string) (stamp : Z) : M (option (User * TokenRow)) :=
  match k with
  | PasswordResetK => createPasswordResetToken (user_email u) now token stamp
  | EmailConfirmationK => createEmailConfirmationToken (user_id u) now token stamp
  end.

End Trace.

(* ===================================================================== *)
(** * A small store to run the functions on *)
(* ===================================================================== *)

Module Samples.
Import Prisma CoffeeModel ForgotPassword.

(** A stand-in for bcryptjs that keeps the one property login relies on:
    a password compares equal to its own hash. *)
Definition toy_bcrypt : Bcrypt :=
  {| bcrypt_hash := λ password salt, password ++ "#" ++ salt;
     bcrypt_compare := λ password hash, String.prefix (password ++ "#") hash |}.

Definition accept_all : string → bool := λ _, true.

(** A process that runs in UTC, and one in New York under the rules of 2025:
    UTC-5 until 9 March 07:00 UTC, UTC-4 until 2 November 06:00 UTC and UTC-5
    after.  The hour that does not occur on 9 March and the hour that occurs
    twice on 2 November are read with the offset before the change. *)
Definition utc : TimeZone := {| LocalTZA := λ _ _, 0 |}.

Definition new_york : TimeZone :=
  {| LocalTZA := λ t isUTC,
       if isUTC then
         if t <? 1741503600000 then -5 * JSDate.msPerHour
         else if t <? 1762063200000 then -4 * JSDate.msPerHour
         else -5 * JSDate.msPerHour
       else
         if t <? 1741489200000 then -5 * JSDate.msPerHour
         else if t <? 1762048800000 then -4 * JSDate.msPerHour
         else -5 * JSDate.msPerHour |}.

Definition alice : User :=
  mkUser "u1" "alice@example.com" (Some "Alice") None None None true 0 0.
Definition bob : User :=
  mkUser "u2" "bob@example.com" None None None None false 10 10.

Definition alice_password : Password := mkPassword "latte#s1" "u1".
Definition bob_password : Password := mkPassword "mocha#s2" "u2".

Definition alice_reset : TokenRow := mkTokenRow "t1" 1000 301000 "u1".
Definition bob_confirmation : TokenRow := mkTokenRow "e1" 10 86400010 "u2".

Definition flat_white : Coffee :=
  mkCoffee "c1" "House" "Blend" "Espresso" 2 "nutty" 4 "fine" 500 500 "u1".
Definition filter_coffee : Coffee :=
  mkCoffee "c2" "Kenya" "AA" "V60" 0 "bright" 5 "good" 600 600 "u2".

Definition sample_db : DB :=
  mkDB [alice; bob] [alice_password; bob_password]
       [alice_reset] [bob_confirmation] [flat_white; filter_coffee].

Definition sample_data : CoffeeData :=
  mkCoffeeData "Stolen" "Beans" "Moka" 1 "burnt" 1 "not mine".

(** Twenty-five entries of one user, created one millisecond apart. *)
Definition entry (i : nat) : Coffee :=
  mkCoffee (String (ascii_of_nat (65 + i)) EmptyString) "House" "Blend"
    "Espresso" 1 "nutty" 3 "fine" (Z.of_nat i) (Z.of_nat i) "u1".

Definition diary_db : DB :=
  mkDB [alice] [alice_password] [] [] (entry <$> seq 0 25).

(** A diary entry as the statistics page receives it. *)
Definition cup (n b p : string) (r : Z) : Stats.SerializedCoffee :=
  Stats.mkSerializedCoffee "c" n b p 1 "nutty" r "fine"
    "2025-03-04T18:41:02.000Z" "2025-03-04T18:41:02.000Z" "u1".

(** A mail gateway with no API key configured, and one that delivers. *)
Definition mail_down : MailEnv := mkMailEnv None (Some "mg.example.com") (λ _ _, Some true).
Definition mail_up : MailEnv :=
  mkMailEnv (Some "key") (Some "mg.example.com") (λ _ _, Some true).

(** A diary entry with a given createdAt. *)
Definition cup_at (d : string) : Stats.SerializedCoffee :=
  Stats.mkSerializedCoffee "c" "House" "Blend" "Espresso" 1 "nutty" 3 "fine" d d "u1".

(** Stand-ins for the date functions, enough for the sample entries: the day
    of an ISO timestamp read in UTC, the time value of two such timestamps,
    and months of thirty days. *)
Definition utc_day (s : string) : option string :=
  if (String.length s <? 24)%nat then None else Some (String.substring 0 10 s).

Definition utc_time (s : string) : option Z :=
  if decide (s = "2025-03-04T18:41:02.000Z") then Some 1741113662000
  else if decide (s = "2024-12-24T08:00:00.000Z") then Some 1735027200000
  else None.

Definition thirty_days (now months : Z) : Z := now - months * 2592000000.

End Samples.

(* ===================================================================== *)
(** * The statistics as the specification words them *)
(* ===================================================================== *)

Module StatsSpec.
Import Stats.

(** The entries that share a grouping key. *)
Definition group_of (key : string) (coffees : list SerializedCoffee)
    : list SerializedCoffee :=
  filter (λ c, group_key c = key) coffees.

(** The entries that share a (name, brand) pair. *)
Definition pair_group_of (n b : string) (coffees : list SerializedCoffee)
    : list SerializedCoffee :=
  filter (λ c, name c = n ∧ brand c = b) coffees.

Definition sum_ratings (coffees : list SerializedCoffee) : Z :=
  fold_left (λ s c, s + rating c) coffees 0.

(** Whether a string contains the separator of the grouping key. *)
Fixpoint has_bar (s : string) : bool :=
  match s with
  | EmptyString => false
  | String c s' => bool_decide (c = "|"%char) || has_bar s'
  end.

(** The grouping key tells the pairs of a list apart. *)
Definition key_faithful (coffees : list SerializedCoffee) : Prop :=
  ∀ c c', c ∈ coffees → c' ∈ coffees → group_key c = group_key c' →
          name c = name c' ∧ brand c = brand c'.

(** One group's line: named after its first entry, with the number of its
    entries and the sum of their ratings divided by that number. *)
Definition summary (first : SerializedCoffee) (grp : list SerializedCoffee)
    : AggregatedCoffee :=
  mkAggregatedCoffee (name first) (brand first)
    (Z.of_nat (length grp)) (sum_ratings grp)
    (inject_Z (sum_ratings grp) / inject_Z (Z.of_nat (length grp))).

(** Count descending, then average rating descending. *)
Definition ranks_before (a b : AggregatedCoffee) : Prop :=
  agg_count b < agg_count a ∨
  (agg_count b = agg_count a ∧ (agg_avgRating b <= agg_avgRating a)%Q).

(** A key that no object literal inherits: not constructor, toString,
    __proto__ and the like. *)
Definition own_name (p : string) : Prop :=
  JS.get_own p JS.Object_prototype = None.

#[global] Instance own_name_dec p : Decision (own_name p).
Proof. unfold own_name. apply _. Defined.

(** How often a preparation value occurs. *)
Definition occurrences (p : string) (ps : list string) : Z :=
  Z.of_nat (length (filter (λ q, q = p) ps)).

(** An entry of the counting object holds at most, or less than, [m]. *)
Definition count_at_most (m : Z) (e : string * count_value) : Prop :=
  ∀ n, snd e = Num n → n ≤ m.
Definition count_below (m : Z) (e : string * count_value) : Prop :=
  ∀ n, snd e = Num n → n < m.

(** [p] is seen before [q]: [p] occurs at a place before which there is no [q]. *)
Definition seen_before (ps : list string) (p q : string) : Prop :=
  ∃ l1 l2, ps = (l1 ++ p :: l2)%list ∧ q ∉ l1.

(** The order in which an object hands out its keys: array indices by
    value, then the other keys as first seen. *)
Definition key_before (ps : list string) (p q : string) : Prop :=
  match JS.array_index p, JS.array_index q with
  | Some i, Some j => (i < j)%N
  | Some _, None => True
  | None, Some _ => False
  | None, None => seen_before ps p q
  end.

End StatsSpec.

(* ===================================================================== *)
(** * Further definitions used to state what the functions do *)
(* ===================================================================== *)

Module More.
Import Prisma UserModel.

(** The row update of user.update where id, data isVerified: true. *)
Definition mark_verified (id : string) (stamp : Z) (x : User) : User :=
  if decide (user_id x = id) then user_set_verified stamp x else x.

(** What login relies on from bcryptjs: a password compares equal to every
    hash made of it. *)
Definition bcrypt_sound `{Bcrypt} : Prop :=
  ∀ password salt, bcrypt_compare password (bcrypt_hash password salt) = true.

(** No row of any table refers to the user. *)
Definition no_trace_of (uid : string) (db : DB) : Prop :=
  (∀ u, u ∈ users db → user_id u ≠ uid) ∧
  (∀ p, p ∈ passwords db → pw_userId p ≠ uid) ∧
  (∀ k t, t ∈ tokens k db → tok_userId t ≠ uid) ∧
  (∀ c, c ∈ coffees db → coffee_userId c ≠ uid).

End More.

(* ===================================================================== *)
(** * app/routes/coffees.stats.tsx: the other helpers of the page *)
(* ===================================================================== *)

Module StatsMore.
Import JS Stats StatsSpec.

(** ** calculateTopRatedCoffees *)

(** (a, b) => b.avgRating - a.avgRating || b.count - a.count.  The left
    operand decides unless it is zero; zero on the exact quotients, which is
    zero on their doubles unless two different quotients round to one
    double. *)
Definition by_avg_then_count (a b : AggregatedCoffee) : Q :=
  let d := (agg_avgRating b - agg_avgRating a)%Q in
  if Qeq_bool d 0 then inject_Z (agg_count b - agg_count a) else d.

(** The reducer is, letter for letter, the one of
    calculateMostConsumedCoffees. *)
Definition calculateTopRatedCoffees (coffees : list SerializedCoffee)
    : list AggregatedCoffee :=
  Array_slice0 5 (Array_sort by_avg_then_count (Object_values (groupedCoffees coffees))).

(** ** filterCoffeesByTimeRange *)

Inductive TimeRange := R1month | R3months | R6months | R1year | RAll.

Section Dates.

(** [now] is the time value of [new Date()]; [subMonths] is the function of
    date-fns on time values; [Date_time s] is the time value of
    [new Date(s)], [None] for an Invalid Date, whose comparisons are all
    false. *)
Context (subMonths : Z → Z → Z) (Date_time : string → option Z).

Definition startDate (now : Z) (range : TimeRange) : Z :=
  match range with
  | R1month => subMonths now 1
  | R3months => subMonths now 3
  | R6months => subMonths now 6
  | R1year => subMonths now 12
  | RAll => subMonths now 1
  end.

Definition in_range (start now : Z) (coffee : SerializedCoffee) : bool :=
  match Date_time (createdAt coffee) with
  | Some t => (start <=? t) && (t <=? now)
  | None => false
  end.

Definition filterCoffeesByTimeRange (now : Z) (coffees : list SerializedCoffee)
    (range : TimeRange) : list SerializedCoffee :=
  match range with
  | RAll => coffees
  | _ => filter (λ coffee, in_range (startDate now range) now coffee = true) coffees
  end.

(** ** calculateCoffeesByDay *)

(** [format_day s] is [format(new Date(s), 'yyyy-MM-dd')] of date-fns, which
    throws a RangeError on an Invalid Date: [None]. *)
Context (format_day : string → option string).

(** if (!acc.includes(date)) acc.push(date) *)
Definition day_step (acc : option (list string)) (coffee : SerializedCoffee)
    : option (list string) :=
  match acc with
  | None => None
  | Some acc =>
      match format_day (createdAt coffee) with
      | None => None
      | Some date => Some (if decide (date ∈ acc) then acc else (acc ++ [date])%list)
      end
  end.

Definition calculateCoffeesByDay (coffees : list SerializedCoffee)
    : option (list string) :=
  fold_left day_step coffees (Some []).

End Dates.

(** ** Words for what the helpers compute *)

(** Higher average first; among equal averages, higher count first. *)
Definition rated_before (a b : AggregatedCoffee) : Prop :=
  (agg_avgRating b < agg_avgRating a)%Q ∨
  ((agg_avgRating b == agg_avgRating a)%Q ∧ agg_count b ≤ agg_count a).

Definition sum_with {A} (f : A → Z) (l : list A) : Z :=
  foldr (λ x s, f x + s) 0 l.

(** The distinct elements of a list, each at its first occurrence. *)
Fixpoint first_seen (l : list string) : list string :=
  match l with
  | [] => []
  | d :: l' => d :: filter (λ x, x ≠ d) (first_seen l')
  end.

(** An entry whose preparation is not the name of a property that every
    object inherits. *)
Definition counted (coffee : SerializedCoffee) : Prop :=
  own_name (preparation coffee).

#[global] Instance counted_dec coffee : Decision (counted coffee).
Proof. unfold counted. apply _. Defined.

(** A slot that holds a number. *)
Definition is_num (e : string * count_value) : Prop :=
  match snd e with Num _ => True | Str _ => False end.

#[global] Instance is_num_dec e : Decision (is_num e).
Proof. unfold is_num. destruct (snd e); apply _. Defined.

(** A slot under an inherited name holds a non-empty string, any other slot
    a number. *)
Definition slot_ok (e : string * count_value) : Prop :=
  match snd e with
  | Num _ => own_name (fst e)
  | Str s => ¬ own_name (fst e) ∧ s ≠ EmptyString
  end.

(** A test on properties, applied to an entry listed with its array index. *)
Definition on_entry {V} (P : string * V → Prop) (x : N * (string * V)) : Prop :=
  P (snd x).

#[global] Instance on_entry_dec {V} (P : string * V → Prop)
    `{∀ e, Decision (P e)} x : Decision (on_entry P x).
Proof. unfold on_entry. apply _. Defined.

End StatsMore.

(* ===================================================================== *)
(** * The routes that call the account model *)
(* ===================================================================== *)

(** app/routes/reset-password.$token.tsx, app/routes/confirm-email.$token.tsx,
    and the login and join routes.

    Of ~/session.server the handlers use two functions.  [getUserId(request)]
    enters a loader as its result, the user id that the request's session
    holds, if any.  [createUserSession] ends a handler: the reply records the
    arguments it is called with.  [safeRedirect(formData.get("redirectTo"),
    "/")] enters as its result, [redirectTo].  A JSON body is the list of its
    leaves, each under its dotted path. *)

Module Routes.
Import Prisma UserModel ForgotPassword.
Local Open Scope prisma_scope.

Inductive JsonValue :=
| JNull
| JBool (b : bool)
| JString (s : string).

#[global] Instance JsonValue_eq_dec : EqDecision JsonValue.
Proof. solve_decision. Defined.

Inductive Reply :=
| json (body : list (string * JsonValue)) (status : Z)
| redirect (url : string)
| createUserSession (redirectTo : string) (remember : bool) (userId : string).

(** Text is taken as the sequence of its code units, which the character
    type here carries up to 255; [String.length] is then [.length]. *)

#[global] Instance FormDataEntry_eq_dec : EqDecision FormDataEntry.
Proof. solve_decision. Defined.

(** [if (s)] on a string that may be undefined. *)
Definition truthy (s : option string) : bool :=
  match s with
  | None => false
  | Some s => negb (bool_decide (s = EmptyString))
  end.

(** s.includes(needle) *)
Fixpoint includes (needle s : string) : bool :=
  String.prefix needle s
  || match s with
     | EmptyString => false
     | String _ s' => includes needle s'
     end.

(** typeof v === "string" ? v : undefined *)
Definition string_or_undefined (v : FormDataEntry) : option string :=
  match v with
  | FormString s => Some s
  | _ => None
  end.

(** ** app/routes/reset-password.$token.tsx *)

Module ResetPasswordRoute.

Definition loader (userId token : option string) (now : Z) : M Reply :=
  if truthy userId then ret (redirect "/")
  else
    match token with
    | Some token' =>
        if negb (truthy token) then ret (redirect "/login")
        else
          await passwordReset ← verifyPasswordResetToken token' now;
          match passwordReset with
          | None =>
              ret (json [("isValidToken", JBool false);
                         ("error", JString "Invalid or expired reset token. Please request a new password reset link.")]
                     200)
          | Some (_, user) =>
              ret (json [("isValidToken", JBool true);
                         ("token", JString token');
                         ("email", JString (user_email user))]
                     200)
          end
    | None => ret (redirect "/login")
    end.

Section WithBcrypt.
Context `{Bcrypt}.

Definition action (token : option string) (password passwordConfirm : FormDataEntry)
    (now : Z) (salt : string) : M Reply :=
  match token with
  | Some token' =>
      if negb (truthy token) then
        ret (json [("errors.password", JString "Invalid reset attempt")] 400)
      else
        match password with
        | FormString password' =>
            if (String.length password' =? 0)%nat then
              ret (json [("errors.password", JString "Password is required")] 400)
            else if (String.length password' <? 8)%nat then
              ret (json [("errors.password",
                          JString "Password must be at least 8 characters")] 400)
            else if negb (bool_decide (password = passwordConfirm)) then
              ret (json [("errors.passwordConfirm",
                          JString "Passwords do not match")] 400)
            else
              await user ← resetPassword token' password' now salt;
              match user with
              | None =>
                  ret (json [("errors.password",
                              JString "Invalid or expired reset token")] 400)
              | Some user => ret (createUserSession "/" false (user_id user))
              end
        | _ => ret (json [("errors.password", JString "Password is required")] 400)
        end
  | None => ret (json [("errors.password", JString "Invalid reset attempt")] 400)
  end.

End WithBcrypt.
End ResetPasswordRoute.

(** ** app/routes/confirm-email.$token.tsx *)

Module ConfirmEmailRoute.

Definition loader (userId token : option string) (now stamp : Z) : M Reply :=
  if truthy userId then ret (redirect "/")
  else
    match token with
    | Some token' =>
        if negb (truthy token) then
          ret (json [("error", JString "Invalid confirmation link");
                     ("success", JBool false)] 400)
        else
          await user ← confirmUserEmail token' now stamp;
          match user with
          | None =>
              ret (json [("error", JString "This confirmation link is invalid or has expired. Please request a new one.");
                         ("success", JBool false)] 400)
          | Some user => ret (createUserSession "/" false (user_id user))
          end
    | None =>
        ret (json [("error", JString "Invalid confirmation link");
                   ("success", JBool false)] 400)
    end.

End ConfirmEmailRoute.

(** ** The login route *)

Module LoginRoute.
Section Action.

(** [validateEmail] is the type guard of app/utils.ts, as for the
    request-reset action.  [sendEmailConfirmation] belongs to
    ~/services/email.server; here it may be any awaited computation. *)
Context `{Bcrypt} {tz : TimeZone} (validateEmail : string → bool)
        (sendEmailConfirmation : User → string → M bool).

Definition valid_email (email : FormDataEntry) : option string :=
  match email with
  | FormString s => if validateEmail s then Some s else None
  | _ => None
  end.

Definition errors (email password : JsonValue) : list (string * JsonValue) :=
  [("errors.email", email); ("errors.password", password)].

(** The test that guards the resend branch; it yields the address as text. *)
Definition resend_request (intent email : FormDataEntry) : option string :=
  if bool_decide (intent = FormString "resend-confirmation") then valid_email email
  else None.

(** A resendEmailConfirmation result that is not null always has one of the
    two shapes the handler tests for, so its last return is never reached. *)
Definition action (email password remember intent : FormDataEntry)
    (redirectTo : string) (now : Z) (token : string) (stamp : Z) : M Reply :=
  match resend_request intent email with
  | Some email' =>
      await result ← resendEmailConfirmation email' now token stamp;
      match result with
      | ResendNull =>
          ret (json (errors (JString "No account found with this email address") JNull
                       ++ [("resendStatus", JNull)])%list 400)
      | ResendAlreadyVerified =>
          ret (json (errors JNull JNull
                       ++ [("resendStatus", JString "already-verified")])%list 200)
      | ResendCreated user emailConfirmation =>
          await _ ← sendEmailConfirmation user (tok_token emailConfirmation);
          ret (json (errors JNull JNull ++ [("resendStatus", JString "sent")])%list 200)
      end
  | None =>
      match valid_email email with
      | None =>
          ret (json (errors (JString "Email is invalid") JNull
                       ++ [("resendStatus", JNull)])%list 400)
      | Some email' =>
          match password with
          | FormString password' =>
              if (String.length password' =? 0)%nat then
                ret (json (errors JNull (JString "Password is required")
                             ++ [("resendStatus", JNull)])%list 400)
              else if (String.length password' <? 8)%nat then
                ret (json (errors JNull (JString "Password is too short")
                             ++ [("resendStatus", JNull)])%list 400)
              else
                await user ← verifyLogin email' password';
                match user with
                | LoginNull =>
                    ret (json (errors (JString "Invalid email or password") JNull
                                 ++ [("resendStatus", JNull)])%list 400)
                | LoginNeedsVerification =>
                    ret (json (errors (JString "Your email address has not been verified. Please check your inbox or request a new confirmation email.") JNull
                                 ++ [("pendingVerification", JBool true);
                                     ("verificationEmail", JString email');
                                     ("resendStatus", JNull)])%list 403)
                | LoginUser user =>
                    ret (createUserSession redirectTo
                           (bool_decide (remember = FormString "on")) (user_id user))
                end
          | _ =>
              ret (json (errors JNull (JString "Password is required")
                           ++ [("resendStatus", JNull)])%list 400)
          end
      end
  end.

End Action.
End LoginRoute.

(** ** app/services/s3.server.ts *)

Module S3.

(** The process environment and the outcome of the PutObject call
    ([false]: it threw). *)
Record S3Env := mkS3Env {
  AWS_ACCESS_KEY_ID : option string;
  AWS_SECRET_ACCESS_KEY : option string;
  AWS_S3_BUCKET : option string;
  AWS_S3_ENDPOINT : option string;
  AWS_REGION : option string;
  s3_send : string → string → string → bool;
}.

(** v || fallback *)
Definition or_else (v : option string) (fallback : string) : string :=
  if truthy v then default fallback v else fallback.

(** endpoint.replace(/\/$/, "") *)
Fixpoint drop_final_slash (s : string) : string :=
  match s with
  | EmptyString => EmptyString
  | String c s' =>
      if bool_decide (c = "/"%char) && bool_decide (s' = EmptyString)
      then EmptyString
      else String c (drop_final_slash s')
  end.

(** [None]: the function throws. *)
Definition uploadFileToS3 (env : S3Env) (file fileName contentType : string)
    : option string :=
  let bucketName := or_else (AWS_S3_BUCKET env) EmptyString in
  if negb (truthy (AWS_ACCESS_KEY_ID env))
     || negb (truthy (AWS_SECRET_ACCESS_KEY env))
     || negb (truthy (Some bucketName))
  then None
  else
    let key := "avatars/" ++ fileName in
    if s3_send env key file contentType then
      if truthy (AWS_S3_ENDPOINT env) then
        let endpoint := drop_final_slash (default EmptyString (AWS_S3_ENDPOINT env)) in
        Some (endpoint ++ "/" ++ bucketName ++ "/" ++ key)
      else
        Some ("https://" ++ bucketName ++ ".s3."
                ++ or_else (AWS_REGION env) "us-east-1" ++ ".amazonaws.com/" ++ key)
    else None.

End S3.

(** ** The join route *)

Module JoinRoute.
Import S3.
Section Action.

Context `{Bcrypt} {tz : TimeZone} (validateEmail : string → bool)
        (sendEmailConfirmation : User → string → M bool).

Definition errors (email password avatarUrl : JsonValue)
    : list (string * JsonValue) :=
  [("errors.email", email); ("errors.password", password);
   ("errors.name", JNull); ("errors.surname", JNull);
   ("errors.avatarUrl", avatarUrl);
   ("errors.favoriteCoffeePreparation", JNull)].

Definition fileExt (avatarData : string) : string :=
  if includes "image/png" avatarData then "png"
  else if includes "image/jpeg" avatarData then "jpg"
  else if includes "image/gif" avatarData then "gif"
  else "jpg".

Definition contentType (avatarData : string) : string :=
  if includes "image/png" avatarData then "image/png"
  else if includes "image/jpeg" avatarData then "image/jpeg"
  else if includes "image/gif" avatarData then "image/gif"
  else "image/jpeg".

(** What a try block around an awaited call leaves when the call throws: the
    store as the call left it, and control after the catch. *)
Definition try_ignore {A} (c : M A) : M unit :=
  λ db, (Ok tt, snd (c db)).

(** The block that handles the avatar.  [timestamp] is the decimal text of
    [Date.now()] and [randomString] that of
    [Math.random().toString(36).substring(2, 15)].  [None]: the upload threw
    and the catch answers; [Some avatarUrl]: control goes on with that value,
    undefined when no avatar was sent. *)
Definition avatar_upload (env : S3Env) (avatarData : FormDataEntry)
    (timestamp randomString : string) : option (option string) :=
  match avatarData with
  | FormString avatarData' =>
      if truthy (Some avatarData') then
        let fileName :=
          "avatar_" ++ timestamp ++ "_" ++ randomString ++ "."
            ++ fileExt avatarData' in
        match uploadFileToS3 env avatarData' fileName (contentType avatarData') with
        | Some url => Some (Some url)
        | None => None
        end
      else Some None
  | _ => Some None
  end.

(** [salt], [id] and [stamp] go to createUnverifiedUser, [now], [token] and
    [stamp'] to createEmailConfirmationToken. *)
Definition action (env : S3Env)
    (email password name surname avatarData favoriteCoffeePreparation : FormDataEntry)
    (redirectTo timestamp randomString : string)
    (salt id : string) (stamp now : Z) (token : string) (stamp' : Z) : M Reply :=
  match LoginRoute.valid_email validateEmail email with
  | None => ret (json (errors (JString "Email is invalid") JNull JNull) 400)
  | Some email' =>
      match password with
      | FormString password' =>
          if (String.length password' =? 0)%nat then
            ret (json (errors JNull (JString "Password is required") JNull) 400)
          else if (String.length password' <? 8)%nat then
            ret (json (errors JNull (JString "Password is too short") JNull) 400)
          else
            await existingUser ← getUserByEmail email';
            match existingUser with
            | Some _ =>
                ret (json (errors (JString "A user already exists with this email")
                             JNull JNull) 400)
            | None =>
                match avatar_upload env avatarData timestamp randomString with
                | None =>
                    ret (json (errors JNull JNull
                                 (JString "Failed to upload avatar image")) 500)
                | Some avatarUrl =>
                    await user ←
                      createUnverifiedUser email' password'
                        (string_or_undefined name) (string_or_undefined surname)
                        avatarUrl (string_or_undefined favoriteCoffeePreparation)
                        salt id stamp;
                    await confirmationResult ←
                      createEmailConfirmationToken (user_id user) now token stamp';
                    await _ ←
                      match confirmationResult with
                      | Some (u, emailConfirmation) =>
                          try_ignore
                            (sendEmailConfirmation u (tok_token emailConfirmation))
                      | None => ret tt
                      end;
                    ret (createUserSession redirectTo false (user_id user))
                end
            end
      | _ => ret (json (errors JNull (JString "Password is required") JNull) 400)
      end
  end.

End Action.
End JoinRoute.

End Routes.

(* ===================================================================== *)
(** * The routes that call the coffee model *)
(* ===================================================================== *)

(** app/routes/coffees.new.tsx and the route of the page of one coffee.
    [requireUserId(request)] enters a handler as its result, the id of the
    signed-in user. *)

Module CoffeeRoutes.
Import Prisma CoffeeModel ForgotPassword Routes.
Local Open Scope prisma_scope.

(** ** parseInt(s, 10) *)

(** The white space that parseInt skips, among the code units up to 255:
    TAB, LF, VT, FF, CR, SP and NBSP. *)
Definition is_space (c : ascii) : bool :=
  let n := N_of_ascii c in
  ((9 <=? n) && (n <=? 13) || (n =? 32) || (n =? 160))%N.

Fixpoint trim_start (s : string) : string :=
  match s with
  | EmptyString => EmptyString
  | String c s' => if is_space c then trim_start s' else s
  end.

(** The value of the longest prefix of decimal digits, [None] when the text
    does not start with a digit. *)
Fixpoint leading_digits (acc : option N) (s : string) : option N :=
  match s with
  | EmptyString => acc
  | String c s' =>
      if JS.is_digit c
      then leading_digits (Some (default 0 acc * 10 + JS.digit_of c)%N) s'
      else acc
  end.

(** [None] is NaN.  The integer is the one the digits spell; JavaScript
    holds it in a double, which is exact below 2^53, and the Int columns it
    goes to take 32 bits, so the statements about stored numbers are about
    numbers below 2^31 in size. *)
Definition parseInt10 (s : string) : option Z :=
  match trim_start s with
  | String "-" s' => (λ n, - Z.of_N n) <$> leading_digits None s'
  | String "+" s' => Z.of_N <$> leading_digits None s'
  | s' => Z.of_N <$> leading_digits None s'
  end.

(** The field, when it is text that parses, spells a number the 32-bit Int
    columns take.  What the ORM does with another number is not modelled, so
    the statements about the two routes assume this of shots and rating. *)
Definition reads_Int (v : FormDataEntry) : Prop :=
  ∀ s n, v = FormString s → parseInt10 s = Some n → - 2 ^ 31 ≤ n < 2 ^ 31.

(** typeof v === "string" *)
Definition is_text (v : FormDataEntry) : bool :=
  match v with
  | FormString _ => true
  | _ => false
  end.

(** ** app/routes/coffees.new.tsx *)

Module NewCoffeeRoute.

(** typeof v !== "string" || v.length === 0 ? message : null *)
Definition text_required (v : FormDataEntry) (message : string) : JsonValue :=
  match v with
  | FormString s => if (String.length s =? 0)%nat then JString message else JNull
  | _ => JString message
  end.

(** typeof v !== "string" || isNaN(parseInt(v, 10)) ? message : null *)
Definition number_required (v : FormDataEntry) (message : string) : JsonValue :=
  match v with
  | FormString s =>
      match parseInt10 s with
      | None => JString message
      | Some _ => JNull
      end
  | _ => JString message
  end.

Definition errors (name brand preparation shots flavor rating description
    : FormDataEntry) : list (string * JsonValue) :=
  [("errors.name", text_required name "Coffee name is required");
   ("errors.brand", text_required brand "Coffee brand is required");
   ("errors.preparation", text_required preparation "Preparation is required");
   ("errors.shots", number_required shots "Number of shots is required");
   ("errors.flavor", text_required flavor "Flavor description is required");
   ("errors.rating", number_required rating "Rating is required");
   ("errors.description", text_required description "Description is required")].

(** Object.values(errors).some(errorMessage => errorMessage !== null) *)
Definition hasErrors (errors : list (string * JsonValue)) : bool :=
  existsb (λ e, negb (bool_decide (snd e = JNull))) errors.

(** [id] and [stamp] fill the new row's cuid and clock columns.  After the
    checks every field is text and both numbers parse; the last branch is
    never taken. *)
Definition action (userId : string)
    (name brand preparation shots flavor rating description : FormDataEntry)
    (id : string) (stamp : Z) : M Reply :=
  let errors := errors name brand preparation shots flavor rating description in
  if hasErrors errors then ret (json errors 400)
  else
    match name, brand, preparation, shots, flavor, rating, description with
    | FormString name, FormString brand, FormString preparation,
      FormString shots, FormString flavor, FormString rating,
      FormString description =>
        match parseInt10 shots, parseInt10 rating with
        | Some shots, Some rating =>
            await coffee ←
              createCoffee
                (mkCoffeeData name brand preparation shots flavor rating description)
                userId id stamp;
            ret (redirect ("/coffees/" ++ coffee_id coffee))
        | _, _ => λ db, (Throw ValidationError, db)
        end
    | _, _, _, _, _, _, _ => λ db, (Throw ValidationError, db)
    end.

End NewCoffeeRoute.

(** ** The page of one coffee *)

Module CoffeeDetailRoute.

(** What the loader resolves to, json({ coffee }), or throws, the response
    Not Found with status 404. *)
Inductive Loaded :=
| coffee_data (coffee : Coffee)
| Not_Found.

Definition loader (userId coffeeId : string) : M Loaded :=
  await coffee ← getCoffee coffeeId userId;
  match coffee with
  | None => ret Not_Found
  | Some coffee => ret (coffee_data coffee)
  end.

(** A number that does not parse reaches the ORM as NaN, which it refuses
    before it runs the update. *)
Definition action (userId coffeeId : string)
    (intent name brand preparation shots flavor rating description : FormDataEntry)
    (stamp : Z) : M Reply :=
  if bool_decide (intent = FormString "delete") then
    await _ ← deleteCoffee coffeeId userId;
    ret (redirect "/coffees")
  else
    match name, brand, preparation, shots, flavor, rating, description with
    | FormString name, FormString brand, FormString preparation,
      FormString shots, FormString flavor, FormString rating,
      FormString description =>
        match parseInt10 shots, parseInt10 rating with
        | Some shots, Some rating =>
            await _ ←
              updateCoffee coffeeId
                (mkCoffeeData name brand preparation shots flavor rating description)
                userId stamp;
            ret (json [("success", JBool true)] 200)
        | _, _ => λ db, (Throw ValidationError, db)
        end
    | _, _, _, _, _, _, _ =>
        ret (json [("errors.form", JString "Form not submitted correctly.")] 400)
    end.

End CoffeeDetailRoute.

End CoffeeRoutes.

(* ===================================================================== *)
(** * Facts about the store primitives *)
(* ===================================================================== *)

Module Facts.
Import Prisma Schema.

Section Rows.
Context {A : Type} (P : A → Prop) `{∀ x, Decision (P x)}.

Lemma findUnique_Some (tbl : list A) (x : A) :
  findUnique P tbl = Some x → P x ∧ x ∈ tbl.
Proof.
  unfold findUnique. intros Hh.
  assert (Hin : x ∈ filter P tbl).
  { destruct (filter P tbl) as [|y l]; simplify_eq/=. left. }
  by apply list_elem_of_filter in Hin.
Qed.

Lemma findUnique_None (tbl : list A) :
  findUnique P tbl = None ↔ ∀ x, x ∈ tbl → ¬ P x.
Proof.
  unfold findUnique. rewrite head_None. split.
  - intros Hnil x Hin HP. by eapply filter_nil_not_elem_of.
  - intros Hall. induction tbl as [|y l IH]; [done|].
    rewrite filter_cons. destruct (decide (P y)) as [HP|HP].
    + exfalso. apply (Hall y); [left | done].
    + apply IH. intros x Hx. apply Hall. by right.
Qed.

Lemma has_row_false (tbl : list A) :
  has_row P tbl = false ↔ ∀ x, x ∈ tbl → ¬ P x.
Proof.
  unfold has_row. rewrite bool_decide_eq_false.
  rewrite <- findUnique_None. unfold findUnique. rewrite head_None.
  split; [|intros E Hne; by apply Hne].
  intros Hnn. destruct (filter P tbl); [done|]. exfalso. by apply Hnn.
Qed.

Lemma has_row_true (tbl : list A) :
  has_row P tbl = true ↔ ∃ x, x ∈ tbl ∧ P x.
Proof.
  unfold has_row. rewrite bool_decide_eq_true. split.
  - intros Hne. destruct (filter P tbl) as [|x l] eqn:E; [done|].
    exists x. assert (Hin : x ∈ filter P tbl) by (rewrite E; left).
    apply list_elem_of_filter in Hin. tauto.
  - intros (x & Hin & HP) E.
    by eapply filter_nil_not_elem_of.
Qed.

Lemma filter_all (tbl : list A) :
  (∀ x, x ∈ tbl → P x) → filter P tbl = tbl.
Proof.
  induction tbl as [|y l IH]; intros Hall; [done|].
  rewrite filter_cons_True by (apply Hall; left).
  f_equal. apply IH. intros x Hx. apply Hall. by right.
Qed.

Lemma filter_none (tbl : list A) :
  (∀ x, x ∈ tbl → ¬ P x) → filter P tbl = [].
Proof.
  induction tbl as [|y l IH]; intros Hall; [done|].
  rewrite filter_cons_False by (apply Hall; left).
  apply IH. intros x Hx. apply Hall. by right.
Qed.

End Rows.

Lemma filter_ext_elem {A} (P Q : A → Prop) `{∀ x, Decision (P x)}
    `{∀ x, Decision (Q x)} (tbl : list A) :
  (∀ x, x ∈ tbl → (P x ↔ Q x)) → filter P tbl = filter Q tbl.
Proof.
  induction tbl as [|y l IH]; intros Hext; [done|].
  rewrite !filter_cons.
  assert (IH' : filter P l = filter Q l).
  { apply IH. intros x Hx. apply Hext. by right. }
  destruct (decide (P y)) as [HP|HP].
  - rewrite decide_True by (apply Hext; [left|done]). by rewrite IH'.
  - rewrite decide_False; [done|]. intros HQ. apply HP. apply Hext; [left|done].
Qed.

Section Keys.
Context {A K : Type} `{EqDecision K} (f : A → K).

(** A unique column determines its row. *)
Lemma unique_column (tbl : list A) (x y : A) :
  NoDup (f <$> tbl) → x ∈ tbl → y ∈ tbl → f x = f y → x = y.
Proof.
  induction tbl as [|z l IH]; intros Hnd Hx Hy Hf; [by apply elem_of_nil in Hx|].
  rewrite fmap_cons in Hnd. apply NoDup_cons in Hnd as [Hz Hnd].
  apply elem_of_cons in Hx as [->|Hx]; apply elem_of_cons in Hy as [->|Hy].
  - done.
  - exfalso. apply Hz. rewrite Hf. by apply list_elem_of_fmap_2.
  - exfalso. apply Hz. rewrite <- Hf. by apply list_elem_of_fmap_2.
  - by apply IH.
Qed.

Lemma findUnique_unique (tbl : list A) (x : A) (k : K) :
  NoDup (f <$> tbl) → x ∈ tbl → f x = k →
  findUnique (λ y, f y = k) tbl = Some x.
Proof.
  intros Hnd Hx Hk.
  destruct (findUnique (λ y, f y = k) tbl) as [y|] eqn:E.
  - apply findUnique_Some in E as [Hy Hin]. f_equal.
    apply (unique_column tbl); [done..|congruence].
  - exfalso. by eapply (proj1 (findUnique_None _ _) E).
Qed.

Lemma NoDup_fmap_filter (P : A → Prop) `{∀ x, Decision (P x)} (tbl : list A) :
  NoDup (f <$> tbl) → NoDup (f <$> filter P tbl).
Proof.
  intros Hnd. apply (sublist_NoDup _ (f <$> tbl)); [exact Hnd|].
  apply fmap_sublist, sublist_filter.
Qed.

Lemma NoDup_fmap_snoc (tbl : list A) (x : A) :
  NoDup (f <$> tbl) → (∀ y, y ∈ tbl → f y ≠ f x) → NoDup (f <$> (tbl ++ [x])%list).
Proof.
  intros Hnd Hfresh. rewrite fmap_app. apply NoDup_app. split_and!.
  - done.
  - intros k Hk Hk'. apply list_elem_of_fmap in Hk as (y & -> & Hy).
    apply list_elem_of_singleton in Hk'. by eapply Hfresh.
  - apply NoDup_singleton.
Qed.


End Keys.

End Facts.

Module TokenFacts.
Import Prisma Schema UserModel Trace Facts.

Lemma tokens_set_tokens (k k' : TokenKind) (ts : list TokenRow) (db : DB) :
  tokens k' (set_tokens k ts db) = if decide (k = k') then ts else tokens k' db.
Proof. by destruct k, k'. Qed.

Lemma tokens_set_tokens_eq (k : TokenKind) (ts : list TokenRow) (db : DB) :
  tokens k (set_tokens k ts db) = ts.
Proof. by destruct k. Qed.

Lemma users_set_tokens (k : TokenKind) (ts : list TokenRow) (db : DB) :
  users (set_tokens k ts db) = users db.
Proof. by destruct k. Qed.

Lemma passwords_set_tokens (k : TokenKind) (ts : list TokenRow) (db : DB) :
  passwords (set_tokens k ts db) = passwords db.
Proof. by destruct k. Qed.

Lemma coffees_set_tokens (k : TokenKind) (ts : list TokenRow) (db : DB) :
  coffees (set_tokens k ts db) = coffees db.
Proof. by destruct k. Qed.

(** Both verify functions are one function of the table. *)
Lemma verifyToken_unfold (k : TokenKind) (t : string) (now : Z) (db : DB) :
  verifyToken k t now db =
  match findUnique (λ r, tok_token r = t) (tokens k db) with
  | None => (Ok None, db)
  | Some row =>
      match findUnique (λ u, user_id u = tok_userId row) (users db) with
      | None => (Throw InconsistentResult, db)
      | Some u =>
          if now >? tok_expiresAt row
          then (Ok None,
                set_tokens k (filter (λ r, tok_token r ≠ t) (tokens k db)) db)
          else (Ok (Some (row, u)), db)
      end
  end.
Proof.
  destruct k; simpl;
    unfold verifyPasswordResetToken, verifyEmailConfirmationToken, bind,
      token_findUnique_include_user, token_delete, ret; simpl;
    destruct (findUnique _ _) as [row|] eqn:E; try done;
    destruct (findUnique _ (users db)) as [u|]; try done;
    destruct (now >? tok_expiresAt row); try done; simpl; by rewrite E.
Qed.

Lemma verifyToken_absent (k : TokenKind) (t : string) (now : Z) (db : DB) :
  (∀ row, row ∈ tokens k db → tok_token row ≠ t) →
  verifyToken k t now db = (Ok None, db).
Proof.
  intros Habs. rewrite verifyToken_unfold.
  by rewrite (proj2 (findUnique_None (λ r, tok_token r = t) (tokens k db))).
Qed.

Lemma users_ok (db : DB) : Consistent db → UsersOK (users db).
Proof. by intros (? & _). Qed.

Lemma tokens_ok (db : DB) (k : TokenKind) :
  Consistent db → TokensOK (users db) (tokens k db).
Proof. intros (_ & _ & ? & ? & _). by destruct k. Qed.

Lemma has_user_find (us : list User) (uid : string) :
  UsersOK us → has_user us uid →
  ∃ u, findUnique (λ u, user_id u = uid) us = Some u ∧ u ∈ us ∧ user_id u = uid.
Proof.
  intros [Hid _] Hu. apply list_elem_of_fmap in Hu as (u & -> & Hu).
  exists u. split_and!; try done. by apply (findUnique_unique user_id).
Qed.

Lemma token_owner (k : TokenKind) (db : DB) (row : TokenRow) :
  Consistent db → row ∈ tokens k db →
  ∃ u, findUnique (λ u, user_id u = tok_userId row) (users db) = Some u
       ∧ u ∈ users db ∧ user_id u = tok_userId row.
Proof.
  intros Hc Hrow. destruct (tokens_ok db k Hc) as (_ & _ & Hfk).
  apply has_user_find; [by apply users_ok|].
  apply (proj1 (Forall_forall _ _) Hfk). by apply list_elem_of_fmap_2.
Qed.

Lemma verifyToken_expired (k : TokenKind) (t : string) (now : Z) (db : DB)
    (row : TokenRow) :
  Consistent db → row ∈ tokens k db → tok_token row = t →
  tok_expiresAt row < now →
  verifyToken k t now db =
    (Ok None, set_tokens k (filter (λ r, tok_token r ≠ t) (tokens k db)) db).
Proof.
  intros Hc Hrow Ht Hexp. rewrite verifyToken_unfold.
  rewrite (findUnique_unique tok_token _ row); [|apply (tokens_ok db k Hc)|done..].
  destruct (token_owner k db row Hc Hrow) as (u & -> & _).
  destruct (Z.gtb_spec now (tok_expiresAt row)); [done|lia].
Qed.

Lemma verifyToken_live (k : TokenKind) (t : string) (now : Z) (db : DB)
    (row : TokenRow) :
  Consistent db → row ∈ tokens k db → tok_token row = t →
  now ≤ tok_expiresAt row →
  ∃ u, u ∈ users db ∧ user_id u = tok_userId row ∧
       verifyToken k t now db = (Ok (Some (row, u)), db).
Proof.
  intros Hc Hrow Ht Hlive. rewrite verifyToken_unfold.
  rewrite (findUnique_unique tok_token _ row); [|apply (tokens_ok db k Hc)|done..].
  destruct (token_owner k db row Hc Hrow) as (u & -> & Hu & Hid).
  exists u. split_and!; try done.
  destruct (Z.gtb_spec now (tok_expiresAt row)); [lia|done].
Qed.

End TokenFacts.


Module ClockFacts.
Import Prisma UserModel Trace.

(** A time value is made of its day and its hour, minute, second and
    millisecond fields. *)
Lemma time_fields (t : Z) :
  MakeDate (Day t)
    (MakeTime (HourFromTime t) (MinFromTime t) (SecFromTime t) (msFromTime t)) = t.
Proof.
  unfold MakeDate, MakeTime, Day, HourFromTime, MinFromTime, SecFromTime,
    msFromTime, msPerDay, msPerHour, msPerMinute, msPerSecond.
  change 60000 with (1000 * 60). change 3600000 with (1000 * 60 * 60).
  change 86400000 with (1000 * 60 * 60 * 24).
  rewrite <- !Z.div_div by lia.
  pose proof (Z.div_mod t 1000 ltac:(lia)).
  pose proof (Z.div_mod (t / 1000) 60 ltac:(lia)).
  pose proof (Z.div_mod (t / 1000 / 60) 60 ltac:(lia)).
  pose proof (Z.div_mod (t / 1000 / 60 / 60) 24 ltac:(lia)).
  lia.
Qed.

Section Zone.
Context {tz : TimeZone}.

(** d.setMinutes(d.getMinutes() + m) adds [m] minutes to the local time and
    reads the result back in the zone. *)
Lemma setMinutes_getMinutes (d m : Z) :
  setMinutes d (getMinutes d + m) = UTC (LocalTime d + m * msPerMinute).
Proof.
  unfold setMinutes, getMinutes. cbv zeta. f_equal.
  rewrite <- (time_fields (LocalTime d)) at 6.
  unfold MakeDate, MakeTime. lia.
Qed.

Lemma setHours_getHours (d h : Z) :
  setHours d (getHours d + h) = UTC (LocalTime d + h * msPerHour).
Proof.
  unfold setHours, getHours. cbv zeta. f_equal.
  rewrite <- (time_fields (LocalTime d)) at 6.
  unfold MakeDate, MakeTime. lia.
Qed.

(** In wall-clock terms. *)
Lemma expiry_local (k : TokenKind) (now : Z) :
  expiry k now = UTC (LocalTime now + ttl k).
Proof.
  destruct k; [apply setMinutes_getMinutes|apply setHours_getHours].
Qed.

(** Where the offset does not change, the expiry is [ttl k] after [now]. *)
Lemma expiry_steady (k : TokenKind) (now : Z) :
  steady now (ttl k) → expiry k now = now + ttl k.
Proof.
  intros Hs. rewrite expiry_local. unfold UTC. rewrite Hs.
  unfold LocalTime. lia.
Qed.

End Zone.
End ClockFacts.

Module IssueFacts.
Import Prisma Schema UserModel Trace Facts TokenFacts ClockFacts.
Local Open Scope prisma_scope.

(** Both create functions are one function of the table, once the user is
    found. *)
Lemma issueToken_unfold {tz : TimeZone} (k : TokenKind) (u : User) (now : Z)
    (token : string) (stamp : Z) (db : DB) :
  Consistent db → u ∈ users db →
  issueToken k u now token stamp db =
    (await _ ← token_deleteMany_userId k (user_id u);
     await row ← token_create k token stamp (expiry k now) (user_id u);
     ret (Some (u, row))) db.
Proof.
  intros Hc Hu. destruct (users_ok db Hc) as [Hid Hem].
  destruct k; simpl.
  - unfold createPasswordResetToken, getUserByEmail, user_findUnique_email.
    unfold bind at 1. unfold gets.
    by rewrite (findUnique_unique user_email _ u).
  - unfold createEmailConfirmationToken, getUserById, user_findUnique_id.
    unfold bind at 1. unfold gets.
    by rewrite (findUnique_unique user_id _ u).
Qed.

Lemma issueToken_fresh {tz : TimeZone} (k : TokenKind) (u : User) (now : Z)
    (token : string) (stamp : Z) (db : DB) :
  Consistent db → u ∈ users db →
  (∀ r, r ∈ tokens k db → tok_token r ≠ token) →
  issueToken k u now token stamp db =
    (Ok (Some (u, mkTokenRow token stamp (expiry k now) (user_id u))),
     set_tokens k
       (filter (λ t, tok_userId t ≠ user_id u) (tokens k db)
          ++ [mkTokenRow token stamp (expiry k now) (user_id u)]) db).
Proof.
  intros Hc Hu Hfresh. rewrite issueToken_unfold by done.
  unfold bind, token_deleteMany_userId, token_create, ret.
  rewrite tokens_set_tokens_eq, users_set_tokens.
  rewrite (proj2 (has_row_false (λ t, tok_token t = token) _)); last first.
  { intros r Hr. apply list_elem_of_filter in Hr as [_ Hr]. by apply Hfresh. }
  rewrite (proj2 (has_row_false (λ t, tok_userId t = user_id u) _)); last first.
  { intros r Hr. apply list_elem_of_filter in Hr as [Hne _]. done. }
  rewrite (proj2 (has_row_true (λ x, user_id x = user_id u) _)) by eauto.
  simpl. f_equal. by destruct k.
Qed.


(** Every account has its password row. *)
Lemma account_password (db : DB) (u : User) :
  Inv db → u ∈ users db →
  ∃ p, findUnique (λ p, pw_userId p = user_id u) (passwords db) = Some p.
Proof.
  intros [Hc Hacc] Hu. unfold AccountsHavePassword in Hacc.
  rewrite Forall_forall in Hacc.
  specialize (Hacc (user_id u) (list_elem_of_fmap_2 _ _ _ Hu)).
  apply list_elem_of_fmap in Hacc as (p & Hp & Hin).
  destruct (findUnique (λ p, pw_userId p = user_id u) (passwords db)) as [q|] eqn:E;
    [by exists q|].
  exfalso. by apply (proj1 (findUnique_None _ _) E p).
Qed.

End IssueFacts.

(* ===================================================================== *)
(** * The schema constraints survive every call *)
(* ===================================================================== *)

Module Preservation.
Import Prisma Schema UserModel CoffeeModel ForgotPassword Trace Facts TokenFacts.

Lemma fmap_update {A K} (f : A → K) (g : A → A) (l : list A) :
  (∀ x, f (g x) = f x) → f <$> (g <$> l) = f <$> l.
Proof.
  intros Hg. rewrite <- list_fmap_compose. apply list_fmap_ext.
  intros i x _. apply Hg.
Qed.

Lemma Forall_fmap_filter {A K} (Q : K → Prop) (f : A → K)
    (P : A → Prop) `{∀ x, Decision (P x)} (l : list A) :
  Forall Q (f <$> l) → Forall Q (f <$> filter P l).
Proof.
  rewrite !Forall_fmap, !Forall_forall. intros Hall x Hx.
  apply Hall. apply list_elem_of_filter in Hx. tauto.
Qed.

Lemma has_user_mono (us us' : list User) :
  (∀ uid, has_user us uid → has_user us' uid) →
  ∀ l, Forall (has_user us) l → Forall (has_user us') l.
Proof. intros Hsub l Hl. by eapply Forall_impl. Qed.

Lemma has_user_snoc (us : list User) (u : User) (uid : string) :
  has_user us uid → has_user (us ++ [u]) uid.
Proof.
  unfold has_user. rewrite fmap_app, elem_of_app. tauto.
Qed.

Lemma has_user_filter (us : list User) (gone uid : string) :
  has_user us uid → uid ≠ gone →
  has_user (filter (λ u, user_id u ≠ gone) us) uid.
Proof.
  unfold has_user. intros Hu Hne.
  apply list_elem_of_fmap in Hu as (u & -> & Hu).
  apply list_elem_of_fmap_2. apply list_elem_of_filter. tauto.
Qed.

Lemma has_row_has_user (us : list User) (uid : string) :
  has_row (λ u, user_id u = uid) us = true → has_user us uid.
Proof.
  intros Hr. apply has_row_true in Hr as (u & Hu & <-).
  by apply list_elem_of_fmap_2.
Qed.

(** Rows that survive a cascade refer to users that survive it. *)
Lemma fk_after_cascade {A} (f : A → string) (us : list User) (l : list A)
    (gone : string) :
  Forall (has_user us) (f <$> l) →
  Forall (has_user (filter (λ u, user_id u ≠ gone) us))
         (f <$> filter (λ x, f x ≠ gone) l).
Proof.
  rewrite !Forall_fmap, !Forall_forall. intros Hall x Hx.
  apply list_elem_of_filter in Hx as [Hne Hx].
  apply has_user_filter; [by apply Hall|done].
Qed.

Lemma preserves_ret {A} (a : A) : preserves (ret a).
Proof. by intros db. Qed.

Lemma preserves_gets {A} (f : DB → A) : preserves (gets f).
Proof. by intros db. Qed.

Lemma preserves_bind {A B} (c : M A) (k : A → M B) :
  preserves c → (∀ a, preserves (k a)) → preserves (bind c k).
Proof.
  intros Hc Hk db HI. unfold bind. specialize (Hc db HI).
  destruct (c db) as [[a|e] db']; simpl in *; [by apply Hk|done].
Qed.

Lemma Inv_set_tokens (k : TokenKind) (ts : list TokenRow) (db : DB) :
  Inv db → TokensOK (users db) ts → Inv (set_tokens k ts db).
Proof.
  intros [(Hu & Hp & Hr & Hc & Hco) Hacc] Hts.
  split; [|by destruct k].
  destruct k.
  - exact (conj Hu (conj Hp (conj Hts (conj Hc Hco)))).
  - exact (conj Hu (conj Hp (conj Hr (conj Hts Hco)))).
Qed.

Lemma TokensOK_filter (us : list User) (ts : list TokenRow)
    (P : TokenRow → Prop) `{∀ x, Decision (P x)} :
  TokensOK us ts → TokensOK us (filter P ts).
Proof.
  intros (Ht & Hu & Hfk). split_and!.
  - by apply NoDup_fmap_filter.
  - by apply NoDup_fmap_filter.
  - by apply Forall_fmap_filter.
Qed.

Lemma Inv_tokens (k : TokenKind) (db : DB) :
  Inv db → TokensOK (users db) (tokens k db).
Proof. intros [Hc _]. by apply tokens_ok. Qed.

Lemma preserves_token_deleteMany (k : TokenKind) (uid : string) :
  preserves (token_deleteMany_userId k uid).
Proof.
  intros db HI. simpl. apply Inv_set_tokens; [done|].
  apply TokensOK_filter. by apply Inv_tokens.
Qed.

Lemma preserves_token_delete (k : TokenKind) (t : string) :
  preserves (token_delete k t).
Proof.
  intros db HI. unfold token_delete.
  destruct (findUnique _ _); simpl; [|done].
  apply Inv_set_tokens; [done|]. apply TokensOK_filter. by apply Inv_tokens.
Qed.

Lemma preserves_token_create (k : TokenKind) (t : string) (stamp e : Z)
    (uid : string) :
  preserves (token_create k t stamp e uid).
Proof.
  intros db HI. unfold token_create.
  destruct (has_row _ _ || has_row _ _) eqn:Hdup; [done|].
  apply orb_false_iff in Hdup as [Ht Hu].
  destruct (has_row _ (users db)) eqn:Hfk; simpl; [|done].
  apply Inv_set_tokens; [done|].
  destruct (Inv_tokens k db HI) as (Ht' & Hu' & Hfk').
  split_and!.
  - apply NoDup_fmap_snoc; [done|]. intros y Hy.
    by apply (proj1 (has_row_false _ _) Ht).
  - apply NoDup_fmap_snoc; [done|]. intros y Hy.
    by apply (proj1 (has_row_false _ _) Hu).
  - rewrite fmap_app. apply Forall_app. split; [done|].
    apply Forall_singleton. by apply has_row_has_user.
Qed.

Lemma preserves_user_create (id : string) (stamp : Z) (email : string)
    (n s a f : option string) (v : bool) (hash : string) :
  preserves (user_create id stamp email n s a f v hash).
Proof.
  intros db HI. unfold user_create.
  destruct (has_row _ _ || has_row _ _ || has_row _ _) eqn:Hdup; [done|].
  destruct HI as [((Hid & Hem) & (Hp & Hpfk) & Hr & Hc & (Hco & Hcofk)) Hacc].
  apply orb_false_iff in Hdup as [Hdup Hpw].
  apply orb_false_iff in Hdup as [Hi He].
  set (u := mkUser _ _ _ _ _ _ _ _ _).
  assert (Hmono : ∀ l, Forall (has_user (users db)) l →
                       Forall (has_user (users db ++ [u])) l).
  { apply has_user_mono. intros uid. apply has_user_snoc. }
  simpl. split; [split_and!|]; simpl.
  - split.
    + apply NoDup_fmap_snoc; [done|]. intros y Hy.
      by apply (proj1 (has_row_false _ _) Hi).
    + apply NoDup_fmap_snoc; [done|]. intros y Hy.
      by apply (proj1 (has_row_false _ _) He).
  - split.
    + apply NoDup_fmap_snoc; [done|]. intros y Hy.
      by apply (proj1 (has_row_false _ _) Hpw).
    + rewrite fmap_app. apply Forall_app. split; [by apply Hmono|].
      apply Forall_singleton. unfold has_user.
      rewrite fmap_app, elem_of_app. right. simpl. left.
  - destruct Hr as (? & ? & ?). split_and!; try done. by apply Hmono.
  - destruct Hc as (? & ? & ?). split_and!; try done. by apply Hmono.
  - split; [done|]. by apply Hmono.
  - unfold AccountsHavePassword in *. simpl.
    rewrite !fmap_app. apply Forall_app. split.
    + eapply Forall_impl; [exact Hacc|]. intros x Hx. simpl in Hx.
      rewrite elem_of_app. by left.
    + apply Forall_singleton. rewrite elem_of_app. right. simpl. left.
Qed.

Lemma preserves_user_delete (email : string) :
  preserves (user_delete_email email).
Proof.
  intros db HI. unfold user_delete_email.
  destruct (findUnique _ _) as [u|]; simpl; [|done].
  destruct HI as [((Hid & Hem) & (Hp & Hpfk) & Hr & Hc & (Hco & Hcofk)) Hacc].
  split; [split_and!|]; simpl.
  - split; by apply NoDup_fmap_filter.
  - split; [by apply NoDup_fmap_filter|by apply fk_after_cascade].
  - destruct Hr as (? & ? & ?).
    split_and!; [by apply NoDup_fmap_filter..|by apply fk_after_cascade].
  - destruct Hc as (? & ? & ?).
    split_and!; [by apply NoDup_fmap_filter..|by apply fk_after_cascade].
  - split; [by apply NoDup_fmap_filter|by apply fk_after_cascade].
  - unfold AccountsHavePassword in *. simpl in *.
    rewrite Forall_fmap, Forall_forall. intros x Hx.
    apply list_elem_of_filter in Hx as [Hne Hx]. simpl.
    rewrite Forall_fmap, Forall_forall in Hacc.
    specialize (Hacc x Hx). simpl in Hacc.
    apply list_elem_of_fmap in Hacc as (p & Hp' & Hpin).
    apply list_elem_of_fmap. exists p. split; [done|].
    apply list_elem_of_filter. split; [congruence|done].
Qed.

Lemma Inv_users_columns (us : list User) (db : DB) :
  user_id <$> us = user_id <$> users db →
  user_email <$> us = user_email <$> users db →
  Inv db → Inv (set_users us db).
Proof.
  intros Eid Eem HI.
  unfold Inv, Consistent, UsersOK, PasswordsOK, TokensOK, CoffeesOK,
    AccountsHavePassword, has_user in *. simpl.
  rewrite Eid, Eem. exact HI.
Qed.

Lemma preserves_user_update_verified (id : string) (stamp : Z) :
  preserves (user_update_verified id stamp).
Proof.
  intros db HI. unfold user_update_verified.
  destruct (findUnique _ _) as [u|]; simpl; [|done].
  apply Inv_users_columns; [| |done];
    apply fmap_update; intros x; by destruct (decide _).
Qed.

Lemma preserves_password_update (uid hash : string) :
  preserves (password_update_hash uid hash).
Proof.
  intros db HI. unfold password_update_hash.
  destruct (findUnique _ _) as [p|]; simpl; [|done].
  assert (E : pw_userId <$> (set_hash uid hash <$> passwords db)
              = pw_userId <$> passwords db).
  { apply fmap_update. intros x. unfold set_hash. by destruct (decide _). }
  unfold Inv, Consistent, UsersOK, PasswordsOK, TokensOK, CoffeesOK,
    AccountsHavePassword, has_user in *. simpl.
  rewrite E. exact HI.
Qed.

Lemma Inv_set_coffees (cs : list Coffee) (db : DB) :
  Inv db → CoffeesOK (users db) cs → Inv (set_coffees cs db).
Proof.
  intros [(Hu & Hp & Hr & Hc & Hco) Hacc] Hcs.
  exact (conj (conj Hu (conj Hp (conj Hr (conj Hc Hcs)))) Hacc).
Qed.

Lemma Inv_coffees (db : DB) : Inv db → CoffeesOK (users db) (coffees db).
Proof. by intros [(_ & _ & _ & _ & ?) _]. Qed.

Lemma preserves_coffee_deleteMany (id uid : string) :
  preserves (coffee_deleteMany id uid).
Proof.
  intros db HI. simpl. apply Inv_set_coffees; [done|].
  destruct (Inv_coffees db HI) as [Hid Hfk].
  split; [by apply NoDup_fmap_filter|by apply Forall_fmap_filter].
Qed.

Lemma preserves_coffee_update (id uid : string) (d : CoffeeData) (stamp : Z) :
  preserves (coffee_update id uid d stamp).
Proof.
  intros db HI. unfold coffee_update.
  destruct (head _) as [c|]; simpl; [|done].
  apply Inv_set_coffees; [done|].
  destruct (Inv_coffees db HI) as [Hid Hfk]. unfold CoffeesOK.
  rewrite !fmap_update; [done|intros x; by destruct (decide _)..].
Qed.

Lemma preserves_coffee_create (id : string) (stamp : Z) (d : CoffeeData)
    (uid : string) :
  preserves (coffee_create id stamp d uid).
Proof.
  intros db HI. unfold coffee_create.
  destruct (has_row _ (coffees db)) eqn:Hdup; [done|].
  destruct (has_row _ (users db)) eqn:Hfk; simpl; [|done].
  apply Inv_set_coffees; [done|].
  destruct (Inv_coffees db HI) as [Hid Hfk']. split.
  - apply NoDup_fmap_snoc; [done|]. intros y Hy.
    by apply (proj1 (has_row_false _ _) Hdup).
  - rewrite fmap_app. apply Forall_app. split; [done|].
    apply Forall_singleton. by apply has_row_has_user.
Qed.

Lemma preserves_read {A} (c : M A) :
  (∀ db, snd (c db) = db) → preserves c.
Proof. intros Hc db HI. by rewrite Hc. Qed.

Create HintDb preserve.

#[local] Hint Resolve preserves_ret preserves_gets preserves_token_deleteMany
  preserves_token_delete preserves_token_create preserves_user_create
  preserves_user_delete preserves_user_update_verified
  preserves_password_update preserves_coffee_deleteMany
  preserves_coffee_update preserves_coffee_create : preserve.

Ltac preserve :=
  repeat first
    [ progress eauto with preserve
    | apply preserves_bind; [|intros ?]
    | match goal with
      | |- preserves (match ?x with _ => _ end) => destruct x
      | |- preserves (if ?b then _ else _) => destruct b
      end ].

Section Calls.
Context `{Bcrypt} {tz : TimeZone} (validateEmail : string → bool).

Lemma preserves_verifyToken (k : TokenKind) (t : string) (now : Z) :
  preserves (verifyToken k t now).
Proof.
  intros db HI. rewrite verifyToken_unfold.
  destruct (findUnique _ _); [|done].
  destruct (findUnique _ _); [|done].
  destruct (now >? _); [|done]. simpl.
  apply Inv_set_tokens; [done|]. apply TokensOK_filter. by apply Inv_tokens.
Qed.

Lemma preserves_createPasswordResetToken email now token stamp :
  preserves (createPasswordResetToken email now token stamp).
Proof. unfold createPasswordResetToken, getUserByEmail, user_findUnique_email. preserve. Qed.

Lemma preserves_createEmailConfirmationToken uid now token stamp :
  preserves (createEmailConfirmationToken uid now token stamp).
Proof. unfold createEmailConfirmationToken, getUserById, user_findUnique_id. preserve. Qed.

Lemma preserves_action env email now token stamp :
  preserves (action validateEmail env email now token stamp).
Proof.
  pose proof preserves_createPasswordResetToken.
  destruct email; unfold action, getUserByEmail, user_findUnique_email; preserve.
Qed.

Lemma preserves_exec (c : call) (db : DB) :
  Inv db → Inv (exec validateEmail c db).
Proof.
  revert db. change (preserves (λ db, (Ok tt, exec validateEmail c db))).
  assert (Hv : ∀ k t now, preserves (verifyToken k t now))
    by apply preserves_verifyToken.
  pose proof (Hv PasswordResetK) as Hvr. pose proof (Hv EmailConfirmationK) as Hvc.
  simpl in Hvr, Hvc.
  destruct c; intros db HI; simpl.
  - done.
  - done.
  - by apply preserves_user_create.
  - by apply preserves_user_create.
  - by apply preserves_user_delete.
  - revert db HI. unfold verifyLogin, user_findUnique_email_include_password. preserve.
  - by apply preserves_createPasswordResetToken.
  - by apply preserves_createEmailConfirmationToken.
  - by apply Hvr.
  - by apply Hvc.
  - revert db HI. unfold confirmUserEmail. preserve.
  - revert db HI. unfold resendEmailConfirmation, getUserByEmail, user_findUnique_email.
    pose proof preserves_createEmailConfirmationToken. preserve.
  - revert db HI. unfold resetPassword. preserve.
  - done.
  - done.
  - revert db HI. unfold getCoffeeListItemsPaginated, coffee_count. preserve.
    apply preserves_read. intros db. unfold coffee_findMany_page. done.
  - by apply preserves_coffee_create.
  - by apply preserves_coffee_deleteMany.
  - by apply preserves_coffee_update.
  - by apply preserves_action.
Qed.

Lemma preserves_run (cs : list call) (db : DB) :
  Inv db → Inv (run validateEmail cs db).
Proof.
  revert db. induction cs as [|c cs IH]; intros db HI; [done|].
  simpl. apply IH. by apply preserves_exec.
Qed.

Lemma Inv_empty : Inv empty_db.
Proof. by apply (bool_decide_unpack _). Qed.

End Calls.

End Preservation.

(* ===================================================================== *)
(** * Tokens: verification, issuance, reset *)
(* ===================================================================== *)

Module TokenClaims.
Import Prisma Schema UserModel Trace Facts TokenFacts IssueFacts Preservation.
Import Samples.

(** Membership and for-all goals over a table that is written out. *)
Ltac row_in := repeat first [by left | right].
Ltac each_row H :=
  repeat (apply elem_of_cons in H as [->|H]); [..|by apply elem_of_nil in H].
Ltac by_decision := by apply (bool_decide_unpack _).

(** C1. For either token kind and any token string [t], on a store that meets
    the schema: when no stored token has identifier [t], verification returns
    null and leaves the store alone; when the stored token has
    [expiresAt < now], verification returns null, the store afterwards is the
    old one without that row, and verifying [t] again, at whatever time,
    returns null once more; when [now ≤ expiresAt], verification returns the
    stored row together with the user it belongs to and leaves the store
    alone.  Hence the result is null exactly when the token is absent or
    expired, and the two cases give the same result. *)
Theorem C1_verify_token (k : TokenKind) (t : string) (now : Z) (db : DB) :
  Consistent db →
  ((∀ row, row ∈ tokens k db → tok_token row ≠ t) →
     verifyToken k t now db = (Ok None, db)) ∧
  (∀ row, row ∈ tokens k db → tok_token row = t →
     (tok_expiresAt row < now →
        ∃ db', verifyToken k t now db = (Ok None, db') ∧
               db' = set_tokens k (filter (λ r, tok_token r ≠ t) (tokens k db)) db ∧
               (∀ r, r ∈ tokens k db' → tok_token r ≠ t) ∧
               (∀ now', verifyToken k t now' db' = (Ok None, db'))) ∧
     (now ≤ tok_expiresAt row →
        ∃ u, u ∈ users db ∧ user_id u = tok_userId row ∧
             verifyToken k t now db = (Ok (Some (row, u)), db))) ∧
  (fst (verifyToken k t now db) = Ok None ↔
     (∀ row, row ∈ tokens k db → tok_token row ≠ t) ∨
     (∃ row, row ∈ tokens k db ∧ tok_token row = t ∧ tok_expiresAt row < now)).
Proof.
  intros Hc.
  assert (Hgone : ∀ r, r ∈ tokens k
             (set_tokens k (filter (λ r, tok_token r ≠ t) (tokens k db)) db) →
             tok_token r ≠ t).
  { intros r. rewrite tokens_set_tokens_eq, list_elem_of_filter. tauto. }
  split_and!.
  - apply verifyToken_absent.
  - intros row Hrow Ht. split.
    + intros Hexp. eexists. split; [by eapply verifyToken_expired|].
      split_and!; [done|done|].
      intros now'. by apply verifyToken_absent.
    + by apply verifyToken_live.
  - split.
    + intros Hnull.
      destruct (findUnique (λ r, tok_token r = t) (tokens k db)) as [row|] eqn:E.
      * apply findUnique_Some in E as [Ht Hrow]. right. exists row.
        split_and!; try done.
        destruct (Z.lt_ge_cases (tok_expiresAt row) now) as [|Hlive]; [done|].
        destruct (verifyToken_live k t now db row Hc Hrow Ht Hlive)
          as (u & _ & _ & Hv).
        rewrite Hv in Hnull. discriminate.
      * left. exact (proj1 (findUnique_None _ _) E).
    + intros [Habs|(row & Hrow & Ht & Hexp)].
      * by rewrite verifyToken_absent.
      * by erewrite verifyToken_expired.
Qed.

(** Alice's reset token expires at 301000: at that instant it still
    verifies, one millisecond later it is gone for good. *)
Lemma C1_verify_token_witness :
  Consistent sample_db ∧
  (∃ u, u ∈ users sample_db ∧ user_id u = "u1" ∧
        verifyToken PasswordResetK "t1" 301000 sample_db
          = (Ok (Some (alice_reset, u)), sample_db)) ∧
  (∃ db', verifyToken PasswordResetK "t1" 301001 sample_db = (Ok None, db') ∧
          ∀ now', verifyToken PasswordResetK "t1" now' db' = (Ok None, db')).
Proof.
  assert (Hc : Consistent sample_db) by by_decision.
  split; [exact Hc|].
  split.
  - destruct (C1_verify_token PasswordResetK "t1" 301000 sample_db Hc)
      as (_ & Hrow & _).
    destruct (Hrow alice_reset ltac:(row_in) eq_refl) as [_ Hlive].
    apply Hlive. simpl. lia.
  - destruct (C1_verify_token PasswordResetK "t1" 301001 sample_db Hc)
      as (_ & Hrow & _).
    destruct (Hrow alice_reset ltac:(row_in) eq_refl) as [Hexp _].
    destruct Hexp as (db' & Hv & _ & _ & Hagain); [simpl; lia|].
    by exists db'.
Defined.

(** C2. The expiry a new token gets is not always [now] plus five minutes,
    or plus twenty-four hours.  In a process whose zone is New York, Alice
    asks for a reset token on 2 November 2025 at 06:03:00 UTC, three minutes
    after the clocks went back: the call succeeds and the new row expires at
    05:08:00 UTC, fifty-five minutes before the call.  Bob's confirmation
    token, issued the day before at 16:00:00 UTC, expires twenty-five hours
    later.  The documentation of the two functions says five minutes and
    twenty-four hours. *)
Theorem C2_expiry_follows_the_wall_clock :
  let now := 1762063380000 in
  let row := mkTokenRow "t2" now (now - 55 * 60 * 1000) "u1" in
  let now2 := 1762012800000 in
  let row2 := mkTokenRow "e2" now2 (now2 + 25 * 60 * 60 * 1000) "u2" in
  Inv sample_db ∧
  createPasswordResetToken (tz := new_york) "alice@example.com" now "t2" now
    sample_db
  = (Ok (Some (alice, row)),
     set_tokens PasswordResetK [row] sample_db) ∧
  tok_expiresAt row ≠ now + ttl PasswordResetK ∧
  createEmailConfirmationToken (tz := new_york) "u2" now2 "e2" now2 sample_db
  = (Ok (Some (bob, row2)),
     set_tokens EmailConfirmationK [row2] sample_db) ∧
  tok_expiresAt row2 ≠ now2 + ttl EmailConfirmationK.
Proof.
  intros now row now2 row2. split; [by_decision|].
  split; [by vm_compute|]. split; [by vm_compute|].
  split; by vm_compute.
Qed.

(** C3. On a store that meets the invariants: when the reset token is stored
    and [now ≤ expiresAt], resetPassword returns the user the token belongs
    to, that user's password row now holds the hash of the new password, the
    other password rows are as before, and no row with this token is left;
    when no such token is stored, resetPassword returns null and the store is
    untouched; when the token has expired, resetPassword returns null and
    neither a password row nor a user row has changed. *)
Theorem C3_resetPassword `{Bcrypt} (token newPassword : string) (now : Z)
    (salt : string) (db : DB) :
  Inv db →
  (∀ row, row ∈ passwordResets db → tok_token row = token →
     now ≤ tok_expiresAt row →
     ∃ u, u ∈ users db ∧ user_id u = tok_userId row ∧
       let hash := bcrypt_hash newPassword salt in
       let db' := set_tokens PasswordResetK
                    (filter (λ r, tok_token r ≠ token) (passwordResets db))
                    (set_passwords (set_hash (user_id u) hash <$> passwords db) db) in
       resetPassword token newPassword now salt db = (Ok (Some u), db') ∧
       findUnique (λ p, pw_userId p = user_id u) (passwords db')
         = Some (mkPassword hash (user_id u)) ∧
       (∀ r, r ∈ passwordResets db' → tok_token r ≠ token)) ∧
  ((∀ row, row ∈ passwordResets db → tok_token row ≠ token) →
     resetPassword token newPassword now salt db = (Ok None, db)) ∧
  (∀ row, row ∈ passwordResets db → tok_token row = token →
     tok_expiresAt row < now →
     fst (resetPassword token newPassword now salt db) = Ok None ∧
     passwords (snd (resetPassword token newPassword now salt db)) = passwords db ∧
     users (snd (resetPassword token newPassword now salt db)) = users db).
Proof.
  intros HI. pose proof HI as [Hc Hacc]. split_and!.
  - intros row Hrow Ht Hlive.
    destruct (verifyToken_live PasswordResetK token now db row Hc Hrow Ht Hlive)
      as (u & Hu & Hid & Hv).
    exists u. split; [done|]. split; [done|]. intros hash db'. split_and!.
    + unfold resetPassword, bind. simpl in Hv. rewrite Hv.
      unfold password_update_hash. rewrite <- Hid.
      destruct (account_password db u HI Hu) as (p & ->).
      unfold token_delete. simpl.
      by rewrite (findUnique_unique tok_token _ row);
        [|apply (tokens_ok db PasswordResetK Hc)|..].
    + simpl.
      destruct (account_password db u HI Hu) as (p & Hp).
      apply findUnique_Some in Hp as [Hpid Hpin].
      apply (findUnique_unique pw_userId).
      * rewrite fmap_update; [by destruct Hc as (_ & (? & _) & _)|].
        intros x. unfold set_hash. by destruct (decide _).
      * apply list_elem_of_fmap. exists p. split; [|done].
        unfold set_hash. by rewrite decide_True.
      * done.
    + simpl. intros r Hr. by apply list_elem_of_filter in Hr as [? _].
  - intros Habs. unfold resetPassword, bind.
    pose proof (verifyToken_absent PasswordResetK token now db Habs) as Hv.
    simpl in Hv. by rewrite Hv.
  - intros row Hrow Ht Hexp. unfold resetPassword, bind.
    pose proof (verifyToken_expired PasswordResetK token now db row Hc Hrow Ht Hexp)
      as Hv.
    simpl in Hv. by rewrite Hv.
Qed.

(** Alice resets her password in time; a day later the same request is
    refused and her password row is the one she had. *)
Lemma C3_resetPassword_witness :
  Inv sample_db ∧
  (∃ u db', resetPassword (H := toy_bcrypt) "t1" "cortado" 2000 "s9" sample_db
              = (Ok (Some u), db') ∧
            user_id u = "u1" ∧
            findUnique (λ p, pw_userId p = "u1") (passwords db')
              = Some (mkPassword "cortado#s9" "u1")) ∧
  fst (resetPassword (H := toy_bcrypt) "t1" "cortado" 86400000 "s9" sample_db)
    = Ok None ∧
  passwords (snd (resetPassword (H := toy_bcrypt) "t1" "cortado" 86400000 "s9"
                    sample_db))
    = passwords sample_db.
Proof.
  assert (HI : Inv sample_db) by by_decision.
  split; [exact HI|].
  split.
  - destruct (C3_resetPassword (H := toy_bcrypt) "t1" "cortado" 2000 "s9"
                sample_db HI) as (Hlive & _ & _).
    destruct (Hlive alice_reset ltac:(row_in) eq_refl ltac:(simpl; lia))
      as (u & Hu & Hid & Hreset & Hpw & _).
    simpl in Hid. rewrite Hid in Hreset, Hpw.
    exists u. eexists. split; [exact Hreset|]. split; [exact Hid|]. exact Hpw.
  - destruct (C3_resetPassword (H := toy_bcrypt) "t1" "cortado" 86400000 "s9"
                sample_db HI) as (_ & _ & Hexp).
    destruct (Hexp alice_reset ltac:(row_in) eq_refl ltac:(simpl; lia))
      as (Hnull & Hpw & _).
    by split.
Defined.

(** C10. A token that has just been issued does not always verify.  In a
    process whose zone is New York, Alice asks for a reset token on
    2 November 2025 at 06:03:00 UTC: createPasswordResetToken succeeds, the
    row it returns has expired fifty-five minutes before the call, and
    verifying the token at the instant of the call returns null and deletes
    the row. *)
Theorem C10_fresh_token_does_not_verify :
  let now := 1762063380000 in
  Inv sample_db ∧
  ∃ row db',
    createPasswordResetToken (tz := new_york) "alice@example.com" now "t2" now
      sample_db
    = (Ok (Some (alice, row)), db') ∧
    tok_expiresAt row = now - 55 * 60 * 1000 ∧
    row ∈ passwordResets db' ∧
    verifyPasswordResetToken (tok_token row) now db'
    = (Ok None, set_tokens PasswordResetK [] db').
Proof.
  intros now. split; [by_decision|].
  eexists. eexists. split; [by vm_compute|].
  split; [by vm_compute|]. split; [row_in|]. by vm_compute.
Qed.

End TokenClaims.

(* ===================================================================== *)
(** * Issuing tokens in any time zone *)
(* ===================================================================== *)

Module TokenExtras.
Import Prisma Schema UserModel Trace Facts TokenFacts ClockFacts IssueFacts.
Import Preservation Samples.

Ltac row_in := repeat first [by left | right].
Ltac each_row H :=
  repeat (apply elem_of_cons in H as [->|H]); [..|by apply elem_of_nil in H].
Ltac by_decision := by apply (bool_decide_unpack _).





End TokenExtras.

(* ===================================================================== *)
(** * Coffee rows: pagination and ownership *)
(* ===================================================================== *)

Module CoffeeFacts.
Import Prisma Schema CoffeeModel Facts.

(** The ceiling of a quotient of integers, in integer terms. *)
Lemma Math_ceil_div_spec (a b : Z) :
  1 ≤ b → Math_ceil_div a b = (a + b - 1) / b.
Proof.
  intros Hb. unfold Math_ceil_div, Qceiling, Qfloor.
  destruct b as [|b|b]; try lia.
  unfold Qdiv, Qinv, Qmult, Qopp, inject_Z. simpl.
  rewrite Z.mul_1_r. change (Z.pos (1 * b)) with (Z.pos b).
  pose proof (Z.div_mod (- a) (Z.pos b) ltac:(lia)) as Hdm.
  pose proof (Z.mod_pos_bound (- a) (Z.pos b) ltac:(lia)) as Hr.
  apply Z.div_unique with (r := Z.pos b - 1 - (- a) mod Z.pos b); lia.
Qed.

(** It is the least number of pages of size [b] that hold [a] items. *)
Lemma Math_ceil_div_bounds (a b : Z) :
  1 ≤ b →
  (Math_ceil_div a b - 1) * b < a ≤ Math_ceil_div a b * b.
Proof.
  intros Hb. rewrite Math_ceil_div_spec by done.
  pose proof (Z.div_mod (a + b - 1) b ltac:(lia)) as Hdm.
  pose proof (Z.mod_pos_bound (a + b - 1) b ltac:(lia)) as Hr.
  nia.
Qed.

#[global] Instance createdAt_desc_total : Total createdAt_desc.
Proof. intros a b. unfold createdAt_desc. lia. Qed.

#[global] Instance createdAt_desc_trans : Transitive createdAt_desc.
Proof. intros a b c. unfold createdAt_desc. lia. Qed.

Lemma orderBy_sorted (rows : list Coffee) :
  StronglySorted createdAt_desc (orderBy_createdAt_desc rows).
Proof. apply StronglySorted_merge_sort; apply _. Qed.

Lemma orderBy_perm (rows : list Coffee) :
  orderBy_createdAt_desc rows ≡ₚ rows.
Proof. apply merge_sort_Permutation. Qed.

Lemma orderBy_length (rows : list Coffee) :
  length (orderBy_createdAt_desc rows) = length rows.
Proof. by rewrite orderBy_perm. Qed.

(** A row of another owner does not match [where: id, userId]. *)
Lemma no_row_for_other_user (db : DB) (c : Coffee) (other : string) :
  Consistent db → c ∈ coffees db → other ≠ coffee_userId c →
  ∀ x, x ∈ coffees db →
    ¬ (coffee_id x = coffee_id c ∧ coffee_userId x = other).
Proof.
  intros (_ & _ & _ & _ & Hpk & _) Hc Hne x Hx [Hid Hown].
  apply Hne. rewrite <- Hown. f_equal.
  by apply (unique_column coffee_id (coffees db)).
Qed.

Lemma set_coffees_same (db : DB) : set_coffees (coffees db) db = db.
Proof. by destruct db. Qed.

Lemma delete_nothing (db : DB) (id uid : string) :
  (∀ x, x ∈ coffees db → ¬ (coffee_id x = id ∧ coffee_userId x = uid)) →
  deleteCoffee id uid db = (Ok 0, db).
Proof.
  intros Hno. unfold deleteCoffee, coffee_deleteMany.
  rewrite filter_none by done. rewrite filter_all by done.
  by rewrite set_coffees_same.
Qed.

Lemma update_nothing (db : DB) (id uid : string) (d : CoffeeData) (stamp : Z) :
  (∀ x, x ∈ coffees db → ¬ (coffee_id x = id ∧ coffee_userId x = uid)) →
  updateCoffee id d uid stamp db = (Throw RecordNotFound, db).
Proof.
  intros Hno. unfold updateCoffee, coffee_update.
  by rewrite filter_none.
Qed.

Lemma get_nothing (db : DB) (id uid : string) :
  (∀ x, x ∈ coffees db → ¬ (coffee_id x = id ∧ coffee_userId x = uid)) →
  getCoffee id uid db = (Ok None, db).
Proof.
  intros Hno. unfold getCoffee, coffee_findFirst, gets.
  by rewrite filter_none.
Qed.

End CoffeeFacts.

Module CoffeeClaims.
Import Prisma Schema CoffeeModel Facts CoffeeFacts.
Import Samples.

(** C9. On a store that meets the schema, for a coffee row [c] and a user id
    other than its owner's: deleteCoffee with that user id deletes zero rows,
    updateCoffee with it is rejected as record-not-found, getCoffee finds
    nothing, and all three leave the whole store as it was; each of them
    answers exactly as it does for an id that no row has, so a foreign row and
    a missing row cannot be told apart. *)
Theorem C9_scoped_by_owner (db : DB) (c : Coffee) (other : string)
    (d : CoffeeData) (stamp : Z) :
  Consistent db → c ∈ coffees db → other ≠ coffee_userId c →
  deleteCoffee (coffee_id c) other db = (Ok 0, db) ∧
  updateCoffee (coffee_id c) d other stamp db = (Throw RecordNotFound, db) ∧
  getCoffee (coffee_id c) other db = (Ok None, db) ∧
  ∀ missing, (∀ x, x ∈ coffees db → coffee_id x ≠ missing) →
    deleteCoffee missing other db = deleteCoffee (coffee_id c) other db ∧
    updateCoffee missing d other stamp db
      = updateCoffee (coffee_id c) d other stamp db ∧
    getCoffee missing other db = getCoffee (coffee_id c) other db.
Proof.
  intros Hc Hin Hne.
  pose proof (no_row_for_other_user db c other Hc Hin Hne) as Hno.
  rewrite !delete_nothing, !update_nothing, !get_nothing by done.
  split_and!; try done.
  intros missing Hmiss.
  assert (Hno' : ∀ x, x ∈ coffees db →
            ¬ (coffee_id x = missing ∧ coffee_userId x = other)).
  { intros x Hx [Hid _]. by apply (Hmiss x). }
  by rewrite delete_nothing, update_nothing, get_nothing.
Qed.

(** Bob tries to delete and to overwrite Alice's entry. *)
Lemma C9_scoped_by_owner_witness :
  Consistent sample_db ∧
  deleteCoffee "c1" "u2" sample_db = (Ok 0, sample_db) ∧
  updateCoffee "c1" sample_data "u2" 9000 sample_db
    = (Throw RecordNotFound, sample_db).
Proof.
  assert (Hc : Consistent sample_db) by by apply (bool_decide_unpack _).
  split; [exact Hc|].
  destruct (C9_scoped_by_owner sample_db flat_white "u2" sample_data 9000 Hc)
    as (Hdel & Hupd & _).
  - by left.
  - discriminate.
  - by split.
Defined.

(** C4, as amended.  For every user, page [p ≥ 1] and page size [pp ≥ 1],
    with N the number of the user's rows: the call returns; totalItems is N;
    totalPages is the ceiling of N / pp, the least T with N ≤ T * pp;
    currentPage is p and perPage is pp; the items are the [p]-th block of
    [pp] rows of the user's rows ordered by createdAt descending, at most pp
    of them; a page before the last is full, the last page holds
    N - (totalPages - 1) * pp rows, a page past the last is empty;
    hasNextPage is false exactly when p ≥ totalPages, that is on the last
    page and on every page past it; hasPrevPage is false exactly on page 1. *)
Theorem C4_pagination (userId : string) (p pp : Z) (db : DB) :
  1 ≤ p → 1 ≤ pp →
  let mine := owned_by userId (coffees db) in
  let ordered := orderBy_createdAt_desc mine in
  let N := Z.of_nat (length mine) in
  ∃ r, getCoffeeListItemsPaginated userId (Some p) (Some pp) db = (Ok r, db) ∧
    ordered ≡ₚ mine ∧ StronglySorted createdAt_desc ordered ∧
    totalItems (pagination r) = N ∧
    totalPages (pagination r) = Math_ceil_div N pp ∧
    (totalPages (pagination r) - 1) * pp < N ≤ totalPages (pagination r) * pp ∧
    currentPage (pagination r) = p ∧
    perPage (pagination r) = pp ∧
    items r = firstn (Z.to_nat pp) (skipn (Z.to_nat ((p - 1) * pp)) ordered) ∧
    Z.of_nat (length (items r)) ≤ pp ∧
    (p < totalPages (pagination r) → Z.of_nat (length (items r)) = pp) ∧
    (p = totalPages (pagination r) →
       Z.of_nat (length (items r)) = N - (totalPages (pagination r) - 1) * pp) ∧
    (totalPages (pagination r) < p → items r = []) ∧
    (hasNextPage (pagination r) = false ↔ totalPages (pagination r) ≤ p) ∧
    (hasPrevPage (pagination r) = false ↔ p = 1).
Proof.
  intros Hp Hpp mine ordered N.
  pose proof (Math_ceil_div_bounds N pp Hpp) as Hbounds.
  assert (Hlen : length ordered = length mine) by apply orderBy_length.
  assert (Hskip : ((p - 1) * pp <? 0) = false) by (apply Z.ltb_ge; nia).
  assert (Htake : (pp <? 0) = false) by (apply Z.ltb_ge; lia).
  eexists. split.
  { unfold getCoffeeListItemsPaginated, bind, coffee_count, gets,
      coffee_findMany_page, skip_take, ret. simpl.
    rewrite Hskip, Htake. reflexivity. }
  simpl. fold mine ordered N.
  set (T := Math_ceil_div N pp) in *.
  assert (Hitems : Z.of_nat (length (firstn (Z.to_nat pp)
              (skipn (Z.to_nat ((p - 1) * pp)) ordered)))
            = Z.min pp (Z.max 0 (N - (p - 1) * pp))).
  { rewrite length_take, length_drop, Hlen. subst N. nia. }
  split_and!; try done.
  - apply orderBy_perm.
  - apply orderBy_sorted.
  - lia.
  - lia.
  - lia.
  - intros Hlt. nia.
  - intros ->. nia.
  - intros Hgt. apply nil_length_inv. nia.
  - rewrite Z.ltb_ge. done.
  - rewrite Z.gtb_ltb, Z.ltb_ge. lia.
Qed.

(** The scenario of twenty-five entries: page 3 of 10 per page. *)
Lemma C4_pagination_witness :
  ∃ r, getCoffeeListItemsPaginated "u1" (Some 3) (Some 10) diary_db
         = (Ok r, diary_db) ∧
       totalItems (pagination r) = 25 ∧
       totalPages (pagination r) = 3 ∧
       Z.of_nat (length (items r)) = 5 ∧
       hasNextPage (pagination r) = false ∧
       hasPrevPage (pagination r) = true.
Proof.
  destruct (C4_pagination "u1" 3 10 diary_db ltac:(lia) ltac:(lia))
    as (r & Hr & _ & _ & Hitems & Hpages & _ & _ & _ & _ & _ & _ & Hlast & _
          & Hnext & Hprev).
  assert (HT : totalPages (pagination r) = 3).
  { rewrite Hpages. vm_compute. reflexivity. }
  exists r. split; [exact Hr|]. split; [exact Hitems|]. split; [exact HT|].
  split.
  - rewrite Hlast by (by rewrite HT). rewrite HT. vm_compute. reflexivity.
  - split.
    + apply Hnext. rewrite HT. lia.
    + destruct (hasPrevPage (pagination r)); [reflexivity|].
      exfalso. assert (3 = 1) by (by apply Hprev). lia.
Defined.

(** The claim as written has hasNextPage false only on the last page.  With
    one entry and ten per page there is one page; page 2 is past it, and
    hasNextPage is false there as well. *)
Lemma C4_pagination_counterexample :
  ¬ (∀ (userId : string) (p pp : Z) (db : DB) (r : PaginatedCoffees),
       1 ≤ p → 1 ≤ pp →
       getCoffeeListItemsPaginated userId (Some p) (Some pp) db = (Ok r, db) →
       hasNextPage (pagination r) = false →
       p = totalPages (pagination r)).
Proof.
  intros Hclaim.
  specialize (Hclaim "u1" 2 10 sample_db _ ltac:(lia) ltac:(lia) eq_refl eq_refl).
  vm_compute in Hclaim. discriminate.
Qed.

End CoffeeClaims.

(* ===================================================================== *)
(** * Login and the request-reset action *)
(* ===================================================================== *)

Module LoginClaims.
Import Prisma Schema UserModel ForgotPassword Trace Facts TokenFacts IssueFacts.
Import Samples.

Lemma verifyLogin_unfold `{Bcrypt} (email password : string) (db : DB) :
  verifyLogin email password db =
  (Ok match findUnique (λ u, user_email u = email) (users db) with
      | None => LoginNull
      | Some u =>
          match findUnique (λ p, pw_userId p = user_id u) (passwords db) with
          | None => LoginNull
          | Some pw =>
              if negb (user_isVerified u) then LoginNeedsVerification
              else if negb (bcrypt_compare password (pw_hash pw)) then LoginNull
              else LoginUser u
          end
      end, db).
Proof.
  unfold verifyLogin, bind, user_findUnique_email_include_password, gets, ret.
  destruct (findUnique _ (users db)) as [u|]; [|done].
  destruct (findUnique _ (passwords db)) as [pw|]; [|done].
  destruct (negb (user_isVerified u)); [done|].
  by destruct (negb (bcrypt_compare _ _)).
Qed.

(** C5. On a store that meets the schema, verifyLogin leaves the store alone
    and returns: null when no user has the e-mail address; null when the user
    has no password row; the needs-verification value when the user has a
    password row and isVerified is false, whatever the password; null when
    the user is verified and the password does not compare equal to the
    stored hash; the user row when it does.  The value returned on success is
    a [User], a record with no password field; and the needs-verification
    value is neither null nor a user. *)
Theorem C5_verifyLogin `{Bcrypt} (email password : string) (db : DB) :
  Consistent db →
  ((∀ u, u ∈ users db → user_email u ≠ email) →
     verifyLogin email password db = (Ok LoginNull, db)) ∧
  (∀ u, u ∈ users db → user_email u = email →
     ((∀ p, p ∈ passwords db → pw_userId p ≠ user_id u) →
        verifyLogin email password db = (Ok LoginNull, db)) ∧
     (∀ pw, pw ∈ passwords db → pw_userId pw = user_id u →
        (user_isVerified u = false →
           verifyLogin email password db = (Ok LoginNeedsVerification, db)) ∧
        (user_isVerified u = true →
           bcrypt_compare password (pw_hash pw) = false →
           verifyLogin email password db = (Ok LoginNull, db)) ∧
        (user_isVerified u = true →
           bcrypt_compare password (pw_hash pw) = true →
           verifyLogin email password db = (Ok (LoginUser u), db)))) ∧
  LoginNeedsVerification ≠ LoginNull ∧
  (∀ u, LoginNeedsVerification ≠ LoginUser u).
Proof.
  intros ((Hid & Hem) & (Hpw & _) & _).
  split_and!; try done.
  - intros Hno. rewrite verifyLogin_unfold.
    by rewrite (proj2 (findUnique_None (λ u, user_email u = email) _)).
  - intros u Hu Hmail. split.
    + intros Hnopw. rewrite verifyLogin_unfold.
      rewrite (findUnique_unique user_email _ u) by done.
      by rewrite (proj2 (findUnique_None (λ p, pw_userId p = user_id u) _)).
    + intros pw Hin Hown. rewrite verifyLogin_unfold.
      rewrite (findUnique_unique user_email _ u) by done.
      rewrite (findUnique_unique pw_userId _ pw) by done.
      split_and!.
      * by intros ->.
      * by intros -> ->.
      * by intros -> ->.
Qed.

(** Bob has not confirmed his address; Alice has. *)
Lemma C5_verifyLogin_witness :
  Consistent sample_db ∧
  verifyLogin (H := toy_bcrypt) "bob@example.com" "mocha" sample_db
    = (Ok LoginNeedsVerification, sample_db) ∧
  verifyLogin (H := toy_bcrypt) "alice@example.com" "latte" sample_db
    = (Ok (LoginUser alice), sample_db) ∧
  verifyLogin (H := toy_bcrypt) "alice@example.com" "mocha" sample_db
    = (Ok LoginNull, sample_db) ∧
  verifyLogin (H := toy_bcrypt) "carol@example.com" "latte" sample_db
    = (Ok LoginNull, sample_db).
Proof.
  assert (Hc : Consistent sample_db) by by apply (bool_decide_unpack _).
  split; [exact Hc|].
  destruct (C5_verifyLogin (H := toy_bcrypt) "bob@example.com" "mocha" sample_db Hc)
    as (_ & Hbob & _).
  destruct (Hbob bob ltac:(right; left) eq_refl) as [_ Hbob'].
  destruct (Hbob' bob_password ltac:(right; left) eq_refl) as (Hunverified & _).
  destruct (C5_verifyLogin (H := toy_bcrypt) "alice@example.com" "latte" sample_db Hc)
    as (_ & Halice & _).
  destruct (Halice alice ltac:(left) eq_refl) as [_ Halice'].
  destruct (Halice' alice_password ltac:(left) eq_refl) as (_ & _ & Hgood).
  destruct (C5_verifyLogin (H := toy_bcrypt) "alice@example.com" "mocha" sample_db Hc)
    as (_ & Hwrong & _).
  destruct (Hwrong alice ltac:(left) eq_refl) as [_ Hwrong'].
  destruct (Hwrong' alice_password ltac:(left) eq_refl) as (_ & Hbad & _).
  destruct (C5_verifyLogin (H := toy_bcrypt) "carol@example.com" "latte" sample_db Hc)
    as (Hnone & _).
  split; [by apply Hunverified|].
  split; [by apply Hgood|].
  split; [by apply Hbad|].
  apply Hnone. intros u Hu.
  repeat (apply elem_of_cons in Hu as [->|Hu]); [discriminate..|].
  by apply elem_of_nil in Hu.
Defined.

End LoginClaims.

Module ForgotPasswordClaims.
Import Prisma Schema UserModel ForgotPassword Trace Facts TokenFacts IssueFacts.
Import Samples.

Section Action.
Context {tz : TimeZone} (validateEmail : string → bool).

Lemma action_unknown_email (env : MailEnv) (email : string) (now : Z)
    (token : string) (stamp : Z) (db : DB) :
  validateEmail email = true →
  (∀ u, u ∈ users db → user_email u ≠ email) →
  action validateEmail env (FormString email) now token stamp db
    = (Ok success_response, db).
Proof.
  intros Hvalid Hno. unfold action. rewrite Hvalid. simpl.
  unfold bind, getUserByEmail, user_findUnique_email, gets.
  by rewrite (proj2 (findUnique_None (λ u, user_email u = email) _)).
Qed.

Lemma action_known_email (env : MailEnv) (u : User) (now : Z)
    (token : string) (stamp : Z) (db : DB) :
  validateEmail (user_email u) = true →
  Consistent db → u ∈ users db →
  (∀ r, r ∈ passwordResets db → tok_token r ≠ token) →
  fst (action validateEmail env (FormString (user_email u)) now token stamp db)
    = Ok (if sendPasswordResetEmail env u token then success_response
          else mkResponse 500 "error" None
                 (Some "Failed to send reset email. Please try again.")).
Proof.
  intros Hvalid Hc Hu Hfresh. unfold action. rewrite Hvalid. simpl.
  unfold bind at 1. unfold getUserByEmail, user_findUnique_email, gets.
  rewrite (findUnique_unique user_email _ u);
    [|by destruct Hc as ((_ & ?) & _)|done..].
  unfold bind.
  pose proof (issueToken_fresh PasswordResetK u now token stamp db Hc Hu Hfresh)
    as Hissue.
  simpl in Hissue. rewrite Hissue. simpl.
  by destruct (sendPasswordResetEmail env u token).
Qed.

(** When the reset e-mail goes out, the answer is the same whether or not
    the address belongs to an account. *)
Lemma action_uniform_when_mail_is_sent (env : MailEnv) (u : User)
    (unknown : string) (now : Z) (token : string) (stamp : Z) (db : DB) :
  validateEmail (user_email u) = true → validateEmail unknown = true →
  Consistent db → u ∈ users db →
  (∀ x, x ∈ users db → user_email x ≠ unknown) →
  (∀ r, r ∈ passwordResets db → tok_token r ≠ token) →
  sendPasswordResetEmail env u token = true →
  fst (action validateEmail env (FormString (user_email u)) now token stamp db)
    = fst (action validateEmail env (FormString unknown) now token stamp db).
Proof.
  intros Hv1 Hv2 Hc Hu Hun Hfresh Hsent.
  rewrite action_known_email, action_unknown_email by done.
  by rewrite Hsent.
Qed.

(** When it does not, the two answers differ. *)
Lemma action_reveals_when_mail_fails (env : MailEnv) (u : User)
    (unknown : string) (now : Z) (token : string) (stamp : Z) (db : DB) :
  validateEmail (user_email u) = true → validateEmail unknown = true →
  Consistent db → u ∈ users db →
  (∀ x, x ∈ users db → user_email x ≠ unknown) →
  (∀ r, r ∈ passwordResets db → tok_token r ≠ token) →
  sendPasswordResetEmail env u token = false →
  fst (action validateEmail env (FormString (user_email u)) now token stamp db)
    ≠ fst (action validateEmail env (FormString unknown) now token stamp db).
Proof.
  intros Hv1 Hv2 Hc Hu Hun Hfresh Hsent.
  rewrite action_known_email, action_unknown_email by done.
  by rewrite Hsent.
Qed.

End Action.

(** C6.  With no mail API key configured, a request for Alice's address, which
    has an account, is answered with status 500 and an error, while a request
    for an address without an account is answered with the generic success
    message: the two answers differ, so the answer tells whether the account
    exists.  The time zone of the process plays no part. *)
Theorem C6_mail_failure_reveals_account {tz : TimeZone} :
  fst (action accept_all mail_down (FormString "alice@example.com")
         2000 "t2" 2000 sample_db)
    = Ok (mkResponse 500 "error" None
            (Some "Failed to send reset email. Please try again.")) ∧
  fst (action accept_all mail_down (FormString "nobody@example.com")
         2000 "t2" 2000 sample_db)
    = Ok (mkResponse 200 "success"
            (Some "If your email exists in our system, you will receive a password reset link.")
            None).
Proof. split; vm_compute; reflexivity. Qed.

End ForgotPasswordClaims.

(* ===================================================================== *)
(** * Accounts: creation, confirmation, deletion *)
(* ===================================================================== *)

Module AccountFacts.
Import Prisma Schema UserModel Trace Facts TokenFacts IssueFacts Preservation.
Import LoginClaims More.

Lemma no_password_without_user (db : DB) (id : string) :
  Consistent db → (∀ u, u ∈ users db → user_id u ≠ id) →
  ∀ p, p ∈ passwords db → pw_userId p ≠ id.
Proof.
  intros (_ & (_ & Hfk) & _) Hfresh p Hp Hid.
  rewrite Forall_forall in Hfk.
  pose proof (Hfk (pw_userId p) (list_elem_of_fmap_2 _ _ _ Hp)) as Hu.
  apply list_elem_of_fmap in Hu as (u & Eu & Hu). apply (Hfresh u Hu). congruence.
Qed.

(** user.create succeeds on a fresh id and e-mail address. *)
Lemma user_create_fresh (db : DB) (id : string) (stamp : Z) (email : string)
    (n s a f : option string) (v : bool) (hash : string) :
  Consistent db →
  (∀ u, u ∈ users db → user_id u ≠ id) →
  (∀ u, u ∈ users db → user_email u ≠ email) →
  user_create id stamp email n s a f v hash db =
    (Ok (mkUser id email n s a f v stamp stamp),
     set_passwords (passwords db ++ [mkPassword hash id])
       (set_users (users db ++ [mkUser id email n s a f v stamp stamp]) db)).
Proof.
  intros Hc Hid Hem. unfold user_create.
  rewrite (proj2 (has_row_false (λ u, user_id u = id) _)) by done.
  rewrite (proj2 (has_row_false (λ u, user_email u = email) _)) by done.
  rewrite (proj2 (has_row_false (λ p, pw_userId p = id) _));
    [done|by apply no_password_without_user].
Qed.

(** user.create refuses an id or an e-mail address that is taken. *)
Lemma user_create_taken (db : DB) (id : string) (stamp : Z) (email : string)
    (n s a f : option string) (v : bool) (hash : string) (u : User) :
  u ∈ users db → user_id u = id ∨ user_email u = email →
  user_create id stamp email n s a f v hash db = (Throw UniqueConstraintFailed, db).
Proof.
  intros Hu Htaken. unfold user_create.
  destruct Htaken as [Hid|Hem].
  - by rewrite (proj2 (has_row_true (λ u, user_id u = id) _)) by eauto.
  - rewrite (proj2 (has_row_true (λ u, user_email u = email) _)) by eauto.
    by rewrite orb_true_r.
Qed.

Lemma findUnique_snoc_new {A} (P : A → Prop) `{∀ x, Decision (P x)}
    (tbl : list A) (x : A) :
  (∀ y, y ∈ tbl → ¬ P y) → P x → findUnique P (tbl ++ [x]) = Some x.
Proof.
  intros Hno HP. unfold findUnique. rewrite filter_app, filter_none by done.
  simpl. by rewrite filter_cons_True.
Qed.

Lemma findUnique_snoc_old {A} (P : A → Prop) `{∀ x, Decision (P x)}
    (tbl : list A) (x : A) :
  ¬ P x → findUnique P (tbl ++ [x]) = findUnique P tbl.
Proof.
  intros HP. unfold findUnique. rewrite filter_app.
  rewrite (filter_none P [x]); [by rewrite app_nil_r|].
  intros y Hy. by apply list_elem_of_singleton in Hy as ->.
Qed.

Lemma findUnique_fmap {A K} `{EqDecision K} (f : A → K) (g : A → A)
    (k : K) (tbl : list A) :
  (∀ x, f (g x) = f x) →
  findUnique (λ x, f x = k) (g <$> tbl) = g <$> findUnique (λ x, f x = k) tbl.
Proof.
  intros Hg. unfold findUnique.
  induction tbl as [|x l IH]; [done|].
  rewrite fmap_cons, !filter_cons, Hg.
  destruct (decide (f x = k)); [done|exact IH].
Qed.

(** A live confirmation token: the user's row is marked verified, the token
    row is removed. *)
Lemma confirmUserEmail_live (token : string) (now stamp : Z) (db : DB)
    (row : TokenRow) :
  Inv db → row ∈ emailConfirmations db → tok_token row = token →
  now ≤ tok_expiresAt row →
  ∃ u, u ∈ users db ∧ user_id u = tok_userId row ∧
       confirmUserEmail token now stamp db =
         (Ok (Some (user_set_verified stamp u)),
          set_tokens EmailConfirmationK
            (filter (λ r, tok_token r ≠ token) (emailConfirmations db))
            (set_users (mark_verified (user_id u) stamp <$> users db) db)).
Proof.
  intros [Hc Hacc] Hrow Ht Hlive.
  destruct (verifyToken_live EmailConfirmationK token now db row Hc Hrow Ht Hlive)
    as (u & Hu & Hid & Hv).
  exists u. split; [done|]. split; [done|].
  unfold confirmUserEmail, bind. simpl in Hv. rewrite Hv.
  unfold user_update_verified. rewrite <- Hid.
  rewrite (findUnique_unique user_id _ u); [|by destruct Hc as ((? & _) & _)|done..].
  unfold token_delete. simpl.
  by rewrite (findUnique_unique tok_token _ row);
    [|apply (tokens_ok db EmailConfirmationK Hc)|..].
Qed.

(** A live reset token: the owner's password row gets the new hash, the
    token row is removed. *)
Lemma resetPassword_live `{Bcrypt} (token newPassword : string) (now : Z)
    (salt : string) (db : DB) (row : TokenRow) :
  Inv db → row ∈ passwordResets db → tok_token row = token →
  now ≤ tok_expiresAt row →
  ∃ u, u ∈ users db ∧ user_id u = tok_userId row ∧
       resetPassword token newPassword now salt db =
         (Ok (Some u),
          set_tokens PasswordResetK
            (filter (λ r, tok_token r ≠ token) (passwordResets db))
            (set_passwords
               (set_hash (user_id u) (bcrypt_hash newPassword salt) <$> passwords db)
               db)).
Proof.
  intros HI Hrow Ht Hlive. pose proof HI as [Hc Hacc].
  destruct (verifyToken_live PasswordResetK token now db row Hc Hrow Ht Hlive)
    as (u & Hu & Hid & Hv).
  exists u. split; [done|]. split; [done|].
  unfold resetPassword, bind. simpl in Hv. rewrite Hv.
  unfold password_update_hash. rewrite <- Hid.
  destruct (account_password db u HI Hu) as (p & ->).
  unfold token_delete. simpl.
  by rewrite (findUnique_unique tok_token _ row);
    [|apply (tokens_ok db PasswordResetK Hc)|..].
Qed.

(** The password row of a user after password.update on [uid]. *)
Lemma findUnique_set_hash (uid hash id : string) (ps : list Password) :
  findUnique (λ p, pw_userId p = id) (set_hash uid hash <$> ps)
  = set_hash uid hash <$> findUnique (λ p, pw_userId p = id) ps.
Proof.
  apply (findUnique_fmap pw_userId). intros x. unfold set_hash.
  by destruct (decide _).
Qed.

(** A token of a deleted or re-issued user is no longer in a table that
    keeps only the rows of other users. *)
Lemma token_not_among_others (ts : list TokenRow) (old : TokenRow) (uid : string) :
  NoDup (tok_token <$> ts) → old ∈ ts → tok_userId old = uid →
  ∀ r, r ∈ filter (λ t, tok_userId t ≠ uid) ts → tok_token r ≠ tok_token old.
Proof.
  intros Hnd Hold Huid r Hr Ht.
  apply list_elem_of_filter in Hr as [Hne Hr].
  apply Hne. by rewrite (unique_column tok_token ts r old).
Qed.

(** resendEmailConfirmation, case by case. *)
Lemma resend_unknown {tz : TimeZone} (email : string) (now : Z) (token : string) (stamp : Z)
    (db : DB) :
  (∀ u, u ∈ users db → user_email u ≠ email) →
  resendEmailConfirmation email now token stamp db = (Ok ResendNull, db).
Proof.
  intros Hno. unfold resendEmailConfirmation, bind, getUserByEmail,
    user_findUnique_email, gets.
  by rewrite (proj2 (findUnique_None (λ u, user_email u = email) (users db))).
Qed.

Lemma resend_verified {tz : TimeZone} (u : User) (now : Z) (token : string)
    (stamp : Z) (db : DB) :
  Consistent db → u ∈ users db → user_isVerified u = true →
  resendEmailConfirmation (user_email u) now token stamp db
    = (Ok ResendAlreadyVerified, db).
Proof.
  intros Hc Hu Hver. destruct (users_ok db Hc) as [_ Hems].
  unfold resendEmailConfirmation, bind, getUserByEmail, user_findUnique_email, gets.
  rewrite (findUnique_unique user_email _ u) by done. by rewrite Hver.
Qed.

Lemma resend_unverified {tz : TimeZone} (u : User) (now : Z) (token : string)
    (stamp : Z) (db : DB) :
  Consistent db → u ∈ users db → user_isVerified u = false →
  (∀ r, r ∈ emailConfirmations db → tok_token r ≠ token) →
  resendEmailConfirmation (user_email u) now token stamp db
    = (Ok (ResendCreated u (mkTokenRow token stamp (expiry EmailConfirmationK now)
                              (user_id u))),
       set_tokens EmailConfirmationK
         (filter (λ t, tok_userId t ≠ user_id u) (emailConfirmations db)
            ++ [mkTokenRow token stamp (expiry EmailConfirmationK now) (user_id u)])
         db).
Proof.
  intros Hc Hu Hver Hfresh. destruct (users_ok db Hc) as [_ Hems].
  pose proof (issueToken_fresh EmailConfirmationK u now token stamp db
                Hc Hu Hfresh) as Hissue.
  change (issueToken EmailConfirmationK u now token stamp db)
    with (createEmailConfirmationToken (user_id u) now token stamp db) in Hissue.
  unfold resendEmailConfirmation. unfold bind at 1.
  unfold getUserByEmail at 1, user_findUnique_email, gets.
  rewrite (findUnique_unique user_email _ u) by done. rewrite Hver.
  cbv beta iota. unfold bind at 1. rewrite Hissue. reflexivity.
Qed.

End AccountFacts.

Module AccountExtras.
Import Prisma Schema UserModel Trace Facts TokenFacts IssueFacts Preservation.
Import LoginClaims More ClockFacts AccountFacts Samples.

Ltac row_in := repeat first [by left | right].
Ltac each_row H :=
  repeat (apply elem_of_cons in H as [->|H]); [..|by apply elem_of_nil in H].
Ltac by_decision := by apply (bool_decide_unpack _).

(** Along any sequence of calls into the two model files and the reset
    action, started in a store that meets the schema constraints and in which
    every user has a password row, the store keeps meeting them, whether the
    calls return or throw; the empty store is such a start. *)
Theorem invariants_hold_along_any_run `{Bcrypt} {tz : TimeZone}
    (validateEmail : string → bool) (cs : list call) (db : DB) :
  Inv db →
  Inv (run validateEmail cs db) ∧ Inv (run validateEmail cs empty_db).
Proof.
  intros HI. split; [by apply preserves_run|].
  apply preserves_run, Inv_empty.
Qed.

Lemma invariants_hold_along_any_run_witness :
  Inv (run (H := toy_bcrypt) (tz := new_york) accept_all
         [CreateUser "carol@example.com" "ristretto" None None None None "s3" "u3" 50;
          CreatePasswordResetToken "carol@example.com" 60 "t1" 60;
          CreatePasswordResetToken "carol@example.com" 70 "t7" 70;
          DeleteUserByEmail "alice@example.com";
          ResetPassword "t7" "lungo" 80 "s4"]
         sample_db).
Proof.
  apply (invariants_hold_along_any_run (H := toy_bcrypt) (tz := new_york)).
  by_decision.
Defined.

(** confirmUserEmail on a store that meets the invariants.  With a stored,
    unexpired token it returns the token's user with isVerified set, that
    user's row is replaced by the returned one, the token is removed, and the
    other tables are as before.  With no such token it returns null and the
    store is untouched; with an expired one it returns null and no user row
    changes. *)
Theorem confirmUserEmail_outcomes (token : string) (now stamp : Z) (db : DB) :
  Inv db →
  (∀ row, row ∈ emailConfirmations db → tok_token row = token →
     now ≤ tok_expiresAt row →
     ∃ u db', u ∈ users db ∧ user_id u = tok_userId row ∧
       confirmUserEmail token now stamp db
         = (Ok (Some (user_set_verified stamp u)), db') ∧
       user_isVerified (user_set_verified stamp u) = true ∧
       users db' = mark_verified (user_id u) stamp <$> users db ∧
       findUnique (λ x, user_id x = user_id u) (users db')
         = Some (user_set_verified stamp u) ∧
       (∀ r, r ∈ emailConfirmations db' → tok_token r ≠ token) ∧
       passwords db' = passwords db ∧ passwordResets db' = passwordResets db ∧
       coffees db' = coffees db) ∧
  ((∀ row, row ∈ emailConfirmations db → tok_token row ≠ token) →
     confirmUserEmail token now stamp db = (Ok None, db)) ∧
  (∀ row, row ∈ emailConfirmations db → tok_token row = token →
     tok_expiresAt row < now →
     fst (confirmUserEmail token now stamp db) = Ok None ∧
     users (snd (confirmUserEmail token now stamp db)) = users db).
Proof.
  intros HI. pose proof HI as [Hc Hacc]. split_and!.
  - intros row Hrow Ht Hlive.
    destruct (confirmUserEmail_live token now stamp db row HI Hrow Ht Hlive)
      as (u & Hu & Hid & Hconfirm).
    exists u. eexists. split_and!; [done|done|exact Hconfirm|done|done| |
                                     |done|done|done].
    + simpl. rewrite (findUnique_fmap user_id).
      * rewrite (findUnique_unique user_id _ u);
          [|by destruct Hc as ((? & _) & _)|done..].
        simpl. unfold mark_verified. by rewrite decide_True.
      * intros x. unfold mark_verified. by destruct (decide _).
    + simpl. intros r Hr. by apply list_elem_of_filter in Hr as [? _].
  - intros Habs. unfold confirmUserEmail, bind.
    pose proof (verifyToken_absent EmailConfirmationK token now db Habs) as Hv.
    simpl in Hv. by rewrite Hv.
  - intros row Hrow Ht Hexp. unfold confirmUserEmail, bind.
    pose proof (verifyToken_expired EmailConfirmationK token now db row Hc Hrow Ht Hexp)
      as Hv.
    simpl in Hv. by rewrite Hv.
Qed.

Lemma confirmUserEmail_outcomes_witness :
  Inv sample_db ∧
  ∃ u db', confirmUserEmail "e1" 5000 5001 sample_db = (Ok (Some u), db') ∧
           user_isVerified u = true ∧
           (∀ r, r ∈ emailConfirmations db' → tok_token r ≠ "e1") ∧
           passwords db' = passwords sample_db.
Proof.
  assert (HI : Inv sample_db) by by_decision.
  split; [exact HI|].
  destruct (confirmUserEmail_outcomes "e1" 5000 5001 sample_db HI) as (Hlive & _).
  destruct (Hlive bob_confirmation ltac:(row_in) eq_refl ltac:(simpl; lia))
    as (u & db' & Hu & Hid & Hconfirm & Hver & _ & _ & Hgone & Hpw & _).
  exists (user_set_verified 5001 u), db'.
  split; [exact Hconfirm|]. split; [exact Hver|]. split; [exact Hgone|exact Hpw].
Defined.

(** A stand-in hash that is sound in the sense of [bcrypt_sound]. *)
Lemma toy_bcrypt_sound : bcrypt_sound (H := toy_bcrypt).
Proof.
  intros password salt. simpl.
  induction password as [|c p IH]; simpl.
  - by destruct (_ +:+ salt).
  - destruct (Ascii.ascii_dec c c); [exact IH|done].
Qed.

(** createUser and createUnverifiedUser on a store that meets the schema.
    The two are the same function: the isVerified column defaults to false.
    When a user with the id or the e-mail address exists, the call throws a
    unique-constraint error and writes nothing.  Otherwise it appends one user
    row, not verified, and one password row holding the hash of the password,
    and a login with that e-mail address and password answers
    needs-verification. *)
Theorem createUser_outcomes `{Bcrypt} (email password : string)
    (n s a f : option string) (salt id : string) (stamp : Z) (db : DB) :
  Consistent db →
  createUser email password n s a f salt id stamp db
    = createUnverifiedUser email password n s a f salt id stamp db ∧
  (∀ u, u ∈ users db → user_id u = id ∨ user_email u = email →
     createUser email password n s a f salt id stamp db
       = (Throw UniqueConstraintFailed, db)) ∧
  ((∀ u, u ∈ users db → user_id u ≠ id ∧ user_email u ≠ email) →
     ∃ u db', createUser email password n s a f salt id stamp db = (Ok u, db') ∧
       u = mkUser id email n s a f false stamp stamp ∧
       users db' = (users db ++ [u])%list ∧
       passwords db' = (passwords db ++ [mkPassword (bcrypt_hash password salt) id])%list ∧
       passwordResets db' = passwordResets db ∧
       emailConfirmations db' = emailConfirmations db ∧
       coffees db' = coffees db ∧
       ∀ attempt, verifyLogin email attempt db' = (Ok LoginNeedsVerification, db')).
Proof.
  intros Hc. split_and!.
  - done.
  - intros u Hu Htaken. by eapply user_create_taken.
  - intros Hfresh.
    assert (Hid : ∀ u, u ∈ users db → user_id u ≠ id) by (intros u Hu; by apply Hfresh).
    assert (Hem : ∀ u, u ∈ users db → user_email u ≠ email)
      by (intros u Hu; by apply Hfresh).
    eexists. eexists. split; [by apply user_create_fresh|].
    split_and!; try done.
    intros attempt. rewrite verifyLogin_unfold. simpl.
    rewrite (findUnique_snoc_new (λ u, user_email u = email)) by done.
    simpl. rewrite (findUnique_snoc_new (λ p, pw_userId p = id)); [done| |done].
    by apply no_password_without_user.
Qed.

Lemma createUser_outcomes_witness :
  Consistent sample_db ∧
  createUser (H := toy_bcrypt) "alice@example.com" "ristretto" None None None None
    "s3" "u3" 50 sample_db = (Throw UniqueConstraintFailed, sample_db) ∧
  ∃ u db', createUser (H := toy_bcrypt) "carol@example.com" "ristretto" None None
             None None "s3" "u3" 50 sample_db = (Ok u, db') ∧
           verifyLogin (H := toy_bcrypt) "carol@example.com" "ristretto" db'
             = (Ok LoginNeedsVerification, db').
Proof.
  assert (Hc : Consistent sample_db) by by_decision.
  split; [exact Hc|].
  destruct (createUser_outcomes (H := toy_bcrypt) "alice@example.com" "ristretto"
              None None None None "s3" "u3" 50 sample_db Hc) as (_ & Htaken & _).
  split; [apply (Htaken alice); [row_in|by right]|].
  destruct (createUser_outcomes (H := toy_bcrypt) "carol@example.com" "ristretto"
              None None None None "s3" "u3" 50 sample_db Hc) as (_ & _ & Hfresh).
  destruct Hfresh as (u & db' & Hcreate & _ & _ & _ & _ & _ & _ & Hlogin).
  { intros u Hu. each_row Hu; by split. }
  exists u, db'. split; [exact Hcreate|apply Hlogin].
Defined.

(** From sign-up to login.  In any time zone, on a store that meets the
    invariants, with a sound hash, a new id, a new e-mail address and a new
    token: the account is created; login with its password answers
    needs-verification; the confirmation token is issued, and it expires at
    the time setHours(getHours() + 24) gives, which is twenty-four hours
    after the call where the zone's offset is the same at both ends;
    confirming it at any time up to its expiry returns the user with
    isVerified set; and login with the password then returns that same
    user. *)
Theorem signup_confirm_login `{Bcrypt} {tz : TimeZone} (email password : string)
    (n s a f : option string) (salt id : string) (stamp : Z)
    (now : Z) (token : string) (stamp1 now' stamp2 : Z) (db : DB) :
  Inv db → bcrypt_sound →
  (∀ u, u ∈ users db → user_id u ≠ id ∧ user_email u ≠ email) →
  (∀ r, r ∈ emailConfirmations db → tok_token r ≠ token) →
  now' ≤ setHours now (getHours now + 24) →
  ∃ u db1 row db2 u' db3,
    createUnverifiedUser email password n s a f salt id stamp db = (Ok u, db1) ∧
    verifyLogin email password db1 = (Ok LoginNeedsVerification, db1) ∧
    createEmailConfirmationToken (user_id u) now token stamp1 db1
      = (Ok (Some (u, row)), db2) ∧
    tok_expiresAt row = setHours now (getHours now + 24) ∧
    (steady now (24 * 60 * 60 * 1000) →
       tok_expiresAt row = now + 24 * 60 * 60 * 1000) ∧
    confirmUserEmail token now' stamp2 db2 = (Ok (Some u'), db3) ∧
    u' = user_set_verified stamp2 u ∧
    verifyLogin email password db3 = (Ok (LoginUser u'), db3).
Proof.
  intros HI Hsound Hfresh Htok Hnow. pose proof HI as [Hc Hacc].
  assert (Hid : ∀ u, u ∈ users db → user_id u ≠ id) by (intros u Hu; by apply Hfresh).
  assert (Hem : ∀ u, u ∈ users db → user_email u ≠ email)
    by (intros u Hu; by apply Hfresh).
  pose proof (user_create_fresh db id stamp email n s a f false
                (bcrypt_hash password salt) Hc Hid Hem) as Hcr.
  set (u := mkUser id email n s a f false stamp stamp) in *.
  set (db1 := set_passwords _ (set_users _ db)) in *.
  assert (HI1 : Inv db1).
  { pose proof (preserves_user_create id stamp email n s a f false
                  (bcrypt_hash password salt) db HI) as H1.
    by rewrite Hcr in H1. }
  assert (Hu1 : u ∈ users db1) by (simpl; rewrite elem_of_app; right; left).
  assert (Hpw : ∀ p, p ∈ passwords db → pw_userId p ≠ id)
    by by apply no_password_without_user.
  assert (Hlogin1 : verifyLogin email password db1 = (Ok LoginNeedsVerification, db1)).
  { rewrite verifyLogin_unfold. simpl.
    rewrite (findUnique_snoc_new (λ x, user_email x = email)) by done.
    simpl. by rewrite (findUnique_snoc_new (λ p, pw_userId p = id)). }
  assert (Htok1 : ∀ r, r ∈ tokens EmailConfirmationK db1 → tok_token r ≠ token)
    by done.
  pose proof (issueToken_fresh EmailConfirmationK u now token stamp1 db1
                (proj1 HI1) Hu1 Htok1) as Hissue.
  set (row := mkTokenRow token stamp1 (expiry EmailConfirmationK now) (user_id u)) in *.
  set (db2 := set_tokens EmailConfirmationK _ db1) in *.
  assert (HI2 : Inv db2).
  { pose proof (preserves_createEmailConfirmationToken (user_id u) now token
                  stamp1 db1 HI1) as H2.
    change (createEmailConfirmationToken (user_id u) now token stamp1 db1)
      with (issueToken EmailConfirmationK u now token stamp1 db1) in H2.
    by rewrite Hissue in H2. }
  assert (Hrow2 : row ∈ emailConfirmations db2).
  { subst db2. simpl. rewrite elem_of_app. right. left. }
  destruct (confirmUserEmail_live token now' stamp2 db2 row HI2 Hrow2 eq_refl)
    as (v & Hv & Hvid & Hconfirm).
  { done. }
  assert (v = u) as ->.
  { apply (unique_column user_id (users db2)); [|done|done|done].
    by destruct HI2 as [((? & _) & _) _]. }
  exists u, db1, row, db2, (user_set_verified stamp2 u). eexists.
  split_and!;
    [exact Hcr|exact Hlogin1|exact Hissue|done
    |exact (expiry_steady EmailConfirmationK now)|exact Hconfirm|done|].
  rewrite verifyLogin_unfold. simpl.
  rewrite (findUnique_fmap user_email);
    [|intros x; unfold mark_verified; by destruct (decide _)].
  rewrite (findUnique_snoc_new (λ x, user_email x = email)) by done.
  change (mark_verified id stamp2 <$> Some u)
    with (Some (mark_verified id stamp2 u)).
  unfold mark_verified at 1.
  rewrite (decide_True (P := user_id u = id)) by done. cbv beta iota.
  change (user_id (user_set_verified stamp2 u)) with id.
  rewrite (findUnique_snoc_new (λ p, pw_userId p = id)) by done.
  simpl. by rewrite Hsound.
Qed.

Lemma signup_confirm_login_witness :
  ∃ u db3, verifyLogin (H := toy_bcrypt) "carol@example.com" "ristretto" db3
             = (Ok (LoginUser u), db3) ∧
           user_email u = "carol@example.com" ∧ user_isVerified u = true.
Proof.
  destruct (signup_confirm_login (H := toy_bcrypt) (tz := utc) "carol@example.com"
              "ristretto" None None None None "s3" "u3" 50 60 "e3" 61 86400060
              86400061 sample_db)
    as (u & db1 & row & db2 & u' & db3 & Hcr & _ & _ & _ & _ & _ & Hu' & Hlogin).
  - by_decision.
  - apply toy_bcrypt_sound.
  - intros x Hx. each_row Hx; by split.
  - intros r Hr. each_row Hr. discriminate.
  - by vm_compute.
  - exists u', db3. split; [exact Hlogin|].
    assert (E : createUnverifiedUser (H := toy_bcrypt) "carol@example.com"
                  "ristretto" None None None None "s3" "u3" 50 sample_db
                = (Ok (mkUser "u3" "carol@example.com" None None None None false 50 50),
                   snd (createUnverifiedUser (H := toy_bcrypt) "carol@example.com"
                          "ristretto" None None None None "s3" "u3" 50 sample_db)))
      by (vm_compute; reflexivity).
    rewrite E in Hcr. injection Hcr as <- _. by rewrite Hu'.
Defined.

(** From a reset token to login.  On a store that meets the invariants, with
    a sound hash and a stored, unexpired reset token: resetPassword returns
    the token's user; login with that user's e-mail address and the new
    password then returns the user when the account is verified and the
    needs-verification value when it is not; a password that does not compare
    equal to the new hash is refused for a verified account; the same token
    cannot be used again, with any password at any time; and the login of
    every other user answers as before. *)
Theorem reset_then_login `{Bcrypt} (token newPassword : string) (now : Z)
    (salt : string) (db : DB) (row : TokenRow) :
  Inv db → bcrypt_sound →
  row ∈ passwordResets db → tok_token row = token → now ≤ tok_expiresAt row →
  ∃ u db', u ∈ users db ∧ user_id u = tok_userId row ∧
    resetPassword token newPassword now salt db = (Ok (Some u), db') ∧
    verifyLogin (user_email u) newPassword db'
      = (Ok (if user_isVerified u then LoginUser u else LoginNeedsVerification), db') ∧
    (∀ attempt, user_isVerified u = true →
       bcrypt_compare attempt (bcrypt_hash newPassword salt) = false →
       verifyLogin (user_email u) attempt db' = (Ok LoginNull, db')) ∧
    (∀ password' now' salt',
       resetPassword token password' now' salt' db' = (Ok None, db')) ∧
    (∀ v attempt, v ∈ users db → v ≠ u →
       fst (verifyLogin (user_email v) attempt db')
         = fst (verifyLogin (user_email v) attempt db)).
Proof.
  intros HI Hsound Hrow Ht Hlive. pose proof HI as [Hc Hacc].
  destruct (resetPassword_live token newPassword now salt db row HI Hrow Ht Hlive)
    as (u & Hu & Hid & Hreset).
  destruct (users_ok db Hc) as [Hids Hems].
  destruct (account_password db u HI Hu) as (p & Hp).
  pose proof (findUnique_Some _ _ _ Hp) as [Hpid _].
  exists u. eexists. split; [done|]. split; [done|]. split; [exact Hreset|].
  assert (Hrow' : findUnique (λ q, pw_userId q = user_id u)
                    (set_hash (user_id u) (bcrypt_hash newPassword salt) <$> passwords db)
                  = Some (mkPassword (bcrypt_hash newPassword salt) (user_id u))).
  { rewrite findUnique_set_hash, Hp. simpl. unfold set_hash.
    by rewrite decide_True. }
  split_and!.
  - rewrite verifyLogin_unfold. simpl.
    rewrite (findUnique_unique user_email _ u) by done.
    rewrite Hrow'. simpl. rewrite Hsound. by destruct (user_isVerified u).
  - intros attempt Hver Hbad. rewrite verifyLogin_unfold. simpl.
    rewrite (findUnique_unique user_email _ u) by done.
    rewrite Hrow'. simpl. by rewrite Hver, Hbad.
  - intros password' now' salt'. unfold resetPassword, bind.
    change (verifyPasswordResetToken token now')
      with (verifyToken PasswordResetK token now').
    rewrite verifyToken_absent; [done|].
    intros r Hr. by apply list_elem_of_filter in Hr as [? _].
  - intros v attempt Hv Hne. rewrite !verifyLogin_unfold. simpl.
    rewrite (findUnique_unique user_email _ v) by done.
    rewrite findUnique_set_hash.
    destruct (findUnique (λ p0, pw_userId p0 = user_id v) (passwords db))
      as [q|] eqn:Eq; [|done].
    apply findUnique_Some in Eq as [Hq _].
    change (set_hash (user_id u) (bcrypt_hash newPassword salt) <$> Some q)
      with (Some (set_hash (user_id u) (bcrypt_hash newPassword salt) q)).
    unfold set_hash. rewrite decide_False; [done|].
    rewrite Hq. intros E. apply Hne. by apply (unique_column user_id (users db)).
Qed.

Lemma reset_then_login_witness :
  ∃ db', resetPassword (H := toy_bcrypt) "t1" "cortado" 2000 "s9" sample_db
           = (Ok (Some alice), db') ∧
         verifyLogin (H := toy_bcrypt) "alice@example.com" "cortado" db'
           = (Ok (LoginUser alice), db') ∧
         verifyLogin (H := toy_bcrypt) "alice@example.com" "latte" db'
           = (Ok LoginNull, db') ∧
         resetPassword (H := toy_bcrypt) "t1" "lungo" 2001 "s8" db' = (Ok None, db').
Proof.
  destruct (reset_then_login (H := toy_bcrypt) "t1" "cortado" 2000 "s9" sample_db
              alice_reset) as (u & db' & Hu & Hid & Hreset & Hnew & Hold & Honce & _).
  - by_decision.
  - apply toy_bcrypt_sound.
  - row_in.
  - reflexivity.
  - simpl. lia.
  - assert (u = alice) as ->. { each_row Hu; [done|discriminate]. }
    exists db'. split; [exact Hreset|]. split; [exact Hnew|].
    split; [by apply Hold|apply Honce].
Defined.

(** resendEmailConfirmation on a store that meets the invariants.  For an
    address no user has it returns null; for a verified user it reports
    already-verified; in both cases nothing is written.  For an unverified
    user and a new token identifier it returns the user with a new
    confirmation row; the row expires at the time setHours(getHours() + 24)
    gives in the zone of the process, which is twenty-four hours after the
    call where the zone's offset is the same at both ends; that row is
    afterwards the user's only confirmation token, the user, password, reset
    and coffee tables are as before, and confirming the new token at any time
    up to its expiry verifies this user. *)
Theorem resendEmailConfirmation_outcomes {tz : TimeZone} (email : string)
    (now : Z) (token : string) (stamp : Z) (db : DB) :
  Inv db →
  let expiresAt := setHours now (getHours now + 24) in
  (steady now (24 * 60 * 60 * 1000) → expiresAt = now + 24 * 60 * 60 * 1000) ∧
  ((∀ u, u ∈ users db → user_email u ≠ email) →
     resendEmailConfirmation email now token stamp db = (Ok ResendNull, db)) ∧
  (∀ u, u ∈ users db → user_email u = email →
     (user_isVerified u = true →
        resendEmailConfirmation email now token stamp db
          = (Ok ResendAlreadyVerified, db)) ∧
     (user_isVerified u = false →
      (∀ r, r ∈ emailConfirmations db → tok_token r ≠ token) →
        ∃ db', resendEmailConfirmation email now token stamp db
                 = (Ok (ResendCreated u
                          (mkTokenRow token stamp expiresAt (user_id u))), db') ∧
          filter (λ t, tok_userId t = user_id u) (emailConfirmations db')
            = [mkTokenRow token stamp expiresAt (user_id u)] ∧
          users db' = users db ∧ passwords db' = passwords db ∧
          passwordResets db' = passwordResets db ∧ coffees db' = coffees db ∧
          ∀ now' stamp', now' ≤ expiresAt →
            fst (confirmUserEmail token now' stamp' db')
              = Ok (Some (user_set_verified stamp' u)))).
Proof.
  intros HI expiresAt. pose proof HI as [Hc Hacc].
  destruct (users_ok db Hc) as [Hids Hems].
  split; [exact (expiry_steady EmailConfirmationK now)|]. split.
  - intros Hno. unfold resendEmailConfirmation, bind, getUserByEmail,
      user_findUnique_email, gets.
    by rewrite (proj2 (findUnique_None (λ u, user_email u = email) (users db))).
  - intros u Hu Hem. split.
    + intros Hver. unfold resendEmailConfirmation, bind, getUserByEmail,
        user_findUnique_email, gets.
      rewrite (findUnique_unique user_email _ u) by done. by rewrite Hver.
    + intros Hver Hfresh.
      pose proof (issueToken_fresh EmailConfirmationK u now token stamp db
                    Hc Hu Hfresh) as Hissue.
      change (issueToken EmailConfirmationK u now token stamp db)
        with (createEmailConfirmationToken (user_id u) now token stamp db) in Hissue.
      change (expiry EmailConfirmationK now) with expiresAt in Hissue.
      set (row := mkTokenRow token stamp expiresAt (user_id u)) in *.
      set (db' := set_tokens EmailConfirmationK _ db) in *.
      exists db'. split.
      { unfold resendEmailConfirmation. unfold bind at 1.
        unfold getUserByEmail at 1, user_findUnique_email, gets.
        rewrite (findUnique_unique user_email _ u) by done. rewrite Hver.
        cbv beta iota. unfold bind at 1. rewrite Hissue. reflexivity. }
      assert (HI' : Inv db').
      { pose proof (preserves_createEmailConfirmationToken (user_id u) now token
                      stamp db HI) as H'. by rewrite Hissue in H'. }
      split_and!; try done.
      * simpl. rewrite filter_app.
        rewrite (filter_none (λ t, tok_userId t = user_id u)
                   (filter (λ t, tok_userId t ≠ user_id u) (emailConfirmations db))).
        -- simpl. by rewrite filter_cons_True.
        -- intros r Hr. by apply list_elem_of_filter in Hr as [? _].
      * intros now' stamp' Hnow'.
        assert (Hin : row ∈ emailConfirmations db').
        { simpl. rewrite elem_of_app. right. left. }
        destruct (confirmUserEmail_live token now' stamp' db' row HI' Hin eq_refl Hnow')
          as (v & Hv & Hvid & ->).
        simpl. do 3 f_equal.
        apply (unique_column user_id (users db)); done.
Qed.

Lemma resendEmailConfirmation_outcomes_witness :
  resendEmailConfirmation (tz := utc) "nobody@example.com" 100 "e5" 100 sample_db
    = (Ok ResendNull, sample_db) ∧
  resendEmailConfirmation (tz := utc) "alice@example.com" 100 "e5" 100 sample_db
    = (Ok ResendAlreadyVerified, sample_db) ∧
  ∃ db', resendEmailConfirmation (tz := utc) "bob@example.com" 100 "e5" 100
           sample_db
           = (Ok (ResendCreated bob (mkTokenRow "e5" 100 86400100 "u2")), db') ∧
         emailConfirmations db' = [mkTokenRow "e5" 100 86400100 "u2"] ∧
         fst (confirmUserEmail "e5" 86400100 86400101 db')
           = Ok (Some (user_set_verified 86400101 bob)).
Proof.
  assert (HI : Inv sample_db) by by_decision.
  destruct (resendEmailConfirmation_outcomes (tz := utc) "nobody@example.com" 100
              "e5" 100 sample_db HI) as (_ & Hnone & _).
  split. { apply Hnone. intros u Hu. each_row Hu; discriminate. }
  destruct (resendEmailConfirmation_outcomes (tz := utc) "alice@example.com" 100
              "e5" 100 sample_db HI) as (_ & _ & Halice).
  split. { by apply (Halice alice); [row_in|..]. }
  destruct (resendEmailConfirmation_outcomes (tz := utc) "bob@example.com" 100
              "e5" 100 sample_db HI) as (_ & _ & Hbob).
  destruct (Hbob bob ltac:(row_in) eq_refl) as [_ Hnew].
  destruct (Hnew eq_refl) as (db' & Hresend & Hone & _ & _ & _ & _ & Hconfirm).
  { intros r Hr. each_row Hr. discriminate. }
  exists db'. split; [exact Hresend|]. split.
  - assert (E : snd (resendEmailConfirmation (tz := utc) "bob@example.com" 100
                       "e5" 100 sample_db)
                = db') by by rewrite Hresend.
    rewrite <- E. reflexivity.
  - apply Hconfirm. by vm_compute.
Defined.

(** deleteUserByEmail on a store that meets the invariants.  For an address
    no user has it throws record-not-found and writes nothing.  Otherwise it
    returns the user and removes the user's row together with every
    password, reset token, confirmation token and coffee of that user; the
    rows of the other users stay, in their order; the invariants still hold;
    login with the address answers null for any password; and none of the
    user's tokens verifies any more. *)
Theorem deleteUserByEmail_cascade `{Bcrypt} (email : string) (db : DB) :
  Inv db →
  ((∀ u, u ∈ users db → user_email u ≠ email) →
     deleteUserByEmail email db = (Throw RecordNotFound, db)) ∧
  (∀ u, u ∈ users db → user_email u = email →
     ∃ db', deleteUserByEmail email db = (Ok u, db') ∧
       no_trace_of (user_id u) db' ∧
       (∀ v, v ∈ users db' ↔ v ∈ users db ∧ v ≠ u) ∧
       users db' `sublist_of` users db ∧
       coffees db' = filter (λ c, coffee_userId c ≠ user_id u) (coffees db) ∧
       Inv db' ∧
       (∀ password, verifyLogin email password db' = (Ok LoginNull, db')) ∧
       (∀ k t now, t ∈ tokens k db → tok_userId t = user_id u →
          verifyToken k (tok_token t) now db' = (Ok None, db'))).
Proof.
  intros HI. pose proof HI as [Hc Hacc].
  destruct (users_ok db Hc) as [Hids Hems]. split.
  - intros Hno. unfold deleteUserByEmail, user_delete_email.
    by rewrite (proj2 (findUnique_None (λ u, user_email u = email) (users db))).
  - intros u Hu Hem.
    assert (Hdel : deleteUserByEmail email db =
              (Ok u,
               mkDB (filter (λ u', user_id u' ≠ user_id u) (users db))
                    (filter (λ p, pw_userId p ≠ user_id u) (passwords db))
                    (filter (λ t, tok_userId t ≠ user_id u) (passwordResets db))
                    (filter (λ t, tok_userId t ≠ user_id u) (emailConfirmations db))
                    (filter (λ c, coffee_userId c ≠ user_id u) (coffees db)))).
    { unfold deleteUserByEmail, user_delete_email.
      by rewrite (findUnique_unique user_email _ u). }
    eexists. split; [exact Hdel|].
    assert (HI' : Inv (snd (deleteUserByEmail email db)))
      by by apply preserves_user_delete.
    rewrite Hdel in HI'. simpl in HI'.
    split_and!.
    + unfold no_trace_of. simpl. split_and!.
      * intros x Hx. by apply list_elem_of_filter in Hx as [? _].
      * intros x Hx. by apply list_elem_of_filter in Hx as [? _].
      * intros k x Hx. destruct k; simpl in Hx;
          by apply list_elem_of_filter in Hx as [? _].
      * intros x Hx. by apply list_elem_of_filter in Hx as [? _].
    + intros v. simpl. rewrite list_elem_of_filter. split.
      * intros [Hne Hv]. split; [done|]. by intros ->.
      * intros [Hv Hne]. split; [|done]. intros E. apply Hne.
        by apply (unique_column user_id (users db)).
    + apply sublist_filter.
    + done.
    + exact HI'.
    + intros password. rewrite verifyLogin_unfold. simpl.
      rewrite (proj2 (findUnique_None (λ v, user_email v = email) _)); [done|].
      intros v Hv E. apply list_elem_of_filter in Hv as [Hne Hv].
      apply Hne. f_equal. apply (unique_column user_email (users db)); congruence.
    + intros k t now Ht Huid. apply verifyToken_absent.
      destruct (tokens_ok db k Hc) as (Hnd & _).
      destruct k; simpl; simpl in Ht, Hnd;
        by apply (token_not_among_others _ t (user_id u)).
Qed.

Lemma deleteUserByEmail_cascade_witness :
  deleteUserByEmail "nobody@example.com" sample_db
    = (Throw RecordNotFound, sample_db) ∧
  ∃ db', deleteUserByEmail "alice@example.com" sample_db = (Ok alice, db') ∧
         users db' = [bob] ∧ coffees db' = [filter_coffee] ∧
         verifyLogin (H := toy_bcrypt) "alice@example.com" "latte" db'
           = (Ok LoginNull, db') ∧
         verifyPasswordResetToken "t1" 2000 db' = (Ok None, db').
Proof.
  assert (HI : Inv sample_db) by by_decision.
  destruct (deleteUserByEmail_cascade (H := toy_bcrypt) "nobody@example.com"
              sample_db HI) as [Hnone _].
  split. { apply Hnone. intros u Hu. each_row Hu; discriminate. }
  destruct (deleteUserByEmail_cascade (H := toy_bcrypt) "alice@example.com"
              sample_db HI) as [_ Halice].
  destruct (Halice alice ltac:(row_in) eq_refl)
    as (db' & Hdel & _ & _ & _ & Hcs & _ & Hlogin & Htok).
  exists db'. split; [exact Hdel|].
  split.
  { assert (E : snd (deleteUserByEmail "alice@example.com" sample_db) = db')
      by by rewrite Hdel.
    rewrite <- E. reflexivity. }
  split; [by rewrite Hcs|].
  split; [apply Hlogin|].
  exact (Htok PasswordResetK alice_reset 2000 ltac:(row_in) eq_refl).
Defined.

End AccountExtras.

(* ===================================================================== *)
(** * Coffee rows: create, read, update, delete, and pages *)
(* ===================================================================== *)

Module CoffeeRowFacts.
Import Prisma Schema CoffeeModel Facts CoffeeFacts.

(** In a table with a unique column, the rows that share a row's key are that
    row alone. *)
Lemma filter_key_singleton {A K} `{EqDecision K} (f : A → K) (tbl : list A)
    (x : A) :
  NoDup (f <$> tbl) → x ∈ tbl → filter (λ y, f y = f x) tbl = [x].
Proof.
  induction tbl as [|z l IH]; intros Hnd Hx; [by apply elem_of_nil in Hx|].
  rewrite fmap_cons in Hnd. apply NoDup_cons in Hnd as [Hz Hnd].
  apply elem_of_cons in Hx as [->|Hx].
  - rewrite filter_cons_True by done. f_equal. apply filter_none.
    intros y Hy E. apply Hz. rewrite <- E. by apply list_elem_of_fmap_2.
  - rewrite filter_cons_False; [by apply IH|].
    intros E. apply Hz. rewrite E. by apply list_elem_of_fmap_2.
Qed.

(** [where: id, userId] with the owner's id selects the row itself. *)
Lemma owner_row (db : DB) (c : Coffee) :
  Consistent db → c ∈ coffees db →
  filter (λ x, coffee_id x = coffee_id c ∧ coffee_userId x = coffee_userId c)
    (coffees db) = [c].
Proof.
  intros Hc Hin. pose proof Hc as (_ & _ & _ & _ & Hpk & _).
  rewrite <- (filter_key_singleton coffee_id (coffees db) c Hpk Hin).
  apply filter_ext_elem. intros x Hx. split; [by intros [? _]|].
  intros E. split; [done|].
  by rewrite (unique_column coffee_id (coffees db) x c).
Qed.

(** The rows [where: id, userId] does not select, for the owner. *)
Lemma other_rows (db : DB) (c : Coffee) :
  Consistent db → c ∈ coffees db →
  filter (λ x, ¬ (coffee_id x = coffee_id c ∧ coffee_userId x = coffee_userId c))
    (coffees db)
  = filter (λ x, coffee_id x ≠ coffee_id c) (coffees db).
Proof.
  intros Hc Hin. pose proof Hc as (_ & _ & _ & _ & Hpk & _).
  apply filter_ext_elem. intros x Hx. split.
  - intros Hne E. apply Hne. split; [done|].
    by rewrite (unique_column coffee_id (coffees db) x c).
  - intros Hne [E _]. done.
Qed.

(** Blocks of [n] rows, put back together. *)
Lemma blocks_concat {A} (n : nat) (l : list A) (T : nat) :
  concat ((λ k, firstn n (skipn (k * n) l)) <$> seq 0 T) = firstn (T * n) l.
Proof.
  induction T as [|T IH]; [done|].
  rewrite seq_S, fmap_app, concat_app, IH. simpl.
  rewrite app_nil_r, take_take_drop. f_equal. lia.
Qed.

End CoffeeRowFacts.

Module CoffeeExtras.
Import Prisma Schema CoffeeModel Facts CoffeeFacts Preservation CoffeeRowFacts.
Import Samples.

Ltac row_in := repeat first [by left | right].
Ltac each_row H :=
  repeat (apply elem_of_cons in H as [->|H]); [..|by apply elem_of_nil in H].
Ltac by_decision := by apply (bool_decide_unpack _).

(** createCoffee on a store that meets the invariants.  An id that a row
    already has is refused as a unique-constraint error, and a user id no
    user has as record-not-found; neither writes anything.  Otherwise the new
    row carries the given data, the given owner and the clock reading as both
    createdAt and updatedAt; it is appended to the table; getCoffee with its
    id and owner returns it, and with any other user id returns nothing; the
    owner's list is the old one with the new row added; the lists of the
    other users are as before; the invariants still hold; and deleting the
    row again as its owner gives count 1 and the store one started from. *)
Theorem createCoffee_outcomes (d : CoffeeData) (userId id : string) (stamp : Z)
    (db : DB) :
  Inv db →
  (∀ c, c ∈ coffees db → coffee_id c = id →
     createCoffee d userId id stamp db = (Throw UniqueConstraintFailed, db)) ∧
  ((∀ c, c ∈ coffees db → coffee_id c ≠ id) →
   (∀ u, u ∈ users db → user_id u ≠ userId) →
     createCoffee d userId id stamp db = (Throw RecordNotFound, db)) ∧
  ((∀ c, c ∈ coffees db → coffee_id c ≠ id) →
   ∀ u, u ∈ users db → user_id u = userId →
     let c := mkCoffee id (data_name d) (data_brand d) (data_preparation d)
                (data_shots d) (data_flavor d) (data_rating d)
                (data_description d) stamp stamp userId in
     ∃ db', createCoffee d userId id stamp db = (Ok c, db') ∧
       coffees db' = (coffees db ++ [c])%list ∧
       Inv db' ∧
       getCoffee id userId db' = (Ok (Some c), db') ∧
       (∀ other, other ≠ userId → getCoffee id other db' = (Ok None, db')) ∧
       (∃ l l', getCoffeeListItems userId db = (Ok l, db) ∧
                getCoffeeListItems userId db' = (Ok l', db') ∧ l' ≡ₚ c :: l) ∧
       (∀ other, other ≠ userId →
          fst (getCoffeeListItems other db') = fst (getCoffeeListItems other db)) ∧
       deleteCoffee id userId db' = (Ok 1, db)).
Proof.
  intros HI. pose proof HI as [Hc Hacc]. split_and!.
  - intros c Hin Hid. unfold createCoffee, coffee_create.
    by rewrite (proj2 (has_row_true (λ c, coffee_id c = id) _)) by eauto.
  - intros Hfresh Hno. unfold createCoffee, coffee_create.
    rewrite (proj2 (has_row_false (λ c, coffee_id c = id) _)) by done.
    by rewrite (proj2 (has_row_false (λ u, user_id u = userId) _)) by done.
  - intros Hfresh u Hu Huid c.
    assert (Hcreate : createCoffee d userId id stamp db
                      = (Ok c, set_coffees (coffees db ++ [c]) db)).
    { unfold createCoffee, coffee_create.
      rewrite (proj2 (has_row_false (λ c, coffee_id c = id) _)) by done.
      by rewrite (proj2 (has_row_true (λ u, user_id u = userId) _)) by eauto. }
    set (db' := set_coffees (coffees db ++ [c]) db) in *.
    assert (HI' : Inv db').
    { pose proof (preserves_coffee_create id stamp d userId db HI) as H'.
      unfold createCoffee in Hcreate. by rewrite Hcreate in H'. }
    assert (Hin : c ∈ coffees db') by (simpl; rewrite elem_of_app; right; left).
    exists db'. split_and!; try done.
    + change (getCoffee (coffee_id c) (coffee_userId c) db' = (Ok (Some c), db')).
      unfold getCoffee, coffee_findFirst, gets.
      by rewrite (owner_row db' c (proj1 HI') Hin).
    + intros other Hne. apply get_nothing.
      by apply (no_row_for_other_user db' c other (proj1 HI') Hin).
    + eexists. eexists. split; [reflexivity|]. split; [reflexivity|].
      rewrite !orderBy_perm. simpl. unfold owned_by.
      rewrite filter_app, filter_cons_True by done. simpl.
      by rewrite <- Permutation_cons_append.
    + intros other Hne. unfold getCoffeeListItems, coffee_findMany, gets. simpl.
      unfold owned_by. rewrite filter_app.
      rewrite (filter_cons_False _ c) by (simpl; congruence).
      by rewrite app_nil_r.
    + change (deleteCoffee (coffee_id c) (coffee_userId c) db' = (Ok 1, db)).
      unfold deleteCoffee, coffee_deleteMany.
      rewrite (owner_row db' c (proj1 HI') Hin).
      rewrite (other_rows db' c (proj1 HI') Hin). simpl.
      rewrite filter_app, filter_all by done.
      rewrite filter_cons_False by (simpl; tauto). simpl.
      rewrite app_nil_r. by destruct db.
Qed.

Lemma createCoffee_outcomes_witness :
  createCoffee sample_data "u2" "c1" 700 sample_db
    = (Throw UniqueConstraintFailed, sample_db) ∧
  createCoffee sample_data "u9" "c3" 700 sample_db
    = (Throw RecordNotFound, sample_db) ∧
  ∃ c db', createCoffee sample_data "u2" "c3" 700 sample_db = (Ok c, db') ∧
           getCoffee "c3" "u2" db' = (Ok (Some c), db') ∧
           getCoffee "c3" "u1" db' = (Ok None, db') ∧
           deleteCoffee "c3" "u2" db' = (Ok 1, sample_db).
Proof.
  assert (HI : Inv sample_db) by by_decision.
  destruct (createCoffee_outcomes sample_data "u2" "c1" 700 sample_db HI)
    as (Hdup & _ & _).
  split; [by apply (Hdup flat_white); [row_in|]|].
  destruct (createCoffee_outcomes sample_data "u9" "c3" 700 sample_db HI)
    as (_ & Hnouser & _).
  split.
  { apply Hnouser; [intros c Hc; each_row Hc; discriminate
                   |intros u Hu; each_row Hu; discriminate]. }
  destruct (createCoffee_outcomes sample_data "u2" "c3" 700 sample_db HI)
    as (_ & _ & Hnew).
  destruct (Hnew ltac:(intros c Hc; each_row Hc; discriminate) bob ltac:(row_in)
              eq_refl) as (db' & Hcreate & _ & _ & Hget & Hother & _ & _ & Hdel).
  eexists. exists db'. split; [exact Hcreate|]. split; [exact Hget|].
  split; [by apply Hother|exact Hdel].
Defined.

(** deleteCoffee by the owner, on a store that meets the invariants: the
    count is 1; exactly the rows with another id remain, in their order; the
    other tables are as before; the invariants still hold; getCoffee no
    longer finds the row; and deleting it once more gives count 0 and changes
    nothing. *)
Theorem deleteCoffee_by_owner (db : DB) (c : Coffee) :
  Inv db → c ∈ coffees db →
  ∃ db', deleteCoffee (coffee_id c) (coffee_userId c) db = (Ok 1, db') ∧
    coffees db' = filter (λ x, coffee_id x ≠ coffee_id c) (coffees db) ∧
    (∀ x, x ∈ coffees db' ↔ x ∈ coffees db ∧ coffee_id x ≠ coffee_id c) ∧
    Z.of_nat (length (coffees db')) = Z.of_nat (length (coffees db)) - 1 ∧
    users db' = users db ∧ passwords db' = passwords db ∧
    passwordResets db' = passwordResets db ∧
    emailConfirmations db' = emailConfirmations db ∧
    Inv db' ∧
    getCoffee (coffee_id c) (coffee_userId c) db' = (Ok None, db') ∧
    deleteCoffee (coffee_id c) (coffee_userId c) db' = (Ok 0, db').
Proof.
  intros HI Hin. pose proof HI as [Hc Hacc].
  assert (Hdel : deleteCoffee (coffee_id c) (coffee_userId c) db
                 = (Ok 1, set_coffees
                            (filter (λ x, coffee_id x ≠ coffee_id c) (coffees db)) db)).
  { unfold deleteCoffee, coffee_deleteMany.
    by rewrite (owner_row db c Hc Hin), (other_rows db c Hc Hin). }
  set (db' := set_coffees _ db) in *.
  assert (Hgone : ∀ x, x ∈ coffees db' →
            ¬ (coffee_id x = coffee_id c ∧ coffee_userId x = coffee_userId c)).
  { intros x Hx [E _]. simpl in Hx. by apply list_elem_of_filter in Hx as [? _]. }
  exists db'. split_and!; try done.
  - intros x. simpl. rewrite list_elem_of_filter. tauto.
  - simpl.
    pose proof (Permutation_length
                  (filter_app_complement (λ x, coffee_id x = coffee_id c)
                     (coffees db))) as Hlen.
    pose proof Hc as (_ & _ & _ & _ & Hpk & _).
    rewrite (filter_key_singleton coffee_id (coffees db) c Hpk Hin) in Hlen.
    simpl in Hlen. lia.
  - pose proof (preserves_coffee_deleteMany (coffee_id c) (coffee_userId c) db HI)
      as H'. unfold deleteCoffee in Hdel. by rewrite Hdel in H'.
  - by apply get_nothing.
  - by apply delete_nothing.
Qed.

Lemma deleteCoffee_by_owner_witness :
  ∃ db', deleteCoffee "c1" "u1" sample_db = (Ok 1, db') ∧
         coffees db' = [filter_coffee] ∧
         getCoffee "c1" "u1" db' = (Ok None, db') ∧
         deleteCoffee "c1" "u1" db' = (Ok 0, db').
Proof.
  destruct (deleteCoffee_by_owner sample_db flat_white)
    as (db' & Hdel & Hrows & _ & _ & _ & _ & _ & _ & _ & Hget & Hagain).
  - by_decision.
  - row_in.
  - exists db'. split; [exact Hdel|]. split; [by rewrite Hrows|].
    split; [exact Hget|exact Hagain].
Defined.

(** updateCoffee by the owner, on a store that meets the invariants: the
    returned row has the new data and the clock reading as updatedAt, and
    keeps the id, the owner and createdAt; getCoffee returns it afterwards;
    the table keeps its length and its id, owner and createdAt columns; every
    row with another id is as before; the other tables are as before; and the
    invariants still hold. *)
Theorem updateCoffee_by_owner (db : DB) (c : Coffee) (d : CoffeeData) (stamp : Z) :
  Inv db → c ∈ coffees db →
  ∃ c' db', updateCoffee (coffee_id c) d (coffee_userId c) stamp db = (Ok c', db') ∧
    c' = mkCoffee (coffee_id c) (data_name d) (data_brand d) (data_preparation d)
           (data_shots d) (data_flavor d) (data_rating d) (data_description d)
           (coffee_createdAt c) stamp (coffee_userId c) ∧
    getCoffee (coffee_id c) (coffee_userId c) db' = (Ok (Some c'), db') ∧
    length (coffees db') = length (coffees db) ∧
    coffee_id <$> coffees db' = coffee_id <$> coffees db ∧
    coffee_userId <$> coffees db' = coffee_userId <$> coffees db ∧
    coffee_createdAt <$> coffees db' = coffee_createdAt <$> coffees db ∧
    (∀ x, x ∈ coffees db → coffee_id x ≠ coffee_id c → x ∈ coffees db') ∧
    users db' = users db ∧ passwords db' = passwords db ∧
    passwordResets db' = passwordResets db ∧
    emailConfirmations db' = emailConfirmations db ∧
    Inv db'.
Proof.
  intros HI Hin. pose proof HI as [Hc Hacc].
  set (upd := λ x : Coffee,
         if decide (coffee_id x = coffee_id c ∧ coffee_userId x = coffee_userId c)
         then apply_data d stamp x else x).
  assert (Hupd : updateCoffee (coffee_id c) d (coffee_userId c) stamp db
                 = (Ok (apply_data d stamp c), set_coffees (upd <$> coffees db) db)).
  { unfold updateCoffee, coffee_update. by rewrite (owner_row db c Hc Hin). }
  set (db' := set_coffees _ db) in *.
  assert (HI' : Inv db').
  { pose proof (preserves_coffee_update (coffee_id c) (coffee_userId c) d stamp
                  db HI) as H'. unfold updateCoffee in Hupd. by rewrite Hupd in H'. }
  assert (Hin' : apply_data d stamp c ∈ coffees db').
  { simpl. apply list_elem_of_fmap. exists c. split; [|done].
    unfold upd. by rewrite decide_True. }
  exists (apply_data d stamp c), db'. split_and!; try done.
  - change (getCoffee (coffee_id (apply_data d stamp c))
              (coffee_userId (apply_data d stamp c)) db'
            = (Ok (Some (apply_data d stamp c)), db')).
    unfold getCoffee, coffee_findFirst, gets.
    by rewrite (owner_row db' (apply_data d stamp c) (proj1 HI') Hin').
  - simpl. by rewrite length_fmap.
  - simpl. apply fmap_update. intros x. unfold upd. by destruct (decide _).
  - simpl. apply fmap_update. intros x. unfold upd. by destruct (decide _).
  - simpl. apply fmap_update. intros x. unfold upd. by destruct (decide _).
  - intros x Hx Hne. simpl. apply list_elem_of_fmap. exists x. split; [|done].
    unfold upd. rewrite decide_False; [done|]. by intros [? _].
Qed.

Lemma updateCoffee_by_owner_witness :
  ∃ c' db', updateCoffee "c1" sample_data "u1" 9000 sample_db = (Ok c', db') ∧
            coffee_name c' = "Stolen" ∧ coffee_createdAt c' = 500 ∧
            coffee_updatedAt c' = 9000 ∧
            getCoffee "c1" "u1" db' = (Ok (Some c'), db') ∧
            filter_coffee ∈ coffees db'.
Proof.
  destruct (updateCoffee_by_owner sample_db flat_white sample_data 9000)
    as (c' & db' & Hupd & Hc' & Hget & _ & _ & _ & _ & Hkeep & _).
  - by_decision.
  - row_in.
  - exists c', db'. split; [exact Hupd|]. rewrite Hc'. split_and!; try done.
    + by rewrite <- Hc'.
    + apply Hkeep; [row_in|discriminate].
Defined.

(** The pages make up the list.  For a page size [pp ≥ 1], the pages
    1, ..., totalPages of getCoffeeListItemsPaginated all return, leave the
    store alone, and their items, one page after the other, are the list
    getCoffeeListItems returns: the user's rows and no others, newest first.
    Without page and page size the call is the one for page 1 of size 10. *)
Theorem pages_make_up_the_list (userId : string) (pp : Z) (db : DB) :
  1 ≤ pp →
  let N := Z.of_nat (length (owned_by userId (coffees db))) in
  let T := Z.to_nat (Math_ceil_div N pp) in
  ∃ l pages,
    getCoffeeListItems userId db = (Ok l, db) ∧
    (∀ c, c ∈ l ↔ c ∈ coffees db ∧ coffee_userId c = userId) ∧
    StronglySorted createdAt_desc l ∧
    Forall2 (λ k r, getCoffeeListItemsPaginated userId (Some (Z.of_nat k + 1))
                      (Some pp) db = (Ok r, db))
      (seq 0 T) pages ∧
    concat (items <$> pages) = l ∧
    getCoffeeListItemsPaginated userId None None db
      = getCoffeeListItemsPaginated userId (Some 1) (Some 10) db.
Proof.
  intros Hpp N T.
  set (l := orderBy_createdAt_desc (owned_by userId (coffees db))).
  set (page := λ k : nat,
         mkPaginatedCoffees
           (firstn (Z.to_nat pp) (skipn (k * Z.to_nat pp) l))
           (mkPagination N (Math_ceil_div N pp) (Z.of_nat k + 1) pp
              (Z.of_nat k + 1 <? Math_ceil_div N pp) (Z.of_nat k + 1 >? 1))).
  exists l, (page <$> seq 0 T). split_and!.
  - done.
  - intros c. subst l. rewrite orderBy_perm. unfold owned_by.
    rewrite list_elem_of_filter. tauto.
  - apply orderBy_sorted.
  - apply Forall2_fmap_r, Forall_Forall2_diag, Forall_forall. intros k _.
    assert (Hskip : ((Z.of_nat k + 1 - 1) * pp <? 0) = false)
      by (apply Z.ltb_ge; nia).
    assert (Htake : (pp <? 0) = false) by (apply Z.ltb_ge; lia).
    unfold getCoffeeListItemsPaginated, bind, coffee_count, gets,
      coffee_findMany_page, skip_take, ret. simpl.
    rewrite Hskip, Htake. unfold page. fold l N.
    replace (Z.to_nat ((Z.of_nat k + 1 - 1) * pp)) with (k * Z.to_nat pp)%nat;
      [done|].
    rewrite <- (Nat2Z.id k) at 1. rewrite <- Z2Nat.inj_mul by lia.
    f_equal. lia.
  - rewrite <- list_fmap_compose.
    change (items ∘ page)
      with (λ k : nat, firstn (Z.to_nat pp) (skipn (k * Z.to_nat pp) l)).
    rewrite blocks_concat. apply take_ge.
    pose proof (Math_ceil_div_bounds N pp Hpp) as [_ Hup].
    assert (length l = length (owned_by userId (coffees db)))
      by apply orderBy_length.
    subst T N. nia.
  - done.
Qed.

Lemma pages_make_up_the_list_witness :
  ∃ l p1 p2 p3,
    getCoffeeListItems "u1" diary_db = (Ok l, diary_db) ∧
    getCoffeeListItemsPaginated "u1" (Some 1) (Some 10) diary_db = (Ok p1, diary_db) ∧
    getCoffeeListItemsPaginated "u1" (Some 2) (Some 10) diary_db = (Ok p2, diary_db) ∧
    getCoffeeListItemsPaginated "u1" (Some 3) (Some 10) diary_db = (Ok p3, diary_db) ∧
    (items p1 ++ items p2 ++ items p3)%list = l.
Proof.
  destruct (pages_make_up_the_list "u1" 10 diary_db ltac:(lia))
    as (l & pages & Hl & _ & _ & Hpages & Hcat & _).
  change (Z.to_nat _) with 3%nat in Hpages. simpl in Hpages.
  apply Forall2_cons_inv_l in Hpages as (p1 & r1 & H1 & Hpages & ->).
  apply Forall2_cons_inv_l in Hpages as (p2 & r2 & H2 & Hpages & ->).
  apply Forall2_cons_inv_l in Hpages as (p3 & r3 & H3 & Hpages & ->).
  apply Forall2_nil_inv_l in Hpages as ->.
  exists l, p1, p2, p3. split_and!; try done.
  simpl in Hcat. by rewrite app_nil_r in Hcat.
Defined.

End CoffeeExtras.

(* ===================================================================== *)
(** * Array-index keys *)
(* ===================================================================== *)

Module IndexFacts.
Import JS.

Lemma digits_value_shift (acc : N) (s : string) :
  digits_value acc s =
  (λ v, acc * 10 ^ N.of_nat (String.length s) + v)%N <$> digits_value 0 s.
Proof.
  revert acc. induction s as [|c s IH]; intros acc; simpl.
  - f_equal. lia.
  - destruct (is_digit c); [|done].
    rewrite (IH (acc * 10 + _)%N), (IH (0 * 10 + _)%N).
    destruct (digits_value 0 s) as [v|]; simpl; [|done].
    f_equal. rewrite Nat2N.inj_succ, N.pow_succ_r'. lia.
Qed.

Lemma digits_value_cons (c : ascii) (s : string) (n : N) :
  digits_value 0 (String c s) = Some n →
  is_digit c = true ∧
  ∃ v, digits_value 0 s = Some v ∧
       n = (digit_of c * 10 ^ N.of_nat (String.length s) + v)%N.
Proof.
  simpl. destruct (is_digit c); [|done]. intros Hn. split; [done|].
  rewrite digits_value_shift in Hn.
  destruct (digits_value 0 s) as [v|]; simpl in Hn; [|done].
  exists v. split; [done|]. injection Hn as <-. unfold digit_of. lia.
Qed.

Lemma digits_value_bound (s : string) (n : N) :
  digits_value 0 s = Some n → (n < 10 ^ N.of_nat (String.length s))%N.
Proof.
  revert n. induction s as [|c s IH]; intros n Hn.
  - injection Hn as <-. simpl. lia.
  - apply digits_value_cons in Hn as (Hd & v & Hv & ->).
    specialize (IH v Hv).
    assert (digit_of c ≤ 9)%N.
    { unfold is_digit in Hd. apply andb_true_iff in Hd as [_ Hd].
      apply N.leb_le in Hd. unfold digit_of. lia. }
    change (String.length (String c s)) with (S (String.length s)).
    rewrite Nat2N.inj_succ, N.pow_succ_r'. nia.
Qed.

Lemma digit_of_inj (c1 c2 : ascii) :
  is_digit c1 = true → is_digit c2 = true → digit_of c1 = digit_of c2 → c1 = c2.
Proof.
  unfold is_digit, digit_of. intros H1 H2 E.
  apply andb_true_iff in H1 as [H1 _]. apply andb_true_iff in H2 as [H2 _].
  apply N.leb_le in H1, H2.
  rewrite <- (ascii_N_embedding c1), <- (ascii_N_embedding c2). f_equal. lia.
Qed.

Lemma digits_value_inj_length (s1 s2 : string) (n : N) :
  String.length s1 = String.length s2 →
  digits_value 0 s1 = Some n → digits_value 0 s2 = Some n → s1 = s2.
Proof.
  revert s2 n. induction s1 as [|c1 s1 IH]; intros [|c2 s2] n Hlen H1 H2;
    try done.
  injection Hlen as Hlen.
  apply digits_value_cons in H1 as (Hd1 & v1 & Hv1 & E1).
  apply digits_value_cons in H2 as (Hd2 & v2 & Hv2 & E2).
  pose proof (digits_value_bound s1 v1 Hv1) as B1.
  pose proof (digits_value_bound s2 v2 Hv2) as B2.
  rewrite Hlen in *. set (P := (10 ^ N.of_nat (String.length s2))%N) in *.
  assert (digit_of c1 = digit_of c2 ∧ v1 = v2) as [Ed Ev].
  { apply (N.div_mod_unique P); [done|done|]. lia. }
  f_equal; [by apply digit_of_inj|].
  apply (IH s2 v1); [done|done|by rewrite Ev].
Qed.

(** What it takes to be an array index. *)
Lemma array_index_Some (k : string) (n : N) :
  array_index k = Some n →
  digits_value 0 k = Some n ∧
  (k = "0" ∨ ∃ c rest, k = String c rest ∧ c ≠ "0"%char).
Proof.
  unfold array_index. destruct k as [|c rest]; [done|].
  destruct (bool_decide (c = "0"%char) && negb (bool_decide (rest = EmptyString)))
    eqn:E; [done|].
  destruct (digits_value 0 (String c rest)) as [n'|] eqn:D; [|done].
  destruct (n' <? 4294967295)%N; [|done]. intros [= <-]. split; [done|].
  destruct (decide (c = "0"%char)) as [->|Hc]; [|right; by exists c, rest].
  left. rewrite bool_decide_eq_true_2 in E by done. simpl in E.
  apply negb_false_iff, bool_decide_eq_true in E. by subst.
Qed.

Lemma leading_digit_bound (c : ascii) (rest : string) (n : N) :
  c ≠ "0"%char → digits_value 0 (String c rest) = Some n →
  (10 ^ N.of_nat (String.length rest) ≤ n)%N.
Proof.
  intros Hc Hn. apply digits_value_cons in Hn as (Hd & v & Hv & ->).
  assert (1 ≤ digit_of c)%N.
  { destruct (N.eq_dec (digit_of c) 0) as [E|]; [|lia].
    exfalso. apply Hc. apply digit_of_inj; [done|done|by rewrite E]. }
  nia.
Qed.

(** Distinct keys have distinct indices. *)
Lemma array_index_inj (k1 k2 : string) (n : N) :
  array_index k1 = Some n → array_index k2 = Some n → k1 = k2.
Proof.
  intros H1 H2.
  apply array_index_Some in H1 as [D1 C1]. apply array_index_Some in H2 as [D2 C2].
  destruct C1 as [->|(c1 & r1 & -> & Hc1)], C2 as [->|(c2 & r2 & -> & Hc2)].
  - done.
  - vm_compute in D1. injection D1 as <-. pose proof (leading_digit_bound c2 r2 _ Hc2 D2) as B.
    pose proof (N.pow_nonzero 10 (N.of_nat (String.length r2)) ltac:(lia)). lia.
  - vm_compute in D2. injection D2 as <-. pose proof (leading_digit_bound c1 r1 _ Hc1 D1) as B.
    pose proof (N.pow_nonzero 10 (N.of_nat (String.length r1)) ltac:(lia)). lia.
  - apply (digits_value_inj_length _ _ n); [|done..].
    pose proof (leading_digit_bound c1 r1 _ Hc1 D1) as L1.
    pose proof (leading_digit_bound c2 r2 _ Hc2 D2) as L2.
    pose proof (digits_value_bound _ _ D1) as U1.
    pose proof (digits_value_bound _ _ D2) as U2.
    change (String.length (String c1 r1)) with (S (String.length r1)) in *.
    change (String.length (String c2 r2)) with (S (String.length r2)) in *.
    f_equal.
    destruct (Nat.lt_trichotomy (String.length r1) (String.length r2))
      as [Hlt|[?|Hlt]]; [|done|]; exfalso.
    + assert (10 ^ N.of_nat (S (String.length r1)) ≤ 10 ^ N.of_nat (String.length r2))%N
        by (apply N.pow_le_mono_r; lia). lia.
    + assert (10 ^ N.of_nat (S (String.length r2)) ≤ 10 ^ N.of_nat (String.length r1))%N
        by (apply N.pow_le_mono_r; lia). lia.
Qed.

End IndexFacts.

(* ===================================================================== *)
(** * Facts about objects used as records *)
(* ===================================================================== *)

Module JSFacts.
Import JS.

Section Props.
Context {V : Type}.
Implicit Types (o : props V) (k : string) (v : V).

Lemma get_own_define_own k k' v o :
  get_own k (define_own k' v o) = if decide (k' = k) then Some v else get_own k o.
Proof.
  induction o as [|[k0 v0] o IH]; simpl.
  - by destruct (decide (k' = k)).
  - destruct (decide (k0 = k')) as [->|Hne]; simpl.
    + by destruct (decide (k' = k)).
    + destruct (decide (k0 = k)) as [->|Hne'].
      * by rewrite decide_False by done.
      * exact IH.
Qed.

Lemma get_own_Some k v o : get_own k o = Some v → (k, v) ∈ o.
Proof.
  induction o as [|[k0 v0] o IH]; simpl; [done|].
  destruct (decide (k0 = k)) as [->|Hne].
  - intros [= ->]. left.
  - intros Hget. right. by apply IH.
Qed.

Lemma get_own_None k o : get_own k o = None ↔ k ∉ fst <$> o.
Proof.
  induction o as [|[k0 v0] o IH]; simpl.
  - split; [intros _; apply not_elem_of_nil|done].
  - rewrite not_elem_of_cons. destruct (decide (k0 = k)) as [->|Hne].
    + split; [done|]. by intros [? _].
    + rewrite IH. split; [by intros ?; split|by intros [_ ?]].
Qed.

Lemma get_own_is_Some k o : is_Some (get_own k o) ↔ k ∈ fst <$> o.
Proof.
  destruct (get_own k o) as [v|] eqn:E.
  - split; [intros _|by eexists].
    apply get_own_Some in E. by apply (list_elem_of_fmap_2 fst) in E.
  - split; [by intros [? ?]|]. intros Hin. by apply get_own_None in E.
Qed.

Lemma get_own_unique k v o : NoDup (fst <$> o) → (k, v) ∈ o → get_own k o = Some v.
Proof.
  induction o as [|[k0 v0] o IH]; simpl; intros Hnd Hin.
  - by apply elem_of_nil in Hin.
  - apply NoDup_cons in Hnd as [Hk0 Hnd].
    apply elem_of_cons in Hin as [[= -> ->]|Hin].
    + by rewrite decide_True.
    + rewrite decide_False; [by apply IH|].
      intros ->. apply Hk0. by apply (list_elem_of_fmap_2 fst) in Hin.
Qed.

(** The keys after a write: unchanged for a key already there, one more at
    the end for a new key. *)
Lemma keys_define_own k v o :
  fst <$> define_own k v o =
  if decide (k ∈ fst <$> o) then fst <$> o else ((fst <$> o) ++ [k])%list.
Proof.
  induction o as [|[k0 v0] o IH]; [done|]. cbn [define_own].
  rewrite fmap_cons. cbn [fst].
  destruct (decide (k0 = k)) as [->|Hne]; rewrite fmap_cons; cbn [fst].
  - rewrite decide_True; [done|left].
  - rewrite IH. destruct (decide (k ∈ fst <$> o)) as [Hin|Hnin].
    + rewrite decide_True; [done|by right].
    + rewrite decide_False; [done|].
      rewrite not_elem_of_cons. by split.
Qed.

Lemma NoDup_keys_define_own k v o :
  NoDup (fst <$> o) → NoDup (fst <$> define_own k v o).
Proof.
  intros Hnd. rewrite keys_define_own.
  destruct (decide (k ∈ fst <$> o)); [done|].
  apply NoDup_app. split_and!; [done| |apply NoDup_singleton].
  intros x Hx Hx'. apply list_elem_of_singleton in Hx' as ->. done.
Qed.

(** The index entries are those with an array-index key, each tagged with
    its index, sorted by it. *)
Lemma elem_of_insert_index i e (l : list (N * (string * V))) x :
  x ∈ insert_index i e l ↔ x = (i, e) ∨ x ∈ l.
Proof.
  induction l as [|[j e'] l IH]; simpl.
  - rewrite list_elem_of_singleton. split; [by left|].
    intros [?|Hx]; [done|by apply elem_of_nil in Hx].
  - destruct (i <=? j)%N.
    + by rewrite elem_of_cons.
    + rewrite !elem_of_cons, IH. tauto.
Qed.

Lemma elem_of_index_entries o i k v :
  (i, (k, v)) ∈ index_entries o ↔ (k, v) ∈ o ∧ array_index k = Some i.
Proof.
  induction o as [|[k0 v0] o IH]; simpl.
  - split; [by intros ?%elem_of_nil|by intros [?%elem_of_nil _]].
  - destruct (array_index k0) as [i0|] eqn:E.
    + rewrite elem_of_insert_index, IH, elem_of_cons. split.
      * intros [[= -> -> ->]|[Hin Hi]]; [by split; [left|]|by split; [right|]].
      * intros [[[= -> ->]|Hin] Hi]; [left; congruence|by right].
    + rewrite IH, elem_of_cons. split; [by intros [? ?]; split; [right|]|].
      intros [[[= -> ->]|Hin] Hi]; [congruence|done].
Qed.

Lemma insert_index_sorted i e (l : list (N * (string * V))) :
  StronglySorted index_le l → StronglySorted index_le (insert_index i e l).
Proof.
  induction l as [|[j e'] l IH]; simpl; intros Hs.
  - repeat constructor.
  - destruct (N.leb_spec i j) as [Hle|Hgt].
    + constructor; [done|]. apply StronglySorted_inv in Hs as [_ Hall].
      constructor; [done|].
      eapply Forall_impl; [exact Hall|]. intros [j' ?]. unfold index_le. simpl. lia.
    + apply StronglySorted_inv in Hs as [Hs Hall].
      constructor; [by apply IH|].
      apply Forall_forall. intros x Hx. apply elem_of_insert_index in Hx as [->|Hx].
      * unfold index_le. simpl. lia.
      * by apply (proj1 (Forall_forall _ _) Hall).
Qed.

Lemma index_entries_sorted o : StronglySorted index_le (index_entries o).
Proof.
  induction o as [|[k v] o IH]; simpl; [constructor|].
  destruct (array_index k); [by apply insert_index_sorted|done].
Qed.

Lemma elem_of_Object_entries o k v : (k, v) ∈ Object_entries o ↔ (k, v) ∈ o.
Proof.
  unfold Object_entries, named_entries.
  rewrite elem_of_app, list_elem_of_fmap, list_elem_of_filter. simpl. split.
  - intros [([i [k' v']] & Heq & Hin)|[_ Hin]]; [|done].
    simpl in Heq. injection Heq as -> ->.
    by apply elem_of_index_entries in Hin as [? _].
  - intros Hin. destruct (array_index k) as [i|] eqn:E.
    + left. exists (i, (k, v)). split; [done|]. by apply elem_of_index_entries.
    + by right.
Qed.

(** With no array-index key, the entries come in creation order. *)
Lemma Object_entries_named o :
  Forall (λ e, array_index (fst e) = None) o → Object_entries o = o.
Proof.
  intros Hall. unfold Object_entries, named_entries.
  assert (index_entries o = []) as ->.
  { induction Hall as [|[k v] o Hk Hall IH]; simpl; [done|].
    simpl in Hk. by rewrite Hk. }
  simpl. apply Facts.filter_all. by apply Forall_forall.
Qed.

End Props.

(** ** Array.prototype.sort *)

Section Sort.
Context {A : Type} (cmp : A → A → Q).

Lemma sort_insert_perm x l : sort_insert cmp x l ≡ₚ x :: l.
Proof.
  induction l as [|y l IH]; simpl; [done|].
  destruct (Qle_bool (cmp x y) 0); [done|].
  rewrite IH. apply Permutation_swap.
Qed.

Lemma Array_sort_perm l : Array_sort cmp l ≡ₚ l.
Proof.
  induction l as [|x l IH]; simpl; [done|].
  by rewrite sort_insert_perm, IH.
Qed.

Context (Htotal : ∀ a b, goes_before cmp a b ∨ goes_before cmp b a).
Context (Htrans : ∀ a b c, goes_before cmp a b → goes_before cmp b c → goes_before cmp a c).

Lemma sort_insert_sorted x l :
  StronglySorted (goes_before cmp) l → StronglySorted (goes_before cmp) (sort_insert cmp x l).
Proof.
  induction l as [|y l IH]; simpl; intros Hs.
  - repeat constructor.
  - destruct (Qle_bool (cmp x y) 0) eqn:E.
    + apply Qle_bool_iff in E.
      constructor; [done|]. constructor; [exact E|].
      apply StronglySorted_inv in Hs as [_ Hall].
      eapply Forall_impl; [exact Hall|]. intros z Hz. by eapply Htrans.
    + assert (Hyx : goes_before cmp y x).
      { destruct (Htotal x y) as [Hxy|]; [|done].
        apply Qle_bool_iff in Hxy. unfold Qle_bool in *. congruence. }
      apply StronglySorted_inv in Hs as [Hs Hall].
      constructor; [by apply IH|].
      rewrite sort_insert_perm. by constructor.
Qed.

Lemma Array_sort_sorted l : StronglySorted (goes_before cmp) (Array_sort cmp l).
Proof.
  induction l as [|x l IH]; simpl; [constructor|].
  by apply sort_insert_sorted.
Qed.

End Sort.

End JSFacts.

(* ===================================================================== *)
(** * Facts about the statistics *)
(* ===================================================================== *)

Module StatsFacts.
Import JS Stats StatsSpec JSFacts.

(** ** Grouping keys *)

Lemma has_bar_app (s1 s2 : string) : has_bar (s1 ++ "|" ++ s2) = true.
Proof. induction s1 as [|c s1 IH]; simpl; [done|]. by rewrite IH, orb_true_r. Qed.

Lemma has_bar_group_key (c : SerializedCoffee) : has_bar (group_key c) = true.
Proof. apply has_bar_app. Qed.

Lemma digits_value_bar (acc : N) (s : string) :
  has_bar s = true → digits_value acc s = None.
Proof.
  revert acc. induction s as [|c s IH]; simpl; intros acc Hbar; [done|].
  destruct (is_digit c) eqn:Hd; [|done].
  apply orb_true_iff in Hbar as [Hc|Hbar]; [|by apply IH].
  apply bool_decide_eq_true in Hc. subst c. discriminate.
Qed.

Lemma array_index_bar (k : string) : has_bar k = true → array_index k = None.
Proof.
  intros Hbar. unfold array_index. destruct k as [|c rest]; [done|].
  destruct (bool_decide _ && negb _); [done|].
  by rewrite digits_value_bar.
Qed.

Lemma not_inherited_bar (k : string) :
  has_bar k = true → get_own k Object_prototype = None.
Proof.
  intros Hbar. unfold Object_prototype. simpl.
  repeat (destruct (decide _) as [<-|_]; [discriminate Hbar|]). done.
Qed.

Lemma lookup_group_key {V} (c : SerializedCoffee) (o : props V) :
  lookup (group_key c) o =
  match get_own (group_key c) o with Some g => Own g | None => Undefined end.
Proof.
  unfold lookup. destruct (get_own (group_key c) o); [done|].
  by rewrite not_inherited_bar by apply has_bar_group_key.
Qed.

(** ** Groups *)

Lemma group_of_snoc (k : string) (cs : list SerializedCoffee) (c : SerializedCoffee) :
  group_of k (cs ++ [c]) =
  (group_of k cs ++ if decide (group_key c = k) then [c] else [])%list.
Proof.
  unfold group_of. rewrite filter_app. by f_equal.
Qed.

Lemma sum_ratings_snoc (cs : list SerializedCoffee) (c : SerializedCoffee) :
  sum_ratings (cs ++ [c]) = sum_ratings cs + rating c.
Proof. unfold sum_ratings. by rewrite fold_left_app. Qed.

Lemma accumulate_summary (c0 c : SerializedCoffee) (grp : list SerializedCoffee) :
  accumulate c (summary c0 grp) = summary c0 (grp ++ [c]).
Proof.
  unfold accumulate, summary. simpl.
  rewrite sum_ratings_snoc, length_app. simpl.
  replace (Z.of_nat (length grp + 1)) with (Z.of_nat (length grp) + 1) by lia.
  done.
Qed.

Lemma groupedCoffees_snoc (cs : list SerializedCoffee) (c : SerializedCoffee) :
  groupedCoffees (cs ++ [c]) = group_step (groupedCoffees cs) c.
Proof. unfold groupedCoffees. by rewrite fold_left_app. Qed.

(** The accumulated object holds, under each key, the summary of the
    entries with that key. *)
Lemma groupedCoffees_get (cs : list SerializedCoffee) (k : string) :
  get_own k (groupedCoffees cs) =
  match group_of k cs with
  | [] => None
  | c0 :: _ => Some (summary c0 (group_of k cs))
  end.
Proof.
  induction cs as [|c cs IH] using rev_ind; [done|].
  rewrite groupedCoffees_snoc, group_of_snoc. unfold group_step.
  rewrite lookup_group_key.
  assert (Hkc := IH). revert Hkc IH.
  generalize (groupedCoffees cs). intros acc Hk.
  destruct (decide (group_key c = k)) as [<-|Hne].
  - intros _. rewrite Hk.
    destruct (group_of (group_key c) cs) as [|c0 grp] eqn:E.
    + rewrite get_own_define_own, decide_True by done. simpl.
      unfold accumulate, summary, sum_ratings. simpl. done.
    + rewrite get_own_define_own, decide_True by done.
      by rewrite accumulate_summary.
  - intros IH. rewrite app_nil_r.
    destruct (get_own (group_key c) acc);
      by rewrite get_own_define_own, decide_False.
Qed.

Lemma groupedCoffees_NoDup (cs : list SerializedCoffee) :
  NoDup (fst <$> groupedCoffees cs).
Proof.
  induction cs as [|c cs IH] using rev_ind; [constructor|].
  rewrite groupedCoffees_snoc. unfold group_step.
  destruct (lookup _ _); [by apply NoDup_keys_define_own|done|
                          by apply NoDup_keys_define_own].
Qed.

Lemma groupedCoffees_elem (cs : list SerializedCoffee) (k : string)
    (g : AggregatedCoffee) :
  (k, g) ∈ groupedCoffees cs ↔
  ∃ c0 grp, group_of k cs = c0 :: grp ∧ g = summary c0 (c0 :: grp).
Proof.
  split.
  - intros Hin. apply get_own_unique in Hin; [|apply groupedCoffees_NoDup].
    rewrite groupedCoffees_get in Hin.
    destruct (group_of k cs) as [|c0 grp]; [done|].
    injection Hin as <-. by exists c0, grp.
  - intros (c0 & grp & Hgrp & ->). apply get_own_Some.
    by rewrite groupedCoffees_get, Hgrp.
Qed.

Lemma group_of_key (k : string) (cs : list SerializedCoffee)
    (c0 : SerializedCoffee) (grp : list SerializedCoffee) :
  group_of k cs = c0 :: grp → c0 ∈ cs ∧ group_key c0 = k.
Proof.
  intros Hgrp. assert (Hin : c0 ∈ group_of k cs) by (rewrite Hgrp; left).
  apply list_elem_of_filter in Hin. tauto.
Qed.

Lemma groupedCoffees_keys_named (cs : list SerializedCoffee) :
  Forall (λ e, array_index (fst e) = None) (groupedCoffees cs).
Proof.
  apply Forall_forall. intros [k g] Hin. simpl.
  apply groupedCoffees_elem in Hin as (c0 & grp & Hgrp & _).
  apply group_of_key in Hgrp as [_ <-].
  apply array_index_bar, has_bar_group_key.
Qed.

Lemma Object_values_groupedCoffees (cs : list SerializedCoffee) :
  Object_values (groupedCoffees cs) = snd <$> groupedCoffees cs.
Proof.
  unfold Object_values. by rewrite Object_entries_named by apply groupedCoffees_keys_named.
Qed.

(** ** The comparator *)

Lemma Qminus_le_0 (x y : Q) : (x - y <= 0)%Q ↔ (x <= y)%Q.
Proof.
  rewrite (Qle_minus_iff (x - y) 0), (Qle_minus_iff x y).
  assert (E : (0 + - (x - y) == y + - x)%Q) by ring.
  by rewrite E.
Qed.

Lemma goes_before_ranks (a b : AggregatedCoffee) :
  goes_before by_count_then_avg a b ↔ ranks_before a b.
Proof.
  unfold goes_before, by_count_then_avg, ranks_before.
  destruct (Z.eqb_spec (agg_count b - agg_count a) 0) as [E|E].
  - rewrite Qminus_le_0. split.
    + intros Hle. right. split; [lia|done].
    + intros [Hlt|[_ Hle]]; [lia|done].
  - assert (Hz : ∀ z, (inject_Z z <= 0)%Q ↔ z ≤ 0).
    { intros z. rewrite (Zle_Qle z 0). done. }
    rewrite Hz. split.
    + intros Hle. left. lia.
    + intros [Hlt|[Heq _]]; lia.
Qed.

Lemma ranks_before_total (a b : AggregatedCoffee) :
  ranks_before a b ∨ ranks_before b a.
Proof.
  unfold ranks_before.
  destruct (Z.lt_trichotomy (agg_count a) (agg_count b)) as [?|[E|?]].
  - right. by left.
  - destruct (Qlt_le_dec (agg_avgRating a) (agg_avgRating b)) as [Hlt|Hle].
    + right. right. split; [done|]. by apply Qlt_le_weak.
    + left. right. by split.
  - left. by left.
Qed.

Lemma ranks_before_trans (a b c : AggregatedCoffee) :
  ranks_before a b → ranks_before b c → ranks_before a c.
Proof.
  unfold ranks_before.
  intros [Hab|[Eab Hab]] [Hbc|[Ebc Hbc]].
  - left. lia.
  - left. lia.
  - left. lia.
  - right. split; [lia|]. by eapply Qle_trans.
Qed.

Lemma sorted_groups (l : list AggregatedCoffee) :
  StronglySorted ranks_before (Array_sort by_count_then_avg l).
Proof.
  assert (Hs : StronglySorted (goes_before by_count_then_avg)
                 (Array_sort by_count_then_avg l)).
  { apply Array_sort_sorted.
    - intros a b. rewrite !goes_before_ranks. apply ranks_before_total.
    - intros a b c. rewrite !goes_before_ranks. apply ranks_before_trans. }
  induction Hs as [|x l' Hs IH Hall]; constructor; [done|].
  eapply Forall_impl; [exact Hall|]. intros y. by rewrite goes_before_ranks.
Qed.

End StatsFacts.

(* ===================================================================== *)
(** * Facts about the most common preparation *)
(* ===================================================================== *)

Module ModeFacts.
Import JS Stats StatsSpec JSFacts IndexFacts.

Lemma own_name_not_proto (p : string) : own_name p → p ≠ "__proto__".
Proof. intros Hp ->. discriminate Hp. Qed.

Lemma occurrences_snoc (k x : string) (ps : list string) :
  occurrences k (ps ++ [x]) =
  occurrences k ps + if decide (x = k) then 1 else 0.
Proof.
  unfold occurrences. rewrite filter_app, length_app, filter_cons.
  destruct (decide (x = k)); simpl; lia.
Qed.

Lemma occurrences_absent (k : string) (ps : list string) :
  k ∉ ps → occurrences k ps = 0.
Proof.
  intros Hk. unfold occurrences. rewrite Facts.filter_none; [done|].
  intros x Hx ->. done.
Qed.

Lemma occurrences_present (k : string) (ps : list string) :
  k ∈ ps → 1 ≤ occurrences k ps.
Proof.
  intros Hk. unfold occurrences.
  assert (Hin : k ∈ filter (λ q, q = k) ps) by by apply list_elem_of_filter.
  destruct (filter _ ps); [by apply elem_of_nil in Hin|simpl; lia].
Qed.

Lemma preparationCounts_snoc (cs : list SerializedCoffee) (c : SerializedCoffee) :
  preparationCounts (cs ++ [c]) = count_step (preparationCounts cs) c.
Proof. unfold preparationCounts. by rewrite fold_left_app. Qed.

(** Under each preparation value that occurs, the object holds the number
    of its occurrences, and it holds nothing else. *)
Lemma preparationCounts_get (cs : list SerializedCoffee) (k : string) :
  Forall own_name ((preparation <$> cs)) →
  get_own k (preparationCounts cs) =
  if decide (k ∈ (preparation <$> cs))
  then Some (Num (occurrences k ((preparation <$> cs)))) else None.
Proof.
  induction cs as [|c cs IH] using rev_ind; intros Hown.
  - done.
  - rewrite fmap_app in Hown. simpl in Hown.
    apply Forall_app in Hown as [Hown Hc]. rewrite Forall_singleton in Hc.
    rewrite preparationCounts_snoc, fmap_app. simpl.
    set (ps := (preparation <$> cs)) in *. set (x := preparation c) in *.
    unfold count_step. fold x.
    rewrite decide_False by by apply own_name_not_proto.
    rewrite get_own_define_own.
    destruct (decide (x = k)) as [->|Hne].
    + rewrite decide_True by (rewrite elem_of_app; right; left).
      f_equal. unfold lookup. rewrite (IH Hown).
      rewrite occurrences_snoc, (decide_True (P := k = k)) by done.
      destruct (decide (k ∈ ps)) as [Hin|Hnin]; [done|].
      unfold own_name in Hc. cbv beta iota. rewrite Hc. simpl.
      by rewrite occurrences_absent.
    + rewrite (IH Hown). rewrite occurrences_snoc, (decide_False (P := x = k)) by done.
      rewrite Z.add_0_r.
      destruct (decide (k ∈ ps)) as [Hin|Hnin].
      * by rewrite decide_True by (rewrite elem_of_app; by left).
      * rewrite decide_False; [done|].
        rewrite elem_of_app, list_elem_of_singleton. intros [?|?]; done.
Qed.

Lemma preparationCounts_NoDup (cs : list SerializedCoffee) :
  NoDup (fst <$> preparationCounts cs).
Proof.
  induction cs as [|c cs IH] using rev_ind; [constructor|].
  rewrite preparationCounts_snoc. unfold count_step.
  destruct (decide _); [done|by apply NoDup_keys_define_own].
Qed.

Lemma preparationCounts_keys (cs : list SerializedCoffee) (k : string) :
  Forall own_name ((preparation <$> cs)) →
  k ∈ fst <$> preparationCounts cs ↔ k ∈ (preparation <$> cs).
Proof.
  intros Hown. rewrite <- get_own_is_Some, preparationCounts_get by done.
  destruct (decide (k ∈ (preparation <$> cs))); split; done.
Qed.

Lemma preparationCounts_elem (cs : list SerializedCoffee) (k : string)
    (v : count_value) :
  Forall own_name ((preparation <$> cs)) →
  (k, v) ∈ preparationCounts cs ↔
  k ∈ (preparation <$> cs) ∧ v = Num (occurrences k ((preparation <$> cs))).
Proof.
  intros Hown. split.
  - intros Hin. apply get_own_unique in Hin; [|apply preparationCounts_NoDup].
    rewrite preparationCounts_get in Hin by done.
    destruct (decide _); [|done]. by injection Hin as <-.
  - intros [Hk ->]. apply get_own_Some.
    by rewrite preparationCounts_get, decide_True.
Qed.

(** The keys were created in the order in which the values were first seen. *)
Lemma preparationCounts_order (cs : list SerializedCoffee)
    (l1 l2 : list string) (p q : string) :
  Forall own_name ((preparation <$> cs)) →
  fst <$> preparationCounts cs = (l1 ++ p :: l2)%list → q ∈ l2 →
  seen_before ((preparation <$> cs)) p q.
Proof.
  revert l1 l2. induction cs as [|c cs IH] using rev_ind; intros l1 l2 Hown Hkeys Hq.
  - by destruct l1.
  - rewrite fmap_app in Hown. simpl in Hown.
    apply Forall_app in Hown as [Hown Hc]. rewrite Forall_singleton in Hc.
    assert (Hext : ∀ p q, seen_before ((preparation <$> cs)) p q →
                         seen_before ((preparation <$> (cs ++ [c])%list)) p q).
    { intros p' q' (m1 & m2 & E & Hq'). exists m1, (m2 ++ [preparation c])%list.
      split; [|done]. rewrite fmap_app, E. by rewrite <- app_assoc. }
    rewrite preparationCounts_snoc in Hkeys. unfold count_step in Hkeys.
    rewrite decide_False in Hkeys by by apply own_name_not_proto.
    rewrite keys_define_own in Hkeys.
    destruct (decide (preparation c ∈ fst <$> preparationCounts cs)) as [Hold|Hnew].
    + apply Hext. by apply (IH l1 l2).
    + destruct l2 as [|y l2 _] using rev_ind; [by apply elem_of_nil in Hq|].
      rewrite app_comm_cons, app_assoc in Hkeys.
      apply app_inj_tail in Hkeys as [Hkeys <-].
      apply elem_of_app in Hq as [Hq|Hq].
      * apply Hext. by apply (IH l1 l2).
      * apply list_elem_of_singleton in Hq as ->.
        assert (Hp : p ∈ (preparation <$> cs)).
        { apply preparationCounts_keys; [done|]. rewrite Hkeys.
          rewrite elem_of_app. right. left. }
        apply list_elem_of_split_l in Hp as (m1 & m2 & E & Hp).
        exists m1, (m2 ++ [preparation c])%list. split.
        -- rewrite fmap_app, E. by rewrite <- app_assoc.
        -- intros Hin. apply Hnew. apply preparationCounts_keys; [done|].
           rewrite E, elem_of_app. by left.
Qed.

(** ** The loop over the entries *)

(** The loop keeps the first entry whose count is the greatest, provided
    some count exceeds the initial one. *)
Lemma mode_loop (es : list (string * count_value)) (m : Z) (r : option string) :
  Forall (λ e, ∃ n, snd e = Num n) es →
  (fold_left mode_step es (m, r) = (m, r) ∧ Forall (count_at_most m) es) ∨
  (∃ l1 p n l2, es = (l1 ++ (p, Num n) :: l2)%list ∧
                fold_left mode_step es (m, r) = (n, Some p) ∧ m < n ∧
                Forall (count_below n) l1 ∧ Forall (count_at_most n) l2).
Proof.
  revert m r. induction es as [|[k v] es IH]; intros m r Hnum.
  - left. by split.
  - apply Forall_cons in Hnum as [[n Hn] Hnum]. simpl in Hn. subst v.
    simpl. destruct (Z.ltb_spec m n) as [Hlt|Hge].
    + right. destruct (IH n (Some k) Hnum) as [[Hsame Hall]|
        (l1 & p & n' & l2 & -> & Hres & Hlt' & Hl1 & Hl2)].
      * exists [], k, n, es. split_and!; try done.
      * exists ((k, Num n) :: l1), p, n', l2. split_and!; try done; [lia|].
        constructor; [|done]. intros ? [= <-]. done.
    + destruct (IH m r Hnum) as [[Hsame Hall]|
        (l1 & p & n' & l2 & -> & Hres & Hlt' & Hl1 & Hl2)].
      * left. split; [done|]. constructor; [|done]. intros ? [= <-]. done.
      * right. exists ((k, Num n) :: l1), p, n', l2. split_and!; try done.
        constructor; [|done]. intros ? [= <-]. lia.
Qed.

(** ** The order of the entries *)

Lemma app_split_left {A} (l1 l2 m1 m2 : list A) (x : A) :
  (l1 ++ l2 = m1 ++ x :: m2)%list → x ∉ l2 →
  ∃ m2', l1 = (m1 ++ x :: m2')%list ∧ m2 = (m2' ++ l2)%list.
Proof.
  revert m1. induction l1 as [|a l1 IH]; intros m1 E Hx.
  - exfalso. apply Hx. simpl in E. rewrite E, elem_of_app. right. left.
  - destruct m1 as [|b m1]; simpl in E; injection E as -> E.
    + by exists l1.
    + destruct (IH m1 E Hx) as (m2' & -> & ->). by exists m2'.
Qed.

Lemma app_split_right {A} (l1 l2 m1 m2 : list A) (x : A) :
  (l1 ++ l2 = m1 ++ x :: m2)%list → x ∉ l1 →
  ∃ m1', m1 = (l1 ++ m1')%list ∧ l2 = (m1' ++ x :: m2)%list.
Proof.
  revert m1. induction l1 as [|a l1 IH]; intros m1 E Hx.
  - by exists m1.
  - apply not_elem_of_cons in Hx as [Hne Hx].
    destruct m1 as [|b m1]; simpl in E; injection E as -> E; [done|].
    destruct (IH m1 E Hx) as (m1' & -> & ->). by exists m1'.
Qed.

Lemma filter_split {A} (P : A → Prop) `{∀ x, Decision (P x)}
    (l m1 m2 : list A) (x : A) :
  filter P l = (m1 ++ x :: m2)%list →
  ∃ l1 l2, l = (l1 ++ x :: l2)%list ∧ m2 = filter P l2.
Proof.
  revert m1. induction l as [|a l IH]; intros m1 E.
  - by destruct m1.
  - rewrite filter_cons in E. destruct (decide (P a)).
    + destruct m1 as [|b m1]; simpl in E; injection E as -> E.
      * by exists [], l.
      * destruct (IH m1 E) as (l1 & l2 & -> & ->). by exists (b :: l1), l2.
    + destruct (IH m1 E) as (l1 & l2 & -> & ->). by exists (a :: l1), l2.
Qed.

Section Order.
Context (cs : list SerializedCoffee).
Context (Hown : Forall own_name ((preparation <$> cs))).

(** In Object.entries, whatever comes after the entry of [p] has a key that
    [p] precedes in the order of keys. *)
Lemma entries_order (l1 l2 : list (string * count_value)) (p q : string)
    (vp vq : count_value) :
  Object_entries (preparationCounts cs) = (l1 ++ (p, vp) :: l2)%list → (q, vq) ∈ l2 → p ≠ q →
  key_before ((preparation <$> cs)) p q.
Proof.
  intros E Hq Hpq. unfold Object_entries in E. unfold key_before.
  assert (Hidx : ∀ k v, (k, v) ∈ snd <$> index_entries (preparationCounts cs) →
                        ∃ i, array_index k = Some i).
  { intros k v Hin. apply list_elem_of_fmap in Hin as ([i [k' v']] & [= <- <-] & Hin).
    apply elem_of_index_entries in Hin as [_ Hi]. by exists i. }
  assert (Hnamed : ∀ k v, (k, v) ∈ named_entries (preparationCounts cs) → array_index k = None).
  { intros k v Hin. by apply list_elem_of_filter in Hin as [? _]. }
  destruct (array_index p) as [i|] eqn:Ep.
  - (* [p] is an array index: its entry is in the first part *)
    apply app_split_left in E as (m2 & EI & ->).
    2:{ intros Hin. pose proof (Hnamed p vp Hin). congruence. }
    apply elem_of_app in Hq as [Hq|Hq].
    + apply fmap_app_inv in EI as (I1 & I2 & E1 & E2 & EI).
      destruct I2 as [|[i' e'] I2]; [done|]. rewrite fmap_cons in E2.
      simpl in E2. injection E2 as <- E2. subst m2.
      apply list_elem_of_fmap in Hq as ([j e] & Hsnd & Hq). simpl in Hsnd. subst e.
      pose proof (index_entries_sorted (preparationCounts cs)) as Hs. rewrite EI in Hs.
      apply StronglySorted_app_1_r, StronglySorted_inv in Hs as [_ Hall].
      pose proof (proj1 (Forall_forall _ _) Hall _ Hq) as Hle.
      unfold index_le in Hle. simpl in Hle.
      assert (Hi' : array_index p = Some i').
      { apply (elem_of_index_entries (preparationCounts cs) i' p vp). rewrite EI.
        rewrite elem_of_app. right. left. }
      assert (Hj : array_index q = Some j).
      { apply (elem_of_index_entries (preparationCounts cs) j q vq). rewrite EI.
        rewrite elem_of_app. right. by right. }
      rewrite Hj. assert (i' = i) as -> by congruence.
      destruct (N.eq_dec i j) as [->|Hne]; [|lia].
      exfalso. apply Hpq. by apply (array_index_inj p q j).
    + by rewrite (Hnamed q vq Hq).
  - (* [p] is not: its entry is in the second part *)
    apply app_split_right in E as (m1 & -> & EN).
    2:{ intros Hin. destruct (Hidx p vp Hin) as [i Hi]. congruence. }
    assert (Hq' : (q, vq) ∈ named_entries (preparationCounts cs)).
    { rewrite EN, elem_of_app. right. by right. }
    rewrite (Hnamed q vq Hq').
    unfold named_entries in EN. apply filter_split in EN as (o1 & o2 & Eo & ->).
    apply list_elem_of_filter in Hq as [_ Hq].
    apply (preparationCounts_order cs (fst <$> o1) (fst <$> o2)); [done| |].
    + by rewrite Eo, fmap_app.
    + by apply (list_elem_of_fmap_2 fst) in Hq.
Qed.

End Order.

End ModeFacts.

(* ===================================================================== *)
(** * The statistics page *)
(* ===================================================================== *)

Module StatsClaims.
Import JS Stats StatsSpec JSFacts IndexFacts StatsFacts ModeFacts.
Import Samples.

(** ** Most consumed *)

(** The result lists, for every grouping key that occurs, the summary of the
    entries with that key, each once, sorted by count descending and then by
    average rating descending, and cut after five. *)
Theorem mostConsumed_by_key (cs : list SerializedCoffee) :
  ∃ sorted,
    calculateMostConsumedCoffees cs = firstn 5 sorted ∧
    StronglySorted ranks_before sorted ∧
    NoDup sorted ∧
    ∀ g, g ∈ sorted ↔
         ∃ k c0 grp, group_of k cs = c0 :: grp ∧ g = summary c0 (c0 :: grp).
Proof.
  exists (Array_sort by_count_then_avg (snd <$> groupedCoffees cs)).
  assert (Hmem : ∀ g, g ∈ snd <$> groupedCoffees cs ↔
            ∃ k c0 grp, group_of k cs = c0 :: grp ∧ g = summary c0 (c0 :: grp)).
  { intros g. rewrite list_elem_of_fmap. split.
    - intros ([k g'] & -> & Hin). exists k. by apply groupedCoffees_elem.
    - intros (k & Hk). exists (k, g). split; [done|]. by apply groupedCoffees_elem. }
  split_and!.
  - unfold calculateMostConsumedCoffees, Array_slice0.
    by rewrite Object_values_groupedCoffees.
  - apply sorted_groups.
  - rewrite Array_sort_perm. apply NoDup_fmap_2_strong.
    + intros [k1 g1] [k2 g2] H1 H2 Hg. simpl in Hg. subst g2. f_equal.
      apply groupedCoffees_elem in H1 as (c1 & grp1 & Hgrp1 & E1).
      apply groupedCoffees_elem in H2 as (c2 & grp2 & Hgrp2 & E2).
      apply group_of_key in Hgrp1 as [_ <-]. apply group_of_key in Hgrp2 as [_ <-].
      rewrite E1 in E2. unfold summary in E2. injection E2 as Hn Hb _ _ _.
      unfold group_key. by rewrite Hn, Hb.
    + eapply NoDup_fmap_1. apply groupedCoffees_NoDup.
  - intros g. by rewrite Array_sort_perm.
Qed.

(** No more than five lines come back. *)
Lemma mostConsumed_length (cs : list SerializedCoffee) :
  (length (calculateMostConsumedCoffees cs) ≤ 5)%nat.
Proof.
  unfold calculateMostConsumedCoffees, Array_slice0. rewrite length_take. lia.
Qed.

(** Where the key tells the pairs apart, the entries with an entry's key are
    the entries with its (name, brand) pair. *)
Lemma group_of_pair (cs : list SerializedCoffee) (c : SerializedCoffee) :
  key_faithful cs → c ∈ cs →
  group_of (group_key c) cs = pair_group_of (name c) (brand c) cs.
Proof.
  intros Hf Hc. unfold group_of, pair_group_of.
  apply Facts.filter_ext_elem. intros x Hx. split.
  - intros Hk. by apply Hf.
  - intros [Hn Hb]. unfold group_key. by rewrite Hn, Hb.
Qed.

(** A list in which no name contains the separator is such a list. *)
Lemma key_split (n1 b1 n2 b2 : string) :
  has_bar n1 = false → has_bar n2 = false →
  n1 ++ "|" ++ b1 = n2 ++ "|" ++ b2 → n1 = n2 ∧ b1 = b2.
Proof.
  change ("|" ++ b1) with (String "|" b1). change ("|" ++ b2) with (String "|" b2).
  revert n2. induction n1 as [|c1 n1 IH]; intros [|c2 n2]; simpl; intros H1 H2 E.
  - by injection E as ->.
  - injection E as <- E. by rewrite bool_decide_eq_true_2 in H2.
  - injection E as -> E. by rewrite bool_decide_eq_true_2 in H1.
  - injection E as -> E.
    apply orb_false_iff in H1 as [_ H1]. apply orb_false_iff in H2 as [_ H2].
    destruct (IH n2 H1 H2 E) as [-> ->]. done.
Qed.

Lemma no_bar_key_faithful (cs : list SerializedCoffee) :
  Forall (λ c, has_bar (name c) = false) cs → key_faithful cs.
Proof.
  rewrite Forall_forall. intros Hall c c' Hc Hc' E.
  apply (key_split _ _ _ _ (Hall c Hc) (Hall c' Hc') E).
Qed.

(** Where the key tells the pairs apart, the result lists, for every
    (name, brand) pair that occurs, the summary of the entries with that
    pair, each once, sorted by count descending and then by average rating
    descending, and cut after five. *)
Theorem mostConsumed_by_pair (cs : list SerializedCoffee) :
  key_faithful cs →
  ∃ sorted,
    calculateMostConsumedCoffees cs = firstn 5 sorted ∧
    StronglySorted ranks_before sorted ∧
    NoDup sorted ∧
    ∀ g, g ∈ sorted ↔
         ∃ c c0 grp, c ∈ cs ∧
           pair_group_of (name c) (brand c) cs = c0 :: grp ∧
           g = summary c0 (c0 :: grp).
Proof.
  intros Hf. destruct (mostConsumed_by_key cs) as (sorted & Hres & Hs & Hnd & Hmem).
  exists sorted. split_and!; try done.
  intros g. rewrite Hmem. split.
  - intros (k & c0 & grp & Hgrp & ->).
    destruct (group_of_key k cs c0 grp Hgrp) as [Hc0 <-].
    exists c0, c0, grp. split; [done|]. by rewrite <- group_of_pair.
  - intros (c & c0 & grp & Hc & Hgrp & ->).
    exists (group_key c), c0, grp. by rewrite group_of_pair.
Qed.

(** C7.  Two entries with different (name, brand) pairs, ("a|b", "c") and
    ("a", "b|c"), have the same grouping key "a|b|c": the function returns
    one line with count 2 and the ratings of both, named after the first,
    where grouping by the pair gives two lines of count 1. *)
Theorem C7_two_pairs_in_one_group :
  (name (cup "a|b" "c" "Espresso" 5), brand (cup "a|b" "c" "Espresso" 5))
    ≠ (name (cup "a" "b|c" "Espresso" 3), brand (cup "a" "b|c" "Espresso" 3)) ∧
  calculateMostConsumedCoffees
    [cup "a|b" "c" "Espresso" 5; cup "a" "b|c" "Espresso" 3]
    = [mkAggregatedCoffee "a|b" "c" 2 8 (8 # 2)] ∧
  pair_group_of "a|b" "c" [cup "a|b" "c" "Espresso" 5; cup "a" "b|c" "Espresso" 3]
    = [cup "a|b" "c" "Espresso" 5] ∧
  pair_group_of "a" "b|c" [cup "a|b" "c" "Espresso" 5; cup "a" "b|c" "Espresso" 3]
    = [cup "a" "b|c" "Espresso" 3].
Proof. split_and!; [discriminate|vm_compute; reflexivity..]. Qed.

(** ** Most common preparation *)

(** C8, as amended.  For the empty list the function returns null.  For a
    non-empty list in which no preparation value is the name of a property
    that object literals inherit, it returns a preparation value of the list
    whose number of occurrences is the greatest; and every other value with
    as many occurrences comes after it in the order in which the counting
    object hands out its keys: values that are array indices first, by
    ascending numeric value, then the remaining values in the order in which
    they are first seen.  So among values that are not array indices,
    first-seen wins on ties. *)
Theorem C8_most_common_preparation (cs : list SerializedCoffee) :
  cs ≠ [] → Forall own_name (preparation <$> cs) →
  calculateMostCommonPreparation [] = None ∧
  ∃ p, calculateMostCommonPreparation cs = Some p ∧
       p ∈ preparation <$> cs ∧
       (∀ q, q ∈ preparation <$> cs →
          occurrences q (preparation <$> cs) ≤ occurrences p (preparation <$> cs)) ∧
       (∀ q, q ∈ preparation <$> cs →
          occurrences q (preparation <$> cs) = occurrences p (preparation <$> cs) →
          q ≠ p → key_before (preparation <$> cs) p q) ∧
       (∀ q, q ∈ preparation <$> cs →
          occurrences q (preparation <$> cs) = occurrences p (preparation <$> cs) →
          q ≠ p → array_index p = None → array_index q = None →
          seen_before (preparation <$> cs) p q).
Proof.
  intros Hne Hown. split; [done|].
  set (ps := preparation <$> cs) in *.
  set (es := Object_entries (preparationCounts cs)).
  assert (Hes : ∀ k v, (k, v) ∈ es ↔ k ∈ ps ∧ v = Num (occurrences k ps)).
  { intros k v. unfold es. rewrite elem_of_Object_entries.
    by apply preparationCounts_elem. }
  assert (Hnum : Forall (λ e, ∃ n, snd e = Num n) es).
  { apply Forall_forall. intros [k v] Hin. apply Hes in Hin as [_ ->]. by eexists. }
  assert (Hcalc : calculateMostCommonPreparation cs
                  = snd (fold_left mode_step es (0, None))).
  { unfold calculateMostCommonPreparation. destruct cs; [done|]. done. }
  destruct (mode_loop es 0 None Hnum) as [[_ Hall]|
    (l1 & p & n & l2 & Ees & Hres & Hpos & Hl1 & Hl2)].
  { exfalso. destruct cs as [|c cs']; [done|].
    assert (Hc : preparation c ∈ ps) by (subst ps; simpl; left).
    assert (Hin : (preparation c, Num (occurrences (preparation c) ps)) ∈ es)
      by by apply Hes.
    pose proof (proj1 (Forall_forall _ _) Hall _ Hin _ eq_refl) as Hle.
    pose proof (occurrences_present _ _ Hc). simpl in Hle. lia. }
  assert (Hp : (p, Num n) ∈ es).
  { rewrite Ees, elem_of_app. right. left. }
  apply Hes in Hp as [Hp [= Hn]].
  assert (Hrank : ∀ q, q ∈ ps →
            (q, Num (occurrences q ps)) ∈ l1 ∨ q = p ∨
            (q, Num (occurrences q ps)) ∈ l2).
  { intros q Hq.
    assert (Hin : (q, Num (occurrences q ps)) ∈ es) by by apply Hes.
    rewrite Ees, elem_of_app, elem_of_cons in Hin.
    destruct Hin as [?|[[= -> _]|?]]; auto. }
  assert (Hafter : ∀ q, q ∈ ps → occurrences q ps = occurrences p ps → q ≠ p →
            (q, Num (occurrences q ps)) ∈ l2).
  { intros q Hq Heq Hqp. destruct (Hrank q Hq) as [Hin|[?|Hin]]; [|done|done].
    pose proof (proj1 (Forall_forall _ _) Hl1 _ Hin _ eq_refl) as Hlt.
    simpl in Hlt. lia. }
  assert (Hkey : ∀ q, q ∈ ps → occurrences q ps = occurrences p ps → q ≠ p →
            key_before ps p q).
  { intros q Hq Heq Hqp.
    apply (entries_order cs Hown l1 l2 p q (Num n) (Num (occurrences q ps)));
      [done|by apply Hafter|done]. }
  exists p. split_and!.
  - by rewrite Hcalc, Hres.
  - done.
  - intros q Hq. destruct (Hrank q Hq) as [Hin|[->|Hin]].
    + pose proof (proj1 (Forall_forall _ _) Hl1 _ Hin _ eq_refl) as Hlt.
      simpl in Hlt. lia.
    + done.
    + pose proof (proj1 (Forall_forall _ _) Hl2 _ Hin _ eq_refl) as Hle.
      simpl in Hle. lia.
  - done.
  - intros q Hq Heq Hqp Hip Hiq. specialize (Hkey q Hq Heq Hqp).
    unfold key_before in Hkey. by rewrite Hip, Hiq in Hkey.
Qed.

(** Two lattes after one espresso: Latte.  One of each of V60, "2" and "1":
    the array index "1" comes out, though V60 is seen first. *)
Lemma C8_most_common_preparation_witness :
  calculateMostCommonPreparation
    [cup "House" "Blend" "Espresso" 3; cup "House" "Blend" "Latte" 4;
     cup "House" "Blend" "Latte" 5] = Some "Latte" ∧
  ∃ p, calculateMostCommonPreparation
         [cup "House" "Blend" "V60" 3; cup "House" "Blend" "2" 4;
          cup "House" "Blend" "1" 5] = Some p ∧
       key_before ["V60"; "2"; "1"] p "V60" ∧
       key_before ["V60"; "2"; "1"] p "2".
Proof.
  split.
  - destruct (C8_most_common_preparation
                [cup "House" "Blend" "Espresso" 3; cup "House" "Blend" "Latte" 4;
                 cup "House" "Blend" "Latte" 5])
      as (_ & p & Hp & _); [done|by apply (bool_decide_unpack _)|].
    rewrite Hp. vm_compute in Hp. symmetry. exact Hp.
  - destruct (C8_most_common_preparation
                [cup "House" "Blend" "V60" 3; cup "House" "Blend" "2" 4;
                 cup "House" "Blend" "1" 5])
      as (_ & p & Hp & _ & _ & Hkey & _); [done|by apply (bool_decide_unpack _)|].
    exists p. split; [exact Hp|].
    assert (p = "1") as -> by (vm_compute in Hp; congruence).
    split; apply Hkey; try discriminate; try reflexivity.
    + left.
    + right. left.
Defined.

(** The claim as written has the first-seen value win every tie.  With one
    entry prepared "2" followed by one prepared "1", both occur once, "2" is
    seen first, and the function returns "1". *)
Lemma C8_most_common_preparation_counterexample :
  ¬ (∀ cs : list SerializedCoffee, cs ≠ [] →
       ∃ p, calculateMostCommonPreparation cs = Some p ∧
            (∀ q, q ∈ preparation <$> cs →
               occurrences q (preparation <$> cs)
                 ≤ occurrences p (preparation <$> cs)) ∧
            (∀ q, q ∈ preparation <$> cs →
               occurrences q (preparation <$> cs)
                 = occurrences p (preparation <$> cs) →
               q ≠ p → seen_before (preparation <$> cs) p q)).
Proof.
  intros Hclaim.
  destruct (Hclaim [cup "House" "Blend" "2" 4; cup "House" "Blend" "1" 5])
    as (p & Hp & _ & Hfirst); [done|].
  vm_compute in Hp. injection Hp as <-.
  destruct (Hfirst "2") as (l1 & l2 & E & Hnot); [left|reflexivity|discriminate|].
  simpl in E. destruct l1 as [|a l1]; [discriminate E|].
  injection E as <- E. apply Hnot. left.
Qed.

(** A value that names an inherited property is never counted: a diary whose
    only preparation is "constructor" has no most common preparation. *)
Example inherited_name_is_not_counted :
  calculateMostCommonPreparation [cup "House" "Blend" "constructor" 3] = None ∧
  calculateMostCommonPreparation [cup "House" "Blend" "__proto__" 3] = None ∧
  calculateMostCommonPreparation
    [cup "House" "Blend" "toString" 3; cup "House" "Blend" "toString" 3;
     cup "House" "Blend" "Latte" 3] = Some "Latte".
Proof. split_and!; vm_compute; reflexivity. Qed.

End StatsClaims.

(* ===================================================================== *)
(** * The statistics page: the two rankings and what they share *)
(* ===================================================================== *)

Module RankingFacts.
Import JS Stats StatsSpec StatsMore JSFacts IndexFacts StatsFacts.

Lemma goes_before_rated (a b : AggregatedCoffee) :
  goes_before by_avg_then_count a b ↔ rated_before a b.
Proof.
  unfold goes_before, by_avg_then_count, rated_before.
  destruct (Qeq_bool (agg_avgRating b - agg_avgRating a) 0) eqn:E.
  - apply Qeq_bool_iff in E.
    assert (Heq : (agg_avgRating b == agg_avgRating a)%Q).
    { rewrite <- (Qplus_0_l (agg_avgRating a)), <- E. ring. }
    rewrite <- (Zle_Qle _ 0). split.
    + intros Hle. right. split; [done|lia].
    + intros [Hlt|[_ Hle]]; [|lia].
      exfalso. rewrite Heq in Hlt. by apply Qlt_irrefl in Hlt.
  - apply Qeq_bool_neq in E. rewrite Qminus_le_0. split.
    + intros Hle. left. apply Qle_lteq in Hle as [Hlt|Heq]; [done|].
      exfalso. apply E. rewrite Heq. ring.
    + intros [Hlt|[Heq _]]; [by apply Qlt_le_weak|].
      exfalso. apply E. rewrite Heq. ring.
Qed.

Lemma rated_before_total (a b : AggregatedCoffee) :
  rated_before a b ∨ rated_before b a.
Proof.
  unfold rated_before.
  destruct (Q_dec (agg_avgRating a) (agg_avgRating b)) as [[Hlt|Hgt]|Heq].
  - right. by left.
  - left. by left.
  - destruct (Z.le_ge_cases (agg_count a) (agg_count b)).
    + right. right. by split.
    + left. right. split; [by symmetry|done].
Qed.

Lemma rated_before_trans (a b c : AggregatedCoffee) :
  rated_before a b → rated_before b c → rated_before a c.
Proof.
  unfold rated_before.
  intros [Hab|[Eab Hab]] [Hbc|[Ebc Hbc]].
  - left. by eapply Qlt_trans.
  - left. by rewrite Ebc.
  - left. by rewrite <- Eab.
  - right. split; [by rewrite Ebc|lia].
Qed.

Lemma sorted_rated (l : list AggregatedCoffee) :
  StronglySorted rated_before (Array_sort by_avg_then_count l).
Proof.
  assert (Hs : StronglySorted (goes_before by_avg_then_count)
                 (Array_sort by_avg_then_count l)).
  { apply Array_sort_sorted.
    - intros a b. rewrite !goes_before_rated. apply rated_before_total.
    - intros a b c. rewrite !goes_before_rated. apply rated_before_trans. }
  induction Hs as [|x l' Hs IH Hall]; constructor; [done|].
  eapply Forall_impl; [exact Hall|]. intros y. by rewrite goes_before_rated.
Qed.

(** ** Sums over the groups *)

Lemma sum_with_cons {A} (f : A → Z) (x : A) (l : list A) :
  sum_with f (x :: l) = f x + sum_with f l.
Proof. done. Qed.

Lemma sum_with_perm {A} (f : A → Z) (l l' : list A) :
  l ≡ₚ l' → sum_with f l = sum_with f l'.
Proof.
  induction 1 as [|x l l' _ IH|x y l|l l' l'' _ IH1 _ IH2];
    unfold sum_with in *; simpl; lia.
Qed.

Lemma sum_with_at_least {A} (f : A → Z) (l : list A) :
  Forall (λ x, 1 ≤ f x) l → Z.of_nat (length l) ≤ sum_with f l.
Proof.
  induction 1 as [|x l Hx _ IH]; unfold sum_with in *; simpl; lia.
Qed.


Lemma sum_with_define_own {V} (f : V → Z) (k : string) (v : V) (o : props V) :
  sum_with f (snd <$> define_own k v o)
  = sum_with f (snd <$> o) + f v
    - match get_own k o with Some g => f g | None => 0 end.
Proof.
  induction o as [|[k' v'] o IH].
  - unfold sum_with. simpl. lia.
  - cbn [define_own get_own]. destruct (decide (k' = k));
      rewrite !fmap_cons, !sum_with_cons; [simpl; lia|rewrite IH; simpl; lia].
Qed.

(** Every entry is counted in one group, and its rating added there. *)
Lemma group_totals (cs : list SerializedCoffee) :
  sum_with agg_count (snd <$> groupedCoffees cs) = Z.of_nat (length cs) ∧
  sum_with agg_rating (snd <$> groupedCoffees cs) = sum_ratings cs.
Proof.
  induction cs as [|c cs [IHc IHr]] using rev_ind; [done|].
  rewrite groupedCoffees_snoc, sum_ratings_snoc, length_app. simpl.
  unfold group_step. rewrite lookup_group_key.
  destruct (get_own (group_key c) (groupedCoffees cs)) as [g|] eqn:E;
    rewrite !sum_with_define_own, E; simpl; lia.
Qed.

Lemma group_members (cs : list SerializedCoffee) (g : AggregatedCoffee) :
  g ∈ snd <$> groupedCoffees cs ↔
  ∃ k c0 grp, group_of k cs = c0 :: grp ∧ g = summary c0 (c0 :: grp).
Proof.
  rewrite list_elem_of_fmap. split.
  - intros ([k g'] & -> & Hin). exists k. by apply groupedCoffees_elem.
  - intros (k & Hk). exists (k, g). split; [done|]. by apply groupedCoffees_elem.
Qed.

Lemma group_counts_positive (cs : list SerializedCoffee) :
  Forall (λ g, 1 ≤ agg_count g) (snd <$> groupedCoffees cs).
Proof.
  apply Forall_forall. intros g Hg.
  apply group_members in Hg as (k & c0 & grp & _ & ->). simpl. lia.
Qed.

Lemma groups_at_most_entries (cs : list SerializedCoffee) :
  (length (groupedCoffees cs) ≤ length cs)%nat.
Proof.
  pose proof (sum_with_at_least agg_count _ (group_counts_positive cs)) as Hle.
  rewrite (proj1 (group_totals cs)), length_fmap in Hle. lia.
Qed.

Lemma groups_NoDup (cs : list SerializedCoffee) :
  NoDup (snd <$> groupedCoffees cs).
Proof.
  apply NoDup_fmap_2_strong.
  - intros [k1 g1] [k2 g2] H1 H2 Hg. simpl in Hg. subst g2. f_equal.
    apply groupedCoffees_elem in H1 as (c1 & grp1 & Hgrp1 & E1).
    apply groupedCoffees_elem in H2 as (c2 & grp2 & Hgrp2 & E2).
    apply group_of_key in Hgrp1 as [_ <-]. apply group_of_key in Hgrp2 as [_ <-].
    rewrite E1 in E2. unfold summary in E2. injection E2 as Hn Hb _ _ _.
    unfold group_key. by rewrite Hn, Hb.
  - eapply NoDup_fmap_1. apply groupedCoffees_NoDup.
Qed.

Lemma groups_nonempty (cs : list SerializedCoffee) :
  groupedCoffees cs = [] ↔ cs = [].
Proof.
  split; [|by intros ->].
  intros E. pose proof (proj1 (group_totals cs)) as Hsum.
  rewrite E in Hsum. destruct cs; [done|]. simpl in Hsum. unfold sum_with in Hsum.
  simpl in Hsum. lia.
Qed.

Lemma take_nil_iff {A} (n : nat) (l : list A) :
  firstn (S n) l = [] ↔ l = [].
Proof. by destruct l. Qed.

End RankingFacts.

Module StatsExtras.
Import JS Stats StatsSpec StatsMore JSFacts IndexFacts StatsFacts RankingFacts.
Import Samples.

(** calculateTopRatedCoffees lists, for every grouping key that occurs, the
    summary of the entries with that key, each once, ordered by average
    rating descending and, among equal averages, by count descending, and cut
    after five; it returns no more than five lines, and none exactly when
    there are no entries. *)
Theorem topRated_by_key (cs : list SerializedCoffee) :
  ∃ sorted,
    calculateTopRatedCoffees cs = firstn 5 sorted ∧
    StronglySorted rated_before sorted ∧
    NoDup sorted ∧
    (∀ g, g ∈ sorted ↔
          ∃ k c0 grp, group_of k cs = c0 :: grp ∧ g = summary c0 (c0 :: grp)) ∧
    (length (calculateTopRatedCoffees cs) ≤ 5)%nat ∧
    (calculateTopRatedCoffees cs = [] ↔ cs = []).
Proof.
  exists (Array_sort by_avg_then_count (snd <$> groupedCoffees cs)).
  assert (Hcalc : calculateTopRatedCoffees cs
            = firstn 5 (Array_sort by_avg_then_count (snd <$> groupedCoffees cs))).
  { unfold calculateTopRatedCoffees, Array_slice0.
    by rewrite Object_values_groupedCoffees. }
  split_and!.
  - exact Hcalc.
  - apply sorted_rated.
  - rewrite Array_sort_perm. apply groups_NoDup.
  - intros g. rewrite Array_sort_perm. apply group_members.
  - rewrite Hcalc, length_take. lia.
  - rewrite Hcalc, take_nil_iff, <- groups_nonempty. split.
    + intros E. pose proof (Array_sort_perm by_avg_then_count
                              (snd <$> groupedCoffees cs)) as Hp.
      rewrite E in Hp. apply Permutation_nil_l in Hp.
      symmetry in Hp. by apply fmap_nil_inv in Hp.
    + by intros ->.
Qed.

(** The two rankings are cut from the same groups, and the groups count every
    entry once: most-consumed and top-rated are the first five of two
    orderings of one list of groups; over that list the counts add up to the
    number of entries and the rating sums to the sum of all ratings; every
    group has at least one entry and its average is its rating sum over its
    count; there are no more groups than entries; so with at most five
    entries nothing is cut, the two results hold the same groups, and the
    counts shown add up to the number of entries. *)
Theorem rankings_count_every_entry (cs : list SerializedCoffee) :
  ∃ consumed rated,
    calculateMostConsumedCoffees cs = firstn 5 consumed ∧
    calculateTopRatedCoffees cs = firstn 5 rated ∧
    rated ≡ₚ consumed ∧
    sum_with agg_count consumed = Z.of_nat (length cs) ∧
    sum_with agg_rating consumed = sum_ratings cs ∧
    Forall (λ g, 1 ≤ agg_count g ∧
                 agg_avgRating g
                   = (inject_Z (agg_rating g) / inject_Z (agg_count g))%Q) consumed ∧
    (length consumed ≤ length cs)%nat ∧
    ((length cs ≤ 5)%nat →
       calculateTopRatedCoffees cs ≡ₚ calculateMostConsumedCoffees cs ∧
       sum_with agg_count (calculateMostConsumedCoffees cs) = Z.of_nat (length cs)).
Proof.
  set (groups := snd <$> groupedCoffees cs).
  assert (Hc : calculateMostConsumedCoffees cs
               = firstn 5 (Array_sort by_count_then_avg groups)).
  { unfold calculateMostConsumedCoffees, Array_slice0.
    by rewrite Object_values_groupedCoffees. }
  assert (Hr : calculateTopRatedCoffees cs
               = firstn 5 (Array_sort by_avg_then_count groups)).
  { unfold calculateTopRatedCoffees, Array_slice0.
    by rewrite Object_values_groupedCoffees. }
  assert (Hlen : (length groups ≤ length cs)%nat).
  { subst groups. rewrite length_fmap. apply groups_at_most_entries. }
  destruct (group_totals cs) as [Hcount Hrating].
  exists (Array_sort by_count_then_avg groups), (Array_sort by_avg_then_count groups).
  split_and!; try done.
  - by rewrite !Array_sort_perm.
  - by rewrite (sum_with_perm _ _ _ (Array_sort_perm _ groups)).
  - by rewrite (sum_with_perm _ _ _ (Array_sort_perm _ groups)).
  - rewrite Array_sort_perm. apply Forall_forall. intros g Hg.
    apply group_members in Hg as (k & c0 & grp & _ & ->). simpl. split; [lia|done].
  - by rewrite (Permutation_length (Array_sort_perm _ groups)).
  - intros Hfew. rewrite Hc, Hr.
    rewrite !take_ge
      by (rewrite (Permutation_length (Array_sort_perm _ groups)); lia).
    split; [by rewrite !Array_sort_perm|].
    by rewrite (sum_with_perm _ _ _ (Array_sort_perm _ groups)).
Qed.

End StatsExtras.

(* ===================================================================== *)
(** * The statistics page: preparations, days and time ranges *)
(* ===================================================================== *)

Module CountFacts.
Import JS Stats StatsSpec StatsMore JSFacts IndexFacts StatsFacts ModeFacts.

(** ** Filtering an object's properties *)

Section Filter.
Context {V : Type} (P : string * V → Prop) `{∀ e, Decision (P e)}.

Lemma filter_define_own_keep (k : string) (v : V) (o : props V) :
  P (k, v) → (∀ v', (k, v') ∈ o → P (k, v')) →
  filter P (define_own k v o) = define_own k v (filter P o).
Proof.
  unfold props in *. intros Hv. induction o as [|[k' v'] o IH]; intros Ho.
  - cbn [define_own]. by rewrite filter_cons_True.
  - cbn [define_own]. destruct (decide (k' = k)) as [->|Hne].
    + rewrite filter_cons_True by done.
      rewrite (filter_cons_True P (k, v')) by (apply Ho; left).
      cbn [define_own]. by rewrite decide_True.
    + assert (Ho' : ∀ v'', (k, v'') ∈ o → P (k, v''))
        by (intros v'' Hin; apply Ho; by right).
      pose proof (IH Ho') as IH'.
      rewrite !filter_cons. destruct (decide (P (k', v'))).
      * cbn [define_own]. rewrite decide_False by done. by rewrite IH'.
      * exact IH'.
Qed.

Lemma filter_define_own_drop (k : string) (v : V) (o : props V) :
  ¬ P (k, v) → (∀ v', (k, v') ∈ o → ¬ P (k, v')) →
  filter P (define_own k v o) = filter P o.
Proof.
  unfold props in *. intros Hv. induction o as [|[k' v'] o IH]; intros Ho.
  - cbn [define_own]. by rewrite filter_cons_False.
  - cbn [define_own]. destruct (decide (k' = k)) as [->|Hne].
    + rewrite filter_cons_False by done.
      by rewrite (filter_cons_False P (k, v')) by (apply Ho; left).
    + assert (Ho' : ∀ v'', (k, v'') ∈ o → ¬ P (k, v''))
        by (intros v'' Hin; apply Ho; by right).
      pose proof (IH Ho') as IH'.
      rewrite !filter_cons. destruct (decide (P (k', v'))); by rewrite IH'.
Qed.

Lemma get_own_filter (k : string) (o : props V) :
  (∀ v, (k, v) ∈ o → P (k, v)) → get_own k (filter P o) = get_own k o.
Proof.
  unfold props in *. induction o as [|[k' v'] o IH]; intros Ho; [done|].
  assert (Ho' : ∀ v, (k, v) ∈ o → P (k, v))
    by (intros v Hin; apply Ho; by right).
  pose proof (IH Ho') as IH'.
  rewrite filter_cons. cbn [get_own].
  destruct (decide (k' = k)) as [->|Hne].
  - rewrite decide_True by (apply Ho; left). cbn [get_own].
    by rewrite decide_True.
  - destruct (decide (P (k', v'))); [|done].
    cbn [get_own]. by rewrite decide_False.
Qed.

Lemma insert_index_first (i : N) (e : string * V) (l : list (N * (string * V))) :
  Forall (λ x, (i ≤ fst x)%N) l → insert_index i e l = (i, e) :: l.
Proof.
  destruct l as [|[j e'] l]; [done|]. intros Hall.
  apply Forall_cons in Hall as [Hj _]. simpl in *.
  by rewrite (proj2 (N.leb_le i j)).
Qed.

Lemma filter_insert_index (i : N) (e : string * V) (l : list (N * (string * V))) :
  StronglySorted index_le l →
  filter (on_entry P) (insert_index i e l)
  = if decide (P e) then insert_index i e (filter (on_entry P) l)
    else filter (on_entry P) l.
Proof.
  induction l as [|[j e'] l IH]; intros Hs.
  - simpl. rewrite filter_cons. unfold on_entry at 1. simpl.
    by destruct (decide (P e)).
  - apply StronglySorted_inv in Hs as [Hs Hall].
    cbn [insert_index]. destruct (N.leb_spec i j) as [Hle|Hgt].
    + rewrite (filter_cons _ (i, e)). unfold on_entry at 1. simpl.
      destruct (decide (P e)); [|done].
      symmetry. apply insert_index_first.
      apply Forall_forall. intros x Hx. apply list_elem_of_filter in Hx as [_ Hx].
      apply elem_of_cons in Hx as [->|Hx]; [done|].
      rewrite Forall_forall in Hall. specialize (Hall x Hx).
      unfold index_le in Hall. simpl in Hall. lia.
    + rewrite (filter_cons _ (j, e')), (filter_cons _ (j, e') l).
      rewrite (IH Hs).
      destruct (decide (on_entry P (j, e'))); destruct (decide (P e)); try done.
      cbn [insert_index]. destruct (N.leb_spec i j); [lia|done].
Qed.

Lemma index_entries_filter (o : props V) :
  index_entries (filter P o) = filter (on_entry P) (index_entries o).
Proof.
  unfold props in *. induction o as [|[k v] o IH]; [done|].
  rewrite filter_cons. cbn [index_entries].
  destruct (array_index k) as [i|] eqn:E.
  - rewrite filter_insert_index by apply index_entries_sorted.
    destruct (decide (P (k, v))); [|done].
    cbn [index_entries]. by rewrite E, IH.
  - destruct (decide (P (k, v))); [|done].
    cbn [index_entries]. by rewrite E.
Qed.

Lemma filter_fmap_snd (l : list (N * (string * V))) :
  filter P (snd <$> l) = snd <$> filter (on_entry P) l.
Proof.
  induction l as [|x l IH]; [done|].
  rewrite fmap_cons, !filter_cons. unfold on_entry at 1.
  destruct (decide (P (snd x))); [by rewrite fmap_cons, IH|done].
Qed.

Lemma named_entries_filter (o : props V) :
  named_entries (filter P o) = filter P (named_entries o).
Proof.
  unfold named_entries, props in *. induction o as [|x o IH]; [done|].
  rewrite !filter_cons.
  destruct (decide (P x)); destruct (decide (array_index (fst x) = None));
    rewrite ?filter_cons; rewrite ?decide_True by done;
    rewrite ?decide_False by done; by rewrite ?IH.
Qed.

(** Object.entries of the properties that pass a test are the entries that
    pass it. *)
Lemma Object_entries_filter (o : props V) :
  Object_entries (filter P o) = filter P (Object_entries o).
Proof.
  unfold Object_entries, props in *.
  by rewrite filter_app, filter_fmap_snd, index_entries_filter,
    named_entries_filter.
Qed.

End Filter.

(** ** The loop passes over a slot that holds no number *)

Lemma mode_skip (es : list (string * count_value)) (st : Z * option string) :
  fold_left mode_step es st = fold_left mode_step (filter is_num es) st.
Proof.
  revert st. induction es as [|[p v] es IH]; intros st; [done|].
  rewrite filter_cons. destruct v as [n|s].
  - rewrite decide_True by done. simpl. apply IH.
  - rewrite decide_False by (by intros ?). simpl.
    destruct st as [m r]. simpl. apply IH.
Qed.

(** ** What the slots hold *)

Lemma app_1_nonempty (s : string) : s ++ "1" ≠ EmptyString.
Proof. by destruct s. Qed.

Lemma Forall_define_own {V} (Q : string * V → Prop) (k : string) (v : V)
    (o : props V) :
  Forall Q o → Q (k, v) → Forall Q (define_own k v o).
Proof.
  intros Ho Hv. induction Ho as [|[k' v'] o Hx Ho IH]; cbn [define_own].
  - by constructor.
  - destruct (decide (k' = k)); by constructor.
Qed.

Lemma counts_filter (cs : list SerializedCoffee) :
  Forall slot_ok (preparationCounts cs) ∧
  filter is_num (preparationCounts cs) = preparationCounts (filter counted cs).
Proof.
  induction cs as [|c cs [IHok IHf]] using rev_ind; [by split|].
  rewrite preparationCounts_snoc, filter_app, filter_cons, filter_nil.
  set (acc := preparationCounts cs) in *.
  set (p := preparation c).
  assert (Hslot : ∀ v, (p, v) ∈ acc → slot_ok (p, v)).
  { intros v Hin. by apply (proj1 (Forall_forall _ _) IHok). }
  unfold count_step. fold p. fold acc.
  destruct (decide (p = "__proto__")) as [Hproto|Hproto].
  - split; [done|].
    rewrite decide_False; [by rewrite app_nil_r|].
    unfold counted. fold p. rewrite Hproto. by intros ?.
  - destruct (decide (counted c)) as [Hown|Hinh].
    + assert (Hnum : ∀ v, (p, v) ∈ acc → is_num (p, v)).
      { intros v Hin. specialize (Hslot v Hin). unfold slot_ok, is_num in *.
        simpl in *. destruct v; [done|]. by destruct Hslot. }
      assert (Hbump : ∃ n, bump (lookup p acc) = Num n).
      { unfold lookup. destruct (get_own p acc) as [v|] eqn:E.
        - apply get_own_Some, Hnum in E. destruct v; [by eexists|done].
        - unfold counted, own_name in Hown. fold p in Hown. rewrite Hown.
          by eexists. }
      destruct Hbump as [n Hn]. split.
      * rewrite Hn. by apply Forall_define_own.
      * rewrite preparationCounts_snoc, <- IHf. unfold count_step. fold p.
        rewrite decide_False by done.
        assert (Hl : lookup p (filter is_num acc) = lookup p acc).
        { unfold lookup. by rewrite get_own_filter. }
        rewrite Hl, Hn. apply filter_define_own_keep; [done|exact Hnum].
    + assert (Hstr : ∀ v, (p, v) ∈ acc → ¬ is_num (p, v)).
      { intros v Hin. specialize (Hslot v Hin). unfold slot_ok, is_num in *.
        simpl in *. destruct v; [done|]. by intros ?. }
      assert (Hbump : ∃ s, bump (lookup p acc) = Str s ∧ s ≠ EmptyString).
      { unfold lookup. destruct (get_own p acc) as [v|] eqn:E.
        - apply get_own_Some in E. specialize (Hslot v E).
          unfold slot_ok in Hslot. simpl in Hslot. destruct v as [n|s]; [done|].
          destruct Hslot as [_ Hs]. simpl. rewrite decide_False by done.
          eexists. split; [done|apply app_1_nonempty].
        - unfold counted, own_name in Hinh. fold p in Hinh.
          destruct (get_own p Object_prototype) as [text|]; [|done].
          eexists. split; [done|apply app_1_nonempty]. }
      destruct Hbump as (s & Hs & Hne). rewrite Hs. split.
      * by apply Forall_define_own.
      * rewrite app_nil_r, <- IHf.
        apply filter_define_own_drop; [by intros ?|exact Hstr].
Qed.

(** The most common preparation of a list is that of its counted entries. *)
Lemma mode_of_counted (cs : list SerializedCoffee) :
  snd (fold_left mode_step (Object_entries (preparationCounts cs)) (0, None))
  = snd (fold_left mode_step
           (Object_entries (preparationCounts (filter counted cs))) (0, None)).
Proof.
  rewrite mode_skip, <- Object_entries_filter.
  by rewrite (proj2 (counts_filter cs)).
Qed.

End CountFacts.

Module PreparationExtras.
Import JS Stats StatsSpec StatsMore JSFacts IndexFacts StatsFacts ModeFacts.
Import CountFacts Samples.

(** calculateMostCommonPreparation passes over every entry whose preparation
    is the name of a property all objects inherit: the result for a list is
    the result for its other entries.  So the result is null exactly when
    there is no other entry, and a preparation that is returned is never an
    inherited name and is the preparation of some entry. *)
Theorem inherited_preparations_are_ignored (cs : list SerializedCoffee) :
  calculateMostCommonPreparation cs
    = calculateMostCommonPreparation (filter counted cs) ∧
  (calculateMostCommonPreparation cs = None ↔ ∀ c, c ∈ cs → ¬ counted c) ∧
  (∀ p, calculateMostCommonPreparation cs = Some p →
        own_name p ∧ p ∈ preparation <$> cs).
Proof.
  set (cs' := filter counted cs).
  assert (Hsame : calculateMostCommonPreparation cs
                  = calculateMostCommonPreparation cs').
  { unfold calculateMostCommonPreparation.
    destruct (decide (length cs = 0%nat)) as [E|E].
    - apply nil_length_inv in E. by subst cs' cs.
    - rewrite mode_of_counted. fold cs'.
      destruct (decide (length cs' = 0%nat)) as [E'|E']; [|done].
      apply nil_length_inv in E'. by rewrite E'. }
  assert (Hown : Forall own_name (preparation <$> cs')).
  { apply Forall_fmap, Forall_forall. intros c Hc.
    by apply list_elem_of_filter in Hc as [? _]. }
  assert (Hsub : ∀ p, p ∈ preparation <$> cs' → own_name p ∧ p ∈ preparation <$> cs).
  { intros p Hp. apply list_elem_of_fmap in Hp as (c & -> & Hc).
    apply list_elem_of_filter in Hc as [Hcounted Hc].
    split; [done|]. by apply list_elem_of_fmap_2. }
  assert (Hnum : Forall (λ e, ∃ n, snd e = Num n)
                   (Object_entries (preparationCounts cs'))).
  { apply Forall_forall. intros [k v] Hin.
    apply elem_of_Object_entries, preparationCounts_elem in Hin as [_ ->]; [|done].
    by eexists. }
  split; [exact Hsame|]. rewrite Hsame. split.
  - split.
    + intros Hnone c Hc Hcounted.
      assert (Hc' : c ∈ cs') by by apply list_elem_of_filter.
      unfold calculateMostCommonPreparation in Hnone.
      destruct (decide (length cs' = 0%nat)) as [E|E].
      { apply nil_length_inv in E. rewrite E in Hc'. by apply elem_of_nil in Hc'. }
      destruct (mode_loop _ 0 None Hnum) as [[_ Hall]|(l1 & p & n & l2 & _ & Hf & _)];
        [|by rewrite Hf in Hnone].
      assert (Hp : preparation c ∈ preparation <$> cs') by by apply list_elem_of_fmap_2.
      assert (Hin : (preparation c, Num (occurrences (preparation c) (preparation <$> cs')))
                    ∈ Object_entries (preparationCounts cs')).
      { apply elem_of_Object_entries, preparationCounts_elem; done. }
      rewrite Forall_forall in Hall. specialize (Hall _ Hin _ eq_refl).
      pose proof (occurrences_present _ _ Hp). lia.
    + intros Hnone. replace cs' with (@nil SerializedCoffee); [done|].
      symmetry. apply Facts.filter_none. exact Hnone.
  - intros p Hp. apply Hsub.
    unfold calculateMostCommonPreparation in Hp.
    destruct (decide (length cs' = 0%nat)) as [E|E]; [done|].
    destruct (mode_loop _ 0 None Hnum) as [[Hf _]|(l1 & q & n & l2 & Hes & Hf & _)];
      rewrite Hf in Hp; [done|].
    injection Hp as ->.
    assert (Hin : (p, Num n) ∈ Object_entries (preparationCounts cs')).
    { rewrite Hes, elem_of_app. right. left. }
    by apply elem_of_Object_entries, preparationCounts_elem in Hin as [? _].
Qed.

End PreparationExtras.

Module DateFacts.
Import JS Stats StatsSpec StatsMore.

Lemma elem_of_first_seen (l : list string) (d : string) :
  d ∈ first_seen l ↔ d ∈ l.
Proof.
  induction l as [|x l IH]; [done|]. cbn [first_seen].
  rewrite !elem_of_cons, list_elem_of_filter, IH.
  destruct (decide (d = x)); tauto.
Qed.

Lemma first_seen_NoDup (l : list string) : NoDup (first_seen l).
Proof.
  induction l as [|x l IH]; [constructor|]. cbn [first_seen].
  constructor; [|by apply NoDup_filter].
  rewrite list_elem_of_filter. by intros [? _].
Qed.

Lemma first_seen_sublist (l : list string) : first_seen l `sublist_of` l.
Proof.
  induction l as [|x l IH]; [done|]. cbn [first_seen].
  apply sublist_skip. etrans; [apply sublist_filter|done].
Qed.

Lemma first_seen_nil (l : list string) : first_seen l = [] ↔ l = [].
Proof. by destruct l. Qed.

(** The loop of includes and push, started with [acc]. *)
Lemma includes_push (l acc : list string) :
  fold_left (λ acc d, if decide (d ∈ acc) then acc else (acc ++ [d])%list) l acc
  = (acc ++ filter (λ x, x ∉ acc) (first_seen l))%list.
Proof.
  revert acc. induction l as [|d l IH]; intros acc.
  - simpl. by rewrite filter_nil, app_nil_r.
  - cbn [fold_left first_seen]. rewrite IH, filter_cons.
    destruct (decide (d ∈ acc)) as [Hin|Hin].
    + destruct (decide (d ∉ acc)) as [Hn|_]; [by destruct Hn|]. f_equal.
      rewrite list_filter_filter. apply Facts.filter_ext_elem.
      intros x _. split; [|by intros [? _]]. intros Hx. split; [done|].
      by intros ->.
    + rewrite decide_True by done. rewrite <- app_assoc. simpl. do 2 f_equal.
      rewrite list_filter_filter. apply Facts.filter_ext_elem.
      intros x _. rewrite not_elem_of_app, list_elem_of_singleton. tauto.
Qed.

Section Days.
Context (format_day : string → option string).

Lemma day_steps (cs : list SerializedCoffee) (all acc : list string) :
  Forall2 (λ c d, format_day (createdAt c) = Some d) cs all →
  fold_left (day_step format_day) cs (Some acc)
  = Some (fold_left (λ acc d, if decide (d ∈ acc) then acc else (acc ++ [d])%list)
            all acc).
Proof.
  intros Hall. revert acc. induction Hall as [|c d cs all Hd _ IH]; intros acc.
  - done.
  - simpl. rewrite Hd. apply IH.
Qed.

Lemma day_step_None (cs : list SerializedCoffee) :
  fold_left (day_step format_day) cs None = None.
Proof. by induction cs. Qed.

Lemma calculateCoffeesByDay_invalid (cs : list SerializedCoffee) (c : SerializedCoffee) :
  c ∈ cs → format_day (createdAt c) = None →
  calculateCoffeesByDay format_day cs = None.
Proof.
  intros Hc Hbad. apply list_elem_of_split in Hc as (l1 & l2 & ->).
  unfold calculateCoffeesByDay. rewrite fold_left_app. simpl.
  destruct (fold_left _ l1 _); simpl; rewrite ?Hbad; apply day_step_None.
Qed.

End Days.
Lemma sublist_filter_impl {A} (P Q : A → Prop) `{∀ x, Decision (P x)}
    `{∀ x, Decision (Q x)} (l : list A) :
  (∀ x, P x → Q x) → filter P l `sublist_of` filter Q l.
Proof.
  intros Himpl. induction l as [|x l IH]; [done|].
  rewrite !filter_cons. destruct (decide (P x)) as [HP|HP].
  - rewrite decide_True by by apply Himpl. by apply sublist_skip.
  - destruct (decide (Q x)); [by apply sublist_cons|done].
Qed.

End DateFacts.

Module DateExtras.
Import JS Stats StatsSpec StatsMore DateFacts.
Import Samples.

(** calculateCoffeesByDay, when every createdAt is a valid date: the result
    is the list of the entries' days with each day kept at its first
    occurrence; it has no day twice, holds exactly the days that occur, in
    the order in which they first occur, is no longer than the list of
    entries, and is empty only for no entries.  One more entry whose
    createdAt is not a valid date, in front or at the end, makes the call
    throw. *)
Theorem coffeesByDay_first_seen (format_day : string → option string)
    (cs : list SerializedCoffee) (all : list string) :
  Forall2 (λ c d, format_day (createdAt c) = Some d) cs all →
  ∃ days, calculateCoffeesByDay format_day cs = Some days ∧
    days = first_seen all ∧
    NoDup days ∧
    (∀ d, d ∈ days ↔ d ∈ all) ∧
    days `sublist_of` all ∧
    (length days ≤ length cs)%nat ∧
    (days = [] ↔ cs = []) ∧
    ∀ bad, format_day (createdAt bad) = None →
      calculateCoffeesByDay format_day (cs ++ [bad]) = None ∧
      calculateCoffeesByDay format_day (bad :: cs) = None.
Proof.
  intros Hall. exists (first_seen all). split_and!.
  - unfold calculateCoffeesByDay. rewrite (day_steps _ _ all) by done.
    rewrite includes_push. simpl. f_equal. apply Facts.filter_all.
    intros x _. apply not_elem_of_nil.
  - done.
  - apply first_seen_NoDup.
  - apply elem_of_first_seen.
  - apply first_seen_sublist.
  - rewrite (Forall2_length _ _ _ Hall). apply sublist_length, first_seen_sublist.
  - rewrite first_seen_nil. split; intros ->.
    + by apply Forall2_nil_inv_r in Hall.
    + by apply Forall2_nil_inv_l in Hall.
  - intros bad Hbad. split.
    + apply (calculateCoffeesByDay_invalid _ _ bad); [|done].
      rewrite elem_of_app. right. left.
    + apply (calculateCoffeesByDay_invalid _ _ bad); [left|done].
Qed.

Lemma coffeesByDay_first_seen_witness :
  calculateCoffeesByDay utc_day
    [cup_at "2025-03-04T18:41:02.000Z"; cup_at "2024-12-24T08:00:00.000Z";
     cup_at "2025-03-04T07:15:00.000Z"]
    = Some ["2025-03-04"; "2024-12-24"] ∧
  calculateCoffeesByDay utc_day
    [cup_at "2025-03-04T18:41:02.000Z"; cup_at "yesterday"] = None.
Proof.
  destruct (coffeesByDay_first_seen utc_day
              [cup_at "2025-03-04T18:41:02.000Z"; cup_at "2024-12-24T08:00:00.000Z";
               cup_at "2025-03-04T07:15:00.000Z"]
              ["2025-03-04"; "2024-12-24"; "2025-03-04"])
    as (days & Hdays & -> & _).
  { repeat constructor. }
  split; [exact Hdays|].
  destruct (coffeesByDay_first_seen utc_day [cup_at "2025-03-04T18:41:02.000Z"]
              ["2025-03-04"]) as (days & _ & _ & _ & _ & _ & _ & _ & Hbad).
  { repeat constructor. }
  by apply (Hbad (cup_at "yesterday")).
Defined.

(** filterCoffeesByTimeRange, for a [subMonths] that goes further back the
    more months it is given.  "all" returns the list as it is.  Every other
    range keeps, in their order, exactly the entries whose createdAt is a
    valid date between the start of the range and now, both included; so an
    entry dated after now, or with an invalid date, shows only under "all".
    The ranges nest: what one month keeps, three months keep, and so on up to
    "all".  Filtering twice by the same range changes nothing. *)
Theorem time_ranges_nest (subMonths : Z → Z → Z) (Date_time : string → option Z)
    (now : Z) (cs : list SerializedCoffee) :
  (∀ m n, m ≤ n → subMonths now n ≤ subMonths now m) →
  filterCoffeesByTimeRange subMonths Date_time now cs RAll = cs ∧
  (∀ r c, r ≠ RAll →
     c ∈ filterCoffeesByTimeRange subMonths Date_time now cs r ↔
     c ∈ cs ∧ ∃ t, Date_time (createdAt c) = Some t ∧
                   startDate subMonths now r ≤ t ≤ now) ∧
  (∀ r, filterCoffeesByTimeRange subMonths Date_time now cs r `sublist_of` cs) ∧
  filterCoffeesByTimeRange subMonths Date_time now cs R1month
    `sublist_of` filterCoffeesByTimeRange subMonths Date_time now cs R3months ∧
  filterCoffeesByTimeRange subMonths Date_time now cs R3months
    `sublist_of` filterCoffeesByTimeRange subMonths Date_time now cs R6months ∧
  filterCoffeesByTimeRange subMonths Date_time now cs R6months
    `sublist_of` filterCoffeesByTimeRange subMonths Date_time now cs R1year ∧
  (∀ r, filterCoffeesByTimeRange subMonths Date_time now
          (filterCoffeesByTimeRange subMonths Date_time now cs r) r
        = filterCoffeesByTimeRange subMonths Date_time now cs r).
Proof.
  intros Hmono.
  assert (Hin : ∀ start c, in_range Date_time start now c = true ↔
            ∃ t, Date_time (createdAt c) = Some t ∧ start ≤ t ≤ now).
  { intros start c. unfold in_range.
    destruct (Date_time (createdAt c)) as [t|].
    - rewrite andb_true_iff, !Z.leb_le. split.
      + intros ?. by exists t.
      + by intros (? & [= <-] & ?).
    - split; [done|]. by intros (? & ? & _). }
  assert (Hnest : ∀ m n, m ≤ n →
            filter (λ c, in_range Date_time (subMonths now m) now c = true) cs
            `sublist_of`
            filter (λ c, in_range Date_time (subMonths now n) now c = true) cs).
  { intros m n Hmn. apply sublist_filter_impl. intros c.
    rewrite !Hin. intros (t & Ht & Hle). exists t. split; [done|].
    specialize (Hmono m n Hmn). lia. }
  split_and!.
  - done.
  - intros r c Hr. destruct r; try done; simpl;
      by rewrite list_elem_of_filter, Hin, (comm and).
  - intros []; simpl; try apply sublist_filter. done.
  - simpl. by apply Hnest.
  - simpl. by apply Hnest.
  - simpl. by apply Hnest.
  - intros []; simpl; try done; rewrite list_filter_filter;
      apply Facts.filter_ext_elem; tauto.
Qed.

Lemma time_ranges_nest_witness :
  filterCoffeesByTimeRange thirty_days utc_time 1741200000000
    [cup_at "2025-03-04T18:41:02.000Z"; cup_at "2024-12-24T08:00:00.000Z";
     cup_at "yesterday"] R1month
    `sublist_of`
  filterCoffeesByTimeRange thirty_days utc_time 1741200000000
    [cup_at "2025-03-04T18:41:02.000Z"; cup_at "2024-12-24T08:00:00.000Z";
     cup_at "yesterday"] R3months ∧
  ¬ cup_at "yesterday" ∈
    filterCoffeesByTimeRange thirty_days utc_time 1741200000000
      [cup_at "2025-03-04T18:41:02.000Z"; cup_at "2024-12-24T08:00:00.000Z";
       cup_at "yesterday"] R1year.
Proof.
  destruct (time_ranges_nest thirty_days utc_time 1741200000000
              [cup_at "2025-03-04T18:41:02.000Z"; cup_at "2024-12-24T08:00:00.000Z";
               cup_at "yesterday"])
    as (_ & Hmem & _ & Hnest & _).
  { intros m n Hmn. unfold thirty_days. lia. }
  split; [exact Hnest|].
  rewrite Hmem by done. intros (_ & t & Ht & _). discriminate.
Defined.

End DateExtras.

(* ===================================================================== *)
(** * The routes: what they answer and what they write *)
(* ===================================================================== *)

Module RouteFacts.
Import Prisma Schema UserModel Trace Facts TokenFacts IssueFacts Preservation.
Import LoginClaims More AccountFacts Routes ForgotPassword.

Lemma truthy_Some (s : string) : truthy (Some s) = true ↔ s ≠ EmptyString.
Proof.
  unfold truthy. rewrite negb_true_iff, bool_decide_eq_false. done.
Qed.

(** A token either is stored and unexpired, or verification answers null
    without touching users and passwords. *)
Lemma verifyToken_cases (k : TokenKind) (t : string) (now : Z) (db : DB) :
  Consistent db →
  (∃ row u, row ∈ tokens k db ∧ tok_token row = t ∧ now ≤ tok_expiresAt row ∧
            u ∈ users db ∧ user_id u = tok_userId row ∧
            verifyToken k t now db = (Ok (Some (row, u)), db)) ∨
  ((∀ row, row ∈ tokens k db → tok_token row = t → tok_expiresAt row < now) ∧
   fst (verifyToken k t now db) = Ok None ∧
   users (snd (verifyToken k t now db)) = users db ∧
   passwords (snd (verifyToken k t now db)) = passwords db ∧
   coffees (snd (verifyToken k t now db)) = coffees db).
Proof.
  intros Hc.
  destruct (findUnique (λ r, tok_token r = t) (tokens k db)) as [row|] eqn:E.
  - apply findUnique_Some in E as [Ht Hrow].
    destruct (decide (now ≤ tok_expiresAt row)) as [Hlive|Hexp].
    + left. destruct (verifyToken_live k t now db row Hc Hrow Ht Hlive)
        as (u & Hu & Hid & Hv).
      by exists row, u.
    + right. rewrite (verifyToken_expired k t now db row Hc Hrow Ht) by lia.
      split; [|by destruct k].
      intros row' Hrow' Ht'.
      assert (row' = row) as ->; [|lia].
      apply (unique_column tok_token (tokens k db)); [|done|done|congruence].
      by destruct (tokens_ok db k Hc).
  - right. pose proof (proj1 (findUnique_None _ _) E) as Habs.
    rewrite verifyToken_absent by done.
    split; [|done]. intros row Hrow Ht. by destruct (Habs row Hrow).
Qed.

Lemma resetPassword_cases `{Bcrypt} (t p : string) (now : Z) (salt : string)
    (db : DB) :
  Inv db →
  (∃ row u, row ∈ passwordResets db ∧ tok_token row = t ∧ now ≤ tok_expiresAt row ∧
            u ∈ users db ∧ user_id u = tok_userId row ∧
            resetPassword t p now salt db =
              (Ok (Some u),
               set_tokens PasswordResetK
                 (filter (λ r, tok_token r ≠ t) (passwordResets db))
                 (set_passwords
                    (set_hash (user_id u) (bcrypt_hash p salt) <$> passwords db) db))) ∨
  ((∀ row, row ∈ passwordResets db → tok_token row = t → tok_expiresAt row < now) ∧
   fst (resetPassword t p now salt db) = Ok None ∧
   users (snd (resetPassword t p now salt db)) = users db ∧
   passwords (snd (resetPassword t p now salt db)) = passwords db ∧
   coffees (snd (resetPassword t p now salt db)) = coffees db).
Proof.
  intros HI.
  destruct (verifyToken_cases PasswordResetK t now db (proj1 HI))
    as [(row & u & Hrow & Ht & Hlive & Hu & Hid & _)|(Hno & Hv & Hrest)].
  - left. destruct (resetPassword_live t p now salt db row HI Hrow Ht Hlive)
      as (u' & Hu' & Hid' & Hreset).
    exists row, u'. by split_and!.
  - right. split; [done|].
    unfold resetPassword, bind.
    change (verifyPasswordResetToken t now db)
      with (verifyToken PasswordResetK t now db).
    destruct (verifyToken PasswordResetK t now db) as [[[[r u]|]|e] db'];
      simpl in *; try done.
Qed.

Lemma confirmUserEmail_cases (t : string) (now stamp : Z) (db : DB) :
  Inv db →
  (∃ row u, row ∈ emailConfirmations db ∧ tok_token row = t ∧
            now ≤ tok_expiresAt row ∧ u ∈ users db ∧ user_id u = tok_userId row ∧
            confirmUserEmail t now stamp db =
              (Ok (Some (user_set_verified stamp u)),
               set_tokens EmailConfirmationK
                 (filter (λ r, tok_token r ≠ t) (emailConfirmations db))
                 (set_users (mark_verified (user_id u) stamp <$> users db) db))) ∨
  ((∀ row, row ∈ emailConfirmations db → tok_token row = t →
           tok_expiresAt row < now) ∧
   fst (confirmUserEmail t now stamp db) = Ok None ∧
   users (snd (confirmUserEmail t now stamp db)) = users db ∧
   passwords (snd (confirmUserEmail t now stamp db)) = passwords db ∧
   coffees (snd (confirmUserEmail t now stamp db)) = coffees db).
Proof.
  intros HI.
  destruct (verifyToken_cases EmailConfirmationK t now db (proj1 HI))
    as [(row & u & Hrow & Ht & Hlive & Hu & Hid & _)|(Hno & Hv & Hrest)].
  - left. destruct (confirmUserEmail_live t now stamp db row HI Hrow Ht Hlive)
      as (u' & Hu' & Hid' & Hconfirm).
    exists row, u'. by split_and!.
  - right. split; [done|].
    unfold confirmUserEmail, bind.
    change (verifyEmailConfirmationToken t now db)
      with (verifyToken EmailConfirmationK t now db).
    destruct (verifyToken EmailConfirmationK t now db) as [[[[r u]|]|e] db'];
      simpl in *; try done.
Qed.

(** The reset-password action once it is past the form checks. *)
Lemma reset_action_past_checks `{Bcrypt} (t p : string) (now : Z) (salt : string)
    (db : DB) :
  t ≠ EmptyString → (8 ≤ String.length p)%nat →
  ResetPasswordRoute.action (Some t) (FormString p) (FormString p) now salt db
  = match resetPassword t p now salt db with
    | (Ok (Some user), db') =>
        (Ok (createUserSession "/" false (user_id user)), db')
    | (Ok None, db') =>
        (Ok (json [("errors.password",
                    JString "Invalid or expired reset token")] 400), db')
    | (Throw e, db') => (Throw e, db')
    end.
Proof.
  intros Ht Hlen. unfold ResetPasswordRoute.action.
  rewrite (proj2 (truthy_Some t) Ht). simpl.
  rewrite (proj2 (Nat.eqb_neq _ _)) by lia.
  rewrite (proj2 (Nat.ltb_ge _ _)) by lia.
  rewrite bool_decide_eq_true_2 by done. simpl. unfold bind.
  by destruct (resetPassword t p now salt db) as [[[u|]|e] db'].
Qed.

End RouteFacts.

Module ResetRouteExtras.
Import Prisma Schema UserModel Trace Facts TokenFacts IssueFacts Preservation.
Import LoginClaims More AccountFacts Routes RouteFacts ForgotPassword Samples.
Import ResetPasswordRoute.

Ltac row_in := repeat first [by left | right].
Ltac each_row H :=
  repeat (apply elem_of_cons in H as [->|H]); [..|by apply elem_of_nil in H].
Ltac by_decision := by apply (bool_decide_unpack _).

(** The reset-password action on a store that meets the invariants.  It
    never throws.  It opens a session only for the owner of a stored,
    unexpired token, only when the password is text of at least eight
    characters and the confirmation is the same text, and then the owner's
    password row holds the hash of that password; the session is never a
    remembered one and leads to "/".  Conversely such a request does open the
    session and uses the token up, whether or not the owner's e-mail address
    is verified.  Every other reply has status 400 and leaves the user, the
    password and the coffee table as they were. *)
Theorem reset_action_outcomes `{Bcrypt} (token : option string)
    (password passwordConfirm : FormDataEntry) (now : Z) (salt : string) (db : DB) :
  Inv db →
  (∃ reply db', action token password passwordConfirm now salt db = (Ok reply, db')) ∧
  (∀ to r uid db',
     action token password passwordConfirm now salt db
       = (Ok (createUserSession to r uid), db') →
     to = "/" ∧ r = false ∧
     ∃ t p row, token = Some t ∧ password = FormString p ∧
       passwordConfirm = FormString p ∧ (8 ≤ String.length p)%nat ∧
       row ∈ passwordResets db ∧ tok_token row = t ∧ tok_userId row = uid ∧
       now ≤ tok_expiresAt row ∧
       findUnique (λ q, pw_userId q = uid) (passwords db')
         = Some (mkPassword (bcrypt_hash p salt) uid)) ∧
  (∀ t p row, token = Some t → t ≠ EmptyString →
     password = FormString p → passwordConfirm = FormString p →
     (8 ≤ String.length p)%nat →
     row ∈ passwordResets db → tok_token row = t → now ≤ tok_expiresAt row →
     ∃ db', action token password passwordConfirm now salt db
              = (Ok (createUserSession "/" false (tok_userId row)), db') ∧
            ∀ r, r ∈ passwordResets db' → tok_token r ≠ t) ∧
  (∀ body status db',
     action token password passwordConfirm now salt db = (Ok (json body status), db') →
     status = 400 ∧ users db' = users db ∧ passwords db' = passwords db ∧
     coffees db' = coffees db).
Proof.
  intros HI.
  assert (Hearly : ∀ msg,
    action token password passwordConfirm now salt db = (Ok (json msg 400), db) →
    (∀ t p, token = Some t → t ≠ EmptyString → password = FormString p →
            passwordConfirm = FormString p → (8 ≤ String.length p)%nat → False) →
    (∃ reply db', action token password passwordConfirm now salt db = (Ok reply, db')) ∧
    (∀ to r uid db',
       action token password passwordConfirm now salt db
         = (Ok (createUserSession to r uid), db') →
       to = "/" ∧ r = false ∧
       ∃ t p row, token = Some t ∧ password = FormString p ∧
         passwordConfirm = FormString p ∧ (8 ≤ String.length p)%nat ∧
         row ∈ passwordResets db ∧ tok_token row = t ∧ tok_userId row = uid ∧
         now ≤ tok_expiresAt row ∧
         findUnique (λ q, pw_userId q = uid) (passwords db')
           = Some (mkPassword (bcrypt_hash p salt) uid)) ∧
    (∀ t p row, token = Some t → t ≠ EmptyString →
       password = FormString p → passwordConfirm = FormString p →
       (8 ≤ String.length p)%nat →
       row ∈ passwordResets db → tok_token row = t → now ≤ tok_expiresAt row →
       ∃ db', action token password passwordConfirm now salt db
                = (Ok (createUserSession "/" false (tok_userId row)), db') ∧
              ∀ r, r ∈ passwordResets db' → tok_token r ≠ t) ∧
    (∀ body status db',
       action token password passwordConfirm now salt db = (Ok (json body status), db') →
       status = 400 ∧ users db' = users db ∧ passwords db' = passwords db ∧
       coffees db' = coffees db)).
  { intros msg E Hbad. rewrite E. split; [by eexists; eexists|]. split_and!.
    - intros ???? [=].
    - intros t p row ? ? ? ? ? _ _ _. by destruct (Hbad t p).
    - by intros ??? [= <- <- <-]. }
  destruct token as [t|]; [|by eapply Hearly; [reflexivity|]].
  destruct (decide (t = EmptyString)) as [->|Ht];
    [by eapply Hearly; [reflexivity|intros ?? [= <-]]|].
  assert (Htruthy : truthy (Some t) = true) by by apply truthy_Some.
  destruct password as [| |p];
    [eapply Hearly; [by unfold action; rewrite Htruthy|by intros]..|].
  destruct (Nat.eqb_spec (String.length p) 0) as [Hzero|Hzero].
  { eapply Hearly.
    - unfold action. rewrite Htruthy. simpl.
      by rewrite (proj2 (Nat.eqb_eq _ _) Hzero).
    - intros ?? _ _ [= <-] _ ?. lia. }
  destruct (Nat.ltb_spec (String.length p) 8) as [Hshort|Hlong].
  { eapply Hearly.
    - unfold action. rewrite Htruthy. simpl.
      rewrite (proj2 (Nat.eqb_neq _ _) Hzero).
      by rewrite (proj2 (Nat.ltb_lt _ _) Hshort).
    - intros ?? _ _ [= <-] _ ?. lia. }
  destruct (decide (FormString p = passwordConfirm)) as [E|Hdiff];
    [subst passwordConfirm|].
  2:{ eapply Hearly.
      - unfold action. rewrite Htruthy. simpl.
        rewrite (proj2 (Nat.eqb_neq _ _) Hzero).
        rewrite (proj2 (Nat.ltb_ge _ _) Hlong).
        by rewrite bool_decide_eq_false_2.
      - intros ?? _ _ [= <-] -> _. done. }
  assert (Hact : action (Some t) (FormString p) (FormString p) now salt db
            = match resetPassword t p now salt db with
              | (Ok (Some user), db') =>
                  (Ok (createUserSession "/" false (user_id user)), db')
              | (Ok None, db') =>
                  (Ok (json [("errors.password",
                              JString "Invalid or expired reset token")] 400), db')
              | (Throw e, db') => (Throw e, db')
              end).
  { unfold action. rewrite Htruthy. simpl.
    rewrite (proj2 (Nat.eqb_neq _ _) Hzero).
    rewrite (proj2 (Nat.ltb_ge _ _) Hlong).
    rewrite bool_decide_eq_true_2 by done. simpl. unfold bind.
    by destruct (resetPassword t p now salt db) as [[[u|]|e] db']. }
  rewrite Hact.
  destruct (resetPassword_cases t p now salt db HI)
    as [(row & u & Hrow & Htok & Hlive & Hu & Hid & ->)
       |(Hno & Hfst & Hus & Hps & Hcs)].
  - assert (Hpw : findUnique (λ q, pw_userId q = user_id u)
                    (set_hash (user_id u) (bcrypt_hash p salt) <$> passwords db)
                  = Some (mkPassword (bcrypt_hash p salt) (user_id u))).
    { destruct (account_password db u HI Hu) as (q & Hq).
      rewrite findUnique_set_hash, Hq. simpl. unfold set_hash.
      apply findUnique_Some in Hq as [Hq _]. by rewrite decide_True. }
    split; [by eexists; eexists|]. split_and!.
    + intros to r uid db' [= <- <- <- <-]. split; [done|]. split; [done|].
      exists t, p, row. by split_and!.
    + intros t' p' row' [= <-] _ [= <-] _ _ Hrow' Htok' _.
      assert (row' = row) as ->.
      { apply (unique_column tok_token (passwordResets db)); [|done|done|congruence].
        by destruct (tokens_ok db PasswordResetK (proj1 HI)). }
      rewrite <- Hid. eexists. split; [done|]. simpl.
      intros r Hr. by apply list_elem_of_filter in Hr as [? _].
    + intros ??? [=].
  - destruct (resetPassword t p now salt db) as [[[u|]|e] db'] eqn:E;
      simpl in *; try done.
    split; [by eexists; eexists|]. split_and!.
    + intros ???? [=].
    + intros t' p' row' [= <-] _ _ _ _ Hrow' Htok' Hlive'.
      specialize (Hno row' Hrow' Htok'). lia.
    + by intros ??? [= <- <- <-].
Qed.

Lemma reset_action_outcomes_witness :
  (∃ db', action (H := toy_bcrypt) (Some "t1") (FormString "cortado!")
            (FormString "cortado!") 2000 "s9" sample_db
          = (Ok (createUserSession "/" false "u1"), db') ∧
          ∀ r, r ∈ passwordResets db' → tok_token r ≠ "t1") ∧
  ∀ body status db',
    action (H := toy_bcrypt) (Some "t1") (FormString "cortado!")
      (FormString "cortado?") 2000 "s9" sample_db = (Ok (json body status), db') →
    status = 400 ∧ passwords db' = passwords sample_db.
Proof.
  assert (HI : Inv sample_db) by by_decision.
  split.
  - destruct (reset_action_outcomes (H := toy_bcrypt) (Some "t1")
                (FormString "cortado!") (FormString "cortado!") 2000 "s9"
                sample_db HI) as (_ & _ & Hopen & _).
    exact (Hopen "t1" "cortado!" alice_reset eq_refl ltac:(done) eq_refl eq_refl
             ltac:(simpl; lia) ltac:(row_in) eq_refl ltac:(simpl; lia)).
  - destruct (reset_action_outcomes (H := toy_bcrypt) (Some "t1")
                (FormString "cortado!") (FormString "cortado?") 2000 "s9"
                sample_db HI) as (_ & _ & _ & Hother).
    intros body status db' E. by destruct (Hother body status db' E) as (? & _ & ? & _).
Defined.

End ResetRouteExtras.

Module TokenPageExtras.
Import Prisma Schema UserModel Trace Facts TokenFacts IssueFacts Preservation.
Import LoginClaims More AccountFacts Routes RouteFacts ForgotPassword Samples.

Ltac row_in := repeat first [by left | right].
Ltac each_row H :=
  repeat (apply elem_of_cons in H as [->|H]); [..|by apply elem_of_nil in H].
Ltac by_decision := by apply (bool_decide_unpack _).

(** The loader of the reset-password page, on a store that meets the schema.
    A signed-in visitor is sent to "/" and a visitor without a token to
    "/login", and nothing is written.  With a stored, unexpired token the
    page data name the token and the e-mail address of its owner and the
    store is untouched; with an expired one the page says so and the visit
    has deleted the token; with an unknown one the page says the same and
    nothing is written. *)
Theorem reset_loader_outcomes (userId token : option string) (now : Z) (db : DB) :
  Consistent db →
  (truthy userId = true →
     ResetPasswordRoute.loader userId token now db = (Ok (redirect "/"), db)) ∧
  (truthy userId = false → truthy token = false →
     ResetPasswordRoute.loader userId token now db = (Ok (redirect "/login"), db)) ∧
  (truthy userId = false →
   ∀ t, token = Some t → t ≠ EmptyString →
     ((∀ row, row ∈ passwordResets db → tok_token row ≠ t) →
        ResetPasswordRoute.loader userId token now db
          = (Ok (json [("isValidToken", JBool false);
                       ("error", JString "Invalid or expired reset token. Please request a new password reset link.")]
                   200), db)) ∧
     (∀ row, row ∈ passwordResets db → tok_token row = t →
        (now ≤ tok_expiresAt row →
           ∃ u, u ∈ users db ∧ user_id u = tok_userId row ∧
             ResetPasswordRoute.loader userId token now db
               = (Ok (json [("isValidToken", JBool true); ("token", JString t);
                            ("email", JString (user_email u))] 200), db)) ∧
        (tok_expiresAt row < now →
           ∃ db', ResetPasswordRoute.loader userId token now db
                    = (Ok (json [("isValidToken", JBool false);
                                 ("error", JString "Invalid or expired reset token. Please request a new password reset link.")]
                             200), db') ∧
                  (∀ r, r ∈ passwordResets db' ↔ r ∈ passwordResets db ∧ tok_token r ≠ t) ∧
                  users db' = users db ∧ passwords db' = passwords db))).
Proof.
  intros Hc. unfold ResetPasswordRoute.loader. split_and!.
  - by intros ->.
  - intros -> Htok. destruct token; [by rewrite Htok|done].
  - intros -> t -> Ht. rewrite (proj2 (truthy_Some t) Ht). simpl.
    unfold bind.
    change (verifyPasswordResetToken t now db)
      with (verifyToken PasswordResetK t now db).
    split.
    + intros Habs. by rewrite verifyToken_absent.
    + intros row Hrow Htok. split.
      * intros Hlive.
        destruct (verifyToken_live PasswordResetK t now db row Hc Hrow Htok Hlive)
          as (u & Hu & Hid & ->).
        by exists u.
      * intros Hexp.
        rewrite (verifyToken_expired PasswordResetK t now db row Hc Hrow Htok Hexp).
        eexists. split; [done|]. simpl. split; [|done].
        intros r. rewrite list_elem_of_filter. tauto.
Qed.

Lemma reset_loader_outcomes_witness :
  ResetPasswordRoute.loader (Some "u2") (Some "t1") 2000 sample_db
    = (Ok (redirect "/"), sample_db) ∧
  ResetPasswordRoute.loader None (Some "t1") 2000 sample_db
    = (Ok (json [("isValidToken", JBool true); ("token", JString "t1");
                 ("email", JString "alice@example.com")] 200), sample_db) ∧
  ∃ db', ResetPasswordRoute.loader None (Some "t1") 400000 sample_db
           = (Ok (json [("isValidToken", JBool false);
                        ("error", JString "Invalid or expired reset token. Please request a new password reset link.")]
                    200), db') ∧
         ∀ r, r ∈ passwordResets db' ↔ r ∈ passwordResets sample_db ∧ tok_token r ≠ "t1".
Proof.
  assert (Hc : Consistent sample_db) by by_decision.
  split.
  { destruct (reset_loader_outcomes (Some "u2") (Some "t1") 2000 sample_db Hc)
      as (Hin & _). by apply Hin. }
  split.
  { destruct (reset_loader_outcomes None (Some "t1") 2000 sample_db Hc)
      as (_ & _ & Htok).
    destruct (Htok eq_refl "t1" eq_refl ltac:(done)) as [_ Hrow].
    destruct (Hrow alice_reset ltac:(row_in) eq_refl) as [Hlive _].
    destruct (Hlive ltac:(simpl; lia)) as (u & Hu & Hid & Hload).
    assert (u = alice) as ->. { each_row Hu; [done|discriminate]. }
    exact Hload. }
  destruct (reset_loader_outcomes None (Some "t1") 400000 sample_db Hc)
    as (_ & _ & Htok).
  destruct (Htok eq_refl "t1" eq_refl ltac:(done)) as [_ Hrow].
  destruct (Hrow alice_reset ltac:(row_in) eq_refl) as [_ Hexp].
  destruct (Hexp ltac:(simpl; lia)) as (db' & Hload & Hgone & _).
  exists db'. by split.
Defined.

(** The loader of the confirm-email page, on a store that meets the
    invariants.  It never throws.  A signed-in visitor is sent to "/" and
    nothing is confirmed: the store, and so the token, stay as they are.
    Otherwise it opens a session only for the owner of a stored, unexpired
    token, whose row is then marked verified; the session is never a
    remembered one and leads to "/".  Conversely such a visit does open the
    session and uses the token up, so that a second visit with the same link
    is answered with status 400.  Every reply that is neither a redirect nor
    a session has status 400 and leaves the user, password and coffee tables
    as they were. *)
Theorem confirm_loader_outcomes (userId token : option string) (now stamp : Z)
    (db : DB) :
  Inv db →
  (∃ reply db', ConfirmEmailRoute.loader userId token now stamp db = (Ok reply, db')) ∧
  (truthy userId = true →
     ConfirmEmailRoute.loader userId token now stamp db = (Ok (redirect "/"), db)) ∧
  (∀ to r uid db',
     ConfirmEmailRoute.loader userId token now stamp db
       = (Ok (createUserSession to r uid), db') →
     to = "/" ∧ r = false ∧ truthy userId = false ∧
     ∃ t row u, token = Some t ∧ row ∈ emailConfirmations db ∧ tok_token row = t ∧
       tok_userId row = uid ∧ now ≤ tok_expiresAt row ∧
       findUnique (λ x, user_id x = uid) (users db') = Some u ∧
       user_isVerified u = true) ∧
  (truthy userId = false →
   ∀ t row, token = Some t → t ≠ EmptyString →
     row ∈ emailConfirmations db → tok_token row = t → now ≤ tok_expiresAt row →
     ∃ db', ConfirmEmailRoute.loader userId token now stamp db
              = (Ok (createUserSession "/" false (tok_userId row)), db') ∧
            (∀ r, r ∈ emailConfirmations db' → tok_token r ≠ t) ∧
            ∀ now' stamp', ∃ body,
              ConfirmEmailRoute.loader userId token now' stamp' db'
                = (Ok (json body 400), db')) ∧
  (∀ body status db',
     ConfirmEmailRoute.loader userId token now stamp db = (Ok (json body status), db') →
     status = 400 ∧ users db' = users db ∧ passwords db' = passwords db ∧
     coffees db' = coffees db).
Proof.
  intros HI. unfold ConfirmEmailRoute.loader.
  destruct (truthy userId) eqn:Hsigned.
  { split; [by eexists; eexists|]. by split_and!. }
  destruct token as [t|]; [|].
  2:{ split; [by eexists; eexists|]. split_and!; try done.
      by intros ??? [= <- <- <-]. }
  destruct (decide (t = EmptyString)) as [->|Ht].
  { split; [by eexists; eexists|]. split_and!; try done.
    - by intros _ ?? [= <-] ?.
    - by intros ??? [= <- <- <-]. }
  rewrite (proj2 (truthy_Some t) Ht). simpl. unfold bind.
  destruct (confirmUserEmail_cases t now stamp db HI)
    as [(row & u & Hrow & Htok & Hlive & Hu & Hid & ->)
       |(Hno & Hfst & Hus & Hps & Hcs)].
  - assert (Hfind : findUnique (λ x, user_id x = user_id u)
                      (mark_verified (user_id u) stamp <$> users db)
                    = Some (user_set_verified stamp u)).
    { rewrite (findUnique_fmap user_id);
        [|intros x; unfold mark_verified; by destruct (decide _)].
      rewrite (findUnique_unique user_id _ u); [|by destruct HI as [((? & _) & _) _]|done..].
      simpl. unfold mark_verified. by rewrite decide_True. }
    split; [by eexists; eexists|]. split_and!; try done.
    + intros to r uid db' [= <- <- <- <-]. split_and!; try done.
      exists t, row, (user_set_verified stamp u). by split_and!.
    + intros _ t' row' [= <-] _ Hrow' Htok' _.
      assert (row' = row) as ->.
      { apply (unique_column tok_token (emailConfirmations db));
          [|done|done|congruence].
        by destruct (tokens_ok db EmailConfirmationK (proj1 HI)). }
      rewrite <- Hid. eexists. split; [done|].
      assert (Hgone : ∀ r, r ∈ filter (λ r, tok_token r ≠ t) (emailConfirmations db) →
                           tok_token r ≠ t).
      { intros r Hr. by apply list_elem_of_filter in Hr as [? _]. }
      split; [exact Hgone|].
      intros now' stamp'. eexists.
      unfold confirmUserEmail, bind.
      change (verifyEmailConfirmationToken t now')
        with (verifyToken EmailConfirmationK t now').
      by rewrite verifyToken_absent.
  - destruct (confirmUserEmail t now stamp db) as [[[u|]|e] db'] eqn:E;
      simpl in *; try done.
    split; [by eexists; eexists|]. split_and!; try done.
    + intros _ t' row' [= <-] _ Hrow' Htok' Hlive'.
      specialize (Hno row' Hrow' Htok'). lia.
    + by intros ??? [= <- <- <-].
Qed.

Lemma confirm_loader_outcomes_witness :
  ConfirmEmailRoute.loader (Some "u1") (Some "e1") 5000 5001 sample_db
    = (Ok (redirect "/"), sample_db) ∧
  ∃ db', ConfirmEmailRoute.loader None (Some "e1") 5000 5001 sample_db
           = (Ok (createUserSession "/" false "u2"), db') ∧
         ∃ body, ConfirmEmailRoute.loader None (Some "e1") 5002 5003 db'
                   = (Ok (json body 400), db').
Proof.
  assert (HI : Inv sample_db) by by_decision.
  split.
  { destruct (confirm_loader_outcomes (Some "u1") (Some "e1") 5000 5001 sample_db HI)
      as (_ & Hin & _). by apply Hin. }
  destruct (confirm_loader_outcomes None (Some "e1") 5000 5001 sample_db HI)
    as (_ & _ & _ & Hopen & _).
  destruct (Hopen eq_refl "e1" bob_confirmation eq_refl ltac:(done) ltac:(row_in)
              eq_refl ltac:(simpl; lia)) as (db' & Hload & _ & Hagain).
  exists db'. split; [exact Hload|]. apply Hagain.
Defined.

End TokenPageExtras.

Module LoginRouteExtras.
Import Prisma Schema UserModel Trace Facts TokenFacts IssueFacts Preservation.
Import LoginClaims More ClockFacts AccountFacts Routes RouteFacts ForgotPassword.
Import Samples.
Import LoginRoute.

Ltac row_in := repeat first [by left | right].
Ltac each_row H :=
  repeat (apply elem_of_cons in H as [->|H]); [..|by apply elem_of_nil in H].
Ltac by_decision := by apply (bool_decide_unpack _).

Section Action.
Context `{Bcrypt} {tz : TimeZone} (validateEmail : string → bool)
        (sendEmailConfirmation : User → string → M bool).

Lemma valid_email_Some (email : FormDataEntry) (e : string) :
  valid_email validateEmail email = Some e ↔
  email = FormString e ∧ validateEmail e = true.
Proof.
  unfold valid_email. destruct email as [| |s]; try (split; [done|by intros [? _]]).
  destruct (validateEmail s) eqn:E; split.
  - by intros [= ->].
  - by intros [[= ->] _].
  - done.
  - intros [[= ->] ?]. congruence.
Qed.

(** The body of the action once it is past the form checks. *)
Lemma login_past_checks (e p : string) (remember intent : FormDataEntry)
    (redirectTo : string) (now : Z) (token : string) (stamp : Z) (db : DB) :
  intent ≠ FormString "resend-confirmation" →
  validateEmail e = true → (8 ≤ String.length p)%nat →
  action validateEmail sendEmailConfirmation (FormString e) (FormString p)
    remember intent redirectTo now token stamp db
  = (Ok match findUnique (λ u, user_email u = e) (users db) with
        | None =>
            json (errors (JString "Invalid email or password") JNull
                    ++ [("resendStatus", JNull)])%list 400
        | Some u =>
            match findUnique (λ q, pw_userId q = user_id u) (passwords db) with
            | None =>
                json (errors (JString "Invalid email or password") JNull
                        ++ [("resendStatus", JNull)])%list 400
            | Some pw =>
                if negb (user_isVerified u) then
                  json (errors (JString "Your email address has not been verified. Please check your inbox or request a new confirmation email.") JNull
                          ++ [("pendingVerification", JBool true);
                              ("verificationEmail", JString e);
                              ("resendStatus", JNull)])%list 403
                else if negb (bcrypt_compare p (pw_hash pw)) then
                  json (errors (JString "Invalid email or password") JNull
                          ++ [("resendStatus", JNull)])%list 400
                else createUserSession redirectTo
                       (bool_decide (remember = FormString "on")) (user_id u)
            end
        end, db).
Proof.
  intros Hintent Hvalid Hlen. unfold action, resend_request.
  rewrite bool_decide_eq_false_2 by done.
  unfold valid_email. rewrite Hvalid.
  rewrite (proj2 (Nat.eqb_neq _ _)) by lia.
  rewrite (proj2 (Nat.ltb_ge _ _)) by lia.
  unfold bind. rewrite verifyLogin_unfold.
  destruct (findUnique _ (users db)) as [u|]; [|done].
  destruct (findUnique _ (passwords db)) as [pw|]; [|done].
  destruct (negb (user_isVerified u)); [done|].
  by destruct (negb (bcrypt_compare p (pw_hash pw))).
Qed.

End Action.

(** The login action, whatever sendEmailConfirmation does.  It opens a
    session only when the request is not a resend request, the address is
    valid, the password is text of at least eight characters, the address
    belongs to a verified user and the password compares equal to the hash in
    that user's password row; the session is then for that user, leads to
    redirectTo, is remembered exactly when the remember field is "on", and
    the store is untouched.  For a request past the form checks the reply for
    a verified account with a wrong password is the reply for an address
    without an account, while for an unverified account it is status 403 with
    the address, whatever the password. *)
Theorem login_action_sessions `{Bcrypt} {tz : TimeZone}
    (validateEmail : string → bool)
    (sendEmailConfirmation : User → string → M bool)
    (email password remember intent : FormDataEntry) (redirectTo : string)
    (now : Z) (token : string) (stamp : Z) (db : DB) :
  Consistent db →
  (∀ to r uid db',
     action validateEmail sendEmailConfirmation email password remember intent
       redirectTo now token stamp db = (Ok (createUserSession to r uid), db') →
     db' = db ∧ to = redirectTo ∧ r = bool_decide (remember = FormString "on") ∧
     intent ≠ FormString "resend-confirmation" ∧
     ∃ e p u pw, email = FormString e ∧ validateEmail e = true ∧
       password = FormString p ∧ (8 ≤ String.length p)%nat ∧
       u ∈ users db ∧ user_email u = e ∧ user_id u = uid ∧
       user_isVerified u = true ∧
       pw ∈ passwords db ∧ pw_userId pw = uid ∧
       bcrypt_compare p (pw_hash pw) = true) ∧
  (∀ e p, intent ≠ FormString "resend-confirmation" →
     email = FormString e → validateEmail e = true →
     password = FormString p → (8 ≤ String.length p)%nat →
     ((∀ u, u ∈ users db → user_email u ≠ e) →
        action validateEmail sendEmailConfirmation email password remember intent
          redirectTo now token stamp db
        = (Ok (json (errors (JString "Invalid email or password") JNull
                       ++ [("resendStatus", JNull)])%list 400), db)) ∧
     (∀ u pw, u ∈ users db → user_email u = e →
        pw ∈ passwords db → pw_userId pw = user_id u →
        action validateEmail sendEmailConfirmation email password remember intent
          redirectTo now token stamp db
        = (Ok (if negb (user_isVerified u) then
                 json (errors (JString "Your email address has not been verified. Please check your inbox or request a new confirmation email.") JNull
                         ++ [("pendingVerification", JBool true);
                             ("verificationEmail", JString e);
                             ("resendStatus", JNull)])%list 403
               else if bcrypt_compare p (pw_hash pw) then
                 createUserSession redirectTo
                   (bool_decide (remember = FormString "on")) (user_id u)
               else
                 json (errors (JString "Invalid email or password") JNull
                         ++ [("resendStatus", JNull)])%list 400), db))).
Proof.
  intros Hc. destruct (users_ok db Hc) as [Hids Hems].
  assert (Hpk : NoDup (pw_userId <$> passwords db)) by by destruct Hc as (_ & (? & _) & _).
  split.
  - intros to r uid db'. unfold action.
    destruct (resend_request validateEmail intent email) as [e|] eqn:Hresend.
    { unfold bind.
      destruct (resendEmailConfirmation e now token stamp db)
        as [[[| |u row]|err] db1]; try by intros [=].
      by destruct (sendEmailConfirmation u (tok_token row) db1) as [[b|err] db2];
        intros [=]. }
    destruct (valid_email validateEmail email) as [e|] eqn:Hvalid; [|by intros [=]].
    assert (Hintent : intent ≠ FormString "resend-confirmation").
    { intros ->. unfold resend_request in Hresend.
      rewrite bool_decide_eq_true_2 in Hresend by done. congruence. }
    apply valid_email_Some in Hvalid as [-> Hvalid].
    destruct password as [| |p]; try by intros [=].
    destruct (Nat.eqb_spec (String.length p) 0) as [?|Hzero]; [by intros [=]|].
    destruct (Nat.ltb_spec (String.length p) 8) as [?|Hlong]; [by intros [=]|].
    unfold bind. rewrite verifyLogin_unfold.
    destruct (findUnique _ (users db)) as [u|] eqn:Eu; [|by intros [=]].
    destruct (findUnique _ (passwords db)) as [pw|] eqn:Epw; [|by intros [=]].
    destruct (user_isVerified u) eqn:Hver; simpl; [|by intros [=]].
    destruct (bcrypt_compare p (pw_hash pw)) eqn:Hcmp; simpl; [|by intros [=]].
    intros [= <- <- <- <-].
    apply findUnique_Some in Eu as [Hem Hu]. apply findUnique_Some in Epw as [Hid Hpw].
    split_and!; try done. exists e, p, u, pw. by split_and!.
  - intros e p Hintent -> Hvalid -> Hlen.
    rewrite login_past_checks by done. split.
    + intros Hno.
      by rewrite (proj2 (findUnique_None (λ u, user_email u = e) (users db))).
    + intros u pw Hu Hem Hpw Hid.
      rewrite (findUnique_unique user_email _ u) by done.
      rewrite (findUnique_unique pw_userId _ pw) by done.
      destruct (negb (user_isVerified u)); [done|].
      by destruct (bcrypt_compare p (pw_hash pw)).
Qed.

Lemma login_action_sessions_witness :
  action (H := toy_bcrypt) (tz := utc) accept_all (λ _ _, ret true)
    (FormString "alice@example.com") (FormString "latte") (FormString "on")
    FormNull "/coffees" 0 "e9" 0
    (set_passwords [mkPassword "lattelatte#s1" "u1"; bob_password] sample_db)
  = (Ok (json (errors JNull (JString "Password is too short")
                 ++ [("resendStatus", JNull)])%list 400),
     set_passwords [mkPassword "lattelatte#s1" "u1"; bob_password] sample_db) ∧
  action (H := toy_bcrypt) (tz := utc) accept_all (λ _ _, ret true)
    (FormString "alice@example.com") (FormString "lattelatte") (FormString "on")
    FormNull "/coffees" 0 "e9" 0
    (set_passwords [mkPassword "lattelatte#s1" "u1"; bob_password] sample_db)
  = (Ok (createUserSession "/coffees" true "u1"),
     set_passwords [mkPassword "lattelatte#s1" "u1"; bob_password] sample_db) ∧
  ∃ body,
    action (H := toy_bcrypt) (tz := utc) accept_all (λ _ _, ret true)
      (FormString "bob@example.com") (FormString "anything at all") FormNull
      FormNull "/" 0 "e9" 0
      (set_passwords [mkPassword "lattelatte#s1" "u1"; bob_password] sample_db)
    = (Ok (json body 403),
       set_passwords [mkPassword "lattelatte#s1" "u1"; bob_password] sample_db).
Proof.
  set (db := set_passwords [mkPassword "lattelatte#s1" "u1"; bob_password] sample_db).
  assert (Hc : Consistent db) by by_decision.
  split; [reflexivity|]. split.
  - destruct (login_action_sessions (H := toy_bcrypt) (tz := utc) accept_all (λ _ _, ret true)
                (FormString "alice@example.com") (FormString "lattelatte")
                (FormString "on") FormNull "/coffees" 0 "e9" 0 db Hc) as [_ Hpast].
    destruct (Hpast "alice@example.com" "lattelatte" ltac:(done) eq_refl eq_refl
                eq_refl ltac:(simpl; lia)) as [_ Hknown].
    exact (Hknown alice (mkPassword "lattelatte#s1" "u1") ltac:(row_in) eq_refl
             ltac:(row_in) eq_refl).
  - destruct (login_action_sessions (H := toy_bcrypt) (tz := utc) accept_all (λ _ _, ret true)
                (FormString "bob@example.com") (FormString "anything at all")
                FormNull FormNull "/" 0 "e9" 0 db Hc) as [_ Hpast].
    destruct (Hpast "bob@example.com" "anything at all" ltac:(done) eq_refl eq_refl
                eq_refl ltac:(simpl; lia)) as [_ Hknown].
    eexists.
    exact (Hknown bob bob_password ltac:(row_in) eq_refl ltac:(row_in) eq_refl).
Defined.

(** A resend request through the login action.  The password is not looked
    at.  For an address without an account the reply is status 400 and says
    so; for a verified account it is status 200 with already-verified; in
    both cases nothing is written.  For an unverified account and a new token
    identifier the confirmation token is replaced by one that expires at the
    time setHours(getHours() + 24) gives in the zone of the process, which is
    twenty-four hours after the call where the zone's offset is the same at
    both ends; sendEmailConfirmation is called with the user and the new
    token, and when that call returns the reply is status 200 with "sent",
    whichever boolean it returned. *)
Theorem login_resend_outcomes `{Bcrypt} {tz : TimeZone}
    (validateEmail : string → bool)
    (sendEmailConfirmation : User → string → M bool)
    (e : string) (password remember : FormDataEntry) (redirectTo : string)
    (now : Z) (token : string) (stamp : Z) (db : DB) :
  Consistent db → validateEmail e = true →
  let expiresAt := setHours now (getHours now + 24) in
  (steady now (24 * 60 * 60 * 1000) → expiresAt = now + 24 * 60 * 60 * 1000) ∧
  ((∀ u, u ∈ users db → user_email u ≠ e) →
     action validateEmail sendEmailConfirmation (FormString e) password remember
       (FormString "resend-confirmation") redirectTo now token stamp db
     = (Ok (json (errors (JString "No account found with this email address") JNull
                    ++ [("resendStatus", JNull)])%list 400), db)) ∧
  (∀ u, u ∈ users db → user_email u = e →
     (user_isVerified u = true →
        action validateEmail sendEmailConfirmation (FormString e) password remember
          (FormString "resend-confirmation") redirectTo now token stamp db
        = (Ok (json (errors JNull JNull
                       ++ [("resendStatus", JString "already-verified")])%list 200),
           db)) ∧
     (user_isVerified u = false →
      (∀ r, r ∈ emailConfirmations db → tok_token r ≠ token) →
        action validateEmail sendEmailConfirmation (FormString e) password remember
          (FormString "resend-confirmation") redirectTo now token stamp db
        = match sendEmailConfirmation u token
                  (set_tokens EmailConfirmationK
                     (filter (λ t, tok_userId t ≠ user_id u) (emailConfirmations db)
                        ++ [mkTokenRow token stamp expiresAt (user_id u)]) db) with
          | (Ok _, db') =>
              (Ok (json (errors JNull JNull
                           ++ [("resendStatus", JString "sent")])%list 200), db')
          | (Throw err, db') => (Throw err, db')
          end)).
Proof.
  intros Hc Hvalid expiresAt.
  assert (Hbranch : resend_request validateEmail (FormString "resend-confirmation")
                      (FormString e) = Some e).
  { unfold resend_request. rewrite bool_decide_eq_true_2 by done.
    by apply valid_email_Some. }
  split; [exact (expiry_steady EmailConfirmationK now)|].
  unfold action. rewrite Hbranch. unfold bind. split.
  - intros Hno. by rewrite resend_unknown.
  - intros u Hu <-. split.
    + intros Hver. by rewrite resend_verified.
    + intros Hver Hfresh. rewrite resend_unverified by done. simpl.
      by destruct (sendEmailConfirmation u token _) as [[b|err] db'].
Qed.

Lemma login_resend_outcomes_witness :
  action (H := toy_bcrypt) (tz := utc) accept_all (λ _ _, ret false)
    (FormString "nobody@example.com") FormNull FormNull
    (FormString "resend-confirmation") "/" 100 "e5" 100 sample_db
  = (Ok (json (errors (JString "No account found with this email address") JNull
                 ++ [("resendStatus", JNull)])%list 400), sample_db) ∧
  action (H := toy_bcrypt) (tz := utc) accept_all (λ _ _, ret false)
    (FormString "alice@example.com") FormNull FormNull
    (FormString "resend-confirmation") "/" 100 "e5" 100 sample_db
  = (Ok (json (errors JNull JNull
                 ++ [("resendStatus", JString "already-verified")])%list 200),
     sample_db) ∧
  fst (action (H := toy_bcrypt) (tz := utc) accept_all (λ _ _, ret false)
         (FormString "bob@example.com") FormNull FormNull
         (FormString "resend-confirmation") "/" 100 "e5" 100 sample_db)
  = Ok (json (errors JNull JNull ++ [("resendStatus", JString "sent")])%list 200).
Proof.
  assert (Hc : Consistent sample_db) by by_decision.
  destruct (login_resend_outcomes (H := toy_bcrypt) (tz := utc) accept_all (λ _ _, ret false)
              "nobody@example.com" FormNull FormNull "/" 100 "e5" 100 sample_db
              Hc eq_refl) as (_ & Hnone & _).
  split. { apply Hnone. intros u Hu. each_row Hu; discriminate. }
  destruct (login_resend_outcomes (H := toy_bcrypt) (tz := utc) accept_all (λ _ _, ret false)
              "alice@example.com" FormNull FormNull "/" 100 "e5" 100 sample_db
              Hc eq_refl) as (_ & _ & Halice).
  split. { by apply (Halice alice); [row_in|..]. }
  destruct (login_resend_outcomes (H := toy_bcrypt) (tz := utc) accept_all (λ _ _, ret false)
              "bob@example.com" FormNull FormNull "/" 100 "e5" 100 sample_db
              Hc eq_refl) as (_ & _ & Hbob).
  destruct (Hbob bob ltac:(row_in) eq_refl) as [_ Hnew].
  rewrite Hnew; [done..|].
  intros r Hr. each_row Hr. discriminate.
Defined.

(** The reset-password action signs in an account that the login action
    turns away.  With a stored, unexpired reset token whose owner's e-mail
    address is not verified, a well-formed reset request opens a session for
    the owner; in the store it leaves, a login with the owner's address and
    the new password is answered with status 403, and so is a login with any
    other password of eight characters or more. *)
Theorem reset_signs_in_unverified `{Bcrypt} {tz : TimeZone}
    (validateEmail : string → bool)
    (sendEmailConfirmation : User → string → M bool)
    (t p : string) (now : Z) (salt : string) (db : DB) (row : TokenRow) (u : User) :
  Inv db →
  row ∈ passwordResets db → tok_token row = t → t ≠ EmptyString →
  now ≤ tok_expiresAt row →
  u ∈ users db → user_id u = tok_userId row → user_isVerified u = false →
  validateEmail (user_email u) = true → (8 ≤ String.length p)%nat →
  ∃ db',
    ResetPasswordRoute.action (Some t) (FormString p) (FormString p) now salt db
      = (Ok (createUserSession "/" false (user_id u)), db') ∧
    ∀ attempt remember intent redirectTo now' token' stamp',
      intent ≠ FormString "resend-confirmation" →
      (8 ≤ String.length attempt)%nat →
      ∃ body,
        action validateEmail sendEmailConfirmation (FormString (user_email u))
          (FormString attempt) remember intent redirectTo now' token' stamp' db'
        = (Ok (json body 403), db').
Proof.
  intros HI Hrow Htok Ht Hlive Hu Hid Hver Hvalid Hlen.
  pose proof HI as [Hc _]. destruct (users_ok db Hc) as [Hids Hems].
  destruct (resetPassword_live t p now salt db row HI Hrow Htok Hlive)
    as (u' & Hu' & Hid' & Hreset).
  assert (u' = u) as ->.
  { apply (unique_column user_id (users db)); [done..|congruence]. }
  eexists. split.
  { rewrite reset_action_past_checks by done. by rewrite Hreset. }
  intros attempt remember intent redirectTo now' token' stamp' Hintent Hlen'.
  rewrite login_past_checks by done. simpl.
  rewrite (findUnique_unique user_email _ u) by done.
  rewrite findUnique_set_hash.
  destruct (account_password db u HI Hu) as (q & ->). simpl.
  rewrite Hver. simpl. by eexists.
Qed.

Lemma reset_signs_in_unverified_witness :
  ∃ db',
    ResetPasswordRoute.action (H := toy_bcrypt) (Some "t3") (FormString "macchiato")
      (FormString "macchiato") 2000 "s9"
      (set_tokens PasswordResetK [mkTokenRow "t3" 1000 301000 "u2"] sample_db)
      = (Ok (createUserSession "/" false "u2"), db') ∧
    ∃ body,
      action (H := toy_bcrypt) (tz := utc) accept_all (λ _ _, ret true)
        (FormString "bob@example.com") (FormString "macchiato") FormNull FormNull
        "/" 2001 "e9" 2001 db'
      = (Ok (json body 403), db').
Proof.
  destruct (reset_signs_in_unverified (H := toy_bcrypt) (tz := utc) accept_all (λ _ _, ret true)
              "t3" "macchiato" 2000 "s9"
              (set_tokens PasswordResetK [mkTokenRow "t3" 1000 301000 "u2"] sample_db)
              (mkTokenRow "t3" 1000 301000 "u2") bob
              ltac:(by_decision) ltac:(row_in) eq_refl ltac:(done)
              ltac:(simpl; lia) ltac:(simpl; row_in) eq_refl eq_refl eq_refl
              ltac:(simpl; lia))
    as (db' & Hreset & Hlogin).
  exists db'. split; [exact Hreset|].
  apply Hlogin; [done|simpl; lia].
Defined.

End LoginRouteExtras.

Module JoinFacts.
Import Prisma Schema UserModel Trace Facts TokenFacts IssueFacts Preservation.
Import LoginClaims More AccountFacts Routes RouteFacts ForgotPassword.
Import S3 JoinRoute.

(** What a returned user.create has found and done. *)
Lemma user_create_Ok (id : string) (stamp : Z) (email : string)
    (n s a f : option string) (v : bool) (hash : string) (db db' : DB) (u : User) :
  user_create id stamp email n s a f v hash db = (Ok u, db') →
  (∀ x, x ∈ users db → user_id x ≠ id) ∧
  (∀ x, x ∈ users db → user_email x ≠ email) ∧
  u = mkUser id email n s a f v stamp stamp ∧
  db' = set_passwords (passwords db ++ [mkPassword hash id])
          (set_users (users db ++ [u]) db).
Proof.
  unfold user_create.
  destruct (has_row (λ u, user_id u = id) (users db)) eqn:E1; [done|].
  destruct (has_row (λ u, user_email u = email) (users db)) eqn:E2; [done|].
  destruct (has_row _ (passwords db)); [done|]. simpl.
  intros [= <- <-]. split_and!; try done.
  - by apply (has_row_false (λ u, user_id u = id)).
  - by apply (has_row_false (λ u, user_email u = email)).
Qed.

(** What a returned token issue has found and done. *)
Lemma issueToken_Ok {tz : TimeZone} (k : TokenKind) (u : User) (now : Z)
    (token : string) (stamp : Z) (db db' : DB) (r : option (User * TokenRow)) :
  Consistent db → u ∈ users db →
  issueToken k u now token stamp db = (Ok r, db') →
  (∀ x, x ∈ tokens k db → tok_userId x ≠ user_id u → tok_token x ≠ token) ∧
  r = Some (u, mkTokenRow token stamp (expiry k now) (user_id u)) ∧
  db' = set_tokens k
          (filter (λ t, tok_userId t ≠ user_id u) (tokens k db)
             ++ [mkTokenRow token stamp (expiry k now) (user_id u)]) db.
Proof.
  intros Hc Hu. rewrite issueToken_unfold by done.
  unfold bind, token_deleteMany_userId, token_create, ret.
  rewrite tokens_set_tokens_eq, users_set_tokens.
  destruct (has_row (λ t, tok_token t = token) _) eqn:E1; [done|].
  destruct (has_row (λ t, tok_userId t = user_id u) _) eqn:E2; [done|].
  destruct (has_row (λ x, user_id x = user_id u) (users db)) eqn:E3; [|done].
  simpl. intros [= <- <-]. split_and!.
  - intros x Hx Hne. apply (proj1 (has_row_false _ _) E1).
    by apply list_elem_of_filter.
  - done.
  - by destruct k.
Qed.

Section Action.
Context `{Bcrypt} {tz : TimeZone} (validateEmail : string → bool)
        (sendEmailConfirmation : User → string → M bool).

(** The action once it is past the form checks. *)
Lemma join_past_checks (env : S3Env) (e p : string)
    (name surname avatarData favorite : FormDataEntry)
    (redirectTo timestamp randomString salt id : string) (stamp now : Z)
    (token : string) (stamp' : Z) (db : DB) :
  validateEmail e = true → (8 ≤ String.length p)%nat →
  action validateEmail sendEmailConfirmation env (FormString e) (FormString p)
    name surname avatarData favorite redirectTo timestamp randomString salt id
    stamp now token stamp' db
  = match findUnique (λ u, user_email u = e) (users db) with
    | Some _ =>
        (Ok (json (errors (JString "A user already exists with this email")
                     JNull JNull) 400), db)
    | None =>
        match avatar_upload env avatarData timestamp randomString with
        | None =>
            (Ok (json (errors JNull JNull
                         (JString "Failed to upload avatar image")) 500), db)
        | Some avatarUrl =>
            match createUnverifiedUser e p (string_or_undefined name)
                    (string_or_undefined surname) avatarUrl
                    (string_or_undefined favorite) salt id stamp db with
            | (Throw err, db1) => (Throw err, db1)
            | (Ok user, db1) =>
                match createEmailConfirmationToken (user_id user) now token
                        stamp' db1 with
                | (Throw err, db2) => (Throw err, db2)
                | (Ok None, db2) =>
                    (Ok (createUserSession redirectTo false (user_id user)), db2)
                | (Ok (Some (u, row)), db2) =>
                    (Ok (createUserSession redirectTo false (user_id user)),
                     snd (sendEmailConfirmation u (tok_token row) db2))
                end
            end
        end
    end.
Proof.
  intros Hvalid Hlen. unfold action, LoginRoute.valid_email. rewrite Hvalid.
  rewrite (proj2 (Nat.eqb_neq _ _)) by lia.
  rewrite (proj2 (Nat.ltb_ge _ _)) by lia.
  unfold bind at 1. unfold getUserByEmail, user_findUnique_email, gets.
  destruct (findUnique _ (users db)) as [x|]; [done|].
  destruct (avatar_upload env avatarData timestamp randomString) as [a|]; [|done].
  unfold bind at 1.
  destruct (createUnverifiedUser _ _ _ _ _ _ _ _ _ db) as [[user|err] db1]; [|done].
  unfold bind at 1.
  destruct (createEmailConfirmationToken _ _ _ _ db1) as [[[[u row]|]|err] db2];
    try done.
Qed.

End Action.
End JoinFacts.

Module JoinRouteExtras.
Import Prisma Schema UserModel Trace Facts TokenFacts IssueFacts Preservation.
Import LoginClaims More ClockFacts AccountFacts Routes RouteFacts ForgotPassword.
Import Samples.
Import S3 JoinRoute JoinFacts.

Ltac row_in := repeat first [by left | right].
Ltac each_row H :=
  repeat (apply elem_of_cons in H as [->|H]); [..|by apply elem_of_nil in H].
Ltac by_decision := by apply (bool_decide_unpack _).

(** The join action, in any time zone, on a store that meets the invariants
    and with a sendEmailConfirmation that does not write to the store.  A reply that is
    not a session has status 400 or 500 and nothing has been written: no
    account is left behind by a refused form, a taken address or a failed
    avatar upload.  A session is opened only for a valid address that no user
    has, with a password of at least eight characters, and then exactly one
    user row (not verified, with the fields of the form and the uploaded
    avatar's URL), one password row with the hash of the password and one
    confirmation token have been added; the token expires at the time
    setHours(getHours() + 24) gives in the zone of the process, which is
    twenty-four hours after the call where the zone's offset is the same at
    both ends; the invariants still hold, the session is for the new user, is not a
    remembered one and leads to redirectTo; yet in that store the login
    action answers status 403 for this address.  Conversely, for a free
    address and id, a new token identifier and an avatar that is absent or
    uploads, the session is opened. *)
Theorem join_action_outcomes `{Bcrypt} {tz : TimeZone}
    (validateEmail : string → bool)
    (sendEmailConfirmation : User → string → M bool) (env : S3Env)
    (email password name surname avatarData favorite : FormDataEntry)
    (redirectTo timestamp randomString salt id : string) (stamp now : Z)
    (token : string) (stamp' : Z) (db : DB) :
  Inv db →
  (∀ u t d, snd (sendEmailConfirmation u t d) = d) →
  (∀ body status db',
     action validateEmail sendEmailConfirmation env email password name surname
       avatarData favorite redirectTo timestamp randomString salt id stamp now
       token stamp' db = (Ok (json body status), db') →
     db' = db ∧ (status = 400 ∨ status = 500)) ∧
  (∀ to r uid db',
     action validateEmail sendEmailConfirmation env email password name surname
       avatarData favorite redirectTo timestamp randomString salt id stamp now
       token stamp' db = (Ok (createUserSession to r uid), db') →
     to = redirectTo ∧ r = false ∧ uid = id ∧
     ∃ e p avatarUrl,
       email = FormString e ∧ validateEmail e = true ∧
       password = FormString p ∧ (8 ≤ String.length p)%nat ∧
       (∀ x, x ∈ users db → user_email x ≠ e ∧ user_id x ≠ id) ∧
       avatar_upload env avatarData timestamp randomString = Some avatarUrl ∧
       users db' = (users db ++
                     [mkUser id e (string_or_undefined name)
                        (string_or_undefined surname) avatarUrl
                        (string_or_undefined favorite) false stamp stamp])%list ∧
       passwords db' = (passwords db ++ [mkPassword (bcrypt_hash p salt) id])%list ∧
       emailConfirmations db'
         = (emailConfirmations db ++
              [mkTokenRow token stamp' (setHours now (getHours now + 24)) id])%list ∧
       (steady now (24 * 60 * 60 * 1000) →
          setHours now (getHours now + 24) = now + 24 * 60 * 60 * 1000) ∧
       passwordResets db' = passwordResets db ∧ coffees db' = coffees db ∧
       Inv db' ∧
       ∀ attempt remember intent redirectTo' now' token' stamp'',
         intent ≠ FormString "resend-confirmation" →
         (8 ≤ String.length attempt)%nat →
         ∃ body,
           LoginRoute.action validateEmail sendEmailConfirmation (FormString e)
             (FormString attempt) remember intent redirectTo' now' token' stamp'' db'
           = (Ok (json body 403), db')) ∧
  (∀ e p avatarUrl,
     email = FormString e → validateEmail e = true →
     password = FormString p → (8 ≤ String.length p)%nat →
     (∀ x, x ∈ users db → user_email x ≠ e ∧ user_id x ≠ id) →
     (∀ r, r ∈ emailConfirmations db → tok_token r ≠ token) →
     avatar_upload env avatarData timestamp randomString = Some avatarUrl →
     ∃ db',
       action validateEmail sendEmailConfirmation env email password name surname
         avatarData favorite redirectTo timestamp randomString salt id stamp now
         token stamp' db = (Ok (createUserSession redirectTo false id), db')).
Proof.
  intros HI Hsend. pose proof HI as [Hc Hacc].
  destruct (users_ok db Hc) as [Hids Hems].
  set (request := action validateEmail sendEmailConfirmation env email password
                    name surname avatarData favorite redirectTo timestamp
                    randomString salt id stamp now token stamp' db).
  (* replies made before anything is written, and calls that throw *)
  match goal with |- ?G =>
    assert (Hearly : ∀ m s, s = 400 ∨ s = 500 → request = (Ok (json m s), db) →
      (∀ e0 p0 avatarUrl,
       email = FormString e0 → validateEmail e0 = true →
       password = FormString p0 → (8 ≤ String.length p0)%nat →
       (∀ x, x ∈ users db → user_email x ≠ e0 ∧ user_id x ≠ id) →
       (∀ r, r ∈ emailConfirmations db → tok_token r ≠ token) →
       avatar_upload env avatarData timestamp randomString = Some avatarUrl →
       False) → G);
    [|assert (Hthrow : ∀ err db1, request = (Throw err, db1) →
        (∀ e0 p0 avatarUrl,
       email = FormString e0 → validateEmail e0 = true →
       password = FormString p0 → (8 ≤ String.length p0)%nat →
       (∀ x, x ∈ users db → user_email x ≠ e0 ∧ user_id x ≠ id) →
       (∀ r, r ∈ emailConfirmations db → tok_token r ≠ token) →
       avatar_upload env avatarData timestamp randomString = Some avatarUrl →
       False) → G)]
  end.
  { intros m s Hs E Hbad. rewrite E. split_and!.
    - by intros ??? [= <- <- <-].
    - intros ???? [=].
    - intros e0 p0 a ???????. by destruct (Hbad e0 p0 a). }
  { intros err db1 E Hbad. rewrite E. split_and!.
    - intros ??? [=].
    - intros ???? [=].
    - intros e0 p0 a ???????. by destruct (Hbad e0 p0 a). }
  destruct (LoginRoute.valid_email validateEmail email) as [e|] eqn:Hvalid.
  2:{ eapply Hearly; [by left|by subst request; unfold action; rewrite Hvalid|].
      intros e p a -> Hv _ _ _ _ _. unfold LoginRoute.valid_email in Hvalid.
      by rewrite Hv in Hvalid. }
  apply LoginRouteExtras.valid_email_Some in Hvalid as [-> Hvalid].
  assert (Hve : LoginRoute.valid_email validateEmail (FormString e) = Some e)
    by by apply LoginRouteExtras.valid_email_Some.
  destruct password as [| |p];
    [eapply Hearly; [by left|by subst request; unfold action; rewrite Hve|by intros]..|].
  destruct (Nat.eqb_spec (String.length p) 0) as [Hzero|Hzero].
  { eapply Hearly; [by left| |].
    - subst request. unfold action. rewrite Hve.
      by rewrite (proj2 (Nat.eqb_eq _ _) Hzero).
    - intros ??? _ _ [= <-] ?. lia. }
  destruct (Nat.ltb_spec (String.length p) 8) as [Hshort|Hlong].
  { eapply Hearly; [by left| |].
    - subst request. unfold action. rewrite Hve.
      rewrite (proj2 (Nat.eqb_neq _ _) Hzero).
      by rewrite (proj2 (Nat.ltb_lt _ _) Hshort).
    - intros ??? _ _ [= <-] ?. lia. }
  assert (Hreq : request = _) by (apply join_past_checks; [done|lia]).
  destruct (findUnique (λ u, user_email u = e) (users db)) as [x|] eqn:Ex.
  { apply findUnique_Some in Ex as [Hxe Hx].
    eapply Hearly; [by left|exact Hreq|].
    intros ??? [= <-] _ _ _ Hfree _ _. by destruct (Hfree x Hx). }
  pose proof (proj1 (findUnique_None _ _) Ex) as Hfree.
  destruct (avatar_upload env avatarData timestamp randomString) as [a|] eqn:Ea.
  2:{ eapply Hearly; [by right|exact Hreq|]. by intros. }
  destruct (createUnverifiedUser e p _ _ a _ salt id stamp db) as [[user|err] db1]
    eqn:Ecreate.
  2:{ eapply Hthrow; [exact Hreq|].
      intros ??? [= <-] _ [= <-] _ Hnew _ _.
      unfold createUnverifiedUser in Ecreate.
      rewrite user_create_fresh in Ecreate; [done|done|..];
        intros y Hy; by destruct (Hnew y Hy). }
  unfold createUnverifiedUser in Ecreate.
  pose proof (preserves_user_create id stamp e (string_or_undefined name)
                (string_or_undefined surname) a (string_or_undefined favorite)
                false (bcrypt_hash p salt) db HI) as HI1.
  rewrite Ecreate in HI1. simpl in HI1.
  apply user_create_Ok in Ecreate as (Hid & _ & Huser & Hdb1).
  assert (Hu1 : user ∈ users db1).
  { rewrite Hdb1. simpl. rewrite elem_of_app. right. left. }
  assert (Huid : user_id user = id) by by rewrite Huser.
  assert (Hnotok : filter (λ t, tok_userId t ≠ id) (emailConfirmations db)
                   = emailConfirmations db).
  { apply filter_all. intros r Hr E.
    destruct (token_owner EmailConfirmationK db r Hc Hr) as (o & _ & Ho & Hoid).
    apply (Hid o Ho). congruence. }
  rewrite Huid in Hreq.
  change (createEmailConfirmationToken id now token stamp' db1)
    with (createEmailConfirmationToken (user_id (mkUser id e (string_or_undefined name)
            (string_or_undefined surname) a (string_or_undefined favorite)
            false stamp stamp)) now token stamp' db1) in Hreq.
  rewrite <- Huser in Hreq.
  change (createEmailConfirmationToken (user_id user) now token stamp' db1)
    with (issueToken EmailConfirmationK user now token stamp' db1) in Hreq.
  destruct (issueToken EmailConfirmationK user now token stamp' db1)
    as [[r|err] db2] eqn:Eissue.
  2:{ eapply Hthrow; [exact Hreq|].
      intros ??? _ _ _ _ _ Hnewtok _.
      rewrite issueToken_fresh in Eissue; [done|by destruct HI1|done|].
      rewrite Hdb1. simpl. exact Hnewtok. }
  pose proof (preserves_createEmailConfirmationToken (user_id user) now token
                stamp' db1 HI1) as HI2.
  change (createEmailConfirmationToken (user_id user) now token stamp' db1)
    with (issueToken EmailConfirmationK user now token stamp' db1) in HI2.
  rewrite Eissue in HI2. simpl in HI2.
  apply issueToken_Ok in Eissue as (_ & -> & Hdb2); [|by destruct HI1|done].
  rewrite Hsend in Hreq. rewrite Hreq.
  assert (Hus : users db2 = (users db ++ [user])%list) by by rewrite Hdb2, Hdb1.
  assert (Hps : passwords db2
                = (passwords db ++ [mkPassword (bcrypt_hash p salt) id])%list)
    by by rewrite Hdb2, Hdb1.
  split_and!.
  - intros ??? [=].
  - intros to r uid db' [= <- <- <- <-]. split_and!; try done.
    exists e, p, a. split_and!; try done.
    + intros x Hx. split; [by apply Hfree|by apply Hid].
    + by rewrite Hus, Huser.
    + rewrite Hdb2. simpl. rewrite Hdb1. simpl. by rewrite Huid, Hnotok.
    + exact (expiry_steady EmailConfirmationK now).
    + by rewrite Hdb2, Hdb1.
    + by rewrite Hdb2, Hdb1.
    + intros attempt remember intent redirectTo' now' token' stamp'' Hintent Hlen.
      rewrite LoginRouteExtras.login_past_checks by done.
      rewrite Hus, Hps.
      rewrite (findUnique_snoc_new (λ u, user_email u = e));
        [|exact Hfree|by rewrite Huser].
      rewrite Huid.
      rewrite (findUnique_snoc_new (λ q, pw_userId q = id));
        [|by apply no_password_without_user|done].
      rewrite Huser. simpl. by eexists.
  - intros. by eexists.
Qed.

Lemma join_action_outcomes_witness :
  (∃ db',
     action (H := toy_bcrypt) (tz := utc) accept_all (λ _ _, ret false)
       (mkS3Env None None None None None (λ _ _ _, true))
       (FormString "carol@example.com") (FormString "ristretto")
       (FormString "Carol") FormNull FormNull FormNull
       "/coffees" "1741113662000" "k3j9x" "s3" "u3" 50 60 "e3" 61 sample_db
     = (Ok (createUserSession "/coffees" false "u3"), db')) ∧
  ∀ body status db',
    action (H := toy_bcrypt) (tz := utc) accept_all (λ _ _, ret false)
      (mkS3Env None None None None None (λ _ _ _, true))
      (FormString "carol@example.com") (FormString "ristretto")
      (FormString "Carol") FormNull (FormString "data:image/png;base64,AAAA")
      FormNull "/coffees" "1741113662000" "k3j9x" "s3" "u3" 50 60 "e3" 61 sample_db
    = (Ok (json body status), db') → db' = sample_db.
Proof.
  assert (HI : Inv sample_db) by by_decision.
  split.
  - destruct (join_action_outcomes (H := toy_bcrypt) (tz := utc) accept_all (λ _ _, ret false)
                (mkS3Env None None None None None (λ _ _ _, true))
                (FormString "carol@example.com") (FormString "ristretto")
                (FormString "Carol") FormNull FormNull FormNull
                "/coffees" "1741113662000" "k3j9x" "s3" "u3" 50 60 "e3" 61
                sample_db HI ltac:(done)) as (_ & _ & Hopen).
    apply (Hopen "carol@example.com" "ristretto" None); try done.
    + simpl. lia.
    + intros x Hx. each_row Hx; by split.
    + intros r Hr. each_row Hr. discriminate.
  - destruct (join_action_outcomes (H := toy_bcrypt) (tz := utc) accept_all (λ _ _, ret false)
                (mkS3Env None None None None None (λ _ _ _, true))
                (FormString "carol@example.com") (FormString "ristretto")
                (FormString "Carol") FormNull
                (FormString "data:image/png;base64,AAAA") FormNull
                "/coffees" "1741113662000" "k3j9x" "s3" "u3" 50 60 "e3" 61
                sample_db HI ltac:(done)) as (Hjson & _).
    intros body status db' E. by destruct (Hjson body status db' E).
Defined.

End JoinRouteExtras.

Module ForgotPasswordExtras.
Import Prisma Schema UserModel ForgotPassword Trace Facts TokenFacts IssueFacts.
Import Preservation More ClockFacts AccountFacts Samples.

Ltac row_in := repeat first [by left | right].
Ltac each_row H :=
  repeat (apply elem_of_cons in H as [->|H]); [..|by apply elem_of_nil in H].
Ltac by_decision := by apply (bool_decide_unpack _).



End ForgotPasswordExtras.

(* ===================================================================== *)
(** * The coffee routes: how the number fields are read *)
(* ===================================================================== *)

Module ParseFacts.
Import Prisma CoffeeModel ForgotPassword Routes CoffeeRoutes JS.

Lemma not_space_digit (c : ascii) : is_digit c = true → is_space c = false.
Proof.
  unfold is_digit, is_space. intros Hd.
  apply andb_true_iff in Hd as [H1 H2].
  apply N.leb_le in H1. apply N.leb_le in H2.
  repeat (apply orb_false_iff; split).
  - apply andb_false_iff. right. apply N.leb_gt. lia.
  - apply N.eqb_neq. lia.
  - apply N.eqb_neq. lia.
Qed.

Lemma digit_not_sign (c : ascii) :
  is_digit c = true → c ≠ "-"%char ∧ c ≠ "+"%char.
Proof. intros Hd. split; intros ->; by vm_compute in Hd. Qed.

(** Text that starts with a digit is read from its first character. *)
Lemma parseInt10_digit_first (c : ascii) (s : string) :
  is_digit c = true →
  parseInt10 (String c s) = Z.of_N <$> leading_digits None (String c s).
Proof.
  intros Hd. unfold parseInt10. cbn [trim_start].
  rewrite (not_space_digit c Hd).
  destruct (digit_not_sign c Hd) as [Hm Hp].
  destruct c as [[] [] [] [] [] [] [] []]; try done.
Qed.

Lemma leading_digits_is_Some (acc : N) (s : string) :
  is_Some (leading_digits (Some acc) s).
Proof.
  revert acc. induction s as [|c s IH]; intros acc; simpl; [by eexists|].
  destruct (is_digit c); [apply IH|by eexists].
Qed.

(** What follows the digits is not read. *)
Lemma leading_digits_app (acc : option N) (s t : string) (c : ascii) (n : N) :
  is_digit c = false →
  leading_digits acc s = Some n →
  leading_digits acc (s ++ String c t) = Some n.
Proof.
  intros Hc. revert acc. induction s as [|d s IH]; intros acc Hn; simpl in *.
  - by rewrite Hc.
  - destruct (is_digit d); [by apply IH|done].
Qed.

Lemma trim_start_app (s t : string) :
  trim_start s ≠ EmptyString → trim_start (s ++ t) = trim_start s ++ t.
Proof.
  induction s as [|c s IH]; intros Hne; [done|].
  simpl in *. destruct (is_space c); [by apply IH|done].
Qed.

(** All of a canonical numeral is read. *)
Lemma leading_digits_all (acc : N) (s : string) (n : N) :
  digits_value acc s = Some n → leading_digits (Some acc) s = Some n.
Proof.
  revert acc. induction s as [|c s IH]; intros acc Hn; simpl in *; [done|].
  destruct (is_digit c); [by apply IH|done].
Qed.

End ParseFacts.

Module ParseExtras.
Import Prisma CoffeeModel ForgotPassword Routes CoffeeRoutes JS ParseFacts.

(** parseInt with radix 10.  Leading white space is skipped.  Text that is
    empty, or whose first character after the white space is neither a sign
    nor a digit, gives NaN, and so does a sign that no digit follows.  A sign
    in front of digits negates or keeps the number.  A numeral made of digits
    only, below 2^53 where a double is exact, is read in full, as the number
    it spells.  Once a number is read, whatever follows it from the first
    character that is not a digit is ignored. *)
Theorem parseInt10_reads_the_number (s : string) :
  (∀ c, is_space c = true → parseInt10 (String c s) = parseInt10 s) ∧
  parseInt10 EmptyString = None ∧
  (∀ c, is_space c = false → is_digit c = false → c ≠ "-"%char → c ≠ "+"%char →
        parseInt10 (String c s) = None) ∧
  (∀ c, is_digit c = false →
        parseInt10 (String "-" (String c s)) = None ∧
        parseInt10 (String "+" (String c s)) = None) ∧
  (∀ c, is_digit c = true →
        parseInt10 (String "-" (String c s)) = Z.opp <$> parseInt10 (String c s) ∧
        parseInt10 (String "+" (String c s)) = parseInt10 (String c s)) ∧
  (∀ n, s ≠ EmptyString → digits_value 0 s = Some n → (n < 2 ^ 53)%N →
        parseInt10 s = Some (Z.of_N n)) ∧
  (∀ n c t, parseInt10 s = Some n → is_digit c = false →
            parseInt10 (s ++ String c t) = Some n).
Proof.
  split_and!.
  - intros c Hc. unfold parseInt10. cbn [trim_start]. by rewrite Hc.
  - done.
  - intros c Hs Hd Hm Hp. unfold parseInt10. cbn [trim_start]. rewrite Hs.
    assert (E : leading_digits None (String c s) = None) by (simpl; by rewrite Hd).
    destruct c as [[] [] [] [] [] [] [] []]; try done; by rewrite E.
  - intros c Hd. unfold parseInt10. simpl. by rewrite Hd.
  - intros c Hd. rewrite (parseInt10_digit_first c s Hd).
    unfold parseInt10. simpl. rewrite Hd.
    destruct (leading_digits_is_Some (0 * 10 + digit_of c) s) as [n ->].
    done.
  - intros n Hne Hn _. destruct s as [|c s]; [done|].
    assert (Hd : is_digit c = true).
    { simpl in Hn. by destruct (is_digit c). }
    rewrite (parseInt10_digit_first c s Hd).
    simpl in *. rewrite Hd in *. by rewrite (leading_digits_all _ _ _ Hn).
  - intros n c t Hn Hc. unfold parseInt10 in *.
    assert (Hne : trim_start s ≠ EmptyString).
    { intros E. by rewrite E in Hn. }
    rewrite trim_start_app by done.
    destruct (trim_start s) as [|d r]; [done|].
    change (String d r ++ String c t) with (String d (r ++ String c t)).
    assert (Hrest : ∀ f : N → Z, f <$> leading_digits None r = Some n →
              f <$> leading_digits None (r ++ String c t) = Some n).
    { intros f E. destruct (leading_digits None r) as [m|] eqn:Em; [|done].
      by rewrite (leading_digits_app None r t c m). }
    assert (Hall : Z.of_N <$> leading_digits None (String d r) = Some n →
              Z.of_N <$> leading_digits None (String d (r ++ String c t)) = Some n).
    { intros E. destruct (leading_digits None (String d r)) as [m|] eqn:Em; [|done].
      change (String d (r ++ String c t)) with (String d r ++ String c t).
      by rewrite (leading_digits_app None (String d r) t c m). }
    destruct d as [[] [] [] [] [] [] [] []]; try (by apply Hall); by apply Hrest.
Qed.

End ParseExtras.
(* ===================================================================== *)
(** * The coffee routes: the form checks and the rows they reach *)
(* ===================================================================== *)


Module CoffeeRouteFacts.
Import Prisma Schema CoffeeModel ForgotPassword Routes CoffeeRoutes.
Import Facts CoffeeFacts CoffeeRowFacts Preservation.
Import NewCoffeeRoute.

Lemma text_required_ok (v : FormDataEntry) (message : string) :
  text_required v message = JNull ↔ ∃ s, v = FormString s ∧ s ≠ EmptyString.
Proof.
  unfold text_required. destruct v as [| |s]; try (split; [done|by intros (? & ? & _)]).
  destruct s as [|c s]; simpl.
  - split; [done|]. by intros (? & [= <-] & ?).
  - split; [|done]. intros _. by eexists.
Qed.

Lemma number_required_ok (v : FormDataEntry) (message : string) :
  number_required v message = JNull ↔
  ∃ s n, v = FormString s ∧ parseInt10 s = Some n.
Proof.
  unfold number_required.
  destruct v as [| |s]; try (split; [done|by intros (? & ? & ? & _)]).
  destruct (parseInt10 s) as [n|] eqn:E.
  - split; [|done]. intros _. by exists s, n.
  - split; [done|]. intros (? & ? & [= <-] & ?). congruence.
Qed.

(** The form passes exactly when the five texts are not empty and the two
    numbers parse. *)
Lemma form_passes (name brand preparation shots flavor rating description
    : FormDataEntry) :
  hasErrors (errors name brand preparation shots flavor rating description) = false ↔
  ∃ n b p s f r d sv rv,
    name = FormString n ∧ brand = FormString b ∧ preparation = FormString p ∧
    shots = FormString s ∧ flavor = FormString f ∧ rating = FormString r ∧
    description = FormString d ∧
    n ≠ EmptyString ∧ b ≠ EmptyString ∧ p ≠ EmptyString ∧ f ≠ EmptyString ∧
    d ≠ EmptyString ∧ parseInt10 s = Some sv ∧ parseInt10 r = Some rv.
Proof.
  unfold hasErrors, errors. cbn [existsb snd].
  rewrite !orb_false_iff, !negb_false_iff, !bool_decide_eq_true.
  rewrite !text_required_ok, !number_required_ok. split.
  - intros ((n & -> & ?) & (b & -> & ?) & (p & -> & ?) & (s & sv & -> & ?) &
            (f & -> & ?) & (r & rv & -> & ?) & (d & -> & ?) & _).
    exists n, b, p, s, f, r, d, sv, rv. by split_and!.
  - intros (n & b & p & s & f & r & d & sv & rv & -> & -> & -> & -> & -> & -> & ->
            & ? & ? & ? & ? & ? & ? & ?).
    split_and!; try done; by repeat eexists.
Qed.

(** What coffee.create has found and done, by its outcome. *)
Lemma coffee_create_cases (id : string) (stamp : Z) (d : CoffeeData)
    (uid : string) (db : DB) :
  ((∃ c, c ∈ coffees db ∧ coffee_id c = id) ∧
   coffee_create id stamp d uid db = (Throw UniqueConstraintFailed, db)) ∨
  ((∀ c, c ∈ coffees db → coffee_id c ≠ id) ∧
   (∀ u, u ∈ users db → user_id u ≠ uid) ∧
   coffee_create id stamp d uid db = (Throw RecordNotFound, db)) ∨
  ((∀ c, c ∈ coffees db → coffee_id c ≠ id) ∧
   (∃ u, u ∈ users db ∧ user_id u = uid) ∧
   coffee_create id stamp d uid db
   = (Ok (mkCoffee id (data_name d) (data_brand d) (data_preparation d)
            (data_shots d) (data_flavor d) (data_rating d) (data_description d)
            stamp stamp uid),
      set_coffees
        (coffees db ++
           [mkCoffee id (data_name d) (data_brand d) (data_preparation d)
              (data_shots d) (data_flavor d) (data_rating d) (data_description d)
              stamp stamp uid]) db)).
Proof.
  unfold coffee_create.
  destruct (has_row (λ c, coffee_id c = id) (coffees db)) eqn:E1.
  { left. split; [|done]. by apply (has_row_true (λ c, coffee_id c = id)). }
  pose proof (proj1 (has_row_false (λ c, coffee_id c = id) _) E1) as Hfresh.
  destruct (has_row (λ u, user_id u = uid) (users db)) eqn:E2; simpl.
  - right. right. split; [done|]. split; [|done].
    by apply (has_row_true (λ u, user_id u = uid)).
  - right. left. split; [done|]. split; [|done].
    by apply (has_row_false (λ u, user_id u = uid)).
Qed.

(** [where: id, userId] selects the one row with that id and owner, or
    none. *)
Lemma own_row_cases (db : DB) (id uid : string) :
  Consistent db →
  (∃ c, c ∈ coffees db ∧ coffee_id c = id ∧ coffee_userId c = uid ∧
        filter (λ x, coffee_id x = id ∧ coffee_userId x = uid) (coffees db) = [c]) ∨
  ((∀ x, x ∈ coffees db → ¬ (coffee_id x = id ∧ coffee_userId x = uid)) ∧
   filter (λ x, coffee_id x = id ∧ coffee_userId x = uid) (coffees db) = []).
Proof.
  intros Hc.
  destruct (filter (λ x, coffee_id x = id ∧ coffee_userId x = uid) (coffees db))
    as [|c rest] eqn:E.
  - right. split; [|done]. intros x Hx HP.
    assert (Hin : x ∈ filter (λ x, coffee_id x = id ∧ coffee_userId x = uid)
                    (coffees db)) by by apply list_elem_of_filter.
    rewrite E in Hin. by apply elem_of_nil in Hin.
  - left. assert (Hin : c ∈ c :: rest) by left.
    rewrite <- E in Hin. apply list_elem_of_filter in Hin as [[<- <-] Hin].
    exists c. split_and!; try done.
    rewrite <- E. exact (owner_row db c Hc Hin).
Qed.

(** The update form is taken when all seven fields are text. *)
Lemma all_text (name brand preparation shots flavor rating description
    : FormDataEntry) :
  forallb is_text [name; brand; preparation; shots; flavor; rating; description]
    = true ↔
  ∃ n b p s f r d,
    name = FormString n ∧ brand = FormString b ∧ preparation = FormString p ∧
    shots = FormString s ∧ flavor = FormString f ∧ rating = FormString r ∧
    description = FormString d.
Proof.
  split.
  - destruct name, brand, preparation, shots, flavor, rating, description;
      try done. intros _. by repeat eexists.
  - by intros (n & b & p & s & f & r & d & -> & -> & -> & -> & -> & -> & ->).
Qed.

End CoffeeRouteFacts.


Module CoffeeRouteExtras.
Import Prisma Schema CoffeeModel ForgotPassword Routes CoffeeRoutes.
Import Facts CoffeeFacts CoffeeRowFacts Preservation CoffeeRouteFacts Samples.

Ltac row_in := repeat first [by left | right].
Ltac each_row H :=
  repeat (apply elem_of_cons in H as [->|H]); [..|by apply elem_of_nil in H].
Ltac by_decision := by apply (bool_decide_unpack _).
Ltac read_number :=
  let E := fresh in
  intros ? ? [= <-] E; vm_compute in E;
  first [discriminate E | injection E as <-; lia].

(** The new-coffee action, on a store that meets the invariants, for shots
    and rating that fit the Int columns wherever they parse.  A JSON
    reply has status 400, lists the checks of the seven fields, at least one
    of which failed, and nothing was written.  A redirect happens only when
    the five texts are not empty and shots and rating parse as numbers; it
    leads to the page of the new row, and exactly one row was appended, with
    the texts as sent, the two numbers as parseInt reads them, the signed-in
    user as owner and the clock reading as createdAt and updatedAt; getCoffee
    returns that row.  Conversely such a form, with a new id and an existing
    user, is answered by the redirect.  The action throws only for an id that
    is taken or a user that does not exist, and then writes nothing. *)
Theorem new_coffee_action_outcomes (userId : string)
    (name brand preparation shots flavor rating description : FormDataEntry)
    (id : string) (stamp : Z) (db : DB) :
  Inv db → reads_Int shots → reads_Int rating →
  (∀ body status db',
     NewCoffeeRoute.action userId name brand preparation shots flavor rating
       description id stamp db = (Ok (json body status), db') →
     status = 400 ∧ db' = db ∧
     body = NewCoffeeRoute.errors name brand preparation shots flavor rating
              description ∧
     NewCoffeeRoute.hasErrors body = true) ∧
  (∀ url db',
     NewCoffeeRoute.action userId name brand preparation shots flavor rating
       description id stamp db = (Ok (redirect url), db') →
     url = "/coffees/" ++ id ∧
     ∃ n b p s f r d sv rv,
       name = FormString n ∧ brand = FormString b ∧ preparation = FormString p ∧
       shots = FormString s ∧ flavor = FormString f ∧ rating = FormString r ∧
       description = FormString d ∧
       n ≠ EmptyString ∧ b ≠ EmptyString ∧ p ≠ EmptyString ∧ f ≠ EmptyString ∧
       d ≠ EmptyString ∧ parseInt10 s = Some sv ∧ parseInt10 r = Some rv ∧
       coffees db' = (coffees db ++ [mkCoffee id n b p sv f rv d stamp stamp userId])%list ∧
       users db' = users db ∧ passwords db' = passwords db ∧
       passwordResets db' = passwordResets db ∧
       emailConfirmations db' = emailConfirmations db ∧
       Inv db' ∧
       getCoffee id userId db'
         = (Ok (Some (mkCoffee id n b p sv f rv d stamp stamp userId)), db')) ∧
  (∀ n b p s f r d sv rv u,
     name = FormString n → brand = FormString b → preparation = FormString p →
     shots = FormString s → flavor = FormString f → rating = FormString r →
     description = FormString d →
     n ≠ EmptyString → b ≠ EmptyString → p ≠ EmptyString → f ≠ EmptyString →
     d ≠ EmptyString → parseInt10 s = Some sv → parseInt10 r = Some rv →
     (∀ c, c ∈ coffees db → coffee_id c ≠ id) → u ∈ users db → user_id u = userId →
     ∃ db',
       NewCoffeeRoute.action userId name brand preparation shots flavor rating
         description id stamp db = (Ok (redirect ("/coffees/" ++ id)), db')) ∧
  (∀ err db',
     NewCoffeeRoute.action userId name brand preparation shots flavor rating
       description id stamp db = (Throw err, db') →
     db' = db ∧
     ((err = UniqueConstraintFailed ∧ ∃ c, c ∈ coffees db ∧ coffee_id c = id) ∨
      (err = RecordNotFound ∧ ∀ u, u ∈ users db → user_id u ≠ userId))).
Proof.
  intros HI _ _. unfold NewCoffeeRoute.action.
  destruct (NewCoffeeRoute.hasErrors _) eqn:Herr.
  { split_and!.
    - by intros ??? [= <- <- <-].
    - intros ?? [=].
    - intros n b p s f r d sv rv u -> -> -> -> -> -> -> ????????? .
      assert (Hpass : NewCoffeeRoute.hasErrors
                (NewCoffeeRoute.errors (FormString n) (FormString b) (FormString p)
                   (FormString s) (FormString f) (FormString r) (FormString d))
              = false).
      { apply form_passes. exists n, b, p, s, f, r, d, sv, rv. by split_and!. }
      congruence.
    - intros ?? [=]. }
  apply form_passes in Herr
    as (n & b & p & s & f & r & d & sv & rv & -> & -> & -> & -> & -> & -> & ->
        & Hn & Hb & Hp & Hf & Hd & Hs & Hr).
  rewrite Hs, Hr. unfold bind, createCoffee.
  pose proof (preserves_coffee_create id stamp
                (mkCoffeeData n b p sv f rv d) userId db HI) as HI'.
  destruct (coffee_create_cases id stamp (mkCoffeeData n b p sv f rv d) userId db)
    as [[Htaken E]|[(Hfresh & Hnouser & E)|(Hfresh & Huser & E)]];
    rewrite E in *; simpl in *.
  - split_and!.
    + intros ??? [=].
    + intros ?? [=].
    + intros ?????????? _ _ _ _ _ _ _ _ _ _ _ _ _ _ Hnew _ _.
      destruct Htaken as (c & Hc & Hid). by destruct (Hnew c Hc).
    + intros ?? [= <- <-]. split; [done|]. by left.
  - split_and!.
    + intros ??? [=].
    + intros ?? [=].
    + intros ????????? u _ _ _ _ _ _ _ _ _ _ _ _ _ _ _ Hu Hid.
      by destruct (Hnouser u Hu).
    + intros ?? [= <- <-]. split; [done|]. by right.
  - split_and!.
    + intros ??? [=].
    + intros url db' [= <- <-]. split; [done|].
      exists n, b, p, s, f, r, d, sv, rv. split_and!; try done.
      set (c := mkCoffee id n b p sv f rv d stamp stamp userId) in *.
      change (getCoffee (coffee_id c) (coffee_userId c)
                (set_coffees (coffees db ++ [c]) db)
              = (Ok (Some c), set_coffees (coffees db ++ [c]) db)).
      unfold getCoffee, coffee_findFirst, gets.
      rewrite (owner_row _ c (proj1 HI')); [done|].
      simpl. rewrite elem_of_app. right. left.
    + intros. by eexists.
    + intros ?? [=].
Qed.

Lemma new_coffee_action_outcomes_witness :
  (∃ db',
     NewCoffeeRoute.action "u2" (FormString "Kenya") (FormString "AA")
       (FormString "V60") (FormString " 2 shots") (FormString "bright")
       (FormString "11 of 5") (FormString "good") "c3" 700 sample_db
     = (Ok (redirect "/coffees/c3"), db') ∧
     coffees db'
       = (coffees sample_db ++
            [mkCoffee "c3" "Kenya" "AA" "V60" 2 "bright" 11 "good" 700 700 "u2"])%list) ∧
  ∀ body status db',
    NewCoffeeRoute.action "u2" (FormString "Kenya") (FormString "AA")
      (FormString "V60") (FormString "two") (FormString "bright")
      (FormString "5") (FormString "good") "c3" 700 sample_db
    = (Ok (json body status), db') →
    status = 400 ∧ db' = sample_db.
Proof.
  assert (HI : Inv sample_db) by by_decision.
  split.
  - destruct (new_coffee_action_outcomes "u2" (FormString "Kenya") (FormString "AA")
                (FormString "V60") (FormString " 2 shots") (FormString "bright")
                (FormString "11 of 5") (FormString "good") "c3" 700 sample_db HI
                ltac:(read_number) ltac:(read_number))
      as (_ & Hredirect & Hopen & _).
    destruct (Hopen "Kenya" "AA" "V60" " 2 shots" "bright" "11 of 5" "good" 2 11 bob)
      as (db' & Hact); try done.
    { intros c Hc. each_row Hc; discriminate. }
    { row_in. }
    exists db'. split; [exact Hact|].
    destruct (Hredirect _ _ Hact)
      as (_ & n & b & p & s & f & r & d & sv & rv & [= <-] & [= <-] & [= <-]
          & [= <-] & [= <-] & [= <-] & [= <-] & _ & _ & _ & _ & _ & Hs & Hr & Hrows & _).
    rewrite Hrows. vm_compute in Hs, Hr. by injection Hs as <-; injection Hr as <-.
  - destruct (new_coffee_action_outcomes "u2" (FormString "Kenya") (FormString "AA")
                (FormString "V60") (FormString "two") (FormString "bright")
                (FormString "5") (FormString "good") "c3" 700 sample_db HI
                ltac:(read_number) ltac:(read_number))
      as (Hjson & _).
    intros body status db' E. by destruct (Hjson body status db' E) as (? & ? & _).
Defined.

(** The page of one coffee, on a store that meets the invariants, for shots
    and rating that fit the Int columns wherever they parse.  The loader
    answers with a row exactly when the store has it under the requested id
    with the signed-in user as owner, and with Not Found otherwise, for a row
    of another user as for no row; it writes nothing.  Whatever the action
    is sent and however it ends, the rows that are not the signed-in user's
    row of that id are the same before and after, the other tables are
    untouched and the invariants hold.  The intent delete is always answered
    by the redirect to the list, whether a row was removed or not, and the
    loader finds nothing afterwards.  Any other intent is an update: a field
    that is not text gives status 400 and writes nothing; with seven texts
    and two numbers that parse, the owner's row takes the new data, empty
    texts included, and the loader shows it afterwards with its createdAt
    kept, while for a row of another user or no row the update throws
    record-not-found and writes nothing. *)
Theorem coffee_page_outcomes (userId coffeeId : string)
    (intent name brand preparation shots flavor rating description : FormDataEntry)
    (stamp : Z) (db : DB) :
  Inv db → reads_Int shots → reads_Int rating →
  let mine := λ x : Coffee, coffee_id x = coffeeId ∧ coffee_userId x = userId in
  let act := CoffeeDetailRoute.action userId coffeeId intent name brand
               preparation shots flavor rating description stamp in
  (∃ r, CoffeeDetailRoute.loader userId coffeeId db = (Ok r, db) ∧
        (∀ c, r = CoffeeDetailRoute.coffee_data c ↔ c ∈ coffees db ∧ mine c) ∧
        (r = CoffeeDetailRoute.Not_Found ↔ ∀ x, x ∈ coffees db → ¬ mine x)) ∧
  (∀ r db', act db = (r, db') →
     (∀ x, ¬ mine x → x ∈ coffees db' ↔ x ∈ coffees db) ∧
     users db' = users db ∧ passwords db' = passwords db ∧
     passwordResets db' = passwordResets db ∧
     emailConfirmations db' = emailConfirmations db ∧
     Inv db') ∧
  (intent = FormString "delete" →
     ∃ db', act db = (Ok (redirect "/coffees"), db') ∧
       coffees db' = filter (λ x, ¬ mine x) (coffees db) ∧
       CoffeeDetailRoute.loader userId coffeeId db'
         = (Ok CoffeeDetailRoute.Not_Found, db') ∧
       ((∀ x, x ∈ coffees db → ¬ mine x) → db' = db)) ∧
  (intent ≠ FormString "delete" →
   forallb is_text [name; brand; preparation; shots; flavor; rating; description]
     = false →
     act db
     = (Ok (json [("errors.form", JString "Form not submitted correctly.")] 400),
        db)) ∧
  (intent ≠ FormString "delete" →
   ∀ n b p s f r d sv rv,
     name = FormString n → brand = FormString b → preparation = FormString p →
     shots = FormString s → flavor = FormString f → rating = FormString r →
     description = FormString d →
     parseInt10 s = Some sv → parseInt10 r = Some rv →
     (∀ c, c ∈ coffees db → mine c →
        ∃ db', act db = (Ok (json [("success", JBool true)] 200), db') ∧
          length (coffees db') = length (coffees db) ∧
          CoffeeDetailRoute.loader userId coffeeId db'
          = (Ok (CoffeeDetailRoute.coffee_data
                   (mkCoffee coffeeId n b p sv f rv d (coffee_createdAt c) stamp
                      userId)), db')) ∧
     ((∀ x, x ∈ coffees db → ¬ mine x) → act db = (Throw RecordNotFound, db))).
Proof.
  intros HI _ _ mine act. pose proof HI as [Hc Hacc].
  assert (Hload : ∀ db0 c, Consistent db0 → c ∈ coffees db0 → mine c →
            CoffeeDetailRoute.loader userId coffeeId db0
            = (Ok (CoffeeDetailRoute.coffee_data c), db0)).
  { intros db0 c Hc0 Hin [<- <-].
    unfold CoffeeDetailRoute.loader, bind, getCoffee, coffee_findFirst, gets.
    by rewrite (owner_row db0 c Hc0 Hin). }
  assert (Hnone : ∀ db0, (∀ x, x ∈ coffees db0 → ¬ mine x) →
            CoffeeDetailRoute.loader userId coffeeId db0
            = (Ok CoffeeDetailRoute.Not_Found, db0)).
  { intros db0 Hno. unfold CoffeeDetailRoute.loader, bind.
    by rewrite (get_nothing db0 coffeeId userId Hno). }
  assert (Hdel : ∀ db', deleteCoffee coffeeId userId db = (Ok (Z.of_nat (length (filter mine (coffees db)))), db') →
            coffees db' = filter (λ x, ¬ mine x) (coffees db)).
  { intros db'. unfold deleteCoffee, coffee_deleteMany. by intros [= <-]. }
  split_and!.
  - destruct (own_row_cases db coffeeId userId Hc)
      as [(c & Hin & Hid & Huid & _)|[Hno _]].
    + exists (CoffeeDetailRoute.coffee_data c).
      split; [by apply Hload|]. split.
      * intros c'. split.
        -- by intros [= <-].
        -- intros [Hin' [Hid' Huid']]. f_equal.
           pose proof Hc as (_ & _ & _ & _ & Hpk & _).
           apply (unique_column coffee_id (coffees db)); try done. congruence.
      * split; [done|]. intros Hno. by destruct (Hno c Hin).
    + exists CoffeeDetailRoute.Not_Found. split; [by apply Hnone|]. split.
      * intros c. split; [done|]. intros [Hin Hm]. by destruct (Hno c Hin).
      * done.
  - intros r db'. unfold act, CoffeeDetailRoute.action.
    assert (Hsame : ∀ r0 : result Reply, (r0, db) = (r, db') →
              (∀ x, ¬ mine x → x ∈ coffees db' ↔ x ∈ coffees db) ∧
              users db' = users db ∧ passwords db' = passwords db ∧
              passwordResets db' = passwordResets db ∧
              emailConfirmations db' = emailConfirmations db ∧ Inv db').
    { by intros r0 [= _ <-]. }
    destruct (bool_decide _).
    { unfold bind, deleteCoffee.
      pose proof (preserves_coffee_deleteMany coffeeId userId db HI) as HI'.
      unfold coffee_deleteMany in *. simpl in *. intros [= _ <-].
      split_and!; try done. intros x Hx. unfold mine in Hx. simpl.
      rewrite list_elem_of_filter. tauto. }
    destruct name, brand, preparation, shots, flavor, rating, description;
      try by apply Hsame.
    destruct (parseInt10 s2) as [sv|]; [|by apply Hsame].
    destruct (parseInt10 s4) as [rv|]; [|by apply Hsame].
    unfold bind, updateCoffee.
    pose proof (preserves_coffee_update coffeeId userId
                  (mkCoffeeData s s0 s1 sv s3 rv s5) stamp db HI) as HI'.
    unfold coffee_update in *.
    destruct (head _); [|by apply Hsame].
    simpl in *. intros [= _ <-]. split_and!; try done.
    intros x Hx. unfold mine in Hx. simpl. rewrite list_elem_of_fmap. split.
    + intros (y & -> & Hy). destruct (decide _) as [Hm|Hm]; [|done].
      destruct Hx. by destruct Hm.
    + intros Hin. exists x. split; [|done]. by rewrite decide_False.
  - intros ->. unfold act, CoffeeDetailRoute.action.
    rewrite bool_decide_eq_true_2 by done.
    unfold bind, deleteCoffee, coffee_deleteMany.
    eexists. split; [reflexivity|]. split; [done|]. split.
    + apply Hnone. intros x Hx. simpl in Hx.
      by apply list_elem_of_filter in Hx as [? _].
    + intros Hno. simpl. rewrite filter_all by done. apply set_coffees_same.
  - intros Hint Htext. unfold act, CoffeeDetailRoute.action.
    rewrite bool_decide_eq_false_2 by done.
    by destruct name, brand, preparation, shots, flavor, rating, description.
  - intros Hint n b p s f r d sv rv -> -> -> -> -> -> -> Hs Hr.
    unfold act, CoffeeDetailRoute.action.
    rewrite bool_decide_eq_false_2 by done. rewrite Hs, Hr. unfold bind. split.
    + intros c Hin [<- <-].
      set (data := mkCoffeeData n b p sv f rv d).
      set (upd := λ x : Coffee,
             if decide (coffee_id x = coffee_id c ∧ coffee_userId x = coffee_userId c)
             then apply_data data stamp x else x).
      assert (Hupd : updateCoffee (coffee_id c) data (coffee_userId c) stamp db
                     = (Ok (apply_data data stamp c),
                        set_coffees (upd <$> coffees db) db)).
      { unfold updateCoffee, coffee_update. by rewrite (owner_row db c Hc Hin). }
      rewrite Hupd. set (db' := set_coffees _ db).
      assert (HI' : Inv db').
      { pose proof (preserves_coffee_update (coffee_id c) (coffee_userId c) data
                      stamp db HI) as H'.
        unfold updateCoffee in Hupd. by rewrite Hupd in H'. }
      exists db'. split; [done|]. split; [simpl; by rewrite length_fmap|].
      apply (Hload db' (apply_data data stamp c) (proj1 HI')); [|done].
      simpl. apply list_elem_of_fmap. exists c. split; [|done].
      unfold upd. by rewrite decide_True.
    + intros Hno. by rewrite (update_nothing db coffeeId userId _ stamp Hno).
Qed.

Lemma coffee_page_outcomes_witness :
  CoffeeDetailRoute.loader "u2" "c1" sample_db
    = (Ok CoffeeDetailRoute.Not_Found, sample_db) ∧
  CoffeeDetailRoute.action "u2" "c1" (FormString "delete") FormNull FormNull
    FormNull FormNull FormNull FormNull FormNull 900 sample_db
    = (Ok (redirect "/coffees"), sample_db) ∧
  CoffeeDetailRoute.action "u2" "c1" FormNull (FormString "Mine") (FormString "now")
    (FormString "Moka") (FormString "1") (FormString "burnt") (FormString "1")
    (FormString "taken") 900 sample_db
    = (Throw RecordNotFound, sample_db) ∧
  ∃ db',
    CoffeeDetailRoute.action "u1" "c1" FormNull (FormString "House")
      (FormString "Blend") (FormString "Espresso") (FormString "3") (FormString "nutty")
      (FormString "5 stars") (FormString "better") 900 sample_db
    = (Ok (json [("success", JBool true)] 200), db') ∧
    CoffeeDetailRoute.loader "u1" "c1" db'
    = (Ok (CoffeeDetailRoute.coffee_data
             (mkCoffee "c1" "House" "Blend" "Espresso" 3 "nutty" 5 "better" 500
                900 "u1")), db').
Proof.
  assert (HI : Inv sample_db) by by_decision.
  assert (Hother : ∀ x, x ∈ coffees sample_db →
            ¬ (coffee_id x = "c1" ∧ coffee_userId x = "u2")).
  { intros x Hx [? ?]. each_row Hx; discriminate. }
  split_and!.
  - destruct (coffee_page_outcomes "u2" "c1" FormNull FormNull FormNull FormNull
                FormNull FormNull FormNull FormNull 900 sample_db HI
                ltac:(read_number) ltac:(read_number))
      as ((r & Hload & _ & Hnone) & _).
    rewrite Hload. f_equal. f_equal. by apply Hnone.
  - destruct (coffee_page_outcomes "u2" "c1" (FormString "delete") FormNull
                FormNull FormNull FormNull FormNull FormNull FormNull 900
                sample_db HI ltac:(read_number) ltac:(read_number))
      as (_ & _ & Hdelete & _).
    destruct (Hdelete eq_refl) as (db' & Hact & _ & _ & Hsame).
    by rewrite <- (Hsame Hother) at 2.
  - destruct (coffee_page_outcomes "u2" "c1" FormNull (FormString "Mine")
                (FormString "now") (FormString "Moka") (FormString "1")
                (FormString "burnt") (FormString "1") (FormString "taken") 900
                sample_db HI ltac:(read_number) ltac:(read_number))
      as (_ & _ & _ & _ & Hupdate).
    by apply (Hupdate ltac:(discriminate) "Mine" "now" "Moka" "1" "burnt" "1"
                "taken" 1 1).
  - destruct (coffee_page_outcomes "u1" "c1" FormNull (FormString "House")
                (FormString "Blend") (FormString "Espresso") (FormString "3")
                (FormString "nutty") (FormString "5 stars") (FormString "better")
                900 sample_db HI ltac:(read_number) ltac:(read_number))
      as (_ & _ & _ & _ & Hupdate).
    destruct (Hupdate ltac:(discriminate) "House" "Blend" "Espresso" "3" "nutty"
                "5 stars" "better" 3 5 eq_refl eq_refl eq_refl eq_refl eq_refl
                eq_refl eq_refl eq_refl eq_refl) as [Hown _].
    destruct (Hown flat_white ltac:(row_in) ltac:(done)) as (db' & Hact & _ & Hshow).
    by exists db'.
Defined.

End CoffeeRouteExtras.
